(* ===== verification/_CoqProject ===== *)
-Q . S2P
Prelude.v
Bytes.v
Honey.v
Corepb.v
Pagination.v
Rows.v
QueuesTables.v
QueuesCore.v
QueuesView.v
QueuesInv.v
QueuesSpec.v
QueuesOps.v
QueuesSwap.v
QueuesGC.v
QueuesSystem.v
QueuesExamples.v
QueuesProps.v
TasksTables.v
TasksCore.v
TasksKeys.v
TasksView.v
TasksInv.v
TasksThreads.v
TasksLifecycle.v
TasksCounts.v
TasksOps.v
TasksEnqueue.v
TasksDequeue.v
TasksHandlers.v
TasksGC.v
TasksList.v
TasksSystem.v
TasksExamples.v
TasksProps.v
TasksFindings.v
Ids.v
GoStd.v
CoreValidators.v
Sharding.v
Stub.v
CommandLine.v
Front.v
FrontValidators.v
LoadGenerator.v
LoadPool.v
Gateway.v
GatewayWorld.v
StubLemmas.v
GatewayProofs.v
GatewayProps.v
LoadGeneratorProps.v
LoadSetup.v
ValidationProps.v
RoutingProps.v
GatewayExamples.v
LoadWitnesses.v
GatewayWitnesses.v
Workers.v
WorkersProps.v
WorkersWitnesses.v
Snapshots.v
QueuesSnapshot.v
CoreApi.v
Protowire.v
ProtowireProps.v
Codecs.v
Messages.v
MessagesProps.v
Adapters.v
Types.v
TasksSnapshot.v
SnapshotProps.v
TasksTypes.v
QueuesTypes.v
ProtowireTypes.v
TypesProps.v
Cluster.v
ClusterProofs.v
ClusterProps.v
ClusterWitnesses.v
