(* ===== verification/Prelude.v ===== *)
(** * Moab: a verification library

    Moab is a task-queue service.  A node holds replicas of two kinds of application
    cores over a sorted key-value store: a _tasks core_ (src/pkg/tasks) owns the tasks,
    threads, counters, cursors, rate limiters and purge markers of a shard, and a _queues
    core_ (src/pkg/queues) owns its queues, their cron schedules and what is left of deleted
    queues.  A gateway (src/pkg/server) turns API calls into core calls, and workers
    (src/pkg/workers) run the collectors and the cron loop.  Every core call runs in one
    store transaction that is committed on success and discarded on an error.

    ** How the code is modelled

    A core call is a computation of the state and error monad [M] of this file over the
    transaction's view of the store ([TasksTables.Txn], [QueuesTables.QTxn]); [rpc] is the
    commit or the discard.  An application error is a value of the response ([Response],
    [QResponse]); a Go error or a run-time panic is [Fail].  Integers are [Z] with the
    wrap-around of their Go type written out ([i64], [u64]); strings and byte slices are
    lists of byte values ([Bytes]); a nil-able pointer is an [option].

    Code that is not part of the repository is a parameter: the store's tables and indexes
    ([Honey.Honey], laws [HoneyOk]), the byte helpers ([Bytes.Utils], laws [UtilsOk]) and
    the cron library with the time-zone database ([QueuesCore.CronLib], laws [CronOk] and
    [CronSeconds]), the snapshot stream ([Snapshots.Snapshots], laws [SnapshotsOk]); around
    the gateway, base62 ([Base62]), the shard hash ([Keyspace]), the pagination token codec
    ([TokenCodec]), the queue cache ([QueuesCache]) and the cron syntax check ([Gronx]);
    between nodes, the helpers the generated protobuf code calls ([Protowire.Protohelpers]:
    the varint writer, its size and the skipping of an unknown field), the envelope of a call
    ([Adapters.Mrpc]) and the client of the cluster ([Cluster.MonsteraClient], law
    [ClusterProofs.MonsteraClientOk]: a call reaches the adapter of the shard that owns its
    key, or fails with a client error after running at most once; delivery is Monstera's
    contract and is not derived here); around the load generator, the API client
    ([LoadGenerator.MoabApi]) and its errors ([LoadGenerator.Evrblk]); around the commands,
    whether the libraries' stop calls and [Serve] return ([CommandLine.Shutdown], laws
    [ShutdownOk]). Each has a reference instance ([honey_ref], [utils_ref], ...)
    that satisfies the laws and runs the examples.

    The gateway and the workers call the cores through a client interface, the class
    [Stub.MoabClientApi]; [Stub.MoabNonclusteredStub] implements it over the shards of one
    process, whose state is [Stub.World]: the cores of each application, the clock, the
    random numbers, and a gateway's own cache.  Each call takes a shard's lock, so a run is a
    sequence of calls.

    ** Files

    - [Prelude], [Bytes], [Honey], [Rows]: integers, the monad and its total-correctness
      triple [wp], big-endian encodings and their order, the store interface, tables with
      secondary indexes.
    - [Corepb], [Pagination]: the messages of src/pkg/corepb and the helpers of
      src/pkg/pagination.
    - [QueuesTables], [QueuesCore]: src/pkg/queues, one definition per method.
    - [QueuesView], [QueuesInv], [QueuesSpec], [QueuesOps], [QueuesSwap], [QueuesGC]: what a
      queues core holds ([QView]), its invariant [QInv], the index-free specification of its
      handlers, the refinement proofs, the page walk of [SwapQueueId], the collector and the
      due index.
    - [QueuesSystem], [QueuesExamples], [QueuesProps]: the transition system of calls, a
      concrete run, and the properties.
    - [TasksTables], [TasksCore]: src/pkg/tasks, one definition per method.
    - [TasksKeys], [TasksView], [TasksInv], [TasksThreads], [TasksLifecycle], [TasksCounts]:
      key layouts, what a tasks core holds ([View]), its invariant [Inv], thread heads, the
      life of one task, the gauges.
    - [TasksOps], [TasksEnqueue], [TasksDequeue], [TasksHandlers], [TasksGC], [TasksList]:
      the handlers against their contracts.
    - [TasksSystem], [TasksExamples], [TasksProps], [TasksFindings]: the transition system of
      calls, a concrete run, the properties, and the behaviours its premises exclude.
    - [Ids], [CoreValidators], [Sharding]: src/pkg/ids, src/pkg/corepb/validators.go and
      sharding.go with src/pkg/sharding.
    - [Stub]: the client interface of src/pkg/coreapis/api.go and the single-node stub of
      stubs.go.
    - [Front], [FrontValidators], [Gateway], [GatewayWorld]: src/pkg/server/v0 (pbconv.go,
      validators.go, handler.go, server.go and vtproto.go) and src/pkg/moab/limits.go; the
      gateway in its world.
    - [StubLemmas], [GatewayProofs]: shard search, and calls of the stub against the contracts
      of the cores they reach.
    - [GatewayProps], [ValidationProps], [RoutingProps], [GatewayExamples],
      [GatewayWitnesses]: end-to-end properties of API calls, validation,
      ids and shards, on concrete worlds, and what a stale cache can do.
    - [Workers], [WorkersProps], [WorkersWitnesses]: src/pkg/workers, the ticks of a schedule
      and the end of a run.
    - [Snapshots], [QueuesSnapshot], [TasksSnapshot], [SnapshotProps]: the snapshot methods of
      both cores and of their tables, the rebuilding of tables and indexes, and what a restored
      core holds.
    - [Protowire], [ProtowireProps], [Codecs], [Messages], [MessagesProps]: the wire format as
      the generated code of src/pkg/corepb writes and reads it (files _vtproto.pb.go), a codec per
      message built from its fields, the table of marshal_gen.go, and the round trips.
    - [CoreApi], [Adapters], [Cluster]: the core interfaces of api.go, validation.go,
      adapters.go and the cluster stub of stubs.go (src/pkg/coreapis).
    - [Types], [TasksTypes], [QueuesTypes], [ProtowireTypes], [TypesProps]: a logic of typed
      stores (numbers at their Go widths, strings of bytes), both cores and the decoder in it.
    - [ClusterProofs], [ClusterProps], [ClusterWitnesses]: a call through the
      cluster against the same call in one process, a reference encoding and client, an
      example.
    - [GoStd]: what is used of Go's errors, strings, fmt, time, math/rand and float64.
    - [CommandLine]: src/cmd/moab/commands: the flags, and the four commands as processes of
      two goroutines, with signals and failures.
    - [LoadGenerator], [LoadPool], [LoadGeneratorProps], [LoadSetup], [LoadWitnesses]:
      src/tools/dev/load-generator, pools of goroutines under every schedule, the generator's
      requests against the gateway's validators, the set-up of its queues through the
      gateway.

    ** What the theorems show

    Both cores keep an invariant over every sequence of admissible calls: each index is the
    exact image of the rows it covers and each counter counts rows.  On the stores these
    calls reach, the calls return (no missing row, nil dereference, division by zero or exhausted loop
    bound), and each handler does what an abstract description says: [Enqueue] and the
    handlers of the queues core refine executable specifications on the primary tables;
    [Dequeue] hands out due tasks in order within its limits; failed tasks meet one of four
    fates; listings show every row once; collectors remove only what they may, within their
    budget, and drain.  Threads run one task at a time, dedupe keys are held once and
    attempts are bounded.  None of this holds for every call the code accepts: see below
    for what admissible leaves out.

    Above the cores: a purge moves the name to a fresh id and closes the old one, a gateway
    with a stale cache ends up at the live id while the purge marker is there, ids of
    queues collide without harm, and a created queue
    reads back as sent.  The two validators agree, so what the gateway accepts the client
    interface accepts, stored settings stay within their limits and times do not overflow.
    Every key has one shard, ids survive their text form.  The cron worker sends one entry
    for each tick of its window and leaves no schedule of the shard due; the collection workers
    do the same under every schedule of their goroutines.  A core restored from a snapshot
    holds the rows of its own shard, with every index rebuilt; a tasks core on two provisos
    about dead and running tasks, both of which the code needs.  Every call through
    the cluster stub and an adapter ends as the same call in one process does, when the stores
    hold Go values and the encodings fit a slice.

    Below them: every message reads back from its bytes, decoding ends on every input, and
    whatever bytes the adapters are given, the rows of both cores stay Go values (which
    shows that the model's integers keep their widths).  Around them: a node and a background
    worker that are told to stop do so, after everything they had started, in the order of
    the code.  Beside them: a validated load test sends only requests the gateway accepts and
    counts the answers it got, and its set-up ends under every interleaving, without a
    deadlock, with every queue there or an error.

    [TasksSystem.admissible] and [QueuesSystem.qadmissible] list what a call may assume: the
    widths of its Go types, ids left in a queue's sequence, a rate limit with a refill
    interval, and conditions on the store that the code does not check.  For the tasks core:
    no [Enqueue] overwrites the scheduled time of a task in a thread, no [Dequeue] meets an
    expired live task in a thread of its queue, and no [Dequeue] or [ReportStatus] meets a
    running task in a thread one of whose retry intervals ends exactly at its scheduled time.
    For the queues core: no queue is created under, or swapped to, an id whose deleted queue
    awaits collection.  [TasksFindings] and [QueuesProps.QueuesFindings] show by evaluation
    that the conditions are needed: without them the code misbehaves.
    [GatewayWitnesses.GatewayFindings] and [WorkersWitnesses.WorkerFindings] do the same above the cores,
    [SnapshotProps.SnapshotFindings] for the snapshots of a tasks core,
    [CommandLine.CommandRuns] for the ends of the commands, and
    [LoadWitnesses.LoadFindings] for what the load generator lets through.

    ** Loops

    Go loops over a slice are structural recursion.  The three loops that are not bounded
    by a slice take fuel: the pages of one purge marker and the expiration sweep get one
    more unit than there are rows (each iteration removes a row or stops), and the page walk
    of [SwapQueueId] one more than there are schedules.  [ErrOutOfFuel] is never returned on
    a reachable store ([TasksProps.reachable_call_returns],
    [QueuesProps.SwapQueueId_refines_spec]).  The two loops of the cron worker take bounds
    of their own and answer [OutOfFuel] beyond them: the seconds of the window plus two are
    enough ticks ([WorkersProps.cron_visit_sends_each_tick]) and one round more than there are due
    schedules is enough rounds ([WorkersProps.fetch_leaves_nothing_due]).  The loops of the
    decoder are bounded by the bytes of the input, those over a varint by its ten bytes, and
    report running out as an error of their own, which never happens
    ([MessagesProps.decoding_ends]).  The processes of [CommandLine] have at most forty moves
    in any execution, which the exploration behind its theorems checks.

    ** Not modelled

    Logging and metrics; the descriptors, reflection and getters of the generated messages
    (src/pkg/corepb/*.pb.go), the unknown fields a message may carry and the debug
    information of a task; a message whose nested id is absent, which Go decodes to a nil
    pointer and the codecs of [Messages] refuse where the model has no pointer; the Raft log
    index and idempotency tokens of a call; the schedules
    of the goroutines of the cron worker, whose shards share tasks cores.  Libraries are named
    where the code uses them: the interval worker behind the workers, the consumer loop of the
    client library, cobra, and the sockets, stores and Monstera nodes that the commands open. *)

From stdpp Require Export base numbers list gmap sorting.
From Stdlib Require Export ZArith Lia.

#[global] Open Scope Z_scope.

(** ** Machine integers

    Go's [int64], [int32] and [uint64] are modelled by [Z] with the
    wrap-around written out at every arithmetic operation that can leave the
    width. *)

Definition two64 : Z := 2 ^ 64.
Definition two63 : Z := 2 ^ 63.

(** [uint64] conversion / wrap-around. *)
Definition u64 (z : Z) : Z := z mod two64.

(** [int64] conversion / wrap-around (two's complement). *)
Definition i64 (z : Z) : Z := (z + two63) mod two64 - two63.

(** [int32] conversion / wrap-around. *)
Definition i32 (z : Z) : Z := (z + 2 ^ 31) mod 2 ^ 32 - 2 ^ 31.

Definition is_u64 (z : Z) : Prop := 0 <= z < two64.
Definition is_i64 (z : Z) : Prop := - two63 <= z < two63.

#[export] Instance is_u64_dec z : Decision (is_u64 z).
Proof. unfold is_u64. apply _. Defined.
#[export] Instance is_i64_dec z : Decision (is_i64 z).
Proof. unfold is_i64. apply _. Defined.

Lemma two64_val : two64 = 18446744073709551616. Proof. reflexivity. Qed.
Lemma two63_val : two63 = 9223372036854775808. Proof. reflexivity. Qed.

Lemma is_u64_0 : is_u64 0.
Proof. by split. Qed.

Lemma is_u64_u64 z : is_u64 (u64 z).
Proof. unfold is_u64, u64. apply Z.mod_pos_bound. reflexivity. Qed.

Lemma u64_id z : is_u64 z -> u64 z = z.
Proof. apply Z.mod_small. Qed.

Lemma is_i64_i64 z : is_i64 (i64 z).
Proof.
  unfold is_i64, i64.
  pose proof (Z.mod_pos_bound (z + two63) two64 eq_refl) as H.
  rewrite two64_val, two63_val in *. lia.
Qed.

Lemma i64_id z : is_i64 z -> i64 z = z.
Proof.
  unfold is_i64, i64. intros H.
  rewrite Z.mod_small; rewrite ?two64_val, ?two63_val in *; lia.
Qed.

Lemma i32_id z : - 2 ^ 31 <= z < 2 ^ 31 -> i32 z = z.
Proof. unfold i32. intros Hz. rewrite Z.mod_small; lia. Qed.

Lemma i64_i64_add a b : i64 (i64 a + b) = i64 (a + b).
Proof.
  unfold i64. f_equal.
  replace ((a + two63) mod two64 - two63 + b + two63)
    with ((a + two63) mod two64 + b) by lia.
  rewrite Zplus_mod_idemp_l. f_equal. lia.
Qed.

Lemma i64_i64_add_r a b : i64 (a + i64 b) = i64 (a + b).
Proof. rewrite Z.add_comm, i64_i64_add. f_equal. lia. Qed.

Lemma i64_i64_sub a b : i64 (i64 a - b) = i64 (a - b).
Proof. apply i64_i64_add. Qed.

(** Incrementing always changes a counter, even when it wraps around. *)
Lemma i64_succ_ne w : i64 (w + 1) <> w.
Proof.
  unfold i64. rewrite two64_val, two63_val. intros E.
  pose proof (Z.div_mod (w + 1 + 9223372036854775808) 18446744073709551616 ltac:(lia)). lia.
Qed.

(** The [uint64] reading of an [int64] determines it. *)
Lemma u64_inj_i64 a b : is_i64 a -> is_i64 b -> u64 a = u64 b -> a = b.
Proof.
  unfold is_i64, u64. rewrite two63_val, two64_val. intros Ha Hb H.
  pose proof (Z.div_mod a 18446744073709551616 ltac:(lia)).
  pose proof (Z.div_mod b 18446744073709551616 ltac:(lia)).
  pose proof (Z.mod_pos_bound a 18446744073709551616 ltac:(lia)).
  lia.
Qed.

#[export] Hint Resolve is_u64_u64 is_i64_i64 : core.

Lemma i64_u64 t : is_i64 t -> i64 (u64 t) = t.
Proof.
  intros Ht. apply u64_inj_i64; [auto..|].
  unfold i64, u64. rewrite Zminus_mod, Zmod_mod, <-Zminus_mod.
  replace (t mod two64 + two63 - two63) with (t mod two64) by lia. by rewrite Zmod_mod.
Qed.

(** [width] closes the range side conditions of the integer lemmas. *)
Create HintDb width.
#[export] Hint Resolve is_u64_u64 is_i64_i64 is_u64_0 : width.
#[export] Hint Rewrite i64_i64_add i64_i64_add_r i64_i64_sub : width.

(** Nanoseconds: [time.Second], [time.Minute], [time.Hour]. *)
Definition time_Second : Z := 1000000000.
Definition time_Minute : Z := 60 * time_Second.
Definition time_Hour : Z := 60 * time_Minute.

(** ** Results and the transaction monad

    A core method runs inside one store transaction: it threads the
    transaction's view of the store and either finishes or fails with a Go
    [error] (or a run-time panic).  [M S A] is that computation over a store
    type [S]. *)

Inductive Panic : Set :=
  | NilDereference
  | IndexOutOfRange
  | DivideByZero
  | UnknownIntervalUnit
  | NonPositiveArgument    (** [rand.Intn] of no choice, [time.NewTicker] of no time *)
  | NegativeSize.          (** [make] of a negative size *)

Inductive Err : Set :=
  | ErrNotFound            (** [store.ErrNotFound], possibly wrapped by [%w] *)
  | ErrNotThreadHead       (** "in progress task is not the head of its thread" *)
  | ErrUnknownTaskState    (** "unknown task state" *)
  | ErrBadKeyLength        (** a snapshot key of the wrong width *)
  | ErrUnmarshal           (** a snapshot value of another type *)
  | ErrMarshal             (** a message that cannot be encoded *)
  | ErrRoutingViolation    (** a key outside the bounds of the shard *)
  | ErrNoHandler           (** a method number no handler has *)
  | ErrUnknownSection      (** a snapshot section no table reads *)
  | ErrCron                (** [gronx] or [time.LoadLocation] rejected its input *)
  | ErrOutOfFuel           (** a loop bound of the model was exceeded *)
  | ErrPanic (p : Panic).

#[export] Instance Panic_eq_dec : EqDecision Panic.
Proof. solve_decision. Defined.
#[export] Instance Err_eq_dec : EqDecision Err.
Proof. solve_decision. Defined.

Inductive Res (A : Type) : Type :=
  | Ok (a : A)
  | Fail (e : Err).
Arguments Ok {A} _.
Arguments Fail {A} _.

Definition M (S A : Type) : Type := S -> Res (A * S).

#[export] Instance M_ret S : MRet (M S) := fun A a s => Ok (a, s).
#[export] Instance M_bind S : MBind (M S) := fun A B f m s =>
  match m s with
  | Ok (a, s') => f a s'
  | Fail e => Fail e
  end.

Definition fail {S A} (e : Err) : M S A := fun _ => Fail e.
Definition gets {S A} (f : S -> A) : M S A := fun s => Ok (f s, s).
Definition modify {S} (f : S -> S) : M S unit := fun s => Ok (tt, f s).

(** A Go pointer is an [option]; dereferencing [nil] panics. *)
Definition deref {S A} (p : option A) : M S A :=
  match p with
  | Some a => mret a
  | None => fail (ErrPanic NilDereference)
  end.

(** [err != nil] for a missing row, when the caller passes the error on. *)
Definition orNotFound {S A} (o : option A) : M S A :=
  match o with
  | Some a => mret a
  | None => fail ErrNotFound
  end.

(** [if b { m }] *)
Definition when {S} (b : bool) (m : M S unit) : M S unit :=
  if b then m else mret tt.

(** [for _, x := range l { f(x) }] *)
Fixpoint for_each {S A} (l : list A) (f : A -> M S unit) : M S unit :=
  match l with
  | [] => mret tt
  | x :: l' => f x ;; for_each l' f
  end.

(** A loop that appends one result per element. *)
Fixpoint for_map {S A B} (l : list A) (f : A -> M S B) : M S (list B) :=
  match l with
  | [] => mret []
  | x :: l' => y ← f x; ys ← for_map l' f; mret (y :: ys)
  end.

(** *** Total correctness of a computation

    [wp m s Q]: [m] started in [s] finishes without an error in a state and
    with a result satisfying [Q]. *)
Definition wp {S A} (m : M S A) (s : S) (Q : A -> S -> Prop) : Prop :=
  match m s with
  | Ok (a, s') => Q a s'
  | Fail _ => False
  end.

Declare Scope moab_scope.
Delimit Scope moab_scope with moab.
Notation "⟪ s ⟫ m ⟪ r , s' ⟫ Q" := (wp m s (fun r s' => Q))
  (at level 200, s at level 99, m at level 99, r name, s' name, Q at level 200) : moab_scope.
#[global] Open Scope moab_scope.

Section wp_rules.
Context {S : Type}.

Lemma wp_ret {A} (a : A) (s : S) Q : Q a s -> wp (mret a) s Q.
Proof. done. Qed.

Lemma wp_bind {A B} (m : M S A) (f : A -> M S B) s Q :
  wp m s (fun a s' => wp (f a) s' Q) -> wp (m ≫= f) s Q.
Proof.
  unfold wp, mbind, M_bind. destruct (m s) as [[a s']|e]; done.
Qed.

Lemma wp_mono {A} (m : M S A) s (Q Q' : A -> S -> Prop) :
  wp m s Q -> (forall a s', Q a s' -> Q' a s') -> wp m s Q'.
Proof. unfold wp. destruct (m s) as [[a s']|e]; auto. Qed.

Lemma wp_gets {A} (f : S -> A) s Q : Q (f s) s -> wp (gets f) s Q.
Proof. done. Qed.

Lemma wp_modify (f : S -> S) s Q : Q tt (f s) -> wp (modify f) s Q.
Proof. done. Qed.

Lemma wp_deref {A} (p : option A) a (s : S) Q :
  p = Some a -> Q a s -> wp (deref p) s Q.
Proof. by intros ->. Qed.

Lemma wp_when (b : bool) (m : M S unit) s Q :
  (b = true -> wp m s Q) -> (b = false -> Q tt s) -> wp (when b m) s Q.
Proof. unfold when. destruct b; intros; [auto|by apply wp_ret; auto]. Qed.

Lemma wp_ok {A} (m : M S A) s Q :
  wp m s Q <-> exists a s', m s = Ok (a, s') /\ Q a s'.
Proof.
  unfold wp. destruct (m s) as [[a s']|e]; split.
  - intros H. by exists a, s'.
  - intros (a' & s'' & [= <- <-] & H). done.
  - done.
  - by intros (a' & s'' & [=] & _).
Qed.

(** A loop preserves an invariant that every iteration preserves; the
    iterations may rely on what is left to visit. *)
Lemma wp_for_each {A} (f : A -> M S unit) (I : list A -> S -> Prop) l s Q :
  I l s ->
  (forall x l' s, I (x :: l') s -> wp (f x) s (fun _ s' => I l' s')) ->
  (forall s, I [] s -> Q tt s) ->
  wp (for_each l f) s Q.
Proof.
  revert s; induction l as [|x l IH]; intros s HI Hstep HQ; simpl.
  - by apply wp_ret, HQ.
  - apply wp_bind. eapply wp_mono; [by apply Hstep|].
    intros [] s' HI'. by apply IH.
Qed.

Lemma wp_for_map {A B} (f : A -> M S B)
    (I : list A -> list B -> S -> Prop) l s Q :
  I l [] s ->
  (forall x l' ys s, I (x :: l') ys s ->
     wp (f x) s (fun y s' => I l' (ys ++ [y]) s')) ->
  (forall ys s, I [] ys s -> Q ys s) ->
  wp (for_map l f) s Q.
Proof.
  intros HI Hstep HQ.
  cut (forall ys, I l ys s ->
         wp (for_map l f) s (fun zs s' => I [] (ys ++ zs) s')).
  { intros Hcut. eapply wp_mono; [by apply (Hcut [])|]. auto. }
  clear HI HQ Q. revert s; induction l as [|x l IH]; intros s ys HI; simpl.
  - apply wp_ret. by rewrite app_nil_r.
  - apply wp_bind. eapply wp_mono; [by apply Hstep|]. intros y s' HI'.
    apply wp_bind. eapply wp_mono; [exact (IH s' (ys ++ [y]) HI')|].
    intros zs s'' HI''. apply wp_ret. cbv beta in HI''. by rewrite <-app_assoc in HI''.
Qed.
End wp_rules.

Create HintDb readonly.

(** *** Transactions

    [txn.Commit] on success; on an error the deferred [Discard] drops every
    write of the call. *)
Definition rpc {S A} (m : M S A) (s : S) : Res A * S :=
  match m s with
  | Ok (a, s') => (Ok a, s')
  | Fail e => (Fail e, s)
  end.

(** A computation that only reads. *)
Section pure.
Context {S : Type}.

Definition pure_on {A} (m : M S A) : Prop := forall s, exists a, m s = Ok (a, s).

Lemma pure_on_ret {A} (a : A) : pure_on (mret a).
Proof. intros s. by exists a. Qed.
Lemma pure_on_gets {A} (f : S -> A) : pure_on (gets f).
Proof. intros s. by exists (f s). Qed.
Lemma pure_on_bind {A B} (m : M S A) (f : A -> M S B) :
  pure_on m -> (forall a, pure_on (f a)) -> pure_on (m ≫= f).
Proof.
  intros Hm Hf s. destruct (Hm s) as [a Ea]. destruct (Hf a s) as [b Eb]. exists b.
  unfold mbind, M_bind. by rewrite Ea.
Qed.

(** A computation that writes nothing, and may fail. *)
Definition readonly {A} (m : M S A) : Prop := forall s a s', m s = Ok (a, s') -> s' = s.

Lemma readonly_ret {A} (a : A) : readonly (mret a).
Proof. by intros s b s' [= _ ->]. Qed.
Lemma readonly_gets {A} (f : S -> A) : readonly (gets f).
Proof. by intros s b s' [= _ ->]. Qed.
Lemma readonly_fail {A} e : readonly (fail e : M S A).
Proof. done. Qed.
Lemma readonly_bind {A B} (m : M S A) (f : A -> M S B) :
  readonly m -> (forall a, readonly (f a)) -> readonly (m ≫= f).
Proof.
  intros Hm Hf s b s'. unfold mbind, M_bind. destruct (m s) as [[a s1]|] eqn:E; [|done].
  intros Hb. apply Hf in Hb as ->. by apply Hm in E.
Qed.
Lemma readonly_for_map {A B} (l : list A) (f : A -> M S B) :
  (forall x, readonly (f x)) -> readonly (for_map l f).
Proof.
  intros Hf. induction l as [|x l IH]; cbn; [apply readonly_ret|].
  apply readonly_bind; [done|]. intros y. apply readonly_bind; [done|]. intros ys. apply readonly_ret.
Qed.
Lemma readonly_orNotFound {A} (o : option A) : readonly (orNotFound o).
Proof. destruct o; [apply readonly_ret|apply readonly_fail]. Qed.
End pure.

#[export] Hint Resolve readonly_ret readonly_gets readonly_fail readonly_bind readonly_for_map
  readonly_orNotFound : readonly.

(** [wp_step] symbolically executes the first primitive of a computation;
    [wp_steps] goes as far as the primitives allow. *)
Ltac wp_step :=
  first
    [ apply wp_bind
    | apply wp_ret
    | apply wp_gets
    | apply wp_modify ].
Ltac wp_steps := repeat (wp_step; cbv beta).

(** Closes a decidable, closed side condition by evaluation. *)
Ltac by_eval :=
  first [vm_compute; reflexivity | apply (bool_decide_unpack _); vm_compute; exact I].

(** ** Lists *)

Section list_lemmas.
Context {A : Type}.
Implicit Types (l : list A).

Lemma filter_all_true (P : A -> Prop) `{!forall x, Decision (P x)} l :
  Forall P l -> filter P l = l.
Proof.
  induction 1 as [|x l Hx _ IH]; [done|].
  by rewrite filter_cons, decide_True, IH.
Qed.

Lemma filter_all_false (P : A -> Prop) `{!forall x, Decision (P x)} l :
  Forall (fun x => ~ P x) l -> filter P l = [].
Proof.
  induction 1 as [|x l Hx _ IH]; [done|].
  by rewrite filter_cons, decide_False, IH.
Qed.

Lemma Forall_filter (P Q : A -> Prop) `{!forall x, Decision (P x)} l :
  Forall Q l -> Forall Q (filter P l).
Proof.
  rewrite !Forall_forall. intros HQ x [_ Hx]%list_elem_of_filter. auto.
Qed.

Lemma filter_lengths (P : A -> Prop) `{!forall x, Decision (P x)} l :
  length l = (length (filter P l) + length (filter (fun x => ~ P x) l))%nat.
Proof.
  induction l as [|x l IH]; [done|]. rewrite !filter_cons.
  destruct (decide (P x)); [rewrite decide_False by tauto|rewrite decide_True by done]; cbn; lia.
Qed.

Lemma StronglySorted_filter (R : relation A) (P : A -> Prop)
    `{!forall x, Decision (P x)} l :
  StronglySorted R l -> StronglySorted R (filter P l).
Proof.
  induction 1 as [|x l Hs IH Hx]; [constructor|].
  rewrite filter_cons. case_decide; [|done]. constructor; [done|].
  by apply Forall_filter.
Qed.

Lemma StronglySorted_fmap_filter {B} (R : relation B) (f : A -> B) (P : A -> Prop)
    `{!forall x, Decision (P x)} l :
  StronglySorted R (f <$> l) -> StronglySorted R (f <$> filter P l).
Proof.
  induction l as [|x l IH]; [done|]. rewrite fmap_cons, filter_cons.
  intros [Hs Hx]%StronglySorted_inv. case_decide; [|by auto]. rewrite fmap_cons. constructor; [by auto|].
  rewrite Forall_fmap in *. by apply Forall_filter.
Qed.

(** The first element of a sorted list is its least one. *)
Lemma StronglySorted_head (R : relation A) x l :
  StronglySorted R (x :: l) -> forall y, y ∈ x :: l -> y = x \/ R x y.
Proof.
  intros [_ Hx]%StronglySorted_inv y [->|Hy]%elem_of_cons; [by left|right].
  rewrite Forall_forall in Hx. auto.
Qed.

Lemma StronglySorted_NoDup (R : relation A) `{!Irreflexive R} l :
  StronglySorted R l -> NoDup l.
Proof.
  induction 1 as [|x l Hs IH Hx]; constructor; [|done].
  intros Hin. rewrite Forall_forall in Hx.
  by apply (irreflexivity R x), Hx.
Qed.
End list_lemmas.
