(* ===== verification/Bytes.v ===== *)
(** * Byte strings and key encodings

    Go [string]s and [[]byte]s are lists of byte values.  This file has the
    big-endian integer encoding of [encoding/binary], the byte-lexicographic
    order the store iterates in, and the interface of the key helpers of
    [monstera/utils] ([ConcatBytes], [BytesToUint64]), whose code is not part
    of the repository: [Utils] names the operations, [UtilsOk] what the
    repository's comments and tests state about them. *)

From stdpp Require Export orders lexico strings.
From S2P Require Export Prelude.

Abbreviation bytes := (list Z).
Definition is_byte (c : Z) : Prop := 0 <= c < 256.

(** ** [binary.BigEndian] *)

(** [be_bytes n z] is the [n]-byte big-endian encoding of [z mod 256^n]. *)
Fixpoint be_bytes (n : nat) (z : Z) : bytes :=
  match n with
  | O => []
  | S n' => (z / 256 ^ Z.of_nat n') mod 256 :: be_bytes n' z
  end.

Definition be_value (l : bytes) : Z := fold_left (fun acc b => acc * 256 + b) l 0.

Definition BigEndian_PutUint64 (z : Z) : bytes := be_bytes 8 z.
Definition BigEndian_Uint64 (l : bytes) : Z := be_value l.

Lemma length_be_bytes n z : length (be_bytes n z) = n.
Proof. induction n; simpl; auto. Qed.

Lemma be_value_acc l acc :
  fold_left (fun acc b => acc * 256 + b) l acc
  = acc * 256 ^ Z.of_nat (length l) + be_value l.
Proof.
  unfold be_value. revert acc.
  induction l as [|b l IH]; intros acc; cbn [fold_left length]; [lia|].
  rewrite IH, (IH (0 * 256 + b)). rewrite Nat2Z.inj_succ, Z.pow_succ_r by lia. lia.
Qed.

Lemma be_value_be_bytes n z : be_value (be_bytes n z) = z mod 256 ^ Z.of_nat n.
Proof.
  induction n as [|n IH]; cbn [be_bytes].
  - by rewrite Z.mod_1_r.
  - unfold be_value. cbn [fold_left]. rewrite be_value_acc, IH, length_be_bytes.
    rewrite Nat2Z.inj_succ, Z.pow_succ_r, (Z.mul_comm 256) by lia.
    rewrite Z.rem_mul_r by lia. lia.
Qed.

Lemma be_bytes_inj n a b :
  be_bytes n a = be_bytes n b -> a mod 256 ^ Z.of_nat n = b mod 256 ^ Z.of_nat n.
Proof. intros H. by rewrite <-!be_value_be_bytes, H. Qed.

Lemma be_bytes_mod n z : be_bytes n (z mod 256 ^ Z.of_nat n) = be_bytes n z.
Proof.
  enough (forall m, (n <= m)%nat -> be_bytes n (z mod 256 ^ Z.of_nat m) = be_bytes n z)
    as H by (by apply H).
  induction n as [|n IH]; intros m Hm; cbn [be_bytes]; [done|].
  rewrite IH by lia. f_equal.
  replace (Z.of_nat m) with (Z.of_nat n + Z.of_nat (m - n)) by lia.
  rewrite Z.pow_add_r by lia.
  rewrite Z.rem_mul_r by lia.
  rewrite Z.add_comm, Z.mul_comm, Z.div_add_l by lia.
  rewrite (Z.div_small (_ mod _)) by (apply Z.mod_pos_bound; lia).
  rewrite Z.add_0_r. replace (Z.of_nat (m - n)) with (1 + Z.of_nat (m - S n)) by lia.
  rewrite Z.pow_add_r by lia. rewrite Z.pow_1_r.
  apply Z.mod_mod_divide. exists (256 ^ Z.of_nat (m - S n)). lia.
Qed.

Definition be64 : Z -> bytes := be_bytes 8.
Definition be32 : Z -> bytes := be_bytes 4.

Lemma length_be64 z : length (be64 z) = 8%nat.
Proof. apply length_be_bytes. Qed.

Lemma pow256_8 : 256 ^ Z.of_nat 8 = two64. Proof. reflexivity. Qed.

Lemma be64_u64 z : be64 (u64 z) = be64 z.
Proof. unfold be64, u64. rewrite <-pow256_8. apply be_bytes_mod. Qed.

Lemma be64_value z : be_value (be64 z) = u64 z.
Proof. unfold be64. by rewrite be_value_be_bytes, pow256_8. Qed.

Lemma be64_inj_u64 a b : is_u64 a -> is_u64 b -> be64 a = be64 b -> a = b.
Proof.
  intros Ha Hb H%be_bytes_inj. rewrite !pow256_8 in H.
  change (u64 a = u64 b) in H. by rewrite !u64_id in H.
Qed.

Lemma be64_inj_i64 a b : is_i64 a -> is_i64 b -> be64 a = be64 b -> a = b.
Proof.
  intros Ha Hb H%be_bytes_inj. rewrite !pow256_8 in H. by apply u64_inj_i64.
Qed.

(** ** The store's iteration order *)

Definition blt : relation bytes := lexico.
Arguments blt : simpl never.

#[export] Instance blt_dec : RelDecision blt.
Proof. unfold blt. apply _. Defined.

#[export] Instance blt_strict : StrictOrder blt.
Proof. unfold blt. apply _. Qed.

Lemma blt_total a b : blt a b \/ a = b \/ blt b a.
Proof. unfold blt. destruct (trichotomyT lexico a b) as [[|]|]; auto. Qed.

Lemma blt_cons x a y b : blt (x :: a) (y :: b) <-> x < y \/ x = y /\ blt a b.
Proof. reflexivity. Qed.

Definition ble (a b : bytes) : Prop := a = b \/ blt a b.

#[export] Instance ble_dec : RelDecision ble.
Proof. unfold ble. intros a b. apply _. Defined.

Lemma ble_total : Total ble.
Proof. intros a b. destruct (blt_total a b) as [|[|]]; unfold ble; auto. Qed.
#[export] Existing Instance ble_total.

#[export] Instance ble_trans : Transitive ble.
Proof.
  intros a b c [->|H1] [->|H2]; unfold ble; auto. right. by etrans.
Qed.

Lemma not_blt_ble a b : ~ blt a b <-> ble b a.
Proof.
  unfold ble. destruct (blt_total a b) as [H|[->|H]]; split; auto.
  - intros Hn. done.
  - intros [->|H'] _; [by apply (irreflexivity blt a)|].
    apply (irreflexivity blt a). by etrans.
  - intros _. apply (irreflexivity blt b).
  - intros _ H'. apply (irreflexivity blt a). by etrans.
Qed.

(** Equal-length prefixes decide the order; equal prefixes pass it on. *)
Lemma blt_app a1 a2 b1 b2 :
  length a1 = length b1 ->
  blt (a1 ++ a2) (b1 ++ b2) <-> blt a1 b1 \/ a1 = b1 /\ blt a2 b2.
Proof.
  revert b1; induction a1 as [|x a1 IH]; intros [|y b1] Hl; simplify_eq/=.
  - split; [auto|]. intros [H|[_ H]]; [|done].
    exfalso. by apply (irreflexivity blt [] H).
  - rewrite !blt_cons, IH by done. clear. split.
    + intros [?|[-> [?|[-> ?]]]]; auto.
    + intros [[?|[-> ?]]|[[= -> ->] ?]]; auto.
Qed.

(** Big-endian encodings of the same width are ordered like the numbers. *)
Lemma blt_be_bytes n a b :
  blt (be_bytes n a) (be_bytes n b)
  <-> a mod 256 ^ Z.of_nat n < b mod 256 ^ Z.of_nat n.
Proof.
  induction n as [|n IH]; cbn [be_bytes].
  - rewrite !Z.mod_1_r. split; [intros []|lia].
  - rewrite blt_cons, IH. rewrite Nat2Z.inj_succ, Z.pow_succ_r, (Z.mul_comm 256) by lia.
    rewrite !Z.rem_mul_r by lia.
    pose proof (Z.mod_pos_bound a (256 ^ Z.of_nat n) ltac:(lia)).
    pose proof (Z.mod_pos_bound b (256 ^ Z.of_nat n) ltac:(lia)).
    set (P := 256 ^ Z.of_nat n) in *. set (x := (a / P) mod 256). set (y := (b / P) mod 256).
    destruct (Z.lt_trichotomy x y) as [Hxy|[Hxy|Hxy]].
    + split; [nia|]. auto.
    + rewrite Hxy. split; [lia|]. intros. right. lia.
    + split; [lia|]. nia.
Qed.

(** The ordering the index comments rely on: it matches the numeric one for
    non-negative timestamps. *)
Lemma blt_be64 a b :
  0 <= a < two63 -> 0 <= b < two63 -> blt (be64 a) (be64 b) <-> a < b.
Proof.
  intros Ha Hb. unfold be64. rewrite blt_be_bytes, pow256_8.
  rewrite !Z.mod_small; [done|..]; rewrite two63_val, two64_val in *; lia.
Qed.

Lemma blt_be64_u a b : is_u64 a -> is_u64 b -> blt (be64 a) (be64 b) <-> a < b.
Proof.
  intros Ha Hb. unfold be64. rewrite blt_be_bytes, pow256_8, !Z.mod_small; done.
Qed.

(** ** Prefixes *)

Lemma prefix_app_same_length (a1 a2 b1 b2 : bytes) :
  length a1 = length b1 ->
  (a1 ++ a2) `prefix_of` (b1 ++ b2) -> a1 = b1 /\ a2 `prefix_of` b2.
Proof.
  intros Hl [k Hk]. rewrite <-app_assoc in Hk.
  apply app_inj_1 in Hk as [-> Hk]; [|done]. split; [done|]. by exists k.
Qed.

Lemma app_eq_same_length (a1 a2 b1 b2 : bytes) :
  length a1 = length b1 -> a1 ++ a2 = b1 ++ b2 -> a1 = b1 /\ a2 = b2.
Proof. intros. by apply app_inj_1. Qed.

(** ** [monstera/utils]

    [ConcatBytes] takes integers, strings and byte slices; each argument is
    encoded by its Go type. *)

Inductive Arg : Type :=
  | AUint64 (z : Z)
  | AInt64 (z : Z)
  | AUint32 (z : Z)
  | AString (s : bytes)
  | ABytes (s : bytes).

Class Utils : Type := {
  ConcatBytes : list Arg -> bytes;
  BytesToUint64 : bytes -> Z;
}.

Definition arg_bytes (a : Arg) : bytes :=
  match a with
  | AUint64 z | AInt64 z => be64 z
  | AUint32 z => be32 z
  | AString s | ABytes s => s
  end.

(** "plain big-endian" for integers, "raw concatenation" for the rest. *)
Class UtilsOk (U : Utils) : Prop := {
  ConcatBytes_spec args : ConcatBytes args = concat (arg_bytes <$> args);
  BytesToUint64_spec z : BytesToUint64 (be64 z) = u64 z;
}.

(** The helpers have an implementation. *)
Definition utils_ref : Utils := {|
  ConcatBytes args := concat (arg_bytes <$> args);
  BytesToUint64 := be_value;
|}.

#[export] Instance utils_ref_ok : UtilsOk utils_ref.
Proof. split; [done|]. apply be64_value. Qed.

(** Go string constants in examples. *)
Definition str (s : string) : bytes :=
  (fun c => Z.of_N (Ascii.N_of_ascii c)) <$> String.list_ascii_of_string s.
