(* ===== verification/Honey.v ===== *)
(** * The store: [yellowstone-common/honey] tables and indexes

    Both cores keep their data in four kinds of container of the [honey]
    package, which is not part of the repository.  [Honey] lists the
    operations the cores call; [HoneyOk] states what the cores rely on, as
    the repository's comments and table tests document it: a table is a map
    from byte keys, deleting an absent row is not an error, an index is a set
    of keys ([pk ++ item]) iterated in byte order, a scan by [pk] is a prefix
    scan, a range is inclusive at both ends (an item starting with the upper
    bound is in range), and a page has a next token exactly when rows are
    left.  [honey_ref] is an implementation, used by the examples.

    A Go iteration with a callback [fn(item) (bool, error)] is modelled by
    the list of items it would visit; the callback becomes a loop over that
    list which stops where the callback returns [false]. *)

From S2P Require Export Bytes.

(** [honey.PaginationToken] and the result of [ListPaginated]. *)
Module PaginationToken.
Record t := mk { Key : bytes; Reverse : bool }.
End PaginationToken.

Module ListPaginatedResult.
Record t (A : Type) := mk {
  Items : list A;
  NextPaginationToken : option PaginationToken.t;
  PreviousPaginationToken : option PaginationToken.t;
}.
Arguments mk {A}.
Arguments Items {A}.
Arguments NextPaginationToken {A}.
Arguments PreviousPaginationToken {A}.
End ListPaginatedResult.

Class Honey : Type := {
  (** [BinaryTable[*V, V]]; [None] is [store.ErrNotFound]. *)
  BinaryTable : Type -> Type;
  bt_new : forall V, BinaryTable V;
  bt_Get : forall {V}, BinaryTable V -> bytes -> option V;
  bt_Set : forall {V}, BinaryTable V -> bytes -> V -> BinaryTable V;
  bt_Delete : forall {V}, BinaryTable V -> bytes -> BinaryTable V;
  bt_ListAll : forall {V}, BinaryTable V -> bytes -> list V;
  bt_ListPaginated : forall {V}, BinaryTable V -> bytes ->
    option PaginationToken.t -> Z -> ListPaginatedResult.t V;
  bt_EachEntry : forall {V}, BinaryTable V -> list (bytes * V);

  (** [OneToManySortedIndex] *)
  OneToManySortedIndex : Type;
  omi_new : OneToManySortedIndex;
  omi_Add : OneToManySortedIndex -> bytes -> bytes -> OneToManySortedIndex;
  omi_Delete : OneToManySortedIndex -> bytes -> bytes -> OneToManySortedIndex;
  omi_ListAll : OneToManySortedIndex -> bytes -> list bytes;
  omi_ListInRange : OneToManySortedIndex -> bytes -> bytes -> bytes -> list bytes;
  omi_ListPaginated : OneToManySortedIndex -> bytes ->
    option PaginationToken.t -> Z -> ListPaginatedResult.t bytes;

  (** [SortedIndex] *)
  SortedIndex : Type;
  si_new : SortedIndex;
  si_Add : SortedIndex -> bytes -> SortedIndex;
  si_Delete : SortedIndex -> bytes -> SortedIndex;
  si_ListInRange : SortedIndex -> bytes -> bytes -> list bytes;
}.

(** [Uint64Table] has the operations of a table of [uint64] rows. *)
Definition Uint64Table `{Honey} : Type := BinaryTable Z.

(** [lo <= x], and [x <= hi] or [x] starts with [hi]. *)
Definition in_range (lo hi x : bytes) : Prop :=
  ~ blt x lo /\ (ble x hi \/ hi `prefix_of` x).

#[export] Instance in_range_dec lo hi x : Decision (in_range lo hi x).
Proof. unfold in_range. apply _. Defined.

(** An item that starts with a number is in the range of a scan from [lo] to [hi] exactly
    when the number is between them, both ends included. *)
Lemma item_in_range_u lo hi t y :
  is_u64 lo -> is_u64 hi -> is_u64 t -> y <> [] ->
  in_range (be64 lo) (be64 hi) (be64 t ++ y) <-> lo <= t <= hi.
Proof.
  intros Hlo Hhi Ht Hy. unfold in_range.
  assert (Hb : forall x, blt (be64 t ++ y) (be64 x) <-> blt (be64 t) (be64 x)).
  { intros x. rewrite <-(app_nil_r (be64 x)). rewrite blt_app by (by rewrite !length_be64).
    rewrite (app_nil_r (be64 x)). split; [|auto]. intros [?|[_ E]]; [done|]. by destruct y. }
  assert (Hp : be64 hi `prefix_of` be64 t ++ y <-> t = hi).
  { split; [|by intros ->; apply prefix_app_r].
    rewrite <-(app_nil_r (be64 hi)). intros [E _]%prefix_app_same_length;
      [|by rewrite !length_be64]. symmetry. by apply be64_inj_u64. }
  assert (Hne : be64 t ++ y <> be64 hi).
  { intros E%(f_equal length). rewrite length_app, !length_be64 in E. destruct y; [done|cbn in E; lia]. }
  unfold ble. rewrite Hp, !Hb, !blt_be64_u by done. split.
  - intros [? [[?|?]| ->]]; [done|lia|lia].
  - intros. destruct (decide (t = hi)); [split; [lia|by right]|].
    split; [lia|]. left. right. lia.
Qed.

Lemma item_in_range lo hi t y :
  0 <= lo < two63 -> 0 <= hi < two63 -> 0 <= t < two63 -> y <> [] ->
  in_range (be64 lo) (be64 hi) (be64 t ++ y) <-> lo <= t <= hi.
Proof.
  intros ???. apply item_in_range_u; unfold is_u64; rewrite two64_val, two63_val in *; lia.
Qed.

(** A scan between non-negative times skips the items of negative ones. *)
Lemma time_in_range lo hi t y :
  0 <= lo < two63 -> 0 <= hi < two63 -> is_i64 t -> y <> [] ->
  in_range (be64 lo) (be64 hi) (be64 t ++ y) <-> lo <= t <= hi.
Proof.
  intros Hlo Hhi Ht Hy. rewrite <-(be64_u64 t), item_in_range_u; [|..|apply is_u64_u64|done];
    try (unfold is_u64; rewrite two64_val, two63_val in *; lia).
  assert (u64 t = t \/ t < 0 /\ u64 t = t + two64) as [->|[? ->]]; [|done|].
  - unfold u64, is_i64 in *. destruct (Z.leb_spec 0 t).
    + left. apply Z.mod_small. rewrite two64_val, two63_val in *. lia.
    + right. split; [done|]. rewrite <-(Z_mod_plus_full t 1 two64), Z.mul_1_l.
      apply Z.mod_small. rewrite two64_val, two63_val in *. lia.
  - unfold is_i64 in Ht. rewrite two64_val, two63_val in *. lia.
Qed.

(** One page of a listing: the whole listing, in order, is split into what
    the token skips, the page and the rest. *)
Record page_of {A} (key : A -> bytes) (after : PaginationToken.t -> bytes -> Prop)
    (all : list A) (tok : option PaginationToken.t) (limit : Z)
    (skipped : list A) (page rest : list A)
    (next : option PaginationToken.t) : Prop := {
  po_split : all = skipped ++ page ++ rest;
  po_length : length page = Nat.min (Z.to_nat limit) (length (page ++ rest));
  po_skipped : match tok with
               | None => skipped = []
               | Some tk => Forall (fun a => ~ after tk (key a)) skipped /\
                            Forall (fun a => after tk (key a)) (page ++ rest)
               end;
  po_next : match next with
            | None => rest = []
            | Some tk => PaginationToken.Reverse tk = false /\
                (exists r rest', rest = r :: rest' /\
                   forall k, ble (key r) k -> after tk k) /\
                (forall a, a ∈ skipped ++ page -> forall k, ble k (key a) -> ~ after tk k)
            end;
}.

Class HoneyOk (H : Honey) : Type := {
  bt_den : forall {V}, BinaryTable V -> gmap bytes V;
  bt_den_new V : bt_den (bt_new V) = ∅;
  bt_Get_spec {V} (t : BinaryTable V) k : bt_Get t k = bt_den t !! k;
  bt_Set_spec {V} (t : BinaryTable V) k v : bt_den (bt_Set t k v) = <[k := v]> (bt_den t);
  bt_Delete_spec {V} (t : BinaryTable V) k : bt_den (bt_Delete t k) = delete k (bt_den t);
  bt_EachEntry_sorted {V} (t : BinaryTable V) :
    StronglySorted blt (fst <$> bt_EachEntry t);
  bt_EachEntry_spec {V} (t : BinaryTable V) k v :
    (k, v) ∈ bt_EachEntry t <-> bt_den t !! k = Some v;
  bt_ListAll_spec {V} (t : BinaryTable V) pk v :
    v ∈ bt_ListAll t pk <-> exists k, bt_den t !! k = Some v /\ pk `prefix_of` k;

  (** the position a token stands for: the keys listed when paging forward *)
  pt_after : PaginationToken.t -> bytes -> Prop;
  bt_ListPaginated_spec {V} (t : BinaryTable V) pk tok limit :
    0 < limit ->
    match tok with Some tk => PaginationToken.Reverse tk = false | None => True end ->
    let all := filter (fun e => pk `prefix_of` e.1) (bt_EachEntry t) in
    let r := bt_ListPaginated t pk tok limit in
    exists skipped page rest,
      page_of fst pt_after all tok limit skipped page rest
        (ListPaginatedResult.NextPaginationToken r) /\
      ListPaginatedResult.Items r = snd <$> page;
  bt_ListPaginated_elem {V} (t : BinaryTable V) pk tok limit v :
    v ∈ ListPaginatedResult.Items (bt_ListPaginated t pk tok limit) ->
    exists k, (k, v) ∈ bt_EachEntry t /\ pk `prefix_of` k;

  omi_den : OneToManySortedIndex -> gset bytes;
  omi_den_new : omi_den omi_new = ∅;
  omi_Add_spec s pk x : omi_den (omi_Add s pk x) = {[pk ++ x]} ∪ omi_den s;
  omi_Delete_spec s pk x : omi_den (omi_Delete s pk x) = omi_den s ∖ {[pk ++ x]};
  omi_ListAll_sorted s pk : StronglySorted blt (omi_ListAll s pk);
  omi_ListAll_spec s pk x : x ∈ omi_ListAll s pk <-> pk ++ x ∈ omi_den s;
  omi_ListInRange_spec s pk lo hi :
    omi_ListInRange s pk lo hi = filter (in_range lo hi) (omi_ListAll s pk);
  omi_after : PaginationToken.t -> bytes -> Prop;
  omi_ListPaginated_spec s pk tok limit :
    0 < limit ->
    match tok with Some tk => PaginationToken.Reverse tk = false | None => True end ->
    let r := omi_ListPaginated s pk tok limit in
    exists skipped rest,
      page_of id omi_after (omi_ListAll s pk) tok limit skipped (ListPaginatedResult.Items r) rest
        (ListPaginatedResult.NextPaginationToken r);
  omi_ListPaginated_elem s pk tok limit x :
    x ∈ ListPaginatedResult.Items (omi_ListPaginated s pk tok limit) -> x ∈ omi_ListAll s pk;

  si_den : SortedIndex -> gset bytes;
  si_den_new : si_den si_new = ∅;
  si_Add_spec s x : si_den (si_Add s x) = {[x]} ∪ si_den s;
  si_Delete_spec s x : si_den (si_Delete s x) = si_den s ∖ {[x]};
  si_ListInRange_sorted s lo hi : StronglySorted blt (si_ListInRange s lo hi);
  si_ListInRange_spec s lo hi x :
    x ∈ si_ListInRange s lo hi <-> x ∈ si_den s /\ in_range lo hi x;
}.

(** ** A reference implementation *)

Section reference.
Definition ref_entries {V} (m : gmap bytes V) : list (bytes * V) :=
  merge_sort (fun e1 e2 => ble e1.1 e2.1) (map_to_list m).

Definition ref_keys (s : gset bytes) : list bytes := merge_sort ble (elements s).

Definition ref_under (s : gset bytes) (pk : bytes) : list bytes :=
  drop (length pk) <$> filter (fun k => pk `prefix_of` k) (ref_keys s).

(** A forward token holds the last key of the page it follows, a reverse
    token the first key of the page it precedes. *)
Definition ref_page {A} (key : A -> bytes) (all : list A)
    (tok : option PaginationToken.t) (limit : Z) : ListPaginatedResult.t A :=
  let n := Z.to_nat limit in
  let '(before, page, rest) :=
    match tok with
    | None => ([], take n all, drop n all)
    | Some tk =>
        let K := PaginationToken.Key tk in
        if PaginationToken.Reverse tk then
          let b := filter (fun a => blt (key a) K) all in
          let m := (length b - n)%nat in
          (take m b, drop m b, filter (fun a => ~ blt (key a) K) all)
        else
          let b := filter (fun a => ~ blt K (key a)) all in
          let r := filter (fun a => blt K (key a)) all in
          (b, take n r, drop n r)
    end in
  let reverse_page :=
    match tok with Some tk => PaginationToken.Reverse tk | None => false end in
  ListPaginatedResult.mk
    (if reverse_page then reverse page else page)
    (match rest, last page with
     | _ :: _, Some a => Some (PaginationToken.mk (key a) false)
     | _, _ => None
     end)
    (match before, head page with
     | _ :: _, Some a => Some (PaginationToken.mk (key a) true)
     | _, _ => None
     end).

Definition ref_bt_page {V} (m : gmap bytes V) (pk : bytes)
    (tok : option PaginationToken.t) (limit : Z) : ListPaginatedResult.t V :=
  let r := ref_page fst (filter (fun e => pk `prefix_of` e.1) (ref_entries m)) tok limit in
  ListPaginatedResult.mk (snd <$> ListPaginatedResult.Items r)
    (ListPaginatedResult.NextPaginationToken r)
    (ListPaginatedResult.PreviousPaginationToken r).
End reference.

Definition honey_ref : Honey := {|
  BinaryTable V := gmap bytes V;
  bt_new V := ∅;
  bt_Get V m k := m !! k;
  bt_Set V m k v := <[k := v]> m;
  bt_Delete V m k := delete k m;
  bt_ListAll V m pk := snd <$> filter (fun e => pk `prefix_of` e.1) (ref_entries m);
  bt_ListPaginated V m pk tok limit := ref_bt_page m pk tok limit;
  bt_EachEntry V m := ref_entries m;
  OneToManySortedIndex := gset bytes;
  omi_new := ∅;
  omi_Add s pk x := {[pk ++ x]} ∪ s;
  omi_Delete s pk x := s ∖ {[pk ++ x]};
  omi_ListAll s pk := ref_under s pk;
  omi_ListInRange s pk lo hi := filter (in_range lo hi) (ref_under s pk);
  omi_ListPaginated s pk tok limit := ref_page id (ref_under s pk) tok limit;
  SortedIndex := gset bytes;
  si_new := ∅;
  si_Add s x := {[x]} ∪ s;
  si_Delete s x := s ∖ {[x]};
  si_ListInRange s lo hi := filter (in_range lo hi) (ref_keys s);
|}.

Section reference_ok.
Lemma StronglySorted_filter_split {A} (key : A -> bytes) K (l : list A) :
  StronglySorted blt (key <$> l) ->
  l = filter (fun a => ~ blt K (key a)) l ++ filter (fun a => blt K (key a)) l.
Proof.
  induction l as [|a l IH]; intros Hs; [done|]. rewrite fmap_cons in Hs.
  apply StronglySorted_inv in Hs as [Hs Ha].
  rewrite !filter_cons. destruct (decide (blt K (key a))) as [Hlt|Hlt].
  - rewrite decide_False by tauto. rewrite (filter_all_false (fun a => ~ blt K (key a))).
    + cbn. f_equal. symmetry. apply filter_all_true. rewrite Forall_fmap in Ha.
      eapply Forall_impl; [done|]. cbn. intros b Hb. by etrans.
    + rewrite Forall_fmap in Ha. eapply Forall_impl; [done|]. cbn. intros b Hb Hn.
      apply Hn. by etrans.
  - rewrite decide_True by done. cbn. f_equal. by apply IH.
Qed.

Lemma ble_key_total {V} : Total (fun e1 e2 : bytes * V => ble e1.1 e2.1).
Proof. intros x y. apply ble_total. Qed.

Lemma StronglySorted_ble_blt {A} (key : A -> bytes) (l : list A) :
  NoDup (key <$> l) ->
  StronglySorted (fun a b => ble (key a) (key b)) l -> StronglySorted blt (key <$> l).
Proof.
  induction l as [|a l IH]; intros Hnd Hs; [constructor|]. rewrite fmap_cons in *.
  apply StronglySorted_inv in Hs as [Hs Ha].
  apply NoDup_cons in Hnd as [Hni Hnd]. constructor; [by apply IH|].
  rewrite Forall_fmap. apply Forall_forall. intros b Hb. cbn.
  rewrite Forall_forall in Ha. destruct (Ha b Hb) as [Heq|]; [|done].
  destruct Hni. rewrite Heq. apply list_elem_of_fmap. eauto.
Qed.

Lemma ref_entries_sorted {V} (m : gmap bytes V) : StronglySorted blt (fst <$> ref_entries m).
Proof.
  apply StronglySorted_ble_blt.
  - unfold ref_entries. rewrite merge_sort_Permutation. apply NoDup_fst_map_to_list.
  - apply StronglySorted_merge_sort; [|apply ble_key_total].
    intros x y z ??. by etrans.
Qed.

Lemma elem_of_ref_entries {V} (m : gmap bytes V) k v :
  (k, v) ∈ ref_entries m <-> m !! k = Some v.
Proof. unfold ref_entries. by rewrite merge_sort_Permutation, elem_of_map_to_list. Qed.

Lemma ref_keys_sorted s : StronglySorted blt (ref_keys s).
Proof.
  rewrite <-(list_fmap_id (ref_keys s)). apply (StronglySorted_ble_blt id).
  - rewrite list_fmap_id. unfold ref_keys. rewrite merge_sort_Permutation. apply NoDup_elements.
  - apply StronglySorted_merge_sort; apply _.
Qed.

Lemma elem_of_ref_keys s k : k ∈ ref_keys s <-> k ∈ s.
Proof. unfold ref_keys. by rewrite merge_sort_Permutation, elem_of_elements. Qed.

Lemma blt_app_l pk x y : blt (pk ++ x) (pk ++ y) <-> blt x y.
Proof.
  rewrite blt_app by done. split; [|auto]. intros [H|[_ H]]; [|done].
  destruct (irreflexivity blt pk H).
Qed.

Lemma ref_under_sorted s pk : StronglySorted blt (ref_under s pk).
Proof.
  unfold ref_under.
  pose proof (StronglySorted_filter _ (fun k => pk `prefix_of` k) _ (ref_keys_sorted s)) as Hs.
  assert (Hp : Forall (fun k => pk `prefix_of` k)
                 (filter (fun k => pk `prefix_of` k) (ref_keys s))).
  { apply Forall_forall. by intros k [? _]%list_elem_of_filter. }
  induction Hs as [|k l Hs IH Hk]; [constructor|].
  rewrite fmap_cons. apply Forall_cons in Hp as [[x ->] Hp].
  constructor; [by apply IH|]. rewrite Forall_fmap.
  apply Forall_forall. intros y Hy. cbn.
  rewrite Forall_forall in Hk, Hp. destruct (Hp y Hy) as [z ->].
  specialize (Hk _ Hy). by rewrite !drop_app_length, <-(blt_app_l pk).
Qed.

Lemma elem_of_ref_under s pk x : x ∈ ref_under s pk <-> pk ++ x ∈ s.
Proof.
  unfold ref_under. rewrite list_elem_of_fmap. setoid_rewrite list_elem_of_filter.
  setoid_rewrite elem_of_ref_keys. split.
  - intros (k & -> & [y ->] & Hk). by rewrite drop_app_length.
  - intros Hx. exists (pk ++ x). rewrite drop_app_length. eauto using prefix_app_r.
Qed.

Definition ref_after (tk : PaginationToken.t) (k : bytes) : Prop :=
  blt (PaginationToken.Key tk) k.

Lemma ref_page_next {A} (key : A -> bytes) skipped all n :
  (0 < n)%nat ->
  StronglySorted blt (key <$> skipped ++ all) ->
  match
    match drop n all, last (take n all) with
    | _ :: _, Some a => Some (PaginationToken.mk (key a) false)
    | _, _ => None
    end
  with
  | None => drop n all = []
  | Some tk => PaginationToken.Reverse tk = false /\
      (exists r rest', drop n all = r :: rest' /\
         forall k, ble (key r) k -> ref_after tk k) /\
      (forall a, a ∈ skipped ++ take n all -> forall k, ble k (key a) -> ~ ref_after tk k)
  end.
Proof.
  intros Hn Hs. rewrite <-(take_drop n all), !app_assoc, fmap_app in Hs.
  destruct (drop n all) as [|r rest] eqn:Hd; [done|].
  destruct (last (take n all)) as [a|] eqn:Hl; cycle 1.
  { apply last_None in Hl. destruct n; [lia|]. by destruct all. }
  apply last_Some in Hl as [front Hl]. rewrite Hl, app_assoc, fmap_app in *.
  assert (Har : blt (key a) (key r)).
  { eapply StronglySorted_app_1_elem_of; [done| |]; set_solver. }
  split; [done|]. split.
  - exists r, rest. split; [done|]. intros k [<-|Hk]; unfold ref_after; cbn; [done|by etrans].
  - intros b Hb k Hk Hak. unfold ref_after in Hak. cbn in Hak.
    assert (Hba : ble (key b) (key a)).
    { apply elem_of_app in Hb as [Hb|Hb%list_elem_of_singleton]; [right|by left; subst].
      apply StronglySorted_app_1_l in Hs. eapply StronglySorted_app_1_elem_of; [done| |];
        set_solver. }
    apply (irreflexivity blt (key a)).
    destruct (transitivity Hk Hba) as [->|Hka]; [done|by etrans].
Qed.

Lemma ref_page_elem {A} (key : A -> bytes) (all : list A) tok limit x :
  x ∈ ListPaginatedResult.Items (ref_page key all tok limit) -> x ∈ all.
Proof.
  assert (Htake : forall n (l : list A), x ∈ take n l -> x ∈ l).
  { intros n l Hx. rewrite <-(take_drop n l). apply elem_of_app. by left. }
  assert (Hdrop : forall n (l : list A), x ∈ drop n l -> x ∈ l).
  { intros n l Hx. rewrite <-(take_drop n l). apply elem_of_app. by right. }
  unfold ref_page. destruct tok as [[K []]|]; cbn.
  - rewrite elem_of_reverse. by intros [_ Hx]%Hdrop%list_elem_of_filter.
  - by intros [_ Hx]%Htake%list_elem_of_filter.
  - apply Htake.
Qed.

Lemma ref_page_spec {A} (key : A -> bytes) (all : list A) tok limit :
  StronglySorted blt (key <$> all) -> 0 < limit ->
  match tok with Some tk => PaginationToken.Reverse tk = false | None => True end ->
  exists skipped page rest,
    page_of key ref_after all tok limit skipped page rest
      (ListPaginatedResult.NextPaginationToken (ref_page key all tok limit)) /\
    ListPaginatedResult.Items (ref_page key all tok limit) = page.
Proof.
  intros Hs Hlim Hrev. assert (Hn : (0 < Z.to_nat limit)%nat) by lia.
  destruct tok as [tk|]; unfold ref_page.
  - rewrite Hrev. cbn. set (K := PaginationToken.Key tk).
    set (b := filter (fun a => ~ blt K (key a)) all).
    set (r := filter (fun a => blt K (key a)) all).
    assert (Hall : all = b ++ r) by (by apply StronglySorted_filter_split).
    exists b, (take (Z.to_nat limit) r), (drop (Z.to_nat limit) r). split; [|done]. split.
    + by rewrite take_drop.
    + by rewrite take_drop, length_take.
    + rewrite take_drop. split; apply Forall_forall;
        by intros a [? _]%list_elem_of_filter.
    + apply ref_page_next; [done|]. by rewrite <-Hall.
  - exists [], (take (Z.to_nat limit) all), (drop (Z.to_nat limit) all). split; [|done]. split.
    + cbn. by rewrite take_drop.
    + by rewrite take_drop, length_take.
    + done.
    + by apply ref_page_next.
Qed.
End reference_ok.

#[export] Instance honey_ref_ok : HoneyOk honey_ref.
Proof.
  refine (@Build_HoneyOk honey_ref (fun V (m : gmap bytes V) => m) _ _ _ _ _ _ _
            ref_after _ _ (fun s : gset bytes => s) _ _ _ _ _ _ ref_after _ _
            (fun s : gset bytes => s) _ _ _ _ _);
    try done; cbn.
  - intros. apply ref_entries_sorted.
  - intros. apply elem_of_ref_entries.
  - intros V t pk v. rewrite list_elem_of_fmap. setoid_rewrite list_elem_of_filter. split.
    + intros ([k v'] & -> & Hp & He%elem_of_ref_entries). eauto.
    + intros (k & Hk%elem_of_ref_entries & Hp). by exists (k, v).
  - intros V t pk tok limit Hlim Hrev.
    destruct (ref_page_spec fst (filter (fun e => pk `prefix_of` e.1) (ref_entries t))
                tok limit) as (sk & pg & rs & Hp & Hi); [|done|done|].
    + pose proof (ref_entries_sorted t) as Hs. induction (ref_entries t) as [|e l IH]; [done|].
      rewrite fmap_cons in Hs. apply StronglySorted_inv in Hs as [Hs He].
      rewrite filter_cons. case_decide; [|by apply IH]. rewrite fmap_cons.
      constructor; [by apply IH|]. rewrite Forall_fmap in *. by apply Forall_filter.
    + exists sk, pg, rs. split; [done|]. cbn. by rewrite Hi.
  - intros V t pk tok limit v Hv. apply list_elem_of_fmap in Hv as ([k v'] & -> & Hv).
    apply ref_page_elem, list_elem_of_filter in Hv as [Hp Hv]. by exists k.
  - apply ref_under_sorted.
  - intros. apply elem_of_ref_under.
  - intros s pk tok limit Hlim Hrev.
    destruct (ref_page_spec id (ref_under s pk) tok limit) as (sk & pg & rs & Hp & Hi); [|done|done|].
    + rewrite list_fmap_id. apply ref_under_sorted.
    + exists sk, rs. by rewrite Hi.
  - intros s pk tok limit x. apply ref_page_elem.
  - intros. apply StronglySorted_filter, ref_keys_sorted.
  - intros s lo hi x. rewrite list_elem_of_filter, elem_of_ref_keys. tauto.
Defined.

(** ** The contents of a table determine its listings *)

Section listing.
Context {H : Honey} {HO : HoneyOk H} {V : Type}.

Lemma bt_EachEntry_ref (t : BinaryTable V) : bt_EachEntry t = ref_entries (bt_den t).
Proof.
  assert (Hs : forall l : list (bytes * V), StronglySorted blt (fst <$> l) ->
            StronglySorted (fun e1 e2 => blt e1.1 e2.1) l).
  { induction l as [|e l IH]; [constructor|]. rewrite fmap_cons. intros [Hl He]%StronglySorted_inv.
    constructor; [by apply IH|]. by rewrite Forall_fmap in He. }
  apply (StronglySorted_unique_strong (fun e1 e2 : bytes * V => blt e1.1 e2.1)).
  - intros [k x] [k' y] _ _ H1 H2. cbn in *. destruct (irreflexivity blt k). by etrans.
  - apply Hs, bt_EachEntry_sorted.
  - apply Hs, ref_entries_sorted.
  - apply NoDup_Permutation.
    + apply (NoDup_fmap_1 fst), (StronglySorted_NoDup blt), bt_EachEntry_sorted.
    + apply (NoDup_fmap_1 fst), (StronglySorted_NoDup blt), ref_entries_sorted.
    + intros [k x]. by rewrite bt_EachEntry_spec, elem_of_ref_entries.
Qed.
End listing.
