(* ===== verification/Corepb.v ===== *)
(** * Core messages ([pkg/corepb])

    The protobuf messages the two cores store and exchange, with the field
    names of the generated Go structs.  A message pointer that code tests
    against [nil] is an [option]; the id fields of stored rows are always set
    by the cores and are plain values ([Task.debug_info], which no core code
    touches, is left out).  Enums keep their named values plus a
    constructor for any other wire value. *)

From S2P Require Export Bytes.

Module QueueId.
Record t := mk { AccountId : Z; QueueId : Z }.
End QueueId.

Module TaskId.
Record t := mk { AccountId : Z; QueueId : Z; TaskId : Z }.
End TaskId.

Module ScheduleId.
Record t := mk { AccountId : Z; QueueId : Z; ScheduleId : Z }.
End ScheduleId.

#[export] Instance QueueId_eq_dec : EqDecision QueueId.t.
Proof. solve_decision. Defined.
#[export] Instance TaskId_eq_dec : EqDecision TaskId.t.
Proof. solve_decision. Defined.
#[export] Instance ScheduleId_eq_dec : EqDecision ScheduleId.t.
Proof. solve_decision. Defined.

Inductive TaskState : Set :=
  | TASK_STATE_INVALID
  | TASK_STATE_ENQUEUED
  | TASK_STATE_IN_PROGRESS
  | TASK_STATE_DEAD
  | TASK_STATE_OTHER (v : Z).

Inductive IntervalUnit : Set :=
  | INTERVAL_UNIT_INVALID
  | INTERVAL_UNIT_SECONDS
  | INTERVAL_UNIT_MINUTES
  | INTERVAL_UNIT_HOURS
  | INTERVAL_UNIT_OTHER (v : Z).

Inductive OverwriteOnDuplicate : Set :=
  | OVERWRITE_ON_DUPLICATE_INVALID
  | OVERWRITE_ON_DUPLICATE_PAYLOAD
  | OVERWRITE_ON_DUPLICATE_SCHEDULED_AT
  | OVERWRITE_ON_DUPLICATE_EXPIRES_AT
  | OVERWRITE_ON_DUPLICATE_OTHER (v : Z).

Inductive Status : Set :=
  | STATUS_INVALID
  | STATUS_SUCCEEDED
  | STATUS_IN_PROGRESS
  | STATUS_FAILED
  | STATUS_OTHER (v : Z).

Inductive ReportResult : Set :=
  | RESULT_INVALID
  | RESULT_OK
  | RESULT_NOT_FOUND
  | RESULT_NOT_IN_PROGRESS
  | RESULT_STALE_ATTEMPT
  | RESULT_OTHER (v : Z).

Inductive RestartResult : Set :=
  | RESTART_INVALID
  | RESTART_RESTARTED
  | RESTART_NOT_FOUND
  | RESTART_NOT_DEAD
  | RESTART_DEDUPE_CONFLICT
  | RESTART_OTHER (v : Z).

#[export] Instance TaskState_eq_dec : EqDecision TaskState.
Proof. solve_decision. Defined.
#[export] Instance IntervalUnit_eq_dec : EqDecision IntervalUnit.
Proof. solve_decision. Defined.
#[export] Instance OverwriteOnDuplicate_eq_dec : EqDecision OverwriteOnDuplicate.
Proof. solve_decision. Defined.
#[export] Instance Status_eq_dec : EqDecision Status.
Proof. solve_decision. Defined.
#[export] Instance ReportResult_eq_dec : EqDecision ReportResult.
Proof. solve_decision. Defined.
#[export] Instance RestartResult_eq_dec : EqDecision RestartResult.
Proof. solve_decision. Defined.

Module RetryStrategy.
Record t := mk { RetryIntervalsInSeconds : list Z }.
End RetryStrategy.

Module TokenBucketRateLimiting.
Record t := mk { MaxTokens : Z; Interval : Z; Unit : IntervalUnit }.
End TokenBucketRateLimiting.

Module DequeuingSettings.
Record t := mk {
  MaxInProgressTasks : Z;
  RateLimiting : option TokenBucketRateLimiting.t;
  DequeuingPaused : bool;
}.
End DequeuingSettings.

Module DeadLetterQueueConfig.
Record t := mk { Enable : bool; MaxSize : Z; RetentionPeriodInSeconds : Z }.
End DeadLetterQueueConfig.

Module Task.
Record t := mk {
  Id : TaskId.t;
  Payload : bytes;
  CreatedAt : Z;
  ScheduledAt : Z;
  ExpiresAt : Z;
  DedupeKey : bytes;
  State : TaskState;
  Attempts : Z;
  VisibleAt : Z;
  LastFailedAt : Z;
  RetryStrategy : option RetryStrategy.t;
  ThreadId : bytes;
}.

Definition set_Payload v '(mk i _ c s e d st a vi lf r th) := mk i v c s e d st a vi lf r th.
Definition set_ScheduledAt v '(mk i p c _ e d st a vi lf r th) := mk i p c v e d st a vi lf r th.
Definition set_ExpiresAt v '(mk i p c s _ d st a vi lf r th) := mk i p c s v d st a vi lf r th.
Definition set_State v '(mk i p c s e d _ a vi lf r th) := mk i p c s e d v a vi lf r th.
Definition set_Attempts v '(mk i p c s e d st _ vi lf r th) := mk i p c s e d st v vi lf r th.
Definition set_VisibleAt v '(mk i p c s e d st a _ lf r th) := mk i p c s e d st a v lf r th.
Definition set_LastFailedAt v '(mk i p c s e d st a vi _ r th) := mk i p c s e d st a vi v r th.
End Task.

Module Thread.
Record t := mk {
  ThreadId : bytes;
  HeadTaskId : TaskId.t;
  ScheduledAt : Z;
  VisibleAt : Z;
}.

Definition set_HeadTaskId v '(mk i _ s vi) := mk i v s vi.
Definition set_ScheduledAt v '(mk i h _ vi) := mk i h v vi.
Definition set_VisibleAt v '(mk i h s _) := mk i h s v.
End Thread.

#[export] Instance RetryStrategy_eq_dec : EqDecision RetryStrategy.t.
Proof. solve_decision. Defined.
#[export] Instance Task_eq_dec : EqDecision Task.t.
Proof. solve_decision. Defined.

(** Per-queue counters, operational state and token bucket. *)
Module TasksCounter.
Record t := mk {
  EnqueuedTasksCount : Z;
  InProgressTasksCount : Z;
  DeadTasksCount : Z;
  ProcessedTasksCount : Z;
  ExpiredTasksCount : Z;
}.
Definition zero : t := mk 0 0 0 0 0.

Definition add_Enqueued n '(mk e i d p x) := mk (i64 (e + n)) i d p x.
Definition add_InProgress n '(mk e i d p x) := mk e (i64 (i + n)) d p x.
Definition add_Dead n '(mk e i d p x) := mk e i (i64 (d + n)) p x.
Definition add_Processed n '(mk e i d p x) := mk e i d (i64 (p + n)) x.
Definition add_Expired n '(mk e i d p x) := mk e i d p (i64 (x + n)).
End TasksCounter.

Module QueueState.
Record t := mk {
  TaskIdSequence : Z;
  LastVisitedEnqueued : Z;
  LastVisitedInProgress : Z;
}.
Definition zero : t := mk 0 0 0.
Definition set_TaskIdSequence v '(mk _ e i) := mk v e i.
Definition set_LastVisitedEnqueued v '(mk s _ i) := mk s v i.
Definition set_LastVisitedInProgress v '(mk s e _) := mk s e v.
End QueueState.

Module RateLimiterState.
Record t := mk { Tokens : Z; LastRefilledAt : Z }.
End RateLimiterState.

Module PurgeQueueGarbageCollectionRecord.
Record t := mk { QueueId : QueueId.t }.
End PurgeQueueGarbageCollectionRecord.
