(* ===== verification/Pagination.v ===== *)
(** * Pagination helpers ([pkg/pagination]) *)

From S2P Require Export Honey Corepb.

Definition DefaultPaginationLimit : Z := 100.
Definition MaxPaginationLimit : Z := 250.

Definition GetLimitWithDefaults (requestedLimit : Z) : Z :=
  if (requestedLimit >? 0) && (requestedLimit <? MaxPaginationLimit) then requestedLimit
  else if requestedLimit <=? 0 then DefaultPaginationLimit
  else MaxPaginationLimit.

(** [corepb.PaginationToken] *)
Module CorePaginationToken.
Inductive Type_ : Set := INVALID | NEXT | PREVIOUS | OTHER (v : Z).
Record t := mk { Type' : Type_; Value : bytes }.
End CorePaginationToken.

Definition CoreToMonstera (paginationToken : option CorePaginationToken.t)
    : option PaginationToken.t :=
  match paginationToken with
  | None => None
  | Some tok =>
      Some (PaginationToken.mk (CorePaginationToken.Value tok)
              (match CorePaginationToken.Type' tok with
               | CorePaginationToken.PREVIOUS => true
               | _ => false
               end))
  end.

Definition MonsteraToCore (monsteraPaginationToken : option PaginationToken.t)
    : option CorePaginationToken.t :=
  match monsteraPaginationToken with
  | None => None
  | Some tok =>
      Some (CorePaginationToken.mk
              (if PaginationToken.Reverse tok then CorePaginationToken.PREVIOUS
               else CorePaginationToken.NEXT)
              (PaginationToken.Key tok))
  end.

(** [monsteraToken != nil && monsteraToken.Reverse] *)
Definition is_reverse (tok : option PaginationToken.t) : bool :=
  match tok with Some tk => PaginationToken.Reverse tk | None => false end.

(** Whatever limit a client asks for, a page holds between 1 and 250 rows. *)
Lemma GetLimitWithDefaults_bounds n :
  0 < GetLimitWithDefaults n <= MaxPaginationLimit.
Proof.
  unfold GetLimitWithDefaults, MaxPaginationLimit, DefaultPaginationLimit.
  destruct (n >? 0) eqn:E1, (n <? 250) eqn:E2, (n <=? 0) eqn:E3; cbn; lia.
Qed.

(** A token handed to a client comes back as the token the store issued. *)
Lemma CoreToMonstera_MonsteraToCore tok : CoreToMonstera (MonsteraToCore tok) = tok.
Proof. by destruct tok as [[k []]|]. Qed.

(** ** Walking a listing page by page *)

Section walk.
Context {A : Type} (key : A -> bytes) (after : PaginationToken.t -> bytes -> Prop).
Context (all : list A) (limit : Z).
Hypothesis sorted : StronglySorted blt (key <$> all).

Definition forward (tok : option PaginationToken.t) : Prop :=
  match tok with Some tk => PaginationToken.Reverse tk = false | None => True end.

(** [tok] stands between [sk] and [suf]. *)
Definition positioned (tok : option PaginationToken.t) (sk suf : list A) : Prop :=
  all = sk ++ suf /\ forward tok /\
  match tok with
  | None => sk = []
  | Some tk => Forall (fun a => ~ after tk (key a)) sk /\ Forall (fun a => after tk (key a)) suf
  end.

Lemma positioned_fun (P : A -> Prop) (a b a' b' : list A) :
  a ++ b = a' ++ b' -> Forall (fun x => ~ P x) a -> Forall P b ->
  Forall (fun x => ~ P x) a' -> Forall P b' -> a = a' /\ b = b'.
Proof.
  revert a'. induction a as [|x a IH]; intros [|x' a'] E Ha Hb Ha' Hb'; cbn in E.
  - done.
  - subst b. apply Forall_cons in Hb as [? _], Ha' as [? _]. done.
  - subst b'. apply Forall_cons in Ha as [? _], Hb' as [? _]. done.
  - injection E as -> E. apply Forall_cons in Ha as [? ?], Ha' as [? ?].
    destruct (IH a' E) as [-> ->]; done.
Qed.

(** A page starts where its token stands, and its next token stands where the page
    ends. *)
Lemma page_step tok sk suf sk' page rest next :
  positioned tok sk suf -> page_of key after all tok limit sk' page rest next ->
  suf = page ++ rest /\ length page = Nat.min (Z.to_nat limit) (length suf) /\
  match next with
  | None => rest = []
  | Some _ => rest <> [] /\ positioned next (sk ++ page) rest
  end.
Proof.
  intros (Eall & Hfwd & Hpos) [P1 P2 P3 P4].
  assert (sk' = sk /\ page ++ rest = suf) as [-> <-].
  { destruct tok as [tk|]; [|subst sk sk'; split; [done|]; cbn in *; congruence].
    destruct Hpos as [Hn Ha], P3 as [Hn' Ha'].
    apply (positioned_fun (fun a => after tk (key a))); try done. congruence. }
  split; [done|]. split; [done|]. destruct next as [tk|]; [|done].
  destruct P4 as (Hrev & (r & rest' & -> & Hr) & Hbefore). split; [done|].
  split; [by rewrite P1, app_assoc|]. split; [done|]. split.
  - apply Forall_forall. intros a Ha. apply (Hbefore a Ha). by left.
  - rewrite P1, app_assoc, fmap_app in sorted. apply StronglySorted_app_1_r in sorted.
    apply Forall_forall. intros a Ha. apply Hr.
    destruct (StronglySorted_head _ _ _ sorted (key a)) as [E|?]; [|by left|by right].
    change (key a ∈ key <$> r :: rest'). apply list_elem_of_fmap. by eauto.
Qed.
End walk.

(** The first page of a whole table. *)
Lemma bt_first_rows {H : Honey} {HO : HoneyOk H} {V} (t : BinaryTable V) limit :
  0 < limit ->
  let rs := ListPaginatedResult.Items (bt_ListPaginated t [] None limit) in
  Z.of_nat (length rs) <= limit /\ Forall (fun r => exists k, bt_den t !! k = Some r) rs /\
  (Z.of_nat (length rs) < limit -> forall k r, bt_den t !! k = Some r -> r ∈ rs).
Proof.
  intros Hlim rs. destruct (bt_ListPaginated_spec t [] None limit Hlim I)
    as (sk & pg & rest & [P1 P2 P3 P4] & Ei). subst sk rs. cbn in P1. rewrite Ei.
  rewrite filter_all_true in P1 by (apply Forall_forall; intros; apply prefix_nil). cbn in P2.
  assert (Hin : forall k r, (k, r) ∈ pg ++ rest <-> bt_den t !! k = Some r)
    by (intros k r; rewrite <-P1; apply bt_EachEntry_spec).
  rewrite length_fmap. split_and!.
  - lia.
  - apply Forall_forall. intros r ([k r'] & -> & Hp)%list_elem_of_fmap. exists k. apply Hin. set_solver.
  - intros Hlt k r Hk%Hin. apply list_elem_of_fmap. exists (k, r). split; [done|].
    rewrite length_app in P2. assert (length rest = 0)%nat by lia.
    destruct rest; [|done]. by rewrite app_nil_r in Hk.
Qed.
