(* ===== verification/Rows.v ===== *)
(** * Tables with secondary indexes

    A table maps the key of a row to the row.  A unique index maps a second key of the row
    to a number stored in it; a set index holds a third key of every row.  The lemmas carry
    both relations across the insertion, replacement and removal of one row, and count the
    rows of a table that satisfy a predicate. *)

From S2P Require Export Bytes.

(** ** Counting rows *)

Section tally.
Context {T : Type}.
Implicit Types (m : gmap bytes T) (P : T -> Prop).

Definition tally P `{!forall x, Decision (P x)} m : Z :=
  Z.of_nat (size (filter (fun kx => P kx.2) m)).

Definition weight P `{!forall x, Decision (P x)} (o : option T) : Z :=
  match o with Some x => if decide (P x) then 1 else 0 | None => 0 end.

Context P `{!forall x, Decision (P x)}.

Lemma tally_nonneg m : 0 <= tally P m.
Proof. unfold tally. lia. Qed.

Lemma tally_insert_fresh m k x :
  m !! k = None -> tally P (<[k := x]> m) = tally P m + weight P (Some x).
Proof.
  intros Hk. unfold tally, weight. destruct (decide (P x)).
  - rewrite map_filter_insert_True by done.
    rewrite map_size_insert_None; [lia|]. apply map_lookup_filter_None. by left.
  - rewrite map_filter_insert_False, delete_id by done. lia.
Qed.

Lemma tally_delete m k : tally P (delete k m) = tally P m - weight P (m !! k).
Proof.
  destruct (m !! k) as [x|] eqn:Hk.
  - rewrite <-(insert_delete_id m k x) at 2 by done.
    rewrite tally_insert_fresh by apply lookup_delete_eq. lia.
  - rewrite delete_id by done. cbn. lia.
Qed.

Lemma tally_insert m k x :
  tally P (<[k := x]> m) = tally P m - weight P (m !! k) + weight P (Some x).
Proof.
  rewrite <-insert_delete_eq, tally_insert_fresh by apply lookup_delete_eq.
  by rewrite tally_delete.
Qed.

Lemma tally_pos m k x : m !! k = Some x -> P x -> 0 < tally P m.
Proof.
  intros Hk Hx. rewrite <-(insert_delete_id m k x), tally_insert_fresh
    by (done || apply lookup_delete_eq).
  pose proof (tally_nonneg (delete k m)). cbn. rewrite decide_True by done. lia.
Qed.

Lemma tally_empty : tally P ∅ = 0.
Proof. unfold tally. by rewrite map_filter_empty. Qed.

Lemma tally_none m : (forall k x, m !! k = Some x -> ~ P x) -> tally P m = 0.
Proof.
  intros Hno. unfold tally. apply (f_equal Z.of_nat (y := 0%nat)), map_size_empty_iff, map_empty.
  intros k. apply map_lookup_filter_None. right. intros x Hx. by apply (Hno k).
Qed.

Lemma tally_filter (R : T -> Prop) `{!forall x, Decision (R x)} m :
  (forall x, P x -> R x) -> tally P (filter (fun kx => R kx.2) m) = tally P m.
Proof.
  intros HR. unfold tally. rewrite map_filter_filter. do 2 f_equal. apply map_filter_ext.
  intros k x _. cbn. split; [by intros []|]. auto.
Qed.
End tally.

(** ** Searching rows *)

Section seek.
Context {T : Type} (P : T -> Prop) `{!forall x, Decision (P x)}.

Definition seek (m : gmap bytes T) : option T :=
  snd <$> head (filter (fun kx => P kx.2) (map_to_list m)).

Lemma seek_unique m o :
  (forall x, o = Some x <-> (exists k, m !! k = Some x) /\ P x) -> seek m = o.
Proof.
  intros Ho. unfold seek. destruct (filter _ _) as [|[k x] l] eqn:E; cbn.
  - destruct o as [x|]; [|done]. destruct (proj1 (Ho x) eq_refl) as [[k Hk] Hx].
    assert (Hin : (k, x) ∈ filter (fun kx => P kx.2) (map_to_list m))
      by (apply list_elem_of_filter; split; [done|by apply elem_of_map_to_list]).
    rewrite E in Hin. by apply not_elem_of_nil in Hin.
  - assert (Hin : (k, x) ∈ filter (fun kx => P kx.2) (map_to_list m)) by (rewrite E; left).
    apply list_elem_of_filter in Hin as [Hx Hk%elem_of_map_to_list]. symmetry. apply Ho.
    split; [by exists k|done].
Qed.
End seek.

(** ** Keys, unique indexes and set indexes *)

Section indexed.
Context {T : Type} (wf : T -> Prop) (key : T -> bytes).
Implicit Types (m : gmap bytes T) (x y : T).

Definition keyed m : Prop := forall k x, m !! k = Some x -> k = key x /\ wf x.
Definition stores m x : Prop := m !! key x = Some x.

Lemma keyed_empty : keyed ∅.
Proof. by intros k x Hk%lookup_empty_Some. Qed.
Lemma keyed_insert m x : keyed m -> wf x -> keyed (<[key x := x]> m).
Proof. intros Hm Hx k y [[<- <-]|[_ Hy]]%lookup_insert_Some; [done|by apply Hm]. Qed.
Lemma keyed_delete m k : keyed m -> keyed (delete k m).
Proof. intros Hm k' y [_ Hy]%lookup_delete_Some. by apply Hm. Qed.

Lemma stores_insert m x y :
  stores (<[key x := x]> m) y <-> y = x \/ stores m y /\ key y <> key x.
Proof using Type.
  unfold stores. destruct (decide (key y = key x)) as [E|E].
  - rewrite E, lookup_insert_eq. split; [intros [= ->]; by left|]. by intros [->|[_ []]].
  - rewrite lookup_insert_ne by done. split; [by right|]. intros [->|[? _]]; done.
Qed.
Lemma stores_delete m k y : stores (delete k m) y <-> stores m y /\ key y <> k.
Proof using Type. unfold stores. rewrite lookup_delete_Some. split; intros [? ?]; split; congruence. Qed.

Lemma keyed_ext m1 m2 : keyed m1 -> keyed m2 -> (forall x, stores m1 x <-> stores m2 x) -> m1 = m2.
Proof.
  intros H1 H2 E. apply map_eq. intros k. apply option_eq. intros x. split; intros Hk.
  - destruct (H1 _ _ Hk) as [-> _]. by apply E.
  - destruct (H2 _ _ Hk) as [-> _]. by apply E.
Qed.

Lemma stores_wf m x : keyed m -> stores m x -> wf x.
Proof. intros Hm Hx. by apply (Hm _ _ Hx). Qed.

(** *** Unique indexes *)
Section unique.
Context (name : T -> bytes) (num : T -> Z).
Hypothesis name_num_key : forall x y, wf x -> wf y -> name x = name y -> num x = num y -> key x = key y.

Definition named m (N : gmap bytes Z) : Prop :=
  forall k n, N !! k = Some n <-> exists x, stores m x /\ name x = k /\ num x = n.

Lemma named_unique m N x y :
  keyed m -> named m N -> stores m x -> stores m y -> name x = name y -> x = y.
Proof.
  intros Hm HN Hx Hy E.
  assert (E1 : N !! name x = Some (num x)) by (apply HN; eauto).
  assert (E2 : N !! name y = Some (num y)) by (apply HN; eauto).
  assert (Ek : key x = key y).
  { destruct (Hm _ _ Hx) as [_ Hwx], (Hm _ _ Hy) as [_ Hwy].
    apply name_num_key; try done. congruence. }
  unfold stores in *. congruence.
Qed.

Lemma named_empty : named ∅ ∅.
Proof using Type.
  intros k n. rewrite lookup_empty. split; [done|]. intros (x & Hx & _).
  by apply lookup_empty_Some in Hx.
Qed.

Lemma named_insert m N x :
  named m N -> m !! key x = None -> N !! name x = None ->
  named (<[key x := x]> m) (<[name x := num x]> N).
Proof using Type.
  intros HN Hk Hn k n. rewrite lookup_insert_Some, (HN k n). setoid_rewrite stores_insert. split.
  - intros [[<- <-]|[Hne (y & Hy & <- & <-)]]; [by eauto|]. exists y. split; [|done].
    right. split; [done|]. intros E. unfold stores in Hy. congruence.
  - intros (y & [->|[Hy _]] & <- & <-); [by left|]. right. split; [|by eauto].
    intros E. assert (N !! name y = Some (num y)) by (apply HN; eauto). congruence.
Qed.

Lemma named_delete m N x :
  keyed m -> named m N -> stores m x -> named (delete (key x) m) (delete (name x) N).
Proof.
  intros Hm HN Hx k n. rewrite lookup_delete_Some, (HN k n). setoid_rewrite stores_delete. split.
  - intros [Hne (y & Hy & <- & <-)]. exists y. split; [|done]. split; [done|].
    intros E. apply Hne. unfold stores in *. rewrite E in Hy. congruence.
  - intros (y & [Hy Hne] & <- & <-). split; [|by eauto]. intros E. apply Hne.
    by rewrite (named_unique m N x y).
Qed.

Lemma named_replace m N x y :
  named m N -> stores m x -> key y = key x -> name y = name x -> num y = num x ->
  named (<[key y := y]> m) N.
Proof using Type.
  intros HN Hx Ek En Eu k n. rewrite (HN k n). setoid_rewrite stores_insert. split.
  - intros (z & Hz & <- & <-). destruct (decide (key z = key x)) as [E|E].
    + assert (z = x) as -> by (unfold stores in *; congruence). exists y. split; [by left|done].
    + exists z. split; [|done]. right. split; [done|congruence].
  - intros (z & [->|[Hz _]] & <- & <-); [|by eauto]. exists x. by split_and!.
Qed.

Lemma named_det m N N' : named m N -> named m N' -> N = N'.
Proof using Type. intros HN HN'. apply map_eq. intros k. apply option_eq. intros n. by rewrite (HN k n), (HN' k n). Qed.
End unique.

(** *** Set indexes *)
Section listed.
Context (item : T -> bytes).
Hypothesis item_key : forall x y, wf x -> wf y -> item x = item y -> key x = key y.

Definition listed m (D : gset bytes) : Prop :=
  forall k, k ∈ D <-> exists x, stores m x /\ item x = k.

Lemma listed_empty : listed ∅ ∅.
Proof using Type. clear item_key wf. intros k. split; [set_solver|]. intros (x & Hx & _). by apply lookup_empty_Some in Hx. Qed.

Lemma listed_insert m D x :
  listed m D -> m !! key x = None -> listed (<[key x := x]> m) ({[item x]} ∪ D).
Proof using Type.
  intros HD Hk k. rewrite elem_of_union, elem_of_singleton, (HD k). setoid_rewrite stores_insert.
  split.
  - intros [->|(y & Hy & <-)]; [by eauto|]. exists y. split; [|done]. right. split; [done|].
    intros E. unfold stores in Hy. congruence.
  - intros (y & [->|[Hy _]] & <-); [by left|right; by eauto].
Qed.

Lemma listed_delete m D x :
  keyed m -> listed m D -> stores m x -> listed (delete (key x) m) (D ∖ {[item x]}).
Proof.
  intros Hm HD Hx k. rewrite elem_of_difference, elem_of_singleton, (HD k).
  setoid_rewrite stores_delete. split.
  - intros [(y & Hy & <-) Hne]. exists y. split; [|done]. split; [done|]. intros E. apply Hne.
    unfold stores in *. rewrite E in Hy. congruence.
  - intros (y & [Hy Hne] & <-). split; [by eauto|]. intros E. apply Hne.
    destruct (Hm _ _ Hx) as [_ ?], (Hm _ _ Hy) as [_ ?]. by apply item_key.
Qed.

Lemma listed_replace m D x y :
  keyed m -> listed m D -> stores m x -> wf y -> key y = key x ->
  listed (<[key y := y]> m) ({[item y]} ∪ D ∖ {[item x]}).
Proof.
  intros Hm HD Hx Hy Ek. pose proof (listed_delete m D x Hm HD Hx) as Hd.
  pose proof (listed_insert _ _ y Hd) as Hi. rewrite Ek, insert_delete_eq in Hi. rewrite Ek.
  apply Hi, lookup_delete_eq.
Qed.

Lemma listed_keep m D x y :
  listed m D -> stores m x -> key y = key x -> item y = item x -> listed (<[key y := y]> m) D.
Proof using Type.
  intros HD Hx Ek Ei k. rewrite (HD k). setoid_rewrite stores_insert. split.
  - intros (z & Hz & <-). destruct (decide (key z = key x)) as [E|E].
    + exists y. split; [by left|]. unfold stores in *. rewrite E in Hz. congruence.
    + exists z. split; [|done]. right. split; [done|congruence].
  - intros (z & [->|[Hz _]] & <-); [|by eauto]. exists x. split; [done|congruence].
Qed.

Lemma listed_det m D D' : listed m D -> listed m D' -> D = D'.
Proof using Type. intros HD HD'. apply set_eq. intros k. by rewrite (HD k), (HD' k). Qed.
End listed.
End indexed.
