(* ===== verification/QueuesTables.v ===== *)
(** * Tables of the queues core ([pkg/queues])

    The messages [queues.Core] stores, the keys of its tables and indexes, and the table
    methods of [queues.go], [schedules.go], [counters.go] and [gc_records.go].  A lookup
    returns an [option]; [None] is [store.ErrNotFound]. *)

From S2P Require Export Honey Corepb Pagination.

(** ** Messages ([corepb/queues.proto]) *)

Module Queue.
Record t := mk {
  Id : QueueId.t;
  Name : bytes;
  Description : bytes;
  CreatedAt : Z;
  UpdatedAt : Z;
  Version : Z;
  KeepaliveTimeoutInSeconds : Z;
  RetryStrategy : option RetryStrategy.t;
  DequeuingSettings : option DequeuingSettings.t;
  DeadLetterQueueConfig : option DeadLetterQueueConfig.t;
  ExpiresInSeconds : Z;
  SchedulesCount : Z;
}.

Definition set_SchedulesCount n '(mk i nm d c u v k r ds dlq e _) :=
  mk i nm d c u v k r ds dlq e n.
End Queue.

Module Schedule.
Record t := mk {
  Id : ScheduleId.t;
  Name : bytes;
  Description : bytes;
  CreatedAt : Z;
  UpdatedAt : Z;
  Version : Z;
  Cron : bytes;
  Payload : bytes;
  DedupeKey : bytes;
  ExpiresInSeconds : Z;
  RetryStrategy : option RetryStrategy.t;
  Timezone : bytes;
  LastCheckedAt : Z;
  NextScheduledAt : Z;
  LastEnqueuedFor : Z;
}.

Definition set_Id i '(mk _ nm d c u v cr p dk e r tz lc ns le) :=
  mk i nm d c u v cr p dk e r tz lc ns le.
Definition set_NextScheduledAt n '(mk i nm d c u v cr p dk e r tz lc _ le) :=
  mk i nm d c u v cr p dk e r tz lc n le.
Definition set_LastCheckedAt n '(mk i nm d c u v cr p dk e r tz _ ns le) :=
  mk i nm d c u v cr p dk e r tz n ns le.
Definition set_LastEnqueuedFor n '(mk i nm d c u v cr p dk e r tz lc ns _) :=
  mk i nm d c u v cr p dk e r tz lc ns n.
End Schedule.

Module QueuesCounter.
Record t := mk { NumberOfQueues : Z }.
Definition zero : t := mk 0.
End QueuesCounter.

Module QueuesGarbageCollectionRecord.
Record t := mk { QueueId : QueueId.t }.
End QueuesGarbageCollectionRecord.

(** ** [table_prefixes.go] *)

Definition queues_prefixes : list bytes := [[0]; [1]; [2]; [3]; [4]; [5]; [6]].

(** ** Keys *)

Section queue_keys.
Context `{U : Utils}.

Definition queues_tablePK (accountId : Z) : bytes := ConcatBytes [AUint64 accountId].
Definition queues_tableSK (queueId : Z) : bytes := ConcatBytes [AUint64 queueId].
Definition queues_namesIndexPK (accountId : Z) (queueName : bytes) : bytes :=
  ConcatBytes [AUint64 accountId; AString queueName].

Definition schedules_tablePK (accountId queueId : Z) : bytes :=
  ConcatBytes [AUint64 accountId; AUint64 queueId].
Definition schedules_tableSK (scheduleId : Z) : bytes := ConcatBytes [AUint64 scheduleId].
Definition schedules_namesIndexPK (accountId queueId : Z) (scheduleName : bytes) : bytes :=
  ConcatBytes [AUint64 accountId; AUint64 queueId; AString scheduleName].
Definition scheduledIndexPKPrefix (time : Z) : bytes := ConcatBytes [AInt64 time].
Definition scheduledIndexPK (time accountId queueId scheduleId : Z) : bytes :=
  ConcatBytes [AInt64 time; AUint64 accountId; AUint64 queueId; AUint64 scheduleId].

Definition counters_tablePK (accountId : Z) : bytes := ConcatBytes [AUint64 accountId].
Definition gcRecords_tablePK (accountId queueId : Z) : bytes :=
  ConcatBytes [AUint64 accountId; AUint64 queueId].

(** [utils.ConcatBytes(t.tablePK(...), t.tableSK(...))] *)
Definition queue_key (id : QueueId.t) : bytes :=
  ConcatBytes [ABytes (queues_tablePK (QueueId.AccountId id));
               ABytes (queues_tableSK (QueueId.QueueId id))].
Definition schedule_key (id : ScheduleId.t) : bytes :=
  ConcatBytes [ABytes (schedules_tablePK (ScheduleId.AccountId id) (ScheduleId.QueueId id));
               ABytes (schedules_tableSK (ScheduleId.ScheduleId id))].
Definition schedule_due_key (s : Schedule.t) : bytes :=
  let id := Schedule.Id s in
  scheduledIndexPK (Schedule.NextScheduledAt s) (ScheduleId.AccountId id)
    (ScheduleId.QueueId id) (ScheduleId.ScheduleId id).
Definition schedule_name_key (s : Schedule.t) : bytes :=
  let id := Schedule.Id s in
  schedules_namesIndexPK (ScheduleId.AccountId id) (ScheduleId.QueueId id) (Schedule.Name s).
Definition queue_name_key (queue : Queue.t) : bytes :=
  queues_namesIndexPK (QueueId.AccountId (Queue.Id queue)) (Queue.Name queue).
End queue_keys.

(** ** State *)

Section queue_state.
Context `{H : Honey}.

Record queuesTable := mkQueuesTable {
  queues_table : BinaryTable Queue.t;
  queues_namesIndex : Uint64Table;
}.
Record schedulesTable := mkSchedulesTable {
  schedules_table : BinaryTable Schedule.t;
  schedules_namesIndex : Uint64Table;
  scheduledIndex : SortedIndex;
}.

(** What a transaction of the queues core sees. *)
Record QTxn := mkQTxn {
  queues : queuesTable;
  qcounters : BinaryTable QueuesCounter.t;
  schedules : schedulesTable;
  gcRecords : BinaryTable QueuesGarbageCollectionRecord.t;
}.

Definition QNewCore : QTxn :=
  mkQTxn (mkQueuesTable (bt_new _) (bt_new _)) (bt_new _)
    (mkSchedulesTable (bt_new _) (bt_new _) si_new) (bt_new _).

Definition upd_queues f (s : QTxn) := mkQTxn (f (queues s)) (qcounters s) (schedules s) (gcRecords s).
Definition upd_qcounters f (s : QTxn) := mkQTxn (queues s) (f (qcounters s)) (schedules s) (gcRecords s).
Definition upd_schedules f (s : QTxn) := mkQTxn (queues s) (qcounters s) (f (schedules s)) (gcRecords s).
Definition upd_gcRecords f (s : QTxn) := mkQTxn (queues s) (qcounters s) (schedules s) (f (gcRecords s)).

Definition upd_queues_table f := upd_queues (fun t =>
  mkQueuesTable (f (queues_table t)) (queues_namesIndex t)).
Definition upd_queues_namesIndex f := upd_queues (fun t =>
  mkQueuesTable (queues_table t) (f (queues_namesIndex t))).
Definition upd_schedules_table f := upd_schedules (fun t =>
  mkSchedulesTable (f (schedules_table t)) (schedules_namesIndex t) (scheduledIndex t)).
Definition upd_schedules_namesIndex f := upd_schedules (fun t =>
  mkSchedulesTable (schedules_table t) (f (schedules_namesIndex t)) (scheduledIndex t)).
Definition upd_scheduledIndex f := upd_schedules (fun t =>
  mkSchedulesTable (schedules_table t) (schedules_namesIndex t) (f (scheduledIndex t))).
End queue_state.

(** ** Table methods *)

Section queue_methods.
Context `{U : Utils} `{H : Honey}.
Local Abbreviation T := (M QTxn).

(** [queuesTable] *)
Definition queues_Get (id : QueueId.t) : T (option Queue.t) :=
  gets (fun s => bt_Get (queues_table (queues s)) (queue_key id)).

Definition queues_GetByName (accountId : Z) (queueName : bytes) : T (option Queue.t) :=
  queueId ← gets (fun s =>
    bt_Get (queues_namesIndex (queues s)) (queues_namesIndexPK accountId queueName));
  match queueId with
  | None => mret None
  | Some queueId => queues_Get (QueueId.mk accountId queueId)
  end.

Record listQueuesResult := mkListQueuesResult {
  lqr_Queues : list Queue.t;
  lqr_NextPaginationToken : option CorePaginationToken.t;
  lqr_PreviousPaginationToken : option CorePaginationToken.t;
}.

Definition queues_List (accountId : Z) (paginationToken : option CorePaginationToken.t)
    (limit : Z) : T listQueuesResult :=
  let monsteraToken := CoreToMonstera paginationToken in
  result ← gets (fun s =>
    bt_ListPaginated (queues_table (queues s)) (queues_tablePK accountId) monsteraToken limit);
  let items := ListPaginatedResult.Items result in
  mret (mkListQueuesResult (if is_reverse monsteraToken then reverse items else items)
    (MonsteraToCore (ListPaginatedResult.NextPaginationToken result))
    (MonsteraToCore (ListPaginatedResult.PreviousPaginationToken result))).

Definition queues_namesIndex_Set (k : bytes) (queueId : Z) : T unit :=
  modify (upd_queues_namesIndex (fun t => bt_Set t k queueId)).
Definition queues_namesIndex_Delete (k : bytes) : T unit :=
  modify (upd_queues_namesIndex (fun t => bt_Delete t k)).
Definition queues_table_Set (queue : Queue.t) : T unit :=
  modify (upd_queues_table (fun t => bt_Set t (queue_key (Queue.Id queue)) queue)).
Definition queues_table_Delete (id : QueueId.t) : T unit :=
  modify (upd_queues_table (fun t => bt_Delete t (queue_key id))).

Definition queues_Create (queue : Queue.t) : T unit :=
  queues_namesIndex_Set (queue_name_key queue) (QueueId.QueueId (Queue.Id queue)) ;;
  queues_table_Set queue.

Definition queues_Update (queue : Queue.t) : T unit := queues_table_Set queue.

Definition queues_SwapId (oldQueueId : QueueId.t) (newQueue : Queue.t) : T unit :=
  queues_namesIndex_Set (queue_name_key newQueue) (QueueId.QueueId (Queue.Id newQueue)) ;;
  queues_table_Set newQueue ;;
  queues_table_Delete oldQueueId.

Definition queues_Delete (queue : Queue.t) : T unit :=
  queues_table_Delete (Queue.Id queue) ;;
  queues_namesIndex_Delete (queue_name_key queue).

(** [schedulesTable] *)
Definition schedules_Get (id : ScheduleId.t) : T (option Schedule.t) :=
  gets (fun s => bt_Get (schedules_table (schedules s)) (schedule_key id)).

Definition schedules_GetByName (queueId : QueueId.t) (scheduleName : bytes)
    : T (option Schedule.t) :=
  scheduleId ← gets (fun s =>
    bt_Get (schedules_namesIndex (schedules s))
      (schedules_namesIndexPK (QueueId.AccountId queueId) (QueueId.QueueId queueId) scheduleName));
  match scheduleId with
  | None => mret None
  | Some scheduleId =>
      schedules_Get (ScheduleId.mk (QueueId.AccountId queueId) (QueueId.QueueId queueId) scheduleId)
  end.

Definition schedules_ListAll (queueId : QueueId.t) : T (list Schedule.t) :=
  gets (fun s => bt_ListAll (schedules_table (schedules s))
    (schedules_tablePK (QueueId.AccountId queueId) (QueueId.QueueId queueId))).

Record listSchedulesResult := mkListSchedulesResult {
  lsr_Schedules : list Schedule.t;
  lsr_NextPaginationToken : option CorePaginationToken.t;
  lsr_PreviousPaginationToken : option CorePaginationToken.t;
}.

Definition schedules_List (queueId : QueueId.t) (paginationToken : option CorePaginationToken.t)
    (limit : Z) : T listSchedulesResult :=
  let monsteraToken := CoreToMonstera paginationToken in
  result ← gets (fun s => bt_ListPaginated (schedules_table (schedules s))
    (schedules_tablePK (QueueId.AccountId queueId) (QueueId.QueueId queueId)) monsteraToken limit);
  let items := ListPaginatedResult.Items result in
  mret (mkListSchedulesResult (if is_reverse monsteraToken then reverse items else items)
    (MonsteraToCore (ListPaginatedResult.NextPaginationToken result))
    (MonsteraToCore (ListPaginatedResult.PreviousPaginationToken result))).

Definition scheduledIndex_Add (k : bytes) : T unit :=
  modify (upd_scheduledIndex (fun i => si_Add i k)).
Definition scheduledIndex_Delete (k : bytes) : T unit :=
  modify (upd_scheduledIndex (fun i => si_Delete i k)).
Definition schedules_namesIndex_Set (k : bytes) (scheduleId : Z) : T unit :=
  modify (upd_schedules_namesIndex (fun t => bt_Set t k scheduleId)).
Definition schedules_namesIndex_Delete (k : bytes) : T unit :=
  modify (upd_schedules_namesIndex (fun t => bt_Delete t k)).
Definition schedules_table_Set (schedule : Schedule.t) : T unit :=
  modify (upd_schedules_table (fun t => bt_Set t (schedule_key (Schedule.Id schedule)) schedule)).
Definition schedules_table_Delete (id : ScheduleId.t) : T unit :=
  modify (upd_schedules_table (fun t => bt_Delete t (schedule_key id))).

Definition schedules_Create (schedule : Schedule.t) : T unit :=
  scheduledIndex_Add (schedule_due_key schedule) ;;
  schedules_namesIndex_Set (schedule_name_key schedule)
    (ScheduleId.ScheduleId (Schedule.Id schedule)) ;;
  schedules_table_Set schedule.

Definition schedules_Update (schedule : Schedule.t) : T unit :=
  existing ← schedules_Get (Schedule.Id schedule);
  existing ← orNotFound existing;
  let oldNextScheduledAt := Schedule.NextScheduledAt existing in
  when (negb (Schedule.NextScheduledAt schedule =? oldNextScheduledAt))
    (scheduledIndex_Delete
       (schedule_due_key (Schedule.set_NextScheduledAt oldNextScheduledAt schedule)) ;;
     scheduledIndex_Add (schedule_due_key schedule)) ;;
  schedules_table_Set schedule.

(** The id packed into a scheduled-index item. *)
Definition due_item_id (item : bytes) : ScheduleId.t :=
  ScheduleId.mk (BytesToUint64 (take 8 (drop 8 item)))
                (BytesToUint64 (take 8 (drop 16 item)))
                (BytesToUint64 (take 8 (drop 24 item))).

(** The callback appends before it compares with [limit]. *)
Definition schedules_ListDue (before limit : Z) : T (list Schedule.t) :=
  items ← gets (fun s => take (Nat.max 1 (Z.to_nat limit))
    (si_ListInRange (scheduledIndex (schedules s))
       (scheduledIndexPKPrefix 0) (scheduledIndexPKPrefix before)));
  for_map items (fun item => schedule ← schedules_Get (due_item_id item); orNotFound schedule).

Definition schedules_Delete (schedule : Schedule.t) : T unit :=
  scheduledIndex_Delete (schedule_due_key schedule) ;;
  schedules_namesIndex_Delete (schedule_name_key schedule) ;;
  schedules_table_Delete (Schedule.Id schedule).

(** [countersTable] *)
Definition qcounters_Get (accountId : Z) : T QueuesCounter.t :=
  gets (fun s => default QueuesCounter.zero (bt_Get (qcounters s) (counters_tablePK accountId))).
Definition qcounters_Set (accountId : Z) (c : QueuesCounter.t) : T unit :=
  modify (upd_qcounters (fun t => bt_Set t (counters_tablePK accountId) c)).

(** [gcRecordsTable] *)
Definition gcRecords_Create (r : QueuesGarbageCollectionRecord.t) : T unit :=
  let q := QueuesGarbageCollectionRecord.QueueId r in
  modify (upd_gcRecords (fun t =>
    bt_Set t (gcRecords_tablePK (QueueId.AccountId q) (QueueId.QueueId q)) r)).
Definition gcRecords_Delete (r : QueuesGarbageCollectionRecord.t) : T unit :=
  let q := QueuesGarbageCollectionRecord.QueueId r in
  modify (upd_gcRecords (fun t =>
    bt_Delete t (gcRecords_tablePK (QueueId.AccountId q) (QueueId.QueueId q)))).
Definition gcRecords_List (limit : Z) : T (list QueuesGarbageCollectionRecord.t) :=
  gets (fun s => ListPaginatedResult.Items (bt_ListPaginated (gcRecords s) [] None limit)).
End queue_methods.
