(* ===== verification/QueuesCore.v ===== *)
(** * The queues core ([pkg/queues/core.go])

    Every method of [queues.Core] over the transaction view [QTxn], statement by
    statement.  An application error is a value of the response; a Go error stops the
    computation and its transaction is discarded. *)

From S2P Require Export QueuesTables.

(** ** Requests ([corepb/queues.proto]) *)

Module CreateQueueRequest.
Record t := mk {
  QueueId : QueueId.t;
  Name : bytes;
  Description : bytes;
  KeepaliveTimeoutInSeconds : Z;
  RetryStrategy : option RetryStrategy.t;
  DequeuingSettings : option DequeuingSettings.t;
  DeadLetterQueueConfig : option DeadLetterQueueConfig.t;
  ExpiresInSeconds : Z;
  MaxNumberOfQueues : Z;
}.
End CreateQueueRequest.

Module ListQueuesRequest.
Record t := mk {
  AccountId : Z; PaginationToken : option CorePaginationToken.t; Limit : Z }.
End ListQueuesRequest.

(** [GetQueueByNameRequest] and [DeleteQueueRequest] have the same two fields. *)
Module QueueNameRequest.
Record t := mk { AccountId : Z; QueueName : bytes }.
End QueueNameRequest.

Module UpdateQueueRequest.
Record t := mk {
  AccountId : Z;
  QueueName : bytes;
  Description : bytes;
  KeepaliveTimeoutInSeconds : Z;
  RetryStrategy : option RetryStrategy.t;
  DequeuingSettings : option DequeuingSettings.t;
  DeadLetterQueueConfig : option DeadLetterQueueConfig.t;
  ExpiresInSeconds : Z;
  ExpectedVersion : Z;
}.
End UpdateQueueRequest.

Module SwapQueueIdRequest.
Record t := mk { AccountId : Z; QueueName : bytes; NewQueueId : Z }.
End SwapQueueIdRequest.

Module CreateScheduleRequest.
Record t := mk {
  AccountId : Z;
  QueueName : bytes;
  ScheduleId : Z;
  ScheduleName : bytes;
  Description : bytes;
  Cron : bytes;
  Payload : bytes;
  DedupeKey : bytes;
  ExpiresInSeconds : Z;
  RetryStrategy : option RetryStrategy.t;
  Timezone : bytes;
  MaxNumberOfSchedulesPerQueue : Z;
}.
End CreateScheduleRequest.

(** [GetScheduleRequest] and [DeleteScheduleRequest] have the same three fields. *)
Module ScheduleNameRequest.
Record t := mk { AccountId : Z; QueueName : bytes; ScheduleName : bytes }.
End ScheduleNameRequest.

Module ListSchedulesRequest.
Record t := mk {
  QueueId : QueueId.t; PaginationToken : option CorePaginationToken.t; Limit : Z }.
End ListSchedulesRequest.

Module UpdateScheduleRequest.
Record t := mk {
  AccountId : Z;
  QueueName : bytes;
  ScheduleName : bytes;
  Description : bytes;
  Cron : bytes;
  Payload : bytes;
  DedupeKey : bytes;
  ExpiresInSeconds : Z;
  RetryStrategy : option RetryStrategy.t;
  Timezone : bytes;
  ExpectedVersion : Z;
}.
End UpdateScheduleRequest.

Module ReportSchedulesStatusRequest.
Record t := mk { ScheduleId : ScheduleId.t; NextScheduledAt : Z; LastEnqueuedFor : Z }.
End ReportSchedulesStatusRequest.

Module RunQueuesGarbageCollectionRequest.
Record t := mk {
  GcRecordsPageSize : Z; GcRecordSchedulesPageSize : Z; MaxVisitedSchedules : Z }.
End RunQueuesGarbageCollectionRequest.

(** Application errors ([mrpc.Error]). *)
Inductive QAppError : Set :=
  | queueNotFoundError (queueName : bytes)
  | queueIdNotFoundError (queueId : QueueId.t)
  | scheduleNotFoundError (queueName scheduleName : bytes)
  | scheduleIdNotFoundError (scheduleId : Z)
  | queueNameExistsError (queueName : bytes)
  | scheduleNameExistsError (scheduleName queueName : bytes)
  | maxQueuesReachedError (limit : Z)
  | maxSchedulesReachedError (limit : Z)
  | queueIdCollisionError (queueId : QueueId.t)
  | scheduleIdCollisionError (scheduleId : ScheduleId.t)
  | versionMismatchError (queueName : bytes) (actual expected : Z)
  | scheduleVersionMismatchError (queueName scheduleName : bytes) (actual expected : Z).

Inductive QResponse (A : Type) : Type :=
  | QError (e : QAppError)
  | QPayload (a : A).
Arguments QError {A} _.
Arguments QPayload {A} _.

(** ** Cron ([github.com/adhocore/gronx], [time.LoadLocation])

    The cron library and the time-zone database are not part of the program:
    [NextTickAfter cron now tz] is the next tick strictly after [now], in Unix
    nanoseconds. *)
Class CronLib : Type := {
  Location : Type;
  LoadLocation : bytes -> option Location;
  NextTickAfter : bytes -> Z -> Location -> option Z;
}.

(** "strictly after the reference time" ([inclRefTime = false]), an [int64]. *)
Class CronOk (C : CronLib) : Prop := {
  NextTickAfter_after cron now tz t :
    NextTickAfter cron now tz = Some t -> now < t /\ is_i64 t;
}.

(** A reference: every expression ticks each second of any time zone. *)
Definition cron_ref : CronLib := {|
  Location := unit;
  LoadLocation _ := Some tt;
  NextTickAfter _ now _ :=
    let t := (now / time_Second + 1) * time_Second in
    if bool_decide (is_i64 t) then Some t else None;
|}.

#[export] Instance cron_ref_ok : CronOk cron_ref.
Proof.
  split. intros cron now tz t. cbn. case_bool_decide as Ht; [|done]. intros [= <-]. split; [|done].
  pose proof (Z.mul_succ_div_gt now time_Second eq_refl). unfold time_Second in *. lia.
Qed.

(** ** Constants *)

Definition maxDequeueSchedules : Z := 250.
Definition defaultGCRecordsPageSize : Z := 100.
Definition defaultGCRecordSchedulesPageSize : Z := 250.
Definition defaultGCMaxVisitedSchedules : Z := 1000.

Section queues_core.
Context `{U : Utils} `{H : Honey} `{C : CronLib}.
Local Abbreviation T := (M QTxn).

(** [if err == ErrNotFound { return appErr }] around a lookup. *)
Definition found {A B} (o : option A) (e : QAppError) (k : A -> T (QResponse B))
    : T (QResponse B) :=
  match o with
  | None => mret (QError e)
  | Some a => k a
  end.

(** The inverse test: an existing row is the error. *)
Definition absent {A B} (o : option A) (e : QAppError) (k : T (QResponse B))
    : T (QResponse B) :=
  match o with
  | None => k
  | Some _ => mret (QError e)
  end.

(** ** Queues *)

Definition new_queue (req : CreateQueueRequest.t) (now : Z) : Queue.t :=
  Queue.mk (CreateQueueRequest.QueueId req) (CreateQueueRequest.Name req)
    (CreateQueueRequest.Description req) now now 1
    (CreateQueueRequest.KeepaliveTimeoutInSeconds req)
    (CreateQueueRequest.RetryStrategy req) (CreateQueueRequest.DequeuingSettings req)
    (CreateQueueRequest.DeadLetterQueueConfig req)
    (CreateQueueRequest.ExpiresInSeconds req) 0.

Definition CreateQueue (req : CreateQueueRequest.t) (now : Z) : T (QResponse Queue.t) :=
  let id := CreateQueueRequest.QueueId req in
  let accountId := QueueId.AccountId id in
  counters ← qcounters_Get accountId;
  byName ← queues_GetByName accountId (CreateQueueRequest.Name req);
  absent byName (queueNameExistsError (CreateQueueRequest.Name req))
    (if QueuesCounter.NumberOfQueues counters >=? CreateQueueRequest.MaxNumberOfQueues req
     then mret (QError (maxQueuesReachedError (CreateQueueRequest.MaxNumberOfQueues req)))
     else
       byId ← queues_Get id;
       absent byId (queueIdCollisionError id)
         (let queue := new_queue req now in
          queues_Create queue ;;
          qcounters_Set accountId
            (QueuesCounter.mk (i64 (QueuesCounter.NumberOfQueues counters + 1))) ;;
          mret (QPayload queue))).

Definition ListQueues (req : ListQueuesRequest.t) : T (QResponse listQueuesResult) :=
  result ← queues_List (ListQueuesRequest.AccountId req) (ListQueuesRequest.PaginationToken req)
             (GetLimitWithDefaults (ListQueuesRequest.Limit req));
  mret (QPayload result).

Definition GetQueue (id : QueueId.t) : T (QResponse Queue.t) :=
  queue ← queues_Get id;
  found queue (queueIdNotFoundError id) (fun queue => mret (QPayload queue)).

Definition GetQueueByName (req : QueueNameRequest.t) : T (QResponse Queue.t) :=
  queue ← queues_GetByName (QueueNameRequest.AccountId req) (QueueNameRequest.QueueName req);
  found queue (queueNotFoundError (QueueNameRequest.QueueName req))
    (fun queue => mret (QPayload queue)).

Definition updated_queue (req : UpdateQueueRequest.t) (now : Z) (queue : Queue.t) : Queue.t :=
  Queue.mk (Queue.Id queue) (Queue.Name queue) (UpdateQueueRequest.Description req)
    (Queue.CreatedAt queue) now (i64 (Queue.Version queue + 1))
    (UpdateQueueRequest.KeepaliveTimeoutInSeconds req)
    (UpdateQueueRequest.RetryStrategy req) (UpdateQueueRequest.DequeuingSettings req)
    (UpdateQueueRequest.DeadLetterQueueConfig req)
    (UpdateQueueRequest.ExpiresInSeconds req) (Queue.SchedulesCount queue).

Definition UpdateQueue (req : UpdateQueueRequest.t) (now : Z) : T (QResponse Queue.t) :=
  queue ← queues_GetByName (UpdateQueueRequest.AccountId req) (UpdateQueueRequest.QueueName req);
  found queue (queueNotFoundError (UpdateQueueRequest.QueueName req)) (fun queue =>
    if negb (Queue.Version queue =? UpdateQueueRequest.ExpectedVersion req)
    then mret (QError (versionMismatchError (UpdateQueueRequest.QueueName req)
                         (Queue.Version queue) (UpdateQueueRequest.ExpectedVersion req)))
    else
      let queue := updated_queue req now queue in
      queues_Update queue ;;
      mret (QPayload queue)).

Definition DeleteQueue (req : QueueNameRequest.t) : T (QResponse QueueId.t) :=
  queue ← queues_GetByName (QueueNameRequest.AccountId req) (QueueNameRequest.QueueName req);
  found queue (queueNotFoundError (QueueNameRequest.QueueName req)) (fun queue =>
    let accountId := QueueId.AccountId (Queue.Id queue) in
    counters ← qcounters_Get accountId;
    queues_Delete queue ;;
    qcounters_Set accountId
      (QueuesCounter.mk (i64 (QueuesCounter.NumberOfQueues counters - 1))) ;;
    gcRecords_Create (QueuesGarbageCollectionRecord.mk (Queue.Id queue)) ;;
    mret (QPayload (Queue.Id queue))).

Definition swapped_queue (newQueueId : QueueId.t) (now : Z) (queue : Queue.t) : Queue.t :=
  Queue.mk newQueueId (Queue.Name queue) (Queue.Description queue) (Queue.CreatedAt queue)
    now (i64 (Queue.Version queue + 1)) (Queue.KeepaliveTimeoutInSeconds queue)
    (Queue.RetryStrategy queue) (Queue.DequeuingSettings queue)
    (Queue.DeadLetterQueueConfig queue) (Queue.ExpiresInSeconds queue)
    (Queue.SchedulesCount queue).

Definition rekeyed (newQueueId : QueueId.t) (schedule : Schedule.t) : Schedule.t :=
  Schedule.set_Id (ScheduleId.mk (QueueId.AccountId newQueueId) (QueueId.QueueId newQueueId)
                     (ScheduleId.ScheduleId (Schedule.Id schedule))) schedule.

Definition move_schedule (newQueueId : QueueId.t) (schedule : Schedule.t) : T unit :=
  schedules_Delete schedule ;;
  schedules_Create (rekeyed newQueueId schedule).

(** The [for] loop over the pages of the old queue's schedules. *)
Fixpoint move_schedules (fuel : nat) (oldQueueId newQueueId : QueueId.t)
    (paginationToken : option CorePaginationToken.t) : T unit :=
  match fuel with
  | O => fail ErrOutOfFuel
  | S fuel =>
      result ← schedules_List oldQueueId paginationToken defaultGCRecordSchedulesPageSize;
      for_each (lsr_Schedules result) (move_schedule newQueueId) ;;
      match lsr_NextPaginationToken result with
      | None => mret tt
      | Some tok => move_schedules fuel oldQueueId newQueueId (Some tok)
      end
  end.

Definition SwapQueueId (req : SwapQueueIdRequest.t) (now : Z)
    : T (QResponse (Queue.t * QueueId.t)) :=
  queue ← queues_GetByName (SwapQueueIdRequest.AccountId req) (SwapQueueIdRequest.QueueName req);
  found queue (queueNotFoundError (SwapQueueIdRequest.QueueName req)) (fun queue =>
    let oldQueueId := Queue.Id queue in
    let newQueueId := QueueId.mk (SwapQueueIdRequest.AccountId req)
                        (SwapQueueIdRequest.NewQueueId req) in
    byId ← queues_Get newQueueId;
    absent byId (queueIdCollisionError newQueueId)
      (let newQueue := swapped_queue newQueueId now queue in
       fuel ← gets (fun s => S (length (bt_EachEntry (schedules_table (schedules s)))));
       move_schedules fuel oldQueueId newQueueId None ;;
       queues_SwapId oldQueueId newQueue ;;
       mret (QPayload (newQueue, oldQueueId)))).

(** ** Schedules *)

(** [time.LoadLocation] followed by [gronx.NextTickAfter]. *)
Definition next_tick (cron timezone : bytes) (now : Z) : T Z :=
  match LoadLocation timezone with
  | None => fail ErrCron
  | Some tz =>
      match NextTickAfter cron now tz with
      | None => fail ErrCron
      | Some t => mret t
      end
  end.

Definition new_schedule (req : CreateScheduleRequest.t) (now : Z) (id : ScheduleId.t)
    (next : Z) : Schedule.t :=
  Schedule.mk id (CreateScheduleRequest.ScheduleName req) (CreateScheduleRequest.Description req)
    now now 1 (CreateScheduleRequest.Cron req) (CreateScheduleRequest.Payload req)
    (CreateScheduleRequest.DedupeKey req) (CreateScheduleRequest.ExpiresInSeconds req)
    (CreateScheduleRequest.RetryStrategy req) (CreateScheduleRequest.Timezone req) 0 next 0.

Definition CreateSchedule (req : CreateScheduleRequest.t) (now : Z) : T (QResponse Schedule.t) :=
  queue ← queues_GetByName (CreateScheduleRequest.AccountId req)
            (CreateScheduleRequest.QueueName req);
  found queue (queueNotFoundError (CreateScheduleRequest.QueueName req)) (fun queue =>
    let scheduleId := ScheduleId.mk (CreateScheduleRequest.AccountId req)
      (QueueId.QueueId (Queue.Id queue)) (CreateScheduleRequest.ScheduleId req) in
    byId ← schedules_Get scheduleId;
    absent byId (scheduleIdCollisionError scheduleId)
      (let limit := CreateScheduleRequest.MaxNumberOfSchedulesPerQueue req in
       if Queue.SchedulesCount queue >=? limit
       then mret (QError (maxSchedulesReachedError limit))
       else
         byName ← schedules_GetByName (Queue.Id queue) (CreateScheduleRequest.ScheduleName req);
         absent byName
           (scheduleNameExistsError (CreateScheduleRequest.ScheduleName req) (Queue.Name queue))
           (next ← next_tick (CreateScheduleRequest.Cron req) (CreateScheduleRequest.Timezone req) now;
            let schedule := new_schedule req now scheduleId next in
            schedules_Create schedule ;;
            queues_Update (Queue.set_SchedulesCount (i64 (Queue.SchedulesCount queue + 1)) queue) ;;
            mret (QPayload schedule)))).

Definition GetSchedule (req : ScheduleNameRequest.t) : T (QResponse Schedule.t) :=
  queue ← queues_GetByName (ScheduleNameRequest.AccountId req) (ScheduleNameRequest.QueueName req);
  found queue (queueNotFoundError (ScheduleNameRequest.QueueName req)) (fun queue =>
    schedule ← schedules_GetByName (Queue.Id queue) (ScheduleNameRequest.ScheduleName req);
    found schedule
      (scheduleNotFoundError (Queue.Name queue) (ScheduleNameRequest.ScheduleName req))
      (fun schedule => mret (QPayload schedule))).

Definition ListSchedules (req : ListSchedulesRequest.t) : T (QResponse listSchedulesResult) :=
  result ← schedules_List (ListSchedulesRequest.QueueId req)
             (ListSchedulesRequest.PaginationToken req)
             (GetLimitWithDefaults (ListSchedulesRequest.Limit req));
  mret (QPayload result).

Definition updated_schedule (req : UpdateScheduleRequest.t) (now next : Z)
    (schedule : Schedule.t) : Schedule.t :=
  Schedule.mk (Schedule.Id schedule) (Schedule.Name schedule)
    (UpdateScheduleRequest.Description req) (Schedule.CreatedAt schedule) now
    (i64 (Schedule.Version schedule + 1)) (UpdateScheduleRequest.Cron req)
    (UpdateScheduleRequest.Payload req) (UpdateScheduleRequest.DedupeKey req)
    (UpdateScheduleRequest.ExpiresInSeconds req) (UpdateScheduleRequest.RetryStrategy req)
    (UpdateScheduleRequest.Timezone req) (Schedule.LastCheckedAt schedule) next
    (Schedule.LastEnqueuedFor schedule).

Definition UpdateSchedule (req : UpdateScheduleRequest.t) (now : Z) : T (QResponse Schedule.t) :=
  queue ← queues_GetByName (UpdateScheduleRequest.AccountId req)
            (UpdateScheduleRequest.QueueName req);
  found queue (queueNotFoundError (UpdateScheduleRequest.QueueName req)) (fun queue =>
    schedule ← schedules_GetByName (Queue.Id queue) (UpdateScheduleRequest.ScheduleName req);
    found schedule
      (scheduleNotFoundError (Queue.Name queue) (UpdateScheduleRequest.ScheduleName req))
      (fun schedule =>
         if negb (Schedule.Version schedule =? UpdateScheduleRequest.ExpectedVersion req)
         then mret (QError (scheduleVersionMismatchError (UpdateScheduleRequest.QueueName req)
                              (UpdateScheduleRequest.ScheduleName req) (Schedule.Version schedule)
                              (UpdateScheduleRequest.ExpectedVersion req)))
         else
           next ← next_tick (UpdateScheduleRequest.Cron req) (UpdateScheduleRequest.Timezone req) now;
           let schedule := updated_schedule req now next schedule in
           schedules_Update schedule ;;
           mret (QPayload schedule))).

Definition DeleteSchedule (req : ScheduleNameRequest.t) : T (QResponse unit) :=
  queue ← queues_GetByName (ScheduleNameRequest.AccountId req) (ScheduleNameRequest.QueueName req);
  found queue (queueNotFoundError (ScheduleNameRequest.QueueName req)) (fun queue =>
    schedule ← schedules_GetByName (Queue.Id queue) (ScheduleNameRequest.ScheduleName req);
    found schedule
      (scheduleNotFoundError (Queue.Name queue) (ScheduleNameRequest.ScheduleName req))
      (fun schedule =>
         schedules_Delete schedule ;;
         queues_Update (Queue.set_SchedulesCount (i64 (Queue.SchedulesCount queue - 1)) queue) ;;
         mret (QPayload tt))).

Definition DequeSchedules (dueBefore : Z) : T (QResponse (list (Schedule.t * Queue.t))) :=
  due ← schedules_ListDue dueBefore maxDequeueSchedules;
  entries ← for_map due (fun schedule =>
    queue ← queues_Get (QueueId.mk (ScheduleId.AccountId (Schedule.Id schedule))
                          (ScheduleId.QueueId (Schedule.Id schedule)));
    queue ← orNotFound queue;
    mret (schedule, queue));
  mret (QPayload entries).

Definition checked_schedule (req : ReportSchedulesStatusRequest.t) (now : Z)
    (schedule : Schedule.t) : Schedule.t :=
  let schedule := Schedule.set_NextScheduledAt
    (ReportSchedulesStatusRequest.NextScheduledAt req) schedule in
  let schedule := Schedule.set_LastCheckedAt now schedule in
  if negb (ReportSchedulesStatusRequest.LastEnqueuedFor req =? 0)
  then Schedule.set_LastEnqueuedFor (ReportSchedulesStatusRequest.LastEnqueuedFor req) schedule
  else schedule.

Definition ReportSchedulesStatus (req : ReportSchedulesStatusRequest.t) (now : Z)
    : T (QResponse unit) :=
  let id := ReportSchedulesStatusRequest.ScheduleId req in
  schedule ← schedules_Get id;
  found schedule (scheduleIdNotFoundError (ScheduleId.ScheduleId id)) (fun schedule =>
    schedules_Update (checked_schedule req now schedule) ;;
    mret (QPayload tt)).

(** ** Garbage collection *)

(** Deletes one page of schedules; [true] once the budget is spent. *)
Fixpoint gc_schedules (maxVisitedSchedules : Z) (page : list Schedule.t) (visited : Z)
    : T (Z * bool) :=
  match page with
  | [] => mret (visited, false)
  | schedule :: page =>
      schedules_Delete schedule ;;
      if visited + 1 >=? maxVisitedSchedules then mret (visited + 1, true)
      else gc_schedules maxVisitedSchedules page (visited + 1)
  end.

(** [recordsLoop] *)
Fixpoint gc_records (pageSize maxVisitedSchedules : Z)
    (records : list QueuesGarbageCollectionRecord.t) (visited : Z) : T unit :=
  match records with
  | [] => mret tt
  | gcRecord :: records =>
      result ← schedules_List (QueuesGarbageCollectionRecord.QueueId gcRecord) None pageSize;
      r ← gc_schedules maxVisitedSchedules (lsr_Schedules result) visited;
      if r.2 : bool then mret tt
      else
        match lsr_NextPaginationToken result with
        | None => gcRecords_Delete gcRecord
        | Some _ => mret tt
        end ;;
        gc_records pageSize maxVisitedSchedules records r.1
  end.

Definition page_or_default (n d : Z) : Z := if n <=? 0 then d else n.

Definition RunQueuesGarbageCollection (req : RunQueuesGarbageCollectionRequest.t)
    : T (QResponse unit) :=
  let gcRecordsPageSize := page_or_default
    (RunQueuesGarbageCollectionRequest.GcRecordsPageSize req) defaultGCRecordsPageSize in
  let gcRecordSchedulesPageSize := page_or_default
    (RunQueuesGarbageCollectionRequest.GcRecordSchedulesPageSize req)
    defaultGCRecordSchedulesPageSize in
  let maxVisitedSchedules := page_or_default
    (RunQueuesGarbageCollectionRequest.MaxVisitedSchedules req) defaultGCMaxVisitedSchedules in
  records ← gcRecords_List gcRecordsPageSize;
  gc_records gcRecordSchedulesPageSize maxVisitedSchedules records 0 ;;
  mret (QPayload tt).
End queues_core.
