(* ===== verification/QueuesView.v ===== *)
(** * The queues core over its contents

    [QView] is what the tables and indexes of a queues core hold, independent of how the
    store represents them; [wpq m v Q] is total correctness of a computation started with
    contents [v], with one rule per table method. *)

From S2P Require Export QueuesCore Rows.

Record QView := mkQView {
  q_table : gmap bytes Queue.t;
  q_names : gmap bytes Z;
  q_cnt : gmap bytes QueuesCounter.t;
  q_sched : gmap bytes Schedule.t;
  q_snames : gmap bytes Z;
  q_due : gset bytes;
  q_gc : gmap bytes QueuesGarbageCollectionRecord.t;
}.

Definition set_q_table x v := mkQView x (q_names v) (q_cnt v) (q_sched v) (q_snames v) (q_due v) (q_gc v).
Definition set_q_names x v := mkQView (q_table v) x (q_cnt v) (q_sched v) (q_snames v) (q_due v) (q_gc v).
Definition set_q_cnt x v := mkQView (q_table v) (q_names v) x (q_sched v) (q_snames v) (q_due v) (q_gc v).
Definition set_q_sched x v := mkQView (q_table v) (q_names v) (q_cnt v) x (q_snames v) (q_due v) (q_gc v).
Definition set_q_snames x v := mkQView (q_table v) (q_names v) (q_cnt v) (q_sched v) x (q_due v) (q_gc v).
Definition set_q_due x v := mkQView (q_table v) (q_names v) (q_cnt v) (q_sched v) (q_snames v) x (q_gc v).
Definition set_q_gc x v := mkQView (q_table v) (q_names v) (q_cnt v) (q_sched v) (q_snames v) (q_due v) x.

Definition empty_qview : QView := mkQView ∅ ∅ ∅ ∅ ∅ ∅ ∅.

Section qview.
Context {U : Utils} {H : Honey} {HO : HoneyOk H}.

Definition qview (s : QTxn) : QView := mkQView
  (bt_den (queues_table (queues s))) (bt_den (V := Z) (queues_namesIndex (queues s)))
  (bt_den (qcounters s))
  (bt_den (schedules_table (schedules s))) (bt_den (V := Z) (schedules_namesIndex (schedules s)))
  (si_den (scheduledIndex (schedules s))) (bt_den (gcRecords s)).

Lemma qview_new : qview QNewCore = empty_qview.
Proof. unfold qview, Uint64Table. cbn. by rewrite !bt_den_new, si_den_new. Qed.

Definition wpq {A} (m : M QTxn A) (v : QView) (Q : A -> QView -> Prop) : Prop :=
  forall s, qview s = v -> wp m s (fun a s' => Q a (qview s')).

(** ** Structural rules *)

Lemma wpq_ret {A} (a : A) v (Q : A -> QView -> Prop) : Q a v -> wpq (mret a) v Q.
Proof. by intros HQ s <-. Qed.

Lemma wpq_bind {A B} (m : M QTxn A) (f : A -> M QTxn B) v Q :
  wpq m v (fun a v' => wpq (f a) v' Q) -> wpq (m ≫= f) v Q.
Proof.
  intros Hm s Hs. apply wp_bind. eapply wp_mono; [by apply Hm|].
  intros a s' Ha. by apply Ha.
Qed.

Lemma wpq_mono {A} (m : M QTxn A) v (Q Q' : A -> QView -> Prop) :
  wpq m v Q -> (forall a v', Q a v' -> Q' a v') -> wpq m v Q'.
Proof. intros Hm HQ s Hs. eapply wp_mono; [by apply Hm|]. auto. Qed.

Lemma wpq_when (b : bool) (m : M QTxn unit) v (Q : unit -> QView -> Prop) :
  (b = true -> wpq m v Q) -> (b = false -> Q tt v) -> wpq (when b m) v Q.
Proof. unfold when. destruct b; intros; [auto|by apply wpq_ret; auto]. Qed.

Lemma wpq_orNotFound {A} (o : option A) a v (Q : A -> QView -> Prop) :
  o = Some a -> Q a v -> wpq (orNotFound o) v Q.
Proof. intros -> HQ. by apply wpq_ret. Qed.

Lemma wpq_found {A B} (o : option A) e (k : A -> M QTxn (QResponse B)) v Q :
  (o = None -> Q (QError e) v) -> (forall a, o = Some a -> wpq (k a) v Q) ->
  wpq (found o e k) v Q.
Proof. destruct o; cbn; [auto|]. intros HQ _. apply wpq_ret. auto. Qed.

Lemma wpq_absent {A B} (o : option A) e (k : M QTxn (QResponse B)) v Q :
  (o <> None -> Q (QError e) v) -> (o = None -> wpq k v Q) -> wpq (absent o e k) v Q.
Proof. destruct o; cbn; [intros HQ _; apply wpq_ret; auto|auto]. Qed.

Lemma wpq_for_each {A} (f : A -> M QTxn unit) (I : list A -> QView -> Prop) l v Q :
  I l v ->
  (forall x l' v, I (x :: l') v -> wpq (f x) v (fun _ v' => I l' v')) ->
  (forall v, I [] v -> Q tt v) ->
  wpq (for_each l f) v Q.
Proof.
  intros HI Hstep HQ s <-.
  apply (wp_for_each f (fun l s => I l (qview s))); [done| |auto].
  intros x l' s' HI'. exact (Hstep x l' _ HI' s' eq_refl).
Qed.

Lemma wpq_for_map {A B} (f : A -> M QTxn B)
    (I : list A -> list B -> QView -> Prop) l v (Q : list B -> QView -> Prop) :
  I l [] v ->
  (forall x l' ys v, I (x :: l') ys v -> wpq (f x) v (fun y v' => I l' (ys ++ [y]) v')) ->
  (forall ys v, I [] ys v -> Q ys v) ->
  wpq (for_map l f) v Q.
Proof.
  intros HI Hstep HQ s <-.
  apply (wp_for_map f (fun l ys s => I l ys (qview s))); [done| |auto].
  intros x l' ys s' HI'. exact (Hstep x l' ys _ HI' s' eq_refl).
Qed.

(** ** Table methods *)

Lemma wpq_queues_Get id v (Q : option Queue.t -> QView -> Prop) :
  Q (q_table v !! queue_key id) v -> wpq (queues_Get id) v Q.
Proof. intros HQ s <-. apply wp_gets. by rewrite bt_Get_spec. Qed.

Lemma wpq_queues_GetByName a name v (Q : option Queue.t -> QView -> Prop) :
  Q (q_names v !! queues_namesIndexPK a name ≫= fun n => q_table v !! queue_key (QueueId.mk a n)) v ->
  wpq (queues_GetByName a name) v Q.
Proof.
  intros HQ s <-. apply wp_bind, wp_gets. rewrite bt_Get_spec. cbn in HQ.
  destruct (bt_den _ !! queues_namesIndexPK a name); [|by apply wp_ret].
  apply wp_gets. by rewrite bt_Get_spec.
Qed.

Lemma wpq_queues_namesIndex_Set k n v (Q : unit -> QView -> Prop) :
  Q tt (set_q_names (<[k := n]> (q_names v)) v) -> wpq (queues_namesIndex_Set k n) v Q.
Proof. intros HQ s <-. apply wp_modify. unfold qview, Uint64Table. cbn. by rewrite bt_Set_spec. Qed.
Lemma wpq_queues_namesIndex_Delete k v (Q : unit -> QView -> Prop) :
  Q tt (set_q_names (delete k (q_names v)) v) -> wpq (queues_namesIndex_Delete k) v Q.
Proof. intros HQ s <-. apply wp_modify. unfold qview, Uint64Table. cbn. by rewrite bt_Delete_spec. Qed.
Lemma wpq_queues_table_Set queue v (Q : unit -> QView -> Prop) :
  Q tt (set_q_table (<[queue_key (Queue.Id queue) := queue]> (q_table v)) v) ->
  wpq (queues_table_Set queue) v Q.
Proof. intros HQ s <-. apply wp_modify. unfold qview. cbn. by rewrite bt_Set_spec. Qed.
Lemma wpq_queues_table_Delete id v (Q : unit -> QView -> Prop) :
  Q tt (set_q_table (delete (queue_key id) (q_table v)) v) -> wpq (queues_table_Delete id) v Q.
Proof. intros HQ s <-. apply wp_modify. unfold qview. cbn. by rewrite bt_Delete_spec. Qed.

Lemma wpq_schedules_Get id v (Q : option Schedule.t -> QView -> Prop) :
  Q (q_sched v !! schedule_key id) v -> wpq (schedules_Get id) v Q.
Proof. intros HQ s <-. apply wp_gets. by rewrite bt_Get_spec. Qed.

Lemma wpq_schedules_GetByName qid name v (Q : option Schedule.t -> QView -> Prop) :
  let a := QueueId.AccountId qid in let q := QueueId.QueueId qid in
  Q (q_snames v !! schedules_namesIndexPK a q name ≫=
       fun n => q_sched v !! schedule_key (ScheduleId.mk a q n)) v ->
  wpq (schedules_GetByName qid name) v Q.
Proof.
  intros a q HQ s <-. apply wp_bind, wp_gets. rewrite bt_Get_spec. cbn in HQ. fold a q.
  destruct (bt_den _ !! schedules_namesIndexPK a q name); [|by apply wp_ret].
  apply wp_gets. by rewrite bt_Get_spec.
Qed.

Lemma wpq_scheduledIndex_Add k v (Q : unit -> QView -> Prop) :
  Q tt (set_q_due ({[k]} ∪ q_due v) v) -> wpq (scheduledIndex_Add k) v Q.
Proof. intros HQ s <-. apply wp_modify. unfold qview. cbn. by rewrite si_Add_spec. Qed.
Lemma wpq_scheduledIndex_Delete k v (Q : unit -> QView -> Prop) :
  Q tt (set_q_due (q_due v ∖ {[k]}) v) -> wpq (scheduledIndex_Delete k) v Q.
Proof. intros HQ s <-. apply wp_modify. unfold qview. cbn. by rewrite si_Delete_spec. Qed.
Lemma wpq_schedules_namesIndex_Set k n v (Q : unit -> QView -> Prop) :
  Q tt (set_q_snames (<[k := n]> (q_snames v)) v) -> wpq (schedules_namesIndex_Set k n) v Q.
Proof. intros HQ s <-. apply wp_modify. unfold qview, Uint64Table. cbn. by rewrite bt_Set_spec. Qed.
Lemma wpq_schedules_namesIndex_Delete k v (Q : unit -> QView -> Prop) :
  Q tt (set_q_snames (delete k (q_snames v)) v) -> wpq (schedules_namesIndex_Delete k) v Q.
Proof. intros HQ s <-. apply wp_modify. unfold qview, Uint64Table. cbn. by rewrite bt_Delete_spec. Qed.
Lemma wpq_schedules_table_Set sc v (Q : unit -> QView -> Prop) :
  Q tt (set_q_sched (<[schedule_key (Schedule.Id sc) := sc]> (q_sched v)) v) ->
  wpq (schedules_table_Set sc) v Q.
Proof. intros HQ s <-. apply wp_modify. unfold qview. cbn. by rewrite bt_Set_spec. Qed.
Lemma wpq_schedules_table_Delete id v (Q : unit -> QView -> Prop) :
  Q tt (set_q_sched (delete (schedule_key id) (q_sched v)) v) -> wpq (schedules_table_Delete id) v Q.
Proof. intros HQ s <-. apply wp_modify. unfold qview. cbn. by rewrite bt_Delete_spec. Qed.

Lemma wpq_qcounters_Get a v (Q : QueuesCounter.t -> QView -> Prop) :
  Q (default QueuesCounter.zero (q_cnt v !! counters_tablePK a)) v -> wpq (qcounters_Get a) v Q.
Proof. intros HQ s <-. apply wp_gets. by rewrite bt_Get_spec. Qed.
Lemma wpq_qcounters_Set a c v (Q : unit -> QView -> Prop) :
  Q tt (set_q_cnt (<[counters_tablePK a := c]> (q_cnt v)) v) -> wpq (qcounters_Set a c) v Q.
Proof. intros HQ s <-. apply wp_modify. unfold qview. cbn. by rewrite bt_Set_spec. Qed.

Definition gc_key (r : QueuesGarbageCollectionRecord.t) : bytes :=
  let q := QueuesGarbageCollectionRecord.QueueId r in
  gcRecords_tablePK (QueueId.AccountId q) (QueueId.QueueId q).

Lemma wpq_gcRecords_Create r v (Q : unit -> QView -> Prop) :
  Q tt (set_q_gc (<[gc_key r := r]> (q_gc v)) v) -> wpq (gcRecords_Create r) v Q.
Proof. intros HQ s <-. apply wp_modify. unfold qview. cbn. by rewrite bt_Set_spec. Qed.
Lemma wpq_gcRecords_Delete r v (Q : unit -> QView -> Prop) :
  Q tt (set_q_gc (delete (gc_key r) (q_gc v)) v) -> wpq (gcRecords_Delete r) v Q.
Proof. intros HQ s <-. apply wp_modify. unfold qview. cbn. by rewrite bt_Delete_spec. Qed.

Lemma wpq_gcRecords_List v limit (Q : list QueuesGarbageCollectionRecord.t -> QView -> Prop) :
  0 < limit ->
  (forall rs, Z.of_nat (length rs) <= limit -> Forall (fun r => exists k, q_gc v !! k = Some r) rs ->
     (Z.of_nat (length rs) < limit -> forall k r, q_gc v !! k = Some r -> r ∈ rs) -> Q rs v) ->
  wpq (gcRecords_List limit) v Q.
Proof.
  intros Hlim HQ s <-. apply wp_gets.
  destruct (bt_first_rows (gcRecords s) limit Hlim) as (H1 & H2 & H3). by apply HQ.
Qed.
End qview.

(** [qstep] runs the next table operation of a computation. *)
Ltac qstep :=
  first
    [ apply wpq_bind
    | apply wpq_ret
    | apply wpq_queues_Get | apply wpq_queues_GetByName
    | apply wpq_queues_namesIndex_Set | apply wpq_queues_namesIndex_Delete
    | apply wpq_queues_table_Set | apply wpq_queues_table_Delete
    | apply wpq_schedules_Get | apply wpq_schedules_GetByName
    | apply wpq_scheduledIndex_Add | apply wpq_scheduledIndex_Delete
    | apply wpq_schedules_namesIndex_Set | apply wpq_schedules_namesIndex_Delete
    | apply wpq_schedules_table_Set | apply wpq_schedules_table_Delete
    | apply wpq_qcounters_Get | apply wpq_qcounters_Set
    | apply wpq_gcRecords_Create | apply wpq_gcRecords_Delete ].
Ltac qsteps := repeat (qstep; cbv beta).
