(* ===== verification/QueuesInv.v ===== *)
(** * The invariant of the queues core

    Key layouts of [pkg/queues], and the relation between its primary tables (queues,
    schedules, garbage-collection records) and what is derived from them: the two name
    indexes, the due index and the two counts. *)

From S2P Require Export QueuesView.

#[local] Ltac unfold_keys := cbn [fmap list_fmap arg_bytes concat].

Definition wf_qid (i : QueueId.t) : Prop :=
  is_u64 (QueueId.AccountId i) /\ is_u64 (QueueId.QueueId i).
Definition wf_sid (i : ScheduleId.t) : Prop :=
  is_u64 (ScheduleId.AccountId i) /\ is_u64 (ScheduleId.QueueId i) /\
  is_u64 (ScheduleId.ScheduleId i).

(** The queue a schedule belongs to. *)
Definition owner (s : Schedule.t) : QueueId.t :=
  QueueId.mk (ScheduleId.AccountId (Schedule.Id s)) (ScheduleId.QueueId (Schedule.Id s)).

#[export] Instance Schedule_eq_dec : EqDecision Schedule.t.
Proof. solve_decision. Defined.

(** ** Keys *)

Section queue_key_lemmas.
Context {U : Utils} {UO : UtilsOk U}.

Lemma qid_key_eq i : queue_key i = be64 (QueueId.AccountId i) ++ be64 (QueueId.QueueId i).
Proof.
  unfold queue_key, queues_tablePK, queues_tableSK. rewrite !ConcatBytes_spec. unfold_keys.
  by rewrite !app_nil_r.
Qed.
Lemma gc_pk_eq i : gcRecords_tablePK (QueueId.AccountId i) (QueueId.QueueId i) = queue_key i.
Proof. unfold gcRecords_tablePK. rewrite qid_key_eq, ConcatBytes_spec. unfold_keys. by rewrite app_nil_r. Qed.
Lemma sched_pk_eq i : schedules_tablePK (QueueId.AccountId i) (QueueId.QueueId i) = queue_key i.
Proof. apply gc_pk_eq. Qed.
Lemma sid_key_eq i : schedule_key i =
  be64 (ScheduleId.AccountId i) ++ be64 (ScheduleId.QueueId i) ++ be64 (ScheduleId.ScheduleId i).
Proof.
  unfold schedule_key, schedules_tablePK, schedules_tableSK. rewrite !ConcatBytes_spec. unfold_keys.
  by rewrite !app_nil_r, <-app_assoc.
Qed.
Lemma names_pk_eq a n : queues_namesIndexPK a n = be64 a ++ n.
Proof. unfold queues_namesIndexPK. rewrite ConcatBytes_spec. unfold_keys. by rewrite app_nil_r. Qed.
Lemma snames_pk_eq a q n : schedules_namesIndexPK a q n = be64 a ++ be64 q ++ n.
Proof. unfold schedules_namesIndexPK. rewrite ConcatBytes_spec. unfold_keys. by rewrite app_nil_r. Qed.
Lemma due_prefix_eq t : scheduledIndexPKPrefix t = be64 t.
Proof. unfold scheduledIndexPKPrefix. rewrite ConcatBytes_spec. unfold_keys. by rewrite app_nil_r. Qed.
Lemma due_key_eq s : schedule_due_key s = be64 (Schedule.NextScheduledAt s) ++ schedule_key (Schedule.Id s).
Proof.
  unfold schedule_due_key, scheduledIndexPK. rewrite ConcatBytes_spec, sid_key_eq. unfold_keys.
  by rewrite app_nil_r.
Qed.
Lemma cnt_pk_eq a : counters_tablePK a = be64 a.
Proof. unfold counters_tablePK. rewrite ConcatBytes_spec. unfold_keys. by rewrite app_nil_r. Qed.

Lemma be64_split a b x y : be64 a ++ x = be64 b ++ y -> be64 a = be64 b /\ x = y.
Proof. intros. apply app_eq_same_length; [by rewrite !length_be64|done]. Qed.

Lemma queue_key_inj i j : wf_qid i -> wf_qid j -> queue_key i = queue_key j -> i = j.
Proof.
  destruct i, j. intros [] []. rewrite !qid_key_eq. intros [? ?]%be64_split.
  f_equal; by apply be64_inj_u64.
Qed.
Lemma schedule_key_inj i j : wf_sid i -> wf_sid j -> schedule_key i = schedule_key j -> i = j.
Proof.
  destruct i, j. intros (?&?&?) (?&?&?). rewrite !sid_key_eq.
  intros [? [? ?]%be64_split]%be64_split. f_equal; by apply be64_inj_u64.
Qed.
Lemma names_pk_inj a n a' n' :
  is_u64 a -> is_u64 a' -> queues_namesIndexPK a n = queues_namesIndexPK a' n' -> a = a' /\ n = n'.
Proof. rewrite !names_pk_eq. intros ?? [? ?]%be64_split. eauto using be64_inj_u64. Qed.
Lemma snames_pk_inj a q n a' q' n' :
  is_u64 a -> is_u64 q -> is_u64 a' -> is_u64 q' ->
  schedules_namesIndexPK a q n = schedules_namesIndexPK a' q' n' -> a = a' /\ q = q' /\ n = n'.
Proof.
  rewrite !snames_pk_eq. intros ???? [? [? ?]%be64_split]%be64_split. eauto using be64_inj_u64.
Qed.
Lemma cnt_pk_inj a a' : is_u64 a -> is_u64 a' -> counters_tablePK a = counters_tablePK a' -> a = a'.
Proof. rewrite !cnt_pk_eq. apply be64_inj_u64. Qed.

(** A scan under a queue's partition key sees that queue's schedules only. *)
Lemma schedule_key_prefix i s :
  wf_qid i -> wf_sid (Schedule.Id s) ->
  queue_key i `prefix_of` schedule_key (Schedule.Id s) <-> owner s = i.
Proof.
  intros Hi (Ha & Hq & _).
  assert (schedule_key (Schedule.Id s) =
    queue_key (owner s) ++ be64 (ScheduleId.ScheduleId (Schedule.Id s))) as ->
    by (rewrite sid_key_eq, qid_key_eq, app_assoc; done). split.
  - intros Hp. rewrite <-(app_nil_r (queue_key i)) in Hp.
    apply prefix_app_same_length in Hp as [Hp _];
      [|by rewrite !qid_key_eq, !length_app, !length_be64].
    symmetry. by apply queue_key_inj.
  - intros <-. by apply prefix_app_r.
Qed.

Lemma due_item_id_key s : wf_sid (Schedule.Id s) -> due_item_id (schedule_due_key s) = Schedule.Id s.
Proof.
  rewrite due_key_eq. generalize (Schedule.Id s), (Schedule.NextScheduledAt s). clear s.
  intros [a q n] t (Ha & Hq & Hn). cbn in Ha, Hq, Hn. rewrite sid_key_eq. unfold due_item_id.
  cbn [ScheduleId.AccountId ScheduleId.QueueId ScheduleId.ScheduleId].
  rewrite (drop_app_length' (be64 t)) by (by rewrite length_be64).
  rewrite (take_app_length' (be64 a)) by (by rewrite length_be64).
  rewrite (app_assoc (be64 t)), (drop_app_length' (be64 t ++ be64 a))
    by (by rewrite length_app, !length_be64).
  rewrite (take_app_length' (be64 q)) by (by rewrite length_be64).
  rewrite (app_assoc _ (be64 q)), (drop_app_length' ((be64 t ++ be64 a) ++ be64 q))
    by (by rewrite !length_app, !length_be64).
  rewrite take_ge by (by rewrite length_be64).
  by rewrite !BytesToUint64_spec, !u64_id.
Qed.
End queue_key_lemmas.

(** ** The invariant *)

Section queue_invariant.
Context {U : Utils} {UO : UtilsOk U}.
Implicit Types (v : QView) (x : Queue.t) (s : Schedule.t).

Definition wf_queue_row x : Prop := wf_qid (Queue.Id x).
Definition wf_schedule s : Prop := wf_sid (Schedule.Id s) /\ is_i64 (Schedule.NextScheduledAt s).
Definition wf_record (r : QueuesGarbageCollectionRecord.t) : Prop :=
  wf_qid (QueuesGarbageCollectionRecord.QueueId r).

Definition row_key x : bytes := queue_key (Queue.Id x).
Definition row_num x : Z := QueueId.QueueId (Queue.Id x).
Definition skey s : bytes := schedule_key (Schedule.Id s).
Definition snum s : Z := ScheduleId.ScheduleId (Schedule.Id s).

Definition of_account (a : Z) x : Prop := QueueId.AccountId (Queue.Id x) = a.
Definition of_queue (i : QueueId.t) s : Prop := owner s = i.
#[export] Instance of_account_dec a x : Decision (of_account a x).
Proof. unfold of_account. apply _. Defined.
#[export] Instance of_queue_dec i s : Decision (of_queue i s).
Proof. unfold of_queue. apply _. Defined.

(** A queue or schedule of the store. *)
Definition has_queue v x : Prop := stores row_key (q_table v) x.
Definition has_schedule v s : Prop := stores skey (q_sched v) s.

Record queues_ok v : Prop := {
  qo_rows : keyed wf_queue_row row_key (q_table v);
  qo_names : named row_key queue_name_key row_num (q_table v) (q_names v);
  qo_count a : is_u64 a ->
    QueuesCounter.NumberOfQueues (default QueuesCounter.zero (q_cnt v !! counters_tablePK a)) =
    i64 (tally (of_account a) (q_table v));
  qo_keys k : is_Some (q_cnt v !! k) -> exists a, is_u64 a /\ k = counters_tablePK a;
}.

Record schedules_ok v : Prop := {
  so_rows : keyed wf_schedule skey (q_sched v);
  so_names : named skey schedule_name_key snum (q_sched v) (q_snames v);
  so_due : listed skey schedule_due_key (q_sched v) (q_due v);
}.

(** A schedule's queue exists or awaits collection, and never both. *)
Record linked v : Prop := {
  ln_count x : has_queue v x ->
    Queue.SchedulesCount x = i64 (tally (of_queue (Queue.Id x)) (q_sched v));
  ln_owner s : has_schedule v s ->
    is_Some (q_table v !! queue_key (owner s)) \/ is_Some (q_gc v !! queue_key (owner s));
  ln_gc : keyed wf_record gc_key (q_gc v);
  ln_dead k : is_Some (q_gc v !! k) -> q_table v !! k = None;
}.

Record QInv v : Prop := {
  qi_queues : queues_ok v;
  qi_schedules : schedules_ok v;
  qi_linked : linked v;
}.

(** ** Side conditions of the index lemmas *)

Lemma queue_name_num_key x y :
  wf_queue_row x -> wf_queue_row y -> queue_name_key x = queue_name_key y ->
  row_num x = row_num y -> row_key x = row_key y.
Proof.
  intros [Hx _] [Hy _] [E _]%names_pk_inj En; [|done..]. unfold row_key. rewrite !qid_key_eq.
  unfold row_num in En. congruence.
Qed.

Lemma schedule_name_num_key s t :
  wf_schedule s -> wf_schedule t -> schedule_name_key s = schedule_name_key t ->
  snum s = snum t -> skey s = skey t.
Proof.
  intros [(Hx & Hy & _) _] [(Hx' & Hy' & _) _] (E1 & E2 & _)%snames_pk_inj En; [|done..].
  unfold skey. rewrite !sid_key_eq. unfold snum in En. congruence.
Qed.

Lemma schedule_due_key_key s t :
  wf_schedule s -> wf_schedule t -> schedule_due_key s = schedule_due_key t -> skey s = skey t.
Proof. intros _ _. rewrite !due_key_eq. by intros [_ ?]%be64_split. Qed.

Lemma has_queue_wf v x : queues_ok v -> has_queue v x -> wf_qid (Queue.Id x).
Proof. intros Hq Hx. by apply (stores_wf _ _ _ _ (qo_rows v Hq)). Qed.

Lemma has_schedule_wf v s : schedules_ok v -> has_schedule v s -> wf_schedule s.
Proof. intros Hs Hx. by apply (stores_wf _ _ _ _ (so_rows v Hs)). Qed.

(** A row is found under its id. *)
Lemma lookup_queue v i x :
  queues_ok v -> wf_qid i -> q_table v !! queue_key i = Some x <-> has_queue v x /\ Queue.Id x = i.
Proof.
  intros Hq Hi. split.
  - intros Hx. destruct (qo_rows v Hq _ _ Hx) as [E Hw]. apply queue_key_inj in E as ->; done.
  - by intros [Hx <-].
Qed.

Lemma lookup_schedule v i s :
  schedules_ok v -> wf_sid i ->
  q_sched v !! schedule_key i = Some s <-> has_schedule v s /\ Schedule.Id s = i.
Proof.
  intros Hs Hi. split.
  - intros Hx. destruct (so_rows v Hs _ _ Hx) as [E [Hw _]]. apply schedule_key_inj in E as ->; done.
  - by intros [Hx <-].
Qed.

(** ** Lookups by name *)

Definition by_name v (a : Z) (name : bytes) : option Queue.t :=
  q_names v !! queues_namesIndexPK a name ≫= fun n => q_table v !! queue_key (QueueId.mk a n).
Definition schedule_by_name v (i : QueueId.t) (name : bytes) : option Schedule.t :=
  let a := QueueId.AccountId i in let q := QueueId.QueueId i in
  q_snames v !! schedules_namesIndexPK a q name ≫=
    fun n => q_sched v !! schedule_key (ScheduleId.mk a q n).

Lemma by_name_Some v a name x :
  queues_ok v -> is_u64 a ->
  by_name v a name = Some x <-> has_queue v x /\ of_account a x /\ Queue.Name x = name.
Proof.
  intros Hq Ha. unfold by_name, of_account. rewrite bind_Some. split.
  - intros (n & Hn & Hx). apply (qo_names v Hq) in Hn as (y & Hy & E & <-).
    pose proof (has_queue_wf v y Hq Hy) as Hwy.
    apply names_pk_inj in E as [E1 E2]; [|by apply Hwy|done].
    apply lookup_queue in Hx as [Hx Ei]; [|done|split; [done|apply Hwy]].
    assert (x = y) as ->; [|by split_and!].
    unfold has_queue, stores, row_key in *. rewrite Ei in Hx. destruct y as [[]]. cbn in *. congruence.
  - intros (Hx & <- & <-). exists (row_num x). split.
    + apply (qo_names v Hq). exists x. by split_and!.
    + unfold has_queue, stores, row_key, row_num in *. by destruct x as [[]].
Qed.

Lemma by_name_None v a name :
  queues_ok v -> is_u64 a -> by_name v a name = None -> q_names v !! queues_namesIndexPK a name = None.
Proof.
  intros Hq Ha. unfold by_name. destruct (q_names v !! _) as [n|] eqn:E; [|done].
  cbn. apply (qo_names v Hq) in E as (y & Hy & E & <-). pose proof (has_queue_wf v y Hq Hy) as Hwy.
  apply names_pk_inj in E as [<- _]; [|by apply Hwy|done].
  intros En. exfalso. assert (q_table v !! row_key y = None); [|unfold has_queue, stores in Hy; congruence].
  unfold row_key. unfold row_num in En. by destruct y as [[]].
Qed.

Lemma schedule_by_name_Some v i name s :
  schedules_ok v -> wf_qid i ->
  schedule_by_name v i name = Some s <-> has_schedule v s /\ of_queue i s /\ Schedule.Name s = name.
Proof.
  intros Hs [Ha Hb]. unfold schedule_by_name, of_queue. rewrite bind_Some. split.
  - intros (n & Hn & Hx). apply (so_names v Hs) in Hn as (y & Hy & E & <-).
    destruct (has_schedule_wf v y Hs Hy) as [(Hy1 & Hy2 & Hy3) _].
    apply snames_pk_inj in E as (E1 & E2 & E3); [|done..].
    apply lookup_schedule in Hx as [Hx Ei]; [|done|by split_and!].
    assert (s = y) as ->.
    { unfold has_schedule, stores, skey in *. rewrite Ei in Hx. destruct y as [[]]. cbn in *. congruence. }
    split_and!; try done. unfold owner. destruct i. cbn in *. congruence.
  - intros (Hx & <- & <-). exists (snum s). split.
    + apply (so_names v Hs). exists s. by split_and!.
    + unfold has_schedule, stores, skey, snum in *. by destruct s as [[]].
Qed.

Lemma schedule_by_name_None v i name :
  schedules_ok v -> wf_qid i -> schedule_by_name v i name = None ->
  q_snames v !! schedules_namesIndexPK (QueueId.AccountId i) (QueueId.QueueId i) name = None.
Proof.
  intros Hs [Ha Hb]. unfold schedule_by_name. destruct (q_snames v !! _) as [n|] eqn:E; [|done].
  cbn. apply (so_names v Hs) in E as (y & Hy & E & <-).
  destruct (has_schedule_wf v y Hs Hy) as [(Hy1 & Hy2 & Hy3) _].
  apply snames_pk_inj in E as (<- & <- & _); [|done..].
  intros En. exfalso. assert (q_sched v !! skey y = None); [|unfold has_schedule, stores in Hy; congruence].
  unfold skey. unfold snum in En. by destruct y as [[]].
Qed.
End queue_invariant.
