(* ===== verification/QueuesSpec.v ===== *)
(** * What the queues core promises

    The abstract state of a queues core is its three primary tables.  Each handler is
    specified as a function on them that knows no index and no counter: a name is found by
    searching the rows and a count is the number of rows. *)

From S2P Require Export QueuesInv.

Record QSpec := mkQSpec {
  a_queues : gmap bytes Queue.t;
  a_scheds : gmap bytes Schedule.t;
  a_gc : gmap bytes QueuesGarbageCollectionRecord.t;
}.

Definition qabs (v : QView) : QSpec := mkQSpec (q_table v) (q_sched v) (q_gc v).

Section queue_spec.
Context {U : Utils} {C : CronLib}.
Implicit Types (A : QSpec).

Definition find_queue A (a : Z) (name : bytes) : option Queue.t :=
  seek (fun x => of_account a x /\ Queue.Name x = name) (a_queues A).
Definition find_schedule A (i : QueueId.t) (name : bytes) : option Schedule.t :=
  seek (fun s => of_queue i s /\ Schedule.Name s = name) (a_scheds A).

Definition count_queues A (a : Z) : Z := i64 (tally (of_account a) (a_queues A)).
Definition count_schedules A (i : QueueId.t) : Z := i64 (tally (of_queue i) (a_scheds A)).

Definition put_queue (x : Queue.t) A : QSpec :=
  mkQSpec (<[row_key x := x]> (a_queues A)) (a_scheds A) (a_gc A).
Definition put_schedule (s : Schedule.t) A : QSpec :=
  mkQSpec (a_queues A) (<[skey s := s]> (a_scheds A)) (a_gc A).
Definition remove_schedule (s : Schedule.t) A : QSpec :=
  mkQSpec (a_queues A) (delete (skey s) (a_scheds A)) (a_gc A).

(** The row of [x] with the number of its schedules. *)
Definition recount (x : Queue.t) A : QSpec :=
  put_queue (Queue.set_SchedulesCount (count_schedules A (Queue.Id x)) x) A.

Definition spec_CreateQueue (req : CreateQueueRequest.t) (now : Z) A : QResponse Queue.t * QSpec :=
  let id := CreateQueueRequest.QueueId req in
  let name := CreateQueueRequest.Name req in
  let limit := CreateQueueRequest.MaxNumberOfQueues req in
  if find_queue A (QueueId.AccountId id) name then (QError (queueNameExistsError name), A)
  else if count_queues A (QueueId.AccountId id) >=? limit
  then (QError (maxQueuesReachedError limit), A)
  else if a_queues A !! queue_key id then (QError (queueIdCollisionError id), A)
  else (QPayload (new_queue req now), put_queue (new_queue req now) A).

Definition spec_GetQueueByName (req : QueueNameRequest.t) A : QResponse Queue.t * QSpec :=
  match find_queue A (QueueNameRequest.AccountId req) (QueueNameRequest.QueueName req) with
  | None => (QError (queueNotFoundError (QueueNameRequest.QueueName req)), A)
  | Some x => (QPayload x, A)
  end.

Definition spec_UpdateQueue (req : UpdateQueueRequest.t) (now : Z) A : QResponse Queue.t * QSpec :=
  let name := UpdateQueueRequest.QueueName req in
  let expected := UpdateQueueRequest.ExpectedVersion req in
  match find_queue A (UpdateQueueRequest.AccountId req) name with
  | None => (QError (queueNotFoundError name), A)
  | Some x =>
      if Queue.Version x =? expected
      then (QPayload (updated_queue req now x), put_queue (updated_queue req now x) A)
      else (QError (versionMismatchError name (Queue.Version x) expected), A)
  end.

Definition spec_DeleteQueue (req : QueueNameRequest.t) A : QResponse QueueId.t * QSpec :=
  let name := QueueNameRequest.QueueName req in
  match find_queue A (QueueNameRequest.AccountId req) name with
  | None => (QError (queueNotFoundError name), A)
  | Some x =>
      let r := QueuesGarbageCollectionRecord.mk (Queue.Id x) in
      (QPayload (Queue.Id x),
       mkQSpec (delete (row_key x) (a_queues A)) (a_scheds A) (<[gc_key r := r]> (a_gc A)))
  end.

(** Every schedule of [old] under the id [new]; the others as they are. *)
Definition relabel (old new : QueueId.t) (s : Schedule.t) : Schedule.t :=
  if decide (of_queue old s) then rekeyed new s else s.
Definition relabelled (old new : QueueId.t) (m : gmap bytes Schedule.t) : gmap bytes Schedule.t :=
  list_to_map ((fun s => (skey s, s)) <$> (relabel old new <$> (map_to_list m).*2)).

Definition spec_SwapQueueId (req : SwapQueueIdRequest.t) (now : Z) A
    : QResponse (Queue.t * QueueId.t) * QSpec :=
  let a := SwapQueueIdRequest.AccountId req in
  let name := SwapQueueIdRequest.QueueName req in
  let new := QueueId.mk a (SwapQueueIdRequest.NewQueueId req) in
  match find_queue A a name with
  | None => (QError (queueNotFoundError name), A)
  | Some x =>
      if a_queues A !! queue_key new then (QError (queueIdCollisionError new), A)
      else
        let y := swapped_queue new now x in
        (QPayload (y, Queue.Id x),
         mkQSpec (<[row_key y := y]> (delete (row_key x) (a_queues A)))
           (relabelled (Queue.Id x) new (a_scheds A)) (a_gc A))
  end.

(** [None]: the cron expression or the time zone is rejected with a Go error. *)
Definition tick (cron timezone : bytes) (now : Z) : option Z :=
  LoadLocation timezone ≫= NextTickAfter cron now.

Definition spec_CreateSchedule (req : CreateScheduleRequest.t) (now : Z) A
    : option (QResponse Schedule.t * QSpec) :=
  let a := CreateScheduleRequest.AccountId req in
  let name := CreateScheduleRequest.ScheduleName req in
  let limit := CreateScheduleRequest.MaxNumberOfSchedulesPerQueue req in
  match find_queue A a (CreateScheduleRequest.QueueName req) with
  | None => Some (QError (queueNotFoundError (CreateScheduleRequest.QueueName req)), A)
  | Some x =>
      let id := ScheduleId.mk a (row_num x) (CreateScheduleRequest.ScheduleId req) in
      if a_scheds A !! schedule_key id then Some (QError (scheduleIdCollisionError id), A)
      else if count_schedules A (Queue.Id x) >=? limit
      then Some (QError (maxSchedulesReachedError limit), A)
      else if find_schedule A (Queue.Id x) name
      then Some (QError (scheduleNameExistsError name (Queue.Name x)), A)
      else
        next ← tick (CreateScheduleRequest.Cron req) (CreateScheduleRequest.Timezone req) now;
        let s := new_schedule req now id next in
        Some (QPayload s, recount x (put_schedule s A))
  end.

(** The schedule a request names, or the error that says what is missing. *)
Definition with_schedule {B} (a : Z) (queueName scheduleName : bytes) A
    (k : Queue.t -> Schedule.t -> option (QResponse B * QSpec)) : option (QResponse B * QSpec) :=
  match find_queue A a queueName with
  | None => Some (QError (queueNotFoundError queueName), A)
  | Some x =>
      match find_schedule A (Queue.Id x) scheduleName with
      | None => Some (QError (scheduleNotFoundError (Queue.Name x) scheduleName), A)
      | Some s => k x s
      end
  end.

Definition spec_GetSchedule (req : ScheduleNameRequest.t) A : option (QResponse Schedule.t * QSpec) :=
  with_schedule (ScheduleNameRequest.AccountId req) (ScheduleNameRequest.QueueName req)
    (ScheduleNameRequest.ScheduleName req) A (fun _ s => Some (QPayload s, A)).

Definition spec_UpdateSchedule (req : UpdateScheduleRequest.t) (now : Z) A
    : option (QResponse Schedule.t * QSpec) :=
  let expected := UpdateScheduleRequest.ExpectedVersion req in
  with_schedule (UpdateScheduleRequest.AccountId req) (UpdateScheduleRequest.QueueName req)
    (UpdateScheduleRequest.ScheduleName req) A (fun _ s =>
      if Schedule.Version s =? expected then
        next ← tick (UpdateScheduleRequest.Cron req) (UpdateScheduleRequest.Timezone req) now;
        let s := updated_schedule req now next s in
        Some (QPayload s, put_schedule s A)
      else Some (QError (scheduleVersionMismatchError (UpdateScheduleRequest.QueueName req)
                           (UpdateScheduleRequest.ScheduleName req) (Schedule.Version s) expected), A)).

Definition spec_DeleteSchedule (req : ScheduleNameRequest.t) A : option (QResponse unit * QSpec) :=
  with_schedule (ScheduleNameRequest.AccountId req) (ScheduleNameRequest.QueueName req)
    (ScheduleNameRequest.ScheduleName req) A (fun x s =>
      Some (QPayload tt, recount x (remove_schedule s A))).

Definition spec_ReportSchedulesStatus (req : ReportSchedulesStatusRequest.t) (now : Z) A
    : QResponse unit * QSpec :=
  let id := ReportSchedulesStatusRequest.ScheduleId req in
  match a_scheds A !! schedule_key id with
  | None => (QError (scheduleIdNotFoundError (ScheduleId.ScheduleId id)), A)
  | Some s => (QPayload tt, put_schedule (checked_schedule req now s) A)
  end.
End queue_spec.

(** ** The search agrees with the indexes *)

Section search.
Context {U : Utils} {UO : UtilsOk U}.

Lemma find_queue_by_name v a name :
  queues_ok v -> is_u64 a -> find_queue (qabs v) a name = by_name v a name.
Proof.
  intros Hq Ha. apply seek_unique. intros x. rewrite by_name_Some by done.
  assert ((exists k, a_queues (qabs v) !! k = Some x) <-> has_queue v x) as ->; [|done].
  split; [|by eexists]. intros [k Hk]. by destruct (qo_rows v Hq _ _ Hk) as [-> _].
Qed.

Lemma find_schedule_by_name v i name :
  schedules_ok v -> wf_qid i -> find_schedule (qabs v) i name = schedule_by_name v i name.
Proof.
  intros Hs Hi. apply seek_unique. intros x. rewrite schedule_by_name_Some by done.
  assert ((exists k, a_scheds (qabs v) !! k = Some x) <-> has_schedule v x) as ->; [|done].
  split; [|by eexists]. intros [k Hk]. by destruct (so_rows v Hs _ _ Hk) as [-> _].
Qed.
End search.
