(* ===== verification/QueuesOps.v ===== *)
(** * The handlers of the queues core implement their specification *)

From S2P Require Export QueuesSpec.

(** ** Rows and the invariant *)

Section preserve.
Context {U : Utils} {UO : UtilsOk U}.
Implicit Types (v : QView) (x y : Queue.t) (s t : Schedule.t).

#[local] Hint Resolve queue_name_num_key schedule_name_num_key schedule_due_key_key : core.

(** *** Schedules *)

Definition sched_add s v : QView :=
  set_q_sched (<[skey s := s]> (q_sched v))
    (set_q_snames (<[schedule_name_key s := snum s]> (q_snames v))
      (set_q_due ({[schedule_due_key s]} ∪ q_due v) v)).
Definition sched_del s v : QView :=
  set_q_sched (delete (skey s) (q_sched v))
    (set_q_snames (delete (schedule_name_key s) (q_snames v))
      (set_q_due (q_due v ∖ {[schedule_due_key s]}) v)).

Lemma schedules_ok_add v s :
  schedules_ok v -> wf_schedule s -> q_sched v !! skey s = None ->
  q_snames v !! schedule_name_key s = None -> schedules_ok (sched_add s v).
Proof.
  intros [H1 H2 H3] Hs Hk Hn. split; cbn.
  - by apply keyed_insert.
  - by apply named_insert.
  - by apply listed_insert.
Qed.

Lemma schedules_ok_del v s : schedules_ok v -> has_schedule v s -> schedules_ok (sched_del s v).
Proof.
  intros [H1 H2 H3] Hs. split; cbn.
  - by apply keyed_delete.
  - apply (named_delete wf_schedule); auto.
  - apply (listed_delete wf_schedule); auto.
Qed.

Lemma schedules_ok_set v s t :
  schedules_ok v -> has_schedule v s -> wf_schedule t ->
  Schedule.Id t = Schedule.Id s -> Schedule.Name t = Schedule.Name s ->
  let D := if Schedule.NextScheduledAt t =? Schedule.NextScheduledAt s then q_due v
           else {[schedule_due_key t]} ∪ q_due v ∖ {[schedule_due_key s]} in
  schedules_ok (set_q_sched (<[skey t := t]> (q_sched v)) (set_q_due D v)).
Proof.
  intros [H1 H2 H3] Hs Ht Ei En D. assert (Ek : skey t = skey s) by (unfold skey; congruence).
  split; cbn.
  - by apply keyed_insert.
  - apply (named_replace _ _ _ _ _ s); try done; unfold schedule_name_key, snum; congruence.
  - subst D. destruct (Z.eqb_spec (Schedule.NextScheduledAt t) (Schedule.NextScheduledAt s)) as [E|E].
    + apply (listed_keep _ _ _ _ s); try done. unfold schedule_due_key. congruence.
    + apply (listed_replace wf_schedule); auto.
Qed.

Lemma schedules_ok_same v v' :
  q_sched v' = q_sched v -> q_snames v' = q_snames v -> q_due v' = q_due v ->
  schedules_ok v -> schedules_ok v'.
Proof. intros E1 E2 E3 [H1 H2 H3]. split; [by rewrite E1|by rewrite E1, E2|by rewrite E1, E3]. Qed.

(** *** Queues *)

Lemma queues_ok_same v v' :
  q_table v' = q_table v -> q_names v' = q_names v -> q_cnt v' = q_cnt v ->
  queues_ok v -> queues_ok v'.
Proof.
  intros E1 E2 E3 [H1 H2 H3 H4]. split; [by rewrite E1|by rewrite E1, E2|by rewrite E1, E3|by rewrite E3].
Qed.

(** The counter row of account [a] moved by [d]. *)
Definition bump_account (a d : Z) v : gmap bytes QueuesCounter.t :=
  let c := default QueuesCounter.zero (q_cnt v !! counters_tablePK a) in
  <[counters_tablePK a := QueuesCounter.mk (i64 (QueuesCounter.NumberOfQueues c + d))]> (q_cnt v).

Lemma bump_account_ok v a d m :
  queues_ok v -> is_u64 a ->
  (forall b, is_u64 b -> tally (of_account b) m =
     tally (of_account b) (q_table v) + (if decide (b = a) then d else 0)) ->
  forall b, is_u64 b ->
    QueuesCounter.NumberOfQueues (default QueuesCounter.zero (bump_account a d v !! counters_tablePK b)) =
    i64 (tally (of_account b) m).
Proof.
  intros [_ _ Hc _] Ha Hm b Hb. rewrite Hm by done. unfold bump_account.
  destruct (decide (b = a)) as [->|Hne].
  - rewrite lookup_insert_eq. cbn. by rewrite Hc, i64_i64_add.
  - rewrite lookup_insert_ne by (intros E%cnt_pk_inj; done). by rewrite Hc, Z.add_0_r.
Qed.

Lemma bump_account_keys v a d k :
  queues_ok v -> is_u64 a -> is_Some (bump_account a d v !! k) -> exists b, is_u64 b /\ k = counters_tablePK b.
Proof.
  intros Hq Ha. unfold bump_account. destruct (decide (counters_tablePK a = k)) as [<-|Hne]; [by exists a|].
  rewrite lookup_insert_ne by done. apply (qo_keys v Hq).
Qed.

Definition queue_add x v : QView :=
  set_q_cnt (bump_account (QueueId.AccountId (Queue.Id x)) 1 v)
    (set_q_table (<[row_key x := x]> (q_table v))
      (set_q_names (<[queue_name_key x := row_num x]> (q_names v)) v)).
Definition queue_del x v : QView :=
  set_q_cnt (bump_account (QueueId.AccountId (Queue.Id x)) (-1) v)
    (set_q_names (delete (queue_name_key x) (q_names v))
      (set_q_table (delete (row_key x) (q_table v)) v)).

Lemma weight_account b x :
  weight (of_account b) (Some x) = if decide (b = QueueId.AccountId (Queue.Id x)) then 1 else 0.
Proof. unfold weight, of_account. do 2 case_decide; congruence. Qed.

Lemma queues_ok_add v x :
  queues_ok v -> wf_queue_row x -> q_table v !! row_key x = None ->
  q_names v !! queue_name_key x = None -> queues_ok (queue_add x v).
Proof.
  intros Hq Hx Hk Hn. destruct (id Hq) as [H1 H2 _ _]. split; cbn.
  - by apply keyed_insert.
  - by apply named_insert.
  - apply bump_account_ok; [done|apply Hx|]. intros b Hb.
    by rewrite tally_insert_fresh, weight_account.
  - intros k. apply bump_account_keys; [done|apply Hx].
Qed.

Lemma queues_ok_del v x : queues_ok v -> has_queue v x -> queues_ok (queue_del x v).
Proof.
  intros Hq Hx. destruct (id Hq) as [H1 H2 _ _]. split; cbn.
  - by apply keyed_delete.
  - apply (named_delete wf_queue_row); auto.
  - apply bump_account_ok; [done|apply (has_queue_wf v x Hq Hx)|]. intros b Hb.
    rewrite tally_delete.
    rewrite (Hx : q_table v !! row_key x = Some x), weight_account. case_decide; lia.
  - intros k. apply bump_account_keys; [done|apply (has_queue_wf v x Hq Hx)].
Qed.

Lemma queues_ok_set v x y :
  queues_ok v -> has_queue v x -> Queue.Id y = Queue.Id x -> Queue.Name y = Queue.Name x ->
  queues_ok (set_q_table (<[row_key y := y]> (q_table v)) v).
Proof.
  intros Hq Hx Ei En. destruct (id Hq) as [H1 H2 Hc Hks].
  assert (Ek : row_key y = row_key x) by (unfold row_key; congruence). split; cbn.
  - apply keyed_insert; [done|]. unfold wf_queue_row. rewrite Ei. by apply (has_queue_wf v x).
  - apply (named_replace _ _ _ _ _ x); try done; unfold queue_name_key, row_num; congruence.
  - intros a Ha. rewrite Hc, tally_insert, Ek by done. f_equal.
    rewrite (Hx : q_table v !! row_key x = Some x), !weight_account, Ei. lia.
  - done.
Qed.

(** *** Links *)

Lemma linked_no_schedules v i :
  QInv v -> q_table v !! queue_key i = None -> q_gc v !! queue_key i = None ->
  forall s, has_schedule v s -> owner s <> i.
Proof. intros [_ _ [_ Ho _ _]] H1 H2 s Hs <-. destruct (Ho s Hs) as [[? ?]|[? ?]]; congruence. Qed.

Lemma tally_no_schedules v i :
  schedules_ok v -> (forall s, has_schedule v s -> owner s <> i) -> tally (of_queue i) (q_sched v) = 0.
Proof.
  intros Hs Hno. apply tally_none. intros k s Hk. destruct (so_rows v Hs _ _ Hk) as [-> _].
  by apply Hno.
Qed.

(** Replacing a queue row keeps the links when the count stays right. *)
Lemma linked_set v x y :
  queues_ok v -> linked v -> has_queue v x -> Queue.Id y = Queue.Id x ->
  Queue.SchedulesCount y = i64 (tally (of_queue (Queue.Id y)) (q_sched v)) ->
  linked (set_q_table (<[row_key y := y]> (q_table v)) v).
Proof.
  intros Hq [H1 H2 H3 H4] Hx Ei Ec.
  assert (Ek : row_key y = row_key x) by (unfold row_key; congruence). split; cbn.
  - intros z [->|[Hz _]]%stores_insert; [done|by apply H1].
  - intros s Hs. destruct (H2 s Hs) as [?|?]; [left|by right]. by apply lookup_insert_is_Some'; right.
  - done.
  - intros k Hk. specialize (H4 k Hk). apply lookup_insert_None. split; [done|].
    intros <-. unfold has_queue, stores in Hx. congruence.
Qed.

(** The schedules of one queue change and its row is recounted. *)
Lemma linked_recount v v1 x y :
  queues_ok v -> linked v -> has_queue v x -> q_table v1 = q_table v -> q_gc v1 = q_gc v ->
  (forall s, has_schedule v1 s -> owner s = Queue.Id x \/ has_schedule v s) ->
  (forall i, i <> Queue.Id x -> tally (of_queue i) (q_sched v1) = tally (of_queue i) (q_sched v)) ->
  Queue.Id y = Queue.Id x ->
  Queue.SchedulesCount y = i64 (tally (of_queue (Queue.Id x)) (q_sched v1)) ->
  linked (set_q_table (<[row_key y := y]> (q_table v1)) v1).
Proof.
  intros Hq [H1 H2 H3 H4] Hx Et Eg Hs Ht Ei Ec.
  assert (Ek : row_key y = row_key x) by (unfold row_key; congruence).
  split; cbn; rewrite ?Et, ?Eg.
  - intros z [->|[Hz Hne]]%stores_insert; [by rewrite Ei|]. rewrite Ht; [by apply H1|].
    intros E. apply Hne. unfold row_key. by rewrite E, Ei.
  - intros s Hs'. destruct (Hs s Hs') as [E|Hold].
    + left. rewrite E. change (queue_key (Queue.Id x)) with (row_key x).
      rewrite <-Ek, lookup_insert_eq. by eexists.
    + destruct (H2 s Hold) as [?|?]; [left|by right]. by apply lookup_insert_is_Some'; right.
  - done.
  - intros k Hk. specialize (H4 k Hk). apply lookup_insert_None. split; [done|].
    intros <-. unfold has_queue, stores in Hx. congruence.
Qed.

Lemma set_SchedulesCount_spec n x :
  Queue.Id (Queue.set_SchedulesCount n x) = Queue.Id x /\
  Queue.Name (Queue.set_SchedulesCount n x) = Queue.Name x /\
  Queue.SchedulesCount (Queue.set_SchedulesCount n x) = n.
Proof. by destruct x. Qed.

Lemma QInv_recount v v1 x :
  QInv v -> has_queue v x -> schedules_ok v1 ->
  q_table v1 = q_table v -> q_names v1 = q_names v -> q_cnt v1 = q_cnt v -> q_gc v1 = q_gc v ->
  (forall s, has_schedule v1 s -> owner s = Queue.Id x \/ has_schedule v s) ->
  (forall i, i <> Queue.Id x -> tally (of_queue i) (q_sched v1) = tally (of_queue i) (q_sched v)) ->
  let y := Queue.set_SchedulesCount (count_schedules (qabs v1) (Queue.Id x)) x in
  QInv (set_q_table (<[row_key y := y]> (q_table v1)) v1).
Proof.
  intros [Hq _ Hl] Hx Hs Et En Ec Eg Ho Ht y.
  destruct (set_SchedulesCount_spec (count_schedules (qabs v1) (Queue.Id x)) x) as (E1 & E2 & E3).
  fold y in E1, E2, E3. split.
  - rewrite Et. eapply queues_ok_same; [..|by apply (queues_ok_set v x y)]; done.
  - by apply (schedules_ok_same v1).
  - by apply (linked_recount v v1 x y).
Qed.

Lemma weight_queue i s : weight (of_queue i) (Some s) = if decide (i = owner s) then 1 else 0.
Proof. unfold weight, of_queue. do 2 case_decide; congruence. Qed.
End preserve.

(** ** Refinement *)

Section refine.
Context {U : Utils} {UO : UtilsOk U} {H : Honey} {HO : HoneyOk H} {C : CronLib} {CO : CronOk C}.
Implicit Types (v : QView) (x y : Queue.t) (s t : Schedule.t).

(** From contents [v], [m] returns what the specification says and keeps the invariant;
    where the specification is [None] it fails with the cron library's error. *)
Definition meets {B} (m : M QTxn (QResponse B)) v (o : option (QResponse B * QSpec)) : Prop :=
  match o with
  | Some (r, A) => wpq m v (fun r' v' => r' = r /\ qabs v' = A /\ QInv v')
  | None => forall st, qview st = v -> m st = Fail ErrCron
  end.

Lemma meets_error {B} v (e : QAppError) :
  QInv v -> meets (mret (QError e)) v (Some (QError e : QResponse B, qabs v)).
Proof. intros Hv. by apply wpq_ret. Qed.

Lemma meets_payload {B} v (b : B) :
  QInv v -> meets (mret (QPayload b)) v (Some (QPayload b, qabs v)).
Proof. intros Hv. by apply wpq_ret. Qed.

(** A computation that only reads [a]. *)
Definition reads {A} (m : M QTxn A) v (a : A) : Prop := forall st, qview st = v -> m st = Ok (a, st).

Lemma meets_read {A B} (m : M QTxn A) (k : A -> M QTxn (QResponse B)) v a o :
  reads m v a -> meets (k a) v o -> meets (m ≫= k) v o.
Proof.
  intros Hm Hk. destruct o as [[r A']|]; cbn in *.
  - intros st Hst. apply wp_bind. unfold wp at 1. rewrite (Hm st Hst). by apply Hk.
  - intros st Hst. unfold mbind, M_bind. rewrite (Hm st Hst). by apply Hk.
Qed.

Lemma reads_queues_Get v id : reads (queues_Get id) v (q_table v !! queue_key id).
Proof. intros st <-. unfold queues_Get, gets. by rewrite bt_Get_spec. Qed.
Lemma reads_queues_GetByName v a name : reads (queues_GetByName a name) v (by_name v a name).
Proof.
  intros st <-. unfold queues_GetByName, gets, mbind, M_bind, by_name. rewrite bt_Get_spec.
  cbn. destruct (bt_den _ !! queues_namesIndexPK a name); [|done].
  exact (reads_queues_Get _ _ st eq_refl).
Qed.
Lemma reads_schedules_Get v id : reads (schedules_Get id) v (q_sched v !! schedule_key id).
Proof. intros st <-. unfold schedules_Get, gets. by rewrite bt_Get_spec. Qed.
Lemma reads_schedules_GetByName v i name :
  reads (schedules_GetByName i name) v (schedule_by_name v i name).
Proof.
  intros st <-. unfold schedules_GetByName, gets, mbind, M_bind, schedule_by_name.
  rewrite bt_Get_spec. cbn. destruct (bt_den _ !! schedules_namesIndexPK _ _ name); [|done].
  exact (reads_schedules_Get _ _ st eq_refl).
Qed.
Lemma reads_qcounters_Get v a :
  reads (qcounters_Get a) v (default QueuesCounter.zero (q_cnt v !! counters_tablePK a)).
Proof. intros st <-. unfold qcounters_Get, gets. by rewrite bt_Get_spec. Qed.

Lemma meets_tick {B} cron tz now (k : Z -> M QTxn (QResponse B)) v (f : Z -> QResponse B * QSpec) :
  (forall next, tick cron tz now = Some next -> meets (k next) v (Some (f next))) ->
  meets (next_tick cron tz now ≫= k) v (next ← tick cron tz now; Some (f next)).
Proof.
  unfold next_tick, tick. intros Hk. destruct (LoadLocation tz) as [l|]; [|by intros st]. cbn in *.
  destruct (NextTickAfter cron now l) as [n|]; [|by intros st]. cbn in *.
  specialize (Hk n eq_refl). destruct (f n). intros st Hst. by apply Hk.
Qed.

Lemma tick_i64 cron tz now next : tick cron tz now = Some next -> now < next /\ is_i64 next.
Proof.
  unfold tick. destruct (LoadLocation tz) as [l|]; [|done]. apply NextTickAfter_after.
Qed.
End refine.

(** [mread] runs a lookup of a handler, replacing its result by the specification's. *)
Ltac mread :=
  eapply meets_read;
  [first [ apply reads_queues_GetByName | apply reads_schedules_GetByName
         | apply reads_queues_Get | apply reads_schedules_Get | apply reads_qcounters_Get ]|].

Section handlers.
Context {U : Utils} {UO : UtilsOk U} {H : Honey} {HO : HoneyOk H} {C : CronLib} {CO : CronOk C}.
Implicit Types (v : QView) (x y : Queue.t) (s t : Schedule.t).

Lemma refine_CreateQueue v req now :
  let id := CreateQueueRequest.QueueId req in
  QInv v -> wf_qid id -> q_gc v !! queue_key id = None ->
  meets (CreateQueue req now) v (Some (spec_CreateQueue req now (qabs v))).
Proof.
  intros id Hv Hid Hgc. pose proof Hv as [Hq Hs Hl]. unfold CreateQueue, spec_CreateQueue. fold id.
  mread. mread. rewrite find_queue_by_name by (done || apply Hid).
  destruct (by_name v _ _) eqn:En; [by apply meets_error|]. unfold absent at 1.
  rewrite (qo_count v Hq (QueueId.AccountId id)) at 1 by apply Hid.
  fold (count_queues (qabs v) (QueueId.AccountId id)).
  destruct (_ >=? _); [by apply meets_error|]. mread. cbn [a_queues qabs].
  destruct (q_table v !! queue_key id) eqn:Ei; [by apply meets_error|]. unfold absent.
  set (x := new_queue req now). unfold queues_Create. cbn [meets].
  qsteps. split; [done|]. split; [done|].
  change (QInv (queue_add x v)). split.
  - apply queues_ok_add; try done. by apply by_name_None; [|apply Hid|].
  - by apply (schedules_ok_same v).
  - pose proof (linked_no_schedules v id Hv Ei Hgc) as Hno. destruct Hl as [H1 H2 H3 H4]. split; cbn.
    + intros y [->|[Hy _]]%stores_insert; [|by apply H1]. by rewrite tally_no_schedules.
    + intros s Hs'. destruct (H2 s Hs') as [?|?]; [left|by right]. by apply lookup_insert_is_Some'; right.
    + done.
    + intros k Hk. apply lookup_insert_None. split; [by apply H4|]. intros <-. destruct Hk as [r Hk].
      change (row_key x) with (queue_key id) in Hk. congruence.
Qed.

Lemma refine_GetQueueByName v req :
  QInv v -> is_u64 (QueueNameRequest.AccountId req) ->
  meets (GetQueueByName req) v (Some (spec_GetQueueByName req (qabs v))).
Proof.
  intros Hv Ha. unfold GetQueueByName, spec_GetQueueByName. mread.
  rewrite find_queue_by_name by (done || apply Hv).
  destruct (by_name v _ _) as [x|]; [by apply meets_payload|by apply meets_error].
Qed.

Lemma refine_UpdateQueue v req now :
  QInv v -> is_u64 (UpdateQueueRequest.AccountId req) ->
  meets (UpdateQueue req now) v (Some (spec_UpdateQueue req now (qabs v))).
Proof.
  intros Hv Ha. pose proof Hv as [Hq Hs Hl]. unfold UpdateQueue, spec_UpdateQueue.
  mread. rewrite find_queue_by_name by done.
  destruct (by_name v _ _) as [x|] eqn:En; [|by apply meets_error]. unfold found.
  apply by_name_Some in En as (Hx & _ & _); [|done..].
  destruct (_ =? _); cbn [negb]; [|by apply meets_error].
  set (y := updated_queue req now x). unfold queues_Update. cbn [meets]. qsteps.
  split; [done|]. split; [done|]. change (queue_key (Queue.Id y)) with (row_key y). split.
  - by apply (queues_ok_set v x).
  - by apply (schedules_ok_same v).
  - apply (linked_set v x); try done. exact (ln_count v Hl x Hx).
Qed.

Lemma refine_DeleteQueue v req :
  QInv v -> is_u64 (QueueNameRequest.AccountId req) ->
  meets (DeleteQueue req) v (Some (spec_DeleteQueue req (qabs v))).
Proof.
  intros Hv Ha. pose proof Hv as [Hq Hs Hl]. unfold DeleteQueue, spec_DeleteQueue.
  mread. rewrite find_queue_by_name by done.
  destruct (by_name v _ _) as [x|] eqn:En; [|by apply meets_error]. unfold found.
  apply by_name_Some in En as (Hx & _ & _); [|done..]. mread.
  set (r := QueuesGarbageCollectionRecord.mk (Queue.Id x)). unfold queues_Delete. cbn [meets]. qsteps.
  split; [done|]. split; [done|].
  change (QInv (set_q_gc (<[gc_key r := r]> (q_gc v)) (queue_del x v))).
  assert (Er : gc_key r = row_key x) by apply gc_pk_eq.
  pose proof (has_queue_wf v x Hq Hx) as Hw. split.
  - eapply queues_ok_same; [..|by apply (queues_ok_del v x)]; done.
  - by apply (schedules_ok_same v).
  - destruct Hl as [H1 H2 H3 H4]. split; cbn.
    + intros y [Hy _]%stores_delete. by apply H1.
    + intros s Hs'. rewrite Er. destruct (decide (queue_key (owner s) = row_key x)) as [->|Hne].
      * right. rewrite lookup_insert_eq. by eexists.
      * rewrite lookup_delete_ne, lookup_insert_ne by done. by apply H2.
    + by apply keyed_insert.
    + intros k. rewrite Er. destruct (decide (k = row_key x)) as [->|Hne].
      * by rewrite lookup_delete_eq.
      * rewrite lookup_insert_ne, lookup_delete_ne by done. by apply H4.
Qed.

Lemma refine_CreateSchedule v req now :
  QInv v -> is_u64 (CreateScheduleRequest.AccountId req) -> is_u64 (CreateScheduleRequest.ScheduleId req) ->
  meets (CreateSchedule req now) v (spec_CreateSchedule req now (qabs v)).
Proof.
  intros Hv Ha Hi. pose proof Hv as [Hq Hs Hl]. unfold CreateSchedule, spec_CreateSchedule.
  mread. rewrite find_queue_by_name by done.
  destruct (by_name v _ _) as [x|] eqn:En; [|by apply meets_error]. unfold found.
  apply by_name_Some in En as (Hx & Eacc & _); [|done..].
  pose proof (has_queue_wf v x Hq Hx) as Hw. fold (row_num x). set (id := ScheduleId.mk _ _ _).
  mread. cbn [a_scheds qabs].
  destruct (q_sched v !! schedule_key id) eqn:Es; [by apply meets_error|]. unfold absent at 1.
  pose proof (ln_count v Hl x Hx) as Hc. fold (count_schedules (qabs v) (Queue.Id x)) in Hc.
  rewrite Hc at 1. destruct (_ >=? _); [by apply meets_error|].
  mread. rewrite find_schedule_by_name by done.
  destruct (schedule_by_name v _ _) eqn:Esn; [by apply meets_error|]. unfold absent.
  apply meets_tick. intros next [_ Hnext]%tick_i64. cbv zeta.
  set (s := new_schedule req now id next).
  assert (Hws : wf_schedule s) by (split; [split_and!; [done|apply Hw|done]|done]).
  assert (Eo : owner s = Queue.Id x).
  { unfold owner, of_account in *. cbn. unfold row_num. destruct x as [[]]. cbn in *. congruence. }
  assert (Et : forall i, tally (of_queue i) (<[skey s := s]> (q_sched v)) =
            tally (of_queue i) (q_sched v) + (if decide (i = Queue.Id x) then 1 else 0)).
  { intros i. by rewrite tally_insert_fresh, weight_queue, Eo. }
  unfold schedules_Create, queues_Update. cbn [meets]. qsteps. split; [done|].
  assert (Ex : i64 (Queue.SchedulesCount x + 1) = count_schedules (put_schedule s (qabs v)) (Queue.Id x)).
  { unfold count_schedules. cbn. by rewrite Et, decide_True, Hc, i64_i64_add. }
  rewrite Ex. split; [done|]. apply (QInv_recount v (sched_add s v) x); try done.
  - apply (schedules_ok_add v s); try done.
    pose proof (schedule_by_name_None v _ _ Hs Hw Esn) as Hn. rewrite <-Eo in Hn. exact Hn.
  - intros t [->|[Ht _]]%stores_insert; [by left|by right].
  - intros i Hne. cbn. by rewrite Et, decide_False, Z.add_0_r.
Qed.

(** A schedule rewritten in place. *)
Lemma QInv_resched v s t D :
  let v' := set_q_sched (<[skey t := t]> (q_sched v)) (set_q_due D v) in
  QInv v -> has_schedule v s -> Schedule.Id t = Schedule.Id s -> schedules_ok v' -> QInv v'.
Proof.
  intros v' [Hq Hs [H1 H2 H3 H4]] Hs' Ei Hok.
  assert (Ek : skey t = skey s) by (unfold skey; congruence).
  assert (Eo : owner t = owner s) by (unfold owner; congruence).
  split; [by apply (queues_ok_same v)|done|]. split; cbn; try done.
  - intros x Hx. rewrite tally_insert, Ek, (Hs' : q_sched v !! skey s = Some s), !weight_queue, Eo.
    rewrite H1 by done. f_equal. lia.
  - intros u [->|[Hu _]]%stores_insert; [rewrite Eo|]; by apply H2.
Qed.

Lemma wpq_schedules_Update v s t :
  QInv v -> has_schedule v s -> wf_schedule t ->
  Schedule.Id t = Schedule.Id s -> Schedule.Name t = Schedule.Name s ->
  wpq (schedules_Update t) v (fun _ v' => qabs v' = put_schedule t (qabs v) /\ QInv v').
Proof.
  intros Hv Hs Ht Ei En. unfold schedules_Update. qsteps.
  apply (wpq_orNotFound _ s); [rewrite Ei; exact Hs|]. cbv zeta.
  assert (Ed : schedule_due_key (Schedule.set_NextScheduledAt (Schedule.NextScheduledAt s) t) =
               schedule_due_key s).
  { unfold schedule_due_key. rewrite <-Ei. by destruct t. }
  rewrite Ed. pose proof (schedules_ok_set v s t (qi_schedules v Hv) Hs Ht Ei En) as Hok. cbv zeta in Hok.
  apply wpq_bind, wpq_when; destruct (_ =? _); try done; intros _; qsteps; (split; [done|]).
  - exact (QInv_resched v s t _ Hv Hs Ei Hok).
  - destruct v. exact (QInv_resched _ s t _ Hv Hs Ei Hok).
Qed.

Lemma refine_ReportSchedulesStatus v req now :
  QInv v -> wf_sid (ReportSchedulesStatusRequest.ScheduleId req) ->
  is_i64 (ReportSchedulesStatusRequest.NextScheduledAt req) ->
  meets (ReportSchedulesStatus req now) v (Some (spec_ReportSchedulesStatus req now (qabs v))).
Proof.
  intros Hv Hi Hn. unfold ReportSchedulesStatus, spec_ReportSchedulesStatus. mread.
  cbn [a_scheds qabs]. destruct (q_sched v !! _) as [s|] eqn:Es; [|by apply meets_error].
  apply lookup_schedule in Es as [Hs Ei]; [|apply Hv|done]. cbn [found meets].
  assert (Et : Schedule.Id (checked_schedule req now s) = Schedule.Id s /\
               Schedule.Name (checked_schedule req now s) = Schedule.Name s /\
               Schedule.NextScheduledAt (checked_schedule req now s) =
               ReportSchedulesStatusRequest.NextScheduledAt req).
  { unfold checked_schedule. destruct s. by case_match. }
  destruct Et as (E1 & E2 & E3). apply wpq_bind. eapply wpq_mono; [apply (wpq_schedules_Update v s)|]; try done.
  - split; [by rewrite E1, Ei|by rewrite E3].
  - intros [] v' [Ha Hv']. by apply wpq_ret.
Qed.

(** The two lookups shared by the handlers that name a schedule. *)
Lemma refine_with_schedule {B} v a queueName scheduleName
    (k : Queue.t -> Schedule.t -> M QTxn (QResponse B)) f :
  QInv v -> is_u64 a ->
  (forall x s, has_queue v x -> has_schedule v s -> owner s = Queue.Id x ->
     meets (k x s) v (f x s)) ->
  meets (queue ← queues_GetByName a queueName;
         found queue (queueNotFoundError queueName) (fun queue =>
           schedule ← schedules_GetByName (Queue.Id queue) scheduleName;
           found schedule (scheduleNotFoundError (Queue.Name queue) scheduleName) (k queue))) v
    (with_schedule a queueName scheduleName (qabs v) f).
Proof.
  intros Hv Ha Hk. pose proof Hv as [Hq Hs Hl]. unfold with_schedule.
  mread. rewrite find_queue_by_name by done.
  destruct (by_name v _ _) as [x|] eqn:En; [|by apply meets_error]. cbn [found].
  apply by_name_Some in En as (Hx & _ & _); [|done..].
  mread. rewrite find_schedule_by_name by (done || by apply (has_queue_wf v x)).
  destruct (schedule_by_name v _ _) as [s|] eqn:Es; [|by apply meets_error]. cbn [found].
  apply schedule_by_name_Some in Es as (Hs' & Eo & _); [|done|by apply (has_queue_wf v x)].
  by apply Hk.
Qed.

Lemma refine_GetSchedule v req :
  QInv v -> is_u64 (ScheduleNameRequest.AccountId req) ->
  meets (GetSchedule req) v (spec_GetSchedule req (qabs v)).
Proof.
  intros Hv Ha. apply (refine_with_schedule v _ _ _ (fun _ s => mret (QPayload s))); [done..|].
  intros x s _ _ _. by apply meets_payload.
Qed.

Lemma refine_DeleteSchedule v req :
  QInv v -> is_u64 (ScheduleNameRequest.AccountId req) ->
  meets (DeleteSchedule req) v (spec_DeleteSchedule req (qabs v)).
Proof.
  intros Hv Ha. apply (refine_with_schedule v _ _ _ (fun queue schedule =>
    schedules_Delete schedule ;;
    queues_Update (Queue.set_SchedulesCount (i64 (Queue.SchedulesCount queue - 1)) queue) ;;
    mret (QPayload tt))); [done..|].
  intros x s Hx Hs Eo. pose proof Hv as [Hq Hss Hl].
  assert (Et : forall i, tally (of_queue i) (delete (skey s) (q_sched v)) =
            tally (of_queue i) (q_sched v) - (if decide (i = Queue.Id x) then 1 else 0)).
  { intros i. by rewrite tally_delete, (Hs : q_sched v !! skey s = Some s), weight_queue, Eo. }
  unfold schedules_Delete, queues_Update. cbn [meets]. qsteps. split; [done|].
  assert (Ex : i64 (Queue.SchedulesCount x - 1) = count_schedules (remove_schedule s (qabs v)) (Queue.Id x)).
  { unfold count_schedules. cbn. by rewrite Et, decide_True, (ln_count v Hl x Hx), i64_i64_sub. }
  rewrite Ex. split; [done|]. apply (QInv_recount v (sched_del s v) x); try done.
  - by apply schedules_ok_del.
  - intros t [Ht _]%stores_delete. by right.
  - intros i Hne. cbn. by rewrite Et, decide_False, Z.sub_0_r.
Qed.

Lemma refine_UpdateSchedule v req now :
  QInv v -> is_u64 (UpdateScheduleRequest.AccountId req) ->
  meets (UpdateSchedule req now) v (spec_UpdateSchedule req now (qabs v)).
Proof.
  intros Hv Ha. apply (refine_with_schedule v _ _ _ (fun _ schedule =>
    if negb (Schedule.Version schedule =? UpdateScheduleRequest.ExpectedVersion req)
    then mret (QError (scheduleVersionMismatchError (UpdateScheduleRequest.QueueName req)
                         (UpdateScheduleRequest.ScheduleName req) (Schedule.Version schedule)
                         (UpdateScheduleRequest.ExpectedVersion req)))
    else
      next ← next_tick (UpdateScheduleRequest.Cron req) (UpdateScheduleRequest.Timezone req) now;
      schedules_Update (updated_schedule req now next schedule) ;;
      mret (QPayload (updated_schedule req now next schedule)))); [done..|].
  intros x s _ Hs _. destruct (_ =? _); cbn [negb]; [|by apply meets_error].
  apply meets_tick. intros next [_ Hnext]%tick_i64. cbv zeta. cbn [meets]. apply wpq_bind.
  eapply wpq_mono; [apply (wpq_schedules_Update v s); try done|].
  - split; [apply (has_schedule_wf v s (qi_schedules v Hv) Hs)|done].
  - intros [] v' [Ha' Hv']. by apply wpq_ret.
Qed.
End handlers.
