(* ===== verification/QueuesSwap.v ===== *)
(** * Giving a queue a new id

    [SwapQueueId] walks the pages of the old id's schedules while it moves them: a page is
    read from the store the previous pages were moved in.  The walk ends and moves every
    schedule exactly once. *)

From S2P Require Export QueuesOps.

Section swap.
Context {U : Utils} {UO : UtilsOk U} {H : Honey} {HO : HoneyOk H}.
Implicit Types (v : QView) (x y : Queue.t) (s t : Schedule.t).

(** ** Pages *)

(** The rows a listing of queue [i] walks. *)
Definition rows_under (m : gmap bytes Schedule.t) (i : QueueId.t) : list (bytes * Schedule.t) :=
  filter (fun e => queue_key i `prefix_of` e.1) (ref_entries m).

Lemma elem_of_rows_under v i k s :
  schedules_ok v -> wf_qid i ->
  (k, s) ∈ rows_under (q_sched v) i <-> k = skey s /\ has_schedule v s /\ owner s = i.
Proof.
  intros Hs Hi. unfold rows_under. rewrite list_elem_of_filter, elem_of_ref_entries. cbn. split.
  - intros [Hp Hk]. destruct (so_rows v Hs _ _ Hk) as [-> [Hw _]].
    split; [done|]. split; [done|]. by apply schedule_key_prefix.
  - intros (-> & Hk & Ho). split; [|done]. apply schedule_key_prefix; [done| |done].
    by apply (has_schedule_wf v s).
Qed.

Lemma NoDup_rows_under m i : NoDup (rows_under m i).
Proof.
  apply NoDup_filter, (NoDup_fmap_1 fst), (StronglySorted_NoDup blt), ref_entries_sorted.
Qed.

Lemma wpq_schedules_List v i tok limit (Q : listSchedulesResult -> QView -> Prop) :
  0 < limit -> forward (CoreToMonstera tok) ->
  (forall sk page rest next prev,
     page_of fst pt_after (rows_under (q_sched v) i) (CoreToMonstera tok) limit sk page rest next ->
     Q (mkListSchedulesResult (snd <$> page) (MonsteraToCore next) prev) v) ->
  wpq (schedules_List i tok limit) v Q.
Proof.
  intros Hlim Hf HQ st <-. unfold schedules_List. cbv zeta. apply wp_bind, wp_gets, wp_ret.
  rewrite sched_pk_eq.
  destruct (bt_ListPaginated_spec (schedules_table (schedules st)) (queue_key i) _ limit Hlim Hf)
    as (sk & page & rest & Hp & Ei). rewrite Ei.
  rewrite bt_EachEntry_ref in Hp. pose proof (HQ sk page rest _ (MonsteraToCore
    (ListPaginatedResult.PreviousPaginationToken (bt_ListPaginated (schedules_table (schedules st))
      (queue_key i) (CoreToMonstera tok) limit))) Hp) as HQ'.
  assert (is_reverse (CoreToMonstera tok) = false) as ->; [|exact HQ'].
  unfold is_reverse. by destruct (CoreToMonstera tok).
Qed.

(** ** Moving schedules *)

Lemma rekeyed_spec new s :
  owner (rekeyed new s) = new /\ Schedule.Name (rekeyed new s) = Schedule.Name s /\
  snum (rekeyed new s) = snum s /\ Schedule.NextScheduledAt (rekeyed new s) = Schedule.NextScheduledAt s.
Proof. destruct s, new. done. Qed.

Context (v0 : QView) (old new : QueueId.t).
Hypothesis (Hv0 : QInv v0) (Hold : wf_qid old) (Hnew : wf_qid new) (Hne : old <> new).
Hypothesis Hfree : forall s, has_schedule v0 s -> owner s <> new.

Record moved (done : list Schedule.t) v : Prop := {
  mv_ok : schedules_ok v;
  mv_rows t : has_schedule v t <->
    has_schedule v0 t /\ t ∉ done \/ exists s, s ∈ done /\ t = rekeyed new s;
  mv_done : NoDup done;
  mv_from : Forall (fun s => has_schedule v0 s /\ owner s = old) done;
  mv_tally i : tally (of_queue i) (q_sched v) = tally (of_queue i) (q_sched v0) +
    (if decide (i = new) then Z.of_nat (length done) else 0) -
    (if decide (i = old) then Z.of_nat (length done) else 0);
  mv_rest : q_table v = q_table v0 /\ q_names v = q_names v0 /\ q_cnt v = q_cnt v0 /\ q_gc v = q_gc v0;
}.

Lemma skey_inj s t : wf_schedule s -> wf_schedule t -> skey s = skey t -> owner s = owner t /\ snum s = snum t.
Proof. intros [Hs _] [Ht _] E%schedule_key_inj; [|done..]. unfold owner, snum. by rewrite E. Qed.

Lemma wf_rekeyed s : wf_schedule s -> wf_schedule (rekeyed new s).
Proof.
  destruct (rekeyed_spec new s) as (_ & _ & _ & E). intros [(H1 & H2 & H3) H4]. split; [|by rewrite E].
  destruct s. split_and!; [apply Hnew|apply Hnew|done].
Qed.

Lemma v0_skey_unique s t :
  has_schedule v0 s -> has_schedule v0 t -> owner s = owner t -> snum s = snum t -> s = t.
Proof.
  intros Hs Ht Eo En. assert (E : skey s = skey t).
  { unfold skey. rewrite !sid_key_eq. unfold owner, snum in *. congruence. }
  unfold has_schedule, stores in *. congruence.
Qed.

Lemma moved_nil : moved [] v0.
Proof using Hv0.
  split; try done.
  - apply Hv0.
  - intros t. split; [left; split; [done|apply not_elem_of_nil]|].
    intros [[? _]|(s & Hs%not_elem_of_nil & _)]; done.
  - constructor.
  - intros i. cbn. do 2 case_decide; lia.
Qed.

(** The new id has no row with the id or the name of a schedule still to be moved. *)
Lemma moved_fresh done v s :
  moved done v -> has_schedule v0 s -> owner s = old -> s ∉ done ->
  forall t, has_schedule v t -> owner t = new ->
    snum t <> snum s /\ Schedule.Name t <> Schedule.Name s.
Proof.
  intros [M1 M2 M3 M4 M5 M6] Hs Eo Hni t Ht Et. apply M2 in Ht as [[Ht _]|(s' & Hs' & ->)].
  { by destruct (Hfree t Ht). }
  rewrite Forall_forall in M4. destruct (M4 s' Hs') as [Hh Eo'].
  destruct (rekeyed_spec new s') as (_ & -> & -> & _). split; intros E; apply Hni.
  - by rewrite (v0_skey_unique s s') by congruence.
  - destruct (qi_schedules v0 Hv0) as [R1 R2 _].
    rewrite (named_unique wf_schedule skey schedule_name_key snum schedule_name_num_key
      _ _ s s' R1 R2 Hs Hh); [done|].
    unfold schedule_name_key. unfold owner in *. congruence.
Qed.

Lemma moved_vacant done v s :
  moved done v -> has_schedule v0 s -> owner s = old -> s ∉ done ->
  q_sched (sched_del s v) !! skey (rekeyed new s) = None /\
  q_snames (sched_del s v) !! schedule_name_key (rekeyed new s) = None.
Proof using All.
  intros Hm Hs Eo Hni. pose proof (moved_fresh done v s Hm Hs Eo Hni) as Hfresh.
  destruct Hm as [M1 M2 _ _ _ _]. destruct (rekeyed_spec new s) as (E1 & E2 & E3 & E4).
  assert (Hsv : has_schedule v s) by (apply M2; by left).
  pose proof (has_schedule_wf v s M1 Hsv) as Hw.
  pose proof (schedules_ok_del v s M1 Hsv) as Hdel. split.
  - destruct (q_sched (sched_del s v) !! _) as [t|] eqn:E; [|done]. exfalso.
    destruct (so_rows _ Hdel _ _ E) as [Ek Hwt]. cbn in E. apply lookup_delete_Some in E as [_ E].
    apply skey_inj in Ek as [Eo' En']; [|by apply wf_rekeyed|done].
    destruct (Hfresh t) as [[] _]; try congruence.
    destruct (so_rows _ M1 _ _ E) as [Ek' _]. rewrite Ek' in E. exact E.
  - destruct (q_snames (sched_del s v) !! _) as [n|] eqn:E; [|done]. exfalso.
    apply (so_names _ Hdel) in E as (t & [Ht _]%stores_delete & E & _).
    destruct (has_schedule_wf v t M1 Ht) as [(W1 & W2 & _) _].
    apply snames_pk_inj in E as (F1 & F2 & F3); [|done|done|..]; [|apply (wf_rekeyed s Hw)..].
    destruct (Hfresh t Ht) as [_ []]; [|congruence].
    rewrite <-E1. unfold owner. congruence.
Qed.

Lemma moved_rows_step done v s t :
  moved done v -> has_schedule v0 s -> owner s = old -> s ∉ done ->
  has_schedule (sched_add (rekeyed new s) (sched_del s v)) t <->
  has_schedule v0 t /\ t ∉ done ++ [s] \/ exists u, u ∈ done ++ [s] /\ t = rekeyed new u.
Proof using All.
  intros Hm Hs Eo Hni. pose proof (moved_fresh done v s Hm Hs Eo Hni) as Hfresh.
  destruct Hm as [M1 M2 _ _ _ _]. destruct (rekeyed_spec new s) as (E1 & _ & E3 & _).
  assert (Hw : wf_schedule s) by (apply (has_schedule_wf v s M1), M2; by left).
  setoid_rewrite elem_of_app. setoid_rewrite list_elem_of_singleton. unfold has_schedule at 1. cbn.
  rewrite (stores_insert skey), (stores_delete skey). fold (has_schedule v t). split.
  - intros [->|[[Ht Hk1] Hk2]]; [right; exists s; by eauto|].
    apply M2 in Ht as [[Ht Hnt]|(u & Hu & ->)]; [left|right; by eauto].
    split; [done|]. intros [?| ->]; done.
  - intros [[Ht Hnt]|(u & [Hu| ->] & ->)]; [| |by left].
    + right. split; [split|].
      * apply M2. left. split; [done|]. intros ?. apply Hnt. by left.
      * intros E. apply Hnt. right. unfold has_schedule, stores in Ht, Hs. congruence.
      * intros [Eo' _]%skey_inj; [|by apply (has_schedule_wf v0), Ht; apply Hv0|by apply wf_rekeyed].
        apply (Hfree t Ht). congruence.
    + assert (Hu' : has_schedule v (rekeyed new u)) by (apply M2; right; by eauto).
      destruct (rekeyed_spec new u) as (U1 & _ & U3 & _).
      destruct (Hfresh _ Hu' U1) as [Hnu _]. pose proof (has_schedule_wf v _ M1 Hu') as Hwu.
      right. split; [split; [done|]|]; intros [_ En]%skey_inj; try done; [congruence| by apply wf_rekeyed].
Qed.

Lemma moved_step done v s :
  moved done v -> has_schedule v0 s -> owner s = old -> s ∉ done ->
  moved (done ++ [s]) (sched_add (rekeyed new s) (sched_del s v)).
Proof using All.
  intros Hm Hs Eo Hni. destruct (moved_vacant done v s Hm Hs Eo Hni) as [Hk Hn].
  pose proof (fun t => moved_rows_step done v s t Hm Hs Eo Hni) as Hrows.
  destruct Hm as [M1 M2 M3 M4 M5 M6]. destruct (rekeyed_spec new s) as (E1 & _ & _ & _).
  assert (Hsv : has_schedule v s) by (apply M2; by left). split.
  - apply schedules_ok_add; [by apply schedules_ok_del| |done..].
    by apply wf_rekeyed, (has_schedule_wf v).
  - done.
  - apply NoDup_app. split; [done|]. split; [|apply NoDup_singleton]. by intros t Ht ->%list_elem_of_singleton.
  - apply Forall_app. by split; [|constructor].
  - intros i. cbn. rewrite tally_insert_fresh by exact Hk.
    rewrite tally_delete, (Hsv : q_sched v !! skey s = Some s), !weight_queue, M5, E1, Eo, length_app. cbn.
    do 2 case_decide; lia.
  - done.
Qed.

Lemma wpq_move_page page : forall done v,
  moved done v -> NoDup page -> (forall s, s ∈ page -> has_schedule v0 s /\ owner s = old /\ s ∉ done) ->
  wpq (for_each page (move_schedule new)) v (fun _ v' => moved (done ++ page) v').
Proof using All.
  induction page as [|s page IH]; intros done v Hm Hnd Hp; cbn [for_each].
  - apply wpq_ret. by rewrite app_nil_r.
  - apply NoDup_cons in Hnd as [Hni Hnd]. destruct (Hp s) as (H1 & H2 & H3); [left|].
    unfold move_schedule at 1, schedules_Delete, schedules_Create. qsteps.
    eapply wpq_mono; [apply (IH (done ++ [s])); [exact (moved_step done v s Hm H1 H2 H3)|done|]|].
    + intros t Ht. destruct (Hp t) as (T1 & T2 & T3); [by right|]. split; [done|]. split; [done|].
      rewrite not_elem_of_app, list_elem_of_singleton. split; [done|]. by intros ->.
    + intros [] v'. by rewrite <-app_assoc.
Qed.

(** What is still to be moved. *)
Lemma moved_left done v k s :
  moved done v -> (k, s) ∈ rows_under (q_sched v) old <->
  k = skey s /\ has_schedule v0 s /\ owner s = old /\ s ∉ done.
Proof using All.
  intros [M1 M2 M3 M4 M5 M6]. rewrite elem_of_rows_under by done. rewrite M2. split.
  - intros (-> & [[Hs Hn]|(u & Hu & ->)] & Eo); [done|]. destruct (rekeyed_spec new u) as [E _]. congruence.
  - intros (-> & Hs & Eo & Hn). split; [done|]. split; [by left|done].
Qed.

(** What a page leaves behind. *)
Lemma left_after_page done v v' page rest e :
  moved done v -> moved (done ++ page.*2) v' -> rows_under (q_sched v) old = page ++ rest ->
  e ∈ rows_under (q_sched v') old -> e ∈ rest.
Proof using All.
  intros Hm Hm' P1. destruct e as [k s]. intros (-> & Hs & Eo & Hn)%(moved_left _ v' k s Hm').
  apply not_elem_of_app in Hn as [Hn1 Hn2].
  assert (Hr : (skey s, s) ∈ page ++ rest) by (rewrite <-P1; by apply (moved_left done v)).
  apply elem_of_app in Hr as [Hr|Hr]; [|done]. destruct Hn2. apply list_elem_of_fmap. by exists (skey s, s).
Qed.

Lemma rows_under_sorted m i page r rest e :
  rows_under m i = page ++ r :: rest -> e ∈ r :: rest -> ble r.1 e.1.
Proof.
  intros P1 He. pose proof (StronglySorted_fmap_filter blt fst (fun e => queue_key i `prefix_of` e.1)
    _ (ref_entries_sorted m)) as Hsort. fold (rows_under m i) in Hsort.
  rewrite P1, fmap_app in Hsort. apply StronglySorted_app_1_r in Hsort.
  destruct (StronglySorted_head _ _ _ Hsort e.1) as [->|?]; [|by left|by right].
  change (e.1 ∈ (r :: rest).*1). apply list_elem_of_fmap. by exists e.
Qed.

Lemma wpq_move_one_page done v page rest :
  moved done v -> rows_under (q_sched v) old = page ++ rest ->
  wpq (for_each page.*2 (move_schedule new)) v (fun _ v' => moved (done ++ page.*2) v').
Proof using All.
  intros Hm P1. assert (Hin : forall k s, (k, s) ∈ page ->
            k = skey s /\ has_schedule v0 s /\ owner s = old /\ s ∉ done).
  { intros k s Hk. apply (moved_left done v); [done|]. rewrite P1. apply elem_of_app. by left. }
  apply wpq_move_page; [done| |].
  - apply NoDup_fmap_2_strong.
    + intros [k s] [k' s'] [-> _]%Hin [-> _]%Hin E. cbn in E. congruence.
    + pose proof (NoDup_rows_under (q_sched v) old) as Hnd. rewrite P1 in Hnd. by apply NoDup_app in Hnd as [? _].
  - intros s ([k s'] & -> & [_ ?]%Hin)%list_elem_of_fmap. done.
Qed.

Lemma wpq_move_schedules fuel : forall done v tok,
  moved done v -> forward (CoreToMonstera tok) ->
  (forall tk, CoreToMonstera tok = Some tk -> Forall (fun e => pt_after tk e.1) (rows_under (q_sched v) old)) ->
  (length (rows_under (q_sched v) old) < fuel)%nat ->
  wpq (move_schedules fuel old new tok) v (fun _ v' => exists all,
    moved all v' /\ forall s, has_schedule v0 s -> owner s = old -> s ∈ all).
Proof using All.
  induction fuel as [|fuel IH]; intros done v tok Hm Hf Hafter Hfuel; [lia|]. cbn [move_schedules].
  apply wpq_bind, wpq_schedules_List; [done|done|]. intros sk page rest next prev [P1 P2 P3 P4].
  assert (sk = []) as ->.
  { destruct (CoreToMonstera tok) as [tk|]; [|done]. destruct P3 as [P3 _].
    specialize (Hafter tk eq_refl). rewrite P1 in Hafter.
    destruct sk; [done|]. apply Forall_cons in P3 as [P3 _], Hafter as [Hafter _]. done. }
  cbn [app] in P1. cbn [lsr_Schedules lsr_NextPaginationToken].
  apply wpq_bind. eapply wpq_mono; [by apply (wpq_move_one_page done v page rest)|]. intros [] v' Hm'.
  pose proof (fun e => left_after_page done v v' page rest e Hm Hm' P1) as Hleft.
  destruct next as [tk|].
  - destruct P4 as (Hrev & (r & rest' & -> & Hr) & _).
    pose proof (CoreToMonstera_MonsteraToCore (Some tk)) as Ht. cbn [MonsteraToCore] in *.
    apply (IH (done ++ page.*2)); [done|by rewrite Ht| |].
    + intros tk' Etk. rewrite Ht in Etk. injection Etk as <-. apply Forall_forall. intros e He.
      by apply Hr, (rows_under_sorted _ _ _ _ _ _ P1), Hleft.
    + pose proof (submseteq_length _ _ (NoDup_submseteq _ _ (NoDup_rows_under _ _) Hleft)) as Hl.
      unfold defaultGCRecordSchedulesPageSize in P2. rewrite P1, length_app in Hfuel.
      rewrite length_app in P2. cbn [length] in *. lia.
  - apply wpq_ret. exists (done ++ page.*2). split; [done|]. subst rest. intros s Hs Eo.
    destruct (decide (s ∈ done ++ page.*2)) as [|Hn]; [done|]. exfalso.
    apply (not_elem_of_nil (skey s, s)), Hleft. by apply (moved_left _ v' _ _ Hm').
Qed.

(** The relabelled table, row by row. *)
Lemma relabel_inj s t :
  has_schedule v0 s -> has_schedule v0 t -> skey (relabel old new s) = skey (relabel old new t) -> s = t.
Proof using All.
  intros Hs Ht. pose proof (has_schedule_wf v0 _ (qi_schedules v0 Hv0) Hs) as Hws.
  pose proof (has_schedule_wf v0 _ (qi_schedules v0 Hv0) Ht) as Hwt.
  destruct (rekeyed_spec new s) as (S1 & _ & S3 & _), (rekeyed_spec new t) as (T1 & _ & T3 & _).
  pose proof (wf_rekeyed s Hws) as Hws'. pose proof (wf_rekeyed t Hwt) as Hwt'.
  unfold relabel, of_queue. do 2 case_decide; intros [E1 E2]%skey_inj; try done.
  - apply v0_skey_unique; congruence.
  - destruct (Hfree t Ht). congruence.
  - destruct (Hfree s Hs). congruence.
  - by apply v0_skey_unique.
Qed.

Lemma stores_relabelled t :
  stores skey (relabelled old new (q_sched v0)) t <-> exists s, has_schedule v0 s /\ t = relabel old new s.
Proof using All.
  set (rows := (map_to_list (q_sched v0)).*2).
  assert (Hrows : forall s, s ∈ rows <-> has_schedule v0 s).
  { intros s. unfold rows. rewrite list_elem_of_fmap. split.
    - intros ([k s'] & -> & Hk%elem_of_map_to_list). by destruct (so_rows v0 (qi_schedules v0 Hv0) _ _ Hk) as [-> _].
    - intros Hs. exists (skey s, s). split; [done|]. by apply elem_of_map_to_list. }
  assert (Hnd : NoDup rows).
  { apply NoDup_fmap_2_strong; [|apply NoDup_map_to_list].
    intros [k s] [k' s'] Hk%elem_of_map_to_list Hk'%elem_of_map_to_list E. cbn in E. subst s'.
    destruct (so_rows v0 (qi_schedules v0 Hv0) _ _ Hk) as [-> _].
    by destruct (so_rows v0 (qi_schedules v0 Hv0) _ _ Hk') as [-> _]. }
  unfold stores, relabelled. fold rows. rewrite <-elem_of_list_to_map.
  - rewrite list_elem_of_fmap. setoid_rewrite list_elem_of_fmap. setoid_rewrite <-Hrows. split.
    + intros (u & [= _ ->] & s & -> & Hs). by eauto.
    + intros (s & Hs & ->). by eauto 6.
  - rewrite <-!list_fmap_compose. apply NoDup_fmap_2_strong; [|done].
    intros s t' Hs%Hrows Ht%Hrows E. by apply relabel_inj.
Qed.

Lemma keyed_relabelled : keyed wf_schedule skey (relabelled old new (q_sched v0)).
Proof using All.
  intros k t Hk. assert (k = skey t) as ->.
  { apply elem_of_list_to_map_2, list_elem_of_fmap in Hk as (u & [= -> ->] & _). done. }
  split; [done|]. apply stores_relabelled in Hk as (s & Hs & ->).
  apply (has_schedule_wf v0 _ (qi_schedules v0 Hv0)) in Hs. unfold relabel. case_decide; [|done].
  by apply wf_rekeyed.
Qed.

Lemma moved_all all v :
  moved all v -> (forall s, has_schedule v0 s -> owner s = old -> s ∈ all) ->
  q_sched v = relabelled old new (q_sched v0).
Proof using All.
  intros [M1 M2 M3 M4 _ _] Hall. apply (keyed_ext wf_schedule skey); [apply M1|apply keyed_relabelled|].
  intros t. rewrite stores_relabelled. fold (has_schedule v t). rewrite M2. rewrite Forall_forall in M4.
  unfold relabel, of_queue. split.
  - intros [[Ht Hn]|(s & Hs & ->)].
    + exists t. split; [done|]. rewrite decide_False; [done|]. intros E. by apply Hn, Hall.
    + destruct (M4 s Hs). exists s. by rewrite decide_True.
  - intros (s & Hs & ->). case_decide as E; [right; eauto|]. left. split; [done|].
    intros Hin. by destruct (M4 s Hin).
Qed.
End swap.

Section swap_handler.
Context {U : Utils} {UO : UtilsOk U} {H : Honey} {HO : HoneyOk H} {C : CronLib} {CO : CronOk C}.
Implicit Types (v : QView) (x y : Queue.t) (s t : Schedule.t).

(** The queue tables after [queuesTable.SwapId]. *)
Definition queue_swap x y v : QView :=
  set_q_table (delete (row_key x) (<[row_key y := y]> (q_table v)))
    (set_q_names (<[queue_name_key y := row_num y]> (q_names v)) v).

Lemma queues_ok_swap v x y :
  queues_ok v -> has_queue v x -> wf_queue_row y -> q_table v !! row_key y = None ->
  QueueId.AccountId (Queue.Id y) = QueueId.AccountId (Queue.Id x) -> Queue.Name y = Queue.Name x ->
  queues_ok (queue_swap x y v).
Proof.
  intros Hq Hx Hy Hk Ea En. pose proof Hq as [H1 H2 H3 H4].
  assert (Hne : row_key y <> row_key x) by (intros E; unfold has_queue, stores in Hx; congruence).
  assert (Enk : queue_name_key y = queue_name_key x) by (unfold queue_name_key; congruence).
  assert (Hn : q_names v !! queue_name_key x = Some (row_num x)) by (apply H2; by exists x).
  unfold queue_swap. rewrite delete_insert_ne by done. split; cbn.
  - apply keyed_insert; [by apply keyed_delete|done].
  - rewrite <-(insert_delete_eq (q_names v)). apply named_insert.
    + rewrite Enk. apply (named_delete wf_queue_row); auto using queue_name_num_key.
    + by rewrite lookup_delete_ne.
    + apply lookup_delete_eq.
  - intros a Ha. rewrite H3 by done. f_equal.
    rewrite tally_insert_fresh by (by rewrite lookup_delete_ne).
    rewrite tally_delete, (Hx : q_table v !! row_key x = Some x), !weight_account, Ea. lia.
  - done.
Qed.

Lemma moved_counts v old new all v1 :
  schedules_ok v -> old <> new -> (forall s, has_schedule v s -> owner s <> new) ->
  moved v old new all v1 -> (forall s, has_schedule v s -> owner s = old -> s ∈ all) ->
  (forall t, has_schedule v1 t -> owner t <> old) /\
  tally (of_queue new) (q_sched v1) = tally (of_queue old) (q_sched v) /\
  forall i, i <> old -> i <> new -> tally (of_queue i) (q_sched v1) = tally (of_queue i) (q_sched v).
Proof.
  intros Hs Hne Hfree [M1 M2 _ _ M5 _] Hall.
  assert (Hgone : forall t, has_schedule v1 t -> owner t <> old).
  { intros t [[Ht Hn]|(s & _ & ->)]%M2 E; [by apply Hn, Hall|]. destruct (rekeyed_spec new s). congruence. }
  pose proof (tally_no_schedules v1 old M1 Hgone) as Ht0. rewrite M5 in Ht0.
  pose proof (tally_no_schedules v new Hs Hfree) as Ht1. split; [done|]. split.
  - rewrite M5. rewrite decide_True, decide_False by done.
    rewrite decide_False, decide_True in Ht0 by done. lia.
  - intros i Ho Hn. rewrite M5, !decide_False by done. lia.
Qed.

Lemma linked_swap v x new now all v1 :
  let old := Queue.Id x in let y := swapped_queue new now x in
  QInv v -> has_queue v x -> row_key y <> row_key x -> q_gc v !! queue_key new = None ->
  moved v old new all v1 -> (forall t, has_schedule v1 t -> owner t <> old) ->
  tally (of_queue new) (q_sched v1) = tally (of_queue old) (q_sched v) ->
  (forall i, i <> old -> i <> new -> tally (of_queue i) (q_sched v1) = tally (of_queue i) (q_sched v)) ->
  linked (queue_swap x y v1).
Proof.
  intros old y [Hq Hs [H1 H2 H3 H4]] Hx Hne Hgc [_ M2 _ _ _ (M6 & M7 & M8 & M9)] Hgone Et Ei.
  unfold queue_swap. rewrite delete_insert_ne, M6 by done. split; cbn.
  - intros z [->|[[Hz Hzx]%stores_delete Hzy]]%stores_insert.
    + change (Queue.SchedulesCount x = i64 (tally (of_queue new) (q_sched v1))). rewrite Et. by apply H1.
    + rewrite Ei; [by apply H1| |]; intros E; [apply Hzx|apply Hzy]; unfold row_key; by rewrite E.
  - intros t Ht. rewrite M9. pose proof (Hgone t Ht) as Hg. apply M2 in Ht as [[Ht _]|(s & _ & ->)].
    + assert (Hto : queue_key (owner t) <> row_key x).
      { intros E%queue_key_inj; [done| |by apply (has_queue_wf v x)].
        split; apply (has_schedule_wf v t Hs Ht). }
      destruct (H2 t Ht) as [?|?]; [left|by right].
      apply lookup_insert_is_Some'. right. by rewrite lookup_delete_ne.
    + left. destruct (rekeyed_spec new s) as [-> _].
      change (queue_key new) with (row_key y). rewrite lookup_insert_eq. by eexists.
  - by rewrite M9.
  - intros k. rewrite M9. intros Hgk. apply lookup_insert_None. split.
    + apply lookup_delete_None. right. by apply H4.
    + intros <-. destruct Hgk as [r Hr]. change (row_key y) with (queue_key new) in Hr. congruence.
Qed.

Lemma QInv_swap v x new now all v1 :
  let old := Queue.Id x in let y := swapped_queue new now x in
  QInv v -> has_queue v x -> wf_qid new -> QueueId.AccountId new = QueueId.AccountId old ->
  q_table v !! queue_key new = None -> q_gc v !! queue_key new = None ->
  moved v old new all v1 -> (forall s, has_schedule v s -> owner s = old -> s ∈ all) ->
  QInv (queue_swap x y v1).
Proof.
  intros old y Hv Hx Hnew Ea Hk Hgc Hm Hall. pose proof Hv as [Hq Hs Hl].
  assert (Hne : row_key y <> row_key x).
  { intros E. change (row_key y) with (queue_key new) in E. unfold has_queue, stores in Hx. congruence. }
  assert (Hno : old <> new) by (intros E; apply Hne; unfold row_key; cbn; by rewrite <-E).
  destruct (moved_counts v old new all v1 Hs Hno (linked_no_schedules v new Hv Hk Hgc) Hm Hall)
    as (Hgone & Et & Ei).
  pose proof (mv_rest _ _ _ _ _ Hm) as (M6 & M7 & M8 & M9). split.
  - apply queues_ok_swap; try done; [by apply (queues_ok_same v)|unfold has_queue; by rewrite M6|by rewrite M6].
  - by apply (schedules_ok_same v1), (mv_ok _ _ _ _ _ Hm).
  - by apply (linked_swap v x new now all v1).
Qed.

Lemma refine_SwapQueueId v req now :
  let new := QueueId.mk (SwapQueueIdRequest.AccountId req) (SwapQueueIdRequest.NewQueueId req) in
  QInv v -> wf_qid new -> q_gc v !! queue_key new = None ->
  meets (SwapQueueId req now) v (Some (spec_SwapQueueId req now (qabs v))).
Proof.
  intros new Hv Hnew Hgc. pose proof Hv as [Hq Hs Hl]. unfold SwapQueueId, spec_SwapQueueId. fold new.
  mread. rewrite find_queue_by_name by (done || apply Hnew).
  destruct (by_name v _ _) as [x|] eqn:En; [|by apply meets_error]. cbn [found].
  apply by_name_Some in En as (Hx & Ea & _); [|done|apply Hnew]. mread. cbn [a_queues qabs].
  destruct (q_table v !! queue_key new) eqn:Ek; [by apply meets_error|]. cbn [absent meets].
  set (old := Queue.Id x) in *. set (y := swapped_queue new now x).
  assert (Hne : old <> new).
  { intros E. unfold has_queue, stores, row_key in Hx. fold old in Hx. congruence. }
  pose proof (linked_no_schedules v new Hv Ek Hgc) as Hfree.
  pose proof (has_queue_wf v x Hq Hx : wf_qid old) as Hold.
  intros st Hst. apply wp_bind, wp_gets. revert st Hst.
  enough (Hgo : forall fuel, (length (rows_under (q_sched v) old) < fuel)%nat ->
    wpq (move_schedules fuel old new None ;; queues_SwapId old y ;; mret (QPayload (y, old))) v
      (fun r v' => r = QPayload (y, old) /\
         qabs v' = mkQSpec (<[row_key y := y]> (delete (row_key x) (q_table v)))
           (relabelled old new (q_sched v)) (q_gc v) /\ QInv v')).
  { intros st Hst. apply Hgo; [|done]. rewrite bt_EachEntry_ref.
    change (bt_den (schedules_table (schedules st))) with (q_sched (qview st)). rewrite Hst.
    apply le_n_S, length_filter. }
  intros fuel Hfuel. apply wpq_bind. eapply wpq_mono.
  { apply (wpq_move_schedules v old new Hv Hold Hnew Hne Hfree fuel [] v None); try done. by apply moved_nil. }
  intros [] v1 (all & Hm & Hall). unfold queues_SwapId. qsteps. split; [done|].
  pose proof (mv_rest _ _ _ _ _ Hm) as (M6 & M7 & M8 & M9). split.
  - unfold qabs. cbn. rewrite (moved_all v old new Hv Hold Hnew Hne Hfree all v1 Hm Hall), M6, M9.
    f_equal. apply delete_insert_ne. intros E. change (row_key y) with (queue_key new) in E.
    unfold has_queue, stores in Hx. congruence.
  - by apply (QInv_swap v x new now all v1).
Qed.
End swap_handler.

