(* ===== verification/QueuesGC.v ===== *)
(** * Collecting deleted queues and dequeuing due schedules *)

From S2P Require Export QueuesSwap.

(** ** Garbage collection *)

Section collect.
Context {U : Utils} {UO : UtilsOk U} {H : Honey} {HO : HoneyOk H}.
Implicit Types (v : QView) (x : Queue.t) (s t : Schedule.t).

(** [v'] is [v] without the schedules [gone]; the records are left open. *)
Record collected v (gone : list Schedule.t) v' : Prop := {
  co_ok : schedules_ok v';
  co_rows t : has_schedule v' t <-> has_schedule v t /\ t ∉ gone;
  co_nodup : NoDup gone;
  co_from : Forall (has_schedule v) gone;
  co_tally i : (forall s, s ∈ gone -> owner s <> i) ->
    tally (of_queue i) (q_sched v') = tally (of_queue i) (q_sched v);
  co_rest : q_table v' = q_table v /\ q_names v' = q_names v /\ q_cnt v' = q_cnt v;
}.

Lemma collected_nil v v' :
  schedules_ok v -> q_sched v' = q_sched v -> q_snames v' = q_snames v -> q_due v' = q_due v ->
  q_table v' = q_table v -> q_names v' = q_names v -> q_cnt v' = q_cnt v -> collected v [] v'.
Proof.
  intros Hs E1 E2 E3 E4 E5 E6. split; try done.
  - by apply (schedules_ok_same v).
  - intros t. unfold has_schedule. rewrite E1. split; [|by intros [? _]]. split; [done|apply not_elem_of_nil].
  - constructor.
  - intros i _. by rewrite E1.
Qed.

Lemma collected_one v s : schedules_ok v -> has_schedule v s -> collected v [s] (sched_del s v).
Proof.
  intros Hok Hs. split; try done.
  - by apply schedules_ok_del.
  - intros t. unfold has_schedule at 1. cbn. rewrite (stores_delete skey), list_elem_of_singleton.
    fold (has_schedule v t). split; intros [Ht Hne]; (split; [done|]); intros E; apply Hne.
    + by rewrite E.
    + unfold has_schedule, stores in *. congruence.
  - apply NoDup_singleton.
  - by constructor.
  - intros i Hi. cbn. rewrite tally_delete, (Hs : q_sched v !! skey s = Some s), weight_queue.
    rewrite decide_False; [lia|]. intros ->. by apply (Hi s); [left|].
Qed.

Lemma collected_trans v g1 v1 g2 v2 :
  collected v g1 v1 -> collected v1 g2 v2 -> collected v (g1 ++ g2) v2.
Proof.
  intros [A1 A2 A3 A4 A5 (A6 & A7 & A8)] [B1 B2 B3 B4 B5 (B6 & B7 & B8)].
  rewrite Forall_forall in B4. split; [done|..].
  - intros t. rewrite B2, A2, not_elem_of_app. tauto.
  - apply NoDup_app. split; [done|]. split; [|done]. intros t Ht Ht2. by apply B4, A2 in Ht2 as [_ ?].
  - apply Forall_app. split; [done|]. apply Forall_forall. intros t Ht. by apply B4, A2 in Ht as [? _].
  - intros i Hi. rewrite B5, A5; [done|..]; intros s Hs; apply Hi, elem_of_app; auto.
  - split_and!; congruence.
Qed.

(** Removing schedules without a queue keeps the invariant. *)
Lemma QInv_collected v gone v' :
  QInv v -> collected v gone v' -> Forall (fun s => q_table v !! queue_key (owner s) = None) gone ->
  q_gc v' = q_gc v -> QInv v'.
Proof.
  intros [Hq Hs [H1 H2 H3 H4]] [A1 A2 A3 A4 A5 (A6 & A7 & A8)] Hg Eg.
  split; [by apply (queues_ok_same v)|done|]. rewrite Forall_forall in Hg. split; rewrite ?Eg, ?A6; try done.
  - intros x. unfold has_queue. rewrite A6. intros Hx. rewrite A5; [by apply H1|].
    intros s Hin E. specialize (Hg s Hin). rewrite E in Hg. unfold stores, row_key in Hx. congruence.
  - intros s [Hs' _]%A2. by apply H2.
Qed.

Lemma QInv_drop_record v r :
  QInv v -> wf_record r ->
  (forall s, has_schedule v s -> owner s <> QueuesGarbageCollectionRecord.QueueId r) ->
  QInv (set_q_gc (delete (gc_key r) (q_gc v)) v).
Proof.
  intros [Hq Hs [H1 H2 H3 H4]] Hr Hno. split; [by apply (queues_ok_same v)|by apply (schedules_ok_same v)|].
  split; cbn; try done.
  - intros s Hs'. destruct (H2 s Hs') as [?|?]; [by left|right]. rewrite lookup_delete_ne; [done|].
    unfold gc_key. rewrite gc_pk_eq. intros E%queue_key_inj; [by apply (Hno s)|done|].
    split; apply (has_schedule_wf v s Hs Hs').
  - by apply keyed_delete.
  - intros k [_ Hk]%lookup_delete_is_Some. by apply H4.
Qed.

(** One page of a record's schedules: the first ones go, all of them if the budget lasts. *)
Lemma wpq_gc_schedules maxVisited page : forall v visited,
  schedules_ok v -> NoDup page -> Forall (has_schedule v) page -> visited < maxVisited ->
  wpq (gc_schedules maxVisited page visited) v (fun r v' => exists gone rest,
    page = gone ++ rest /\ collected v gone v' /\ q_gc v' = q_gc v /\
    r.1 = visited + Z.of_nat (length gone) /\
    (if r.2 then r.1 = maxVisited /\ gone <> [] else rest = [] /\ r.1 < maxVisited)).
Proof.
  induction page as [|s page IH]; intros v visited Hok Hnd Hp Hv; cbn [gc_schedules].
  - apply wpq_ret. exists [], []. split; [done|]. split; [by apply collected_nil|].
    cbn. split_and!; try done; lia.
  - apply NoDup_cons in Hnd as [Hni Hnd]. apply Forall_cons in Hp as [Hs Hp].
    pose proof (collected_one v s Hok Hs) as Hone. unfold schedules_Delete. qsteps.
    change (wpq (if visited + 1 >=? maxVisited then mret (visited + 1, true)
      else gc_schedules maxVisited page (visited + 1)) (sched_del s v) (fun r v' => exists gone rest,
      s :: page = gone ++ rest /\ collected v gone v' /\ q_gc v' = q_gc v /\
      r.1 = visited + Z.of_nat (length gone) /\
      (if r.2 then r.1 = maxVisited /\ gone <> [] else rest = [] /\ r.1 < maxVisited))).
    destruct (Z.geb_spec (visited + 1) maxVisited).
    + apply wpq_ret. exists [s], page. cbn. split_and!; try done; lia.
    + eapply wpq_mono; [apply IH; [apply Hone|done| |lia]|].
      * apply Forall_forall. intros t Ht. rewrite Forall_forall in Hp. apply (co_rows _ _ _ Hone).
        split; [by apply Hp|]. rewrite list_elem_of_singleton. by intros ->.
      * intros [n b] v' (gone & rest & -> & Hc & Eg & En & Hb). exists (s :: gone), rest. cbn in *.
        split; [done|]. split; [by apply (collected_trans v [s] (sched_del s v) gone v')|].
        split; [done|]. split; [lia|]. destruct b; naive_solver.
Qed.

(** What a run of the collector does: [gone] are schedules without a queue, at most
    [budget] of them, and records only disappear. *)
Record gc_run v (budget : Z) (gone : list Schedule.t) v' : Prop := {
  gr_inv : QInv v';
  gr_collected : collected v gone v';
  gr_orphans : Forall (fun s => q_table v !! queue_key (owner s) = None) gone;
  gr_budget : Z.of_nat (length gone) <= budget;
  gr_records : q_gc v' ⊆ q_gc v;
}.

(** A record whose queue is gone. *)
Definition stale v (r : QueuesGarbageCollectionRecord.t) : Prop :=
  wf_record r /\ q_table v !! gc_key r = None.

(** The schedules of one page of a stale record. *)
Lemma stale_page v r page rest :
  let i := QueuesGarbageCollectionRecord.QueueId r in
  QInv v -> stale v r -> rows_under (q_sched v) i = page ++ rest ->
  NoDup page.*2 /\ Forall (has_schedule v) page.*2 /\
  Forall (fun s => q_table v !! queue_key (owner s) = None) page.*2.
Proof.
  intros i Hv [Hr Ht] P1. unfold gc_key in Ht. rewrite gc_pk_eq in Ht. fold i in Ht.
  assert (Hin : forall k s, (k, s) ∈ page -> k = skey s /\ has_schedule v s /\ owner s = i).
  { intros k s Hk. apply elem_of_rows_under; [apply Hv|done|]. rewrite P1. apply elem_of_app. by left. }
  split; [|split].
  - apply NoDup_fmap_2_strong.
    + intros [k s] [k' s'] [-> _]%Hin [-> _]%Hin E. cbn in E. congruence.
    + pose proof (NoDup_rows_under (q_sched v) i) as Hnd. rewrite P1 in Hnd. by apply NoDup_app in Hnd as [? _].
  - apply Forall_forall. by intros s ([k s'] & -> & (_ & ? & _)%Hin)%list_elem_of_fmap.
  - apply Forall_forall. intros s ([k s'] & -> & (_ & _ & E)%Hin)%list_elem_of_fmap. cbn. by rewrite E.
Qed.

Lemma gc_run_page v page gone rest' v1 budget :
  QInv v -> collected v gone v1 -> q_gc v1 = q_gc v -> page = gone ++ rest' ->
  Forall (fun s => q_table v !! queue_key (owner s) = None) page ->
  Z.of_nat (length gone) <= budget -> gc_run v budget gone v1.
Proof.
  intros Hv Hc Eg -> [Ho _]%Forall_app Hb. split; try done; [by apply (QInv_collected v gone)|by rewrite Eg].
Qed.

Lemma gc_run_drop v budget gone v1 r :
  gc_run v budget gone v1 -> wf_record r ->
  (forall s, has_schedule v1 s -> owner s <> QueuesGarbageCollectionRecord.QueueId r) ->
  gc_run v budget gone (set_q_gc (delete (gc_key r) (q_gc v1)) v1).
Proof.
  intros [R1 R2 R3 R4 R5] Hr Hno. split; try done.
  - by apply QInv_drop_record.
  - rewrite <-(app_nil_r gone). eapply collected_trans; [done|]. by apply collected_nil; [apply R2|..].
  - cbn. etrans; [apply delete_subseteq|done].
Qed.

Lemma gc_run_trans v b1 g1 v1 b2 g2 v2 :
  gc_run v b1 g1 v1 -> gc_run v1 b2 g2 v2 -> gc_run v (b1 + b2) (g1 ++ g2) v2.
Proof.
  intros [R1 R2 R3 R4 R5] [S1 S2 S3 S4 S5]. split; try done.
  - by eapply collected_trans.
  - apply Forall_app. split; [done|]. destruct (co_rest _ _ _ R2) as [<- _]. done.
  - rewrite length_app. lia.
  - by etrans.
Qed.

Lemma wpq_gc_records pageSize maxVisited records : forall v visited,
  0 < pageSize -> visited < maxVisited -> QInv v -> Forall (stale v) records ->
  wpq (gc_records pageSize maxVisited records visited) v (fun _ v' => exists gone,
    gc_run v (maxVisited - visited) gone v' /\
    forall r, head records = Some r -> gone <> [] \/ q_gc v' !! gc_key r = None).
Proof.
  induction records as [|r records IH]; intros v visited Hps Hvis Hv Hst; cbn [gc_records].
  { apply wpq_ret. exists []. split; [|done]. split; try done; [by apply collected_nil; [apply Hv|..]|cbn; lia]. }
  apply Forall_cons in Hst as [Hr Hst].
  apply wpq_bind, wpq_schedules_List; [done|done|]. intros sk page rest next prev [P1 P2 P3 P4].
  cbn in P3. subst sk. cbn [app] in P1. cbn [lsr_Schedules lsr_NextPaginationToken].
  destruct (stale_page v r page rest Hv Hr P1) as (Hnd & Hhas & Horph).
  apply wpq_bind. eapply wpq_mono; [apply wpq_gc_schedules; [apply Hv|done..]|].
  intros [n b] v1 (gone & rest' & Ep & Hc & Eg & En & Hb). cbn [fst snd] in *.
  assert (Hrun : gc_run v (n - visited) gone v1) by (eapply gc_run_page; try done; lia).
  destruct b.
  { destruct Hb as [-> Hne]. apply wpq_ret. exists gone. split; [done|]. auto. }
  destruct Hb as [-> Hn]. rewrite app_nil_r in Ep. subst gone.
  assert (Hst1 : Forall (stale v1) records).
  { eapply Forall_impl; [done|]. intros r' [? ?]. split; [done|]. by destruct (co_rest _ _ _ Hc) as [-> _]. }
  apply wpq_bind. destruct next as [tk|]; cbn [MonsteraToCore].
  - apply wpq_ret. eapply wpq_mono; [apply IH; [done|done|apply Hrun|done]|].
    intros [] v2 (g2 & Hrun2 & _). exists (page.*2 ++ g2). split.
    + replace (maxVisited - visited) with (n - visited + (maxVisited - n)) by lia. by eapply gc_run_trans.
    + intros r' _. left. destruct P4 as (_ & (e & rest1 & -> & _) & _). rewrite length_app in P2.
      cbn [length] in P2. destruct page; [cbn in P2; lia|done].
  - subst rest. qsteps.
    assert (Hrun' : gc_run v (n - visited) page.*2 (set_q_gc (delete (gc_key r) (q_gc v1)) v1)).
    { apply gc_run_drop; [done|apply Hr|]. intros s [Hs Hns]%(co_rows _ _ _ Hc) E. apply Hns.
      apply list_elem_of_fmap. exists (skey s, s). split; [done|]. rewrite <-(app_nil_r page), <-P1.
      apply elem_of_rows_under; [apply Hv|apply Hr|done]. }
    eapply wpq_mono; [apply IH; [done|done|apply Hrun'|]|].
    + eapply Forall_impl; [exact Hst1|]. by intros r' [? ?].
    + intros [] v2 (g2 & Hrun2 & _). exists (page.*2 ++ g2). split.
      * replace (maxVisited - visited) with (n - visited + (maxVisited - n)) by lia. by eapply gc_run_trans.
      * intros r' [= <-]. right. apply (lookup_weaken_None _ _ _ (lookup_delete_eq (q_gc v1) (gc_key r))).
        exact (gr_records _ _ _ _ Hrun2).
Qed.

Lemma op_RunQueuesGarbageCollection v req :
  let budget := page_or_default (RunQueuesGarbageCollectionRequest.MaxVisitedSchedules req)
                  defaultGCMaxVisitedSchedules in
  QInv v ->
  wpq (RunQueuesGarbageCollection req) v (fun r v' => r = QPayload tt /\ exists gone,
    gc_run v budget gone v' /\
    (q_gc v = ∅ \/ gone <> [] \/ exists k, is_Some (q_gc v !! k) /\ q_gc v' !! k = None)).
Proof.
  intros budget Hv. unfold RunQueuesGarbageCollection. fold budget.
  assert (Hpos : forall n d, 0 < d -> 0 < page_or_default n d).
  { intros n d Hd. unfold page_or_default. destruct (Z.leb_spec n 0); lia. }
  apply wpq_bind, wpq_gcRecords_List; [by apply Hpos|]. intros rs _ Hrs Hall.
  assert (Hst : Forall (stale v) rs).
  { eapply Forall_impl; [done|]. intros r [k Hk]. destruct (qi_linked v Hv) as [_ _ L3 L4].
    destruct (L3 _ _ Hk) as [-> Hr]. split; [done|]. apply L4. by eexists. }
  apply wpq_bind. eapply wpq_mono; [apply wpq_gc_records; [by apply Hpos|by apply Hpos|done|done]|].
  intros [] v' (gone & Hrun & Hprog). apply wpq_ret. rewrite Z.sub_0_r in Hrun. split; [done|].
  exists gone. split; [done|]. destruct rs as [|r rs].
  - left. apply map_empty. intros k. destruct (q_gc v !! k) as [r|] eqn:Hk; [|done].
    exfalso. apply (not_elem_of_nil r), (Hall ltac:(by apply Hpos) k r Hk).
  - right. destruct (Hprog r eq_refl) as [?|Hn]; [by left|right]. apply Forall_cons in Hrs as [[k Hk] _].
    destruct (ln_gc v (qi_linked v Hv) _ _ Hk) as [-> _]. exists (gc_key r). split; [by eexists|done].
Qed.

(** ** Draining *)

Definition pending v : nat := (size (q_gc v) + size (q_sched v))%nat.

Lemma collected_subseteq v gone v' : collected v gone v' -> q_sched v' ⊆ q_sched v.
Proof.
  intros [A1 A2 _ _ _ _]. apply map_subseteq_spec. intros k s Hk.
  destruct (so_rows v' A1 _ _ Hk) as [-> _]. by apply A2 in Hk as [? _].
Qed.

Lemma gc_run_pending v budget gone v' :
  gc_run v budget gone v' ->
  (gone <> [] \/ exists k, is_Some (q_gc v !! k) /\ q_gc v' !! k = None) -> (pending v' < pending v)%nat.
Proof.
  intros [R1 R2 R3 R4 R5] Hp. pose proof (map_subseteq_size _ _ R5).
  pose proof (collected_subseteq _ _ _ R2) as Hsub. pose proof (map_subseteq_size _ _ Hsub).
  unfold pending. destruct Hp as [Hg|(k & [r Hk] & Hn)].
  - enough (size (q_sched v') < size (q_sched v))%nat by lia. apply map_subset_size. split; [done|].
    intros Hback. destruct gone as [|s gone]; [done|].
    destruct (proj1 (Forall_cons _ _ _) (co_from _ _ _ R2)) as [Hs _].
    pose proof (lookup_weaken _ _ _ _ Hs Hback) as Hs'.
    apply (co_rows _ _ _ R2) in Hs' as [_ Hn]. apply Hn. left.
  - enough (size (q_gc v') < size (q_gc v))%nat by lia. apply map_subset_size. split; [done|].
    intros Hback. pose proof (lookup_weaken _ _ _ _ Hk Hback). congruence.
Qed.

(** [n] ticks of the collector. *)
Fixpoint collect_ticks (n : nat) (req : RunQueuesGarbageCollectionRequest.t) : M QTxn unit :=
  match n with
  | O => mret tt
  | S n => RunQueuesGarbageCollection req ;; collect_ticks n req
  end.

(** A schedule whose queue exists. *)
Definition alive v s : Prop := is_Some (q_table v !! queue_key (owner s)).

Lemma gc_run_alive v budget gone v' s :
  gc_run v budget gone v' -> alive v s -> has_schedule v' s <-> has_schedule v s.
Proof.
  intros [_ R2 R3 _ _] [x Hx]. rewrite (co_rows _ _ _ R2). split; [by intros [? _]|]. intros Hs.
  split; [done|]. rewrite Forall_forall in R3. intros Hin%R3. congruence.
Qed.

Lemma all_alive v : QInv v -> q_gc v = ∅ -> forall s, has_schedule v s -> alive v s.
Proof.
  intros Hv E s Hs. destruct (ln_owner v (qi_linked v Hv) s Hs) as [?|[r Hr]]; [done|].
  rewrite E in Hr. by apply lookup_empty_Some in Hr.
Qed.

Lemma wpq_collect_ticks req n : forall v,
  QInv v -> q_gc v = ∅ \/ (pending v <= n)%nat ->
  wpq (collect_ticks n req) v (fun _ v' => QInv v' /\ q_table v' = q_table v /\ q_gc v' = ∅ /\
    forall s, has_schedule v' s <-> has_schedule v s /\ alive v s).
Proof.
  induction n as [|n IH]; intros v Hv Hn; cbn [collect_ticks].
  - apply wpq_ret. assert (E : q_gc v = ∅).
    { destruct Hn as [?|Hn]; [done|]. apply map_size_empty_iff. unfold pending in Hn. lia. }
    split_and!; try done. intros s. split; [|by intros [? _]]. intros Hs. split; [done|by apply all_alive].
  - apply wpq_bind. eapply wpq_mono; [by apply op_RunQueuesGarbageCollection|].
    intros r v1 (-> & gone & Hrun & Hprog). destruct (co_rest _ _ _ (gr_collected _ _ _ _ Hrun)) as (Et & _ & _).
    eapply wpq_mono; [apply IH; [apply Hrun|]|].
    + assert (Hkeep : q_gc v = ∅ -> q_gc v1 = ∅).
      { intros E. pose proof (map_subseteq_size _ _ (gr_records _ _ _ _ Hrun)) as Hle.
        rewrite E, map_size_empty in Hle. apply map_size_empty_iff. lia. }
      destruct Hprog as [E|Hp]; [by left; apply Hkeep|]. destruct Hn as [E|Hn]; [by left; apply Hkeep|].
      right. pose proof (gc_run_pending _ _ _ _ Hrun Hp). lia.
    + intros [] v2 (Hv2 & Et2 & E2 & Hs2). split; [done|]. split; [congruence|]. split; [done|].
      intros s. rewrite Hs2. unfold alive. rewrite Et. split; intros [H1 H2]; (split; [|done]);
        by apply (gc_run_alive _ _ _ _ s Hrun).
Qed.
End collect.

(** ** Due schedules *)

Section due.
Context {U : Utils} {UO : UtilsOk U} {H : Honey} {HO : HoneyOk H}.
Implicit Types (v : QView) (x : Queue.t) (s t : Schedule.t).

Definition due (before : Z) s : Prop := 0 <= Schedule.NextScheduledAt s <= before.

Lemma due_in_range before s :
  0 <= before < two63 -> wf_schedule s ->
  in_range (scheduledIndexPKPrefix 0) (scheduledIndexPKPrefix before) (schedule_due_key s) <-> due before s.
Proof.
  intros Hb [_ Hn]. rewrite !due_prefix_eq, due_key_eq. apply time_in_range; [by split|done|done|].
  rewrite sid_key_eq. intros E%(f_equal length). rewrite !length_app, !length_be64 in E. done.
Qed.

(** The byte order of due keys refines the order of times. *)
Lemma due_key_time before s t :
  0 <= before < two63 -> due before s -> due before t ->
  blt (schedule_due_key s) (schedule_due_key t) -> Schedule.NextScheduledAt s <= Schedule.NextScheduledAt t.
Proof.
  unfold due. intros Hb Hs Ht. rewrite !due_key_eq, blt_app by (by rewrite !length_be64).
  rewrite blt_be64 by (rewrite two63_val in *; lia). intros [?|[E _]]; [lia|].
  apply be64_inj_i64 in E; [lia|..]; unfold is_i64; rewrite two63_val in *; lia.
Qed.

Lemma due_keys_sorted before l :
  0 <= before < two63 -> Forall (due before) l -> StronglySorted blt (schedule_due_key <$> l) ->
  StronglySorted (fun s t => Schedule.NextScheduledAt s <= Schedule.NextScheduledAt t) l.
Proof.
  intros Hb. induction l as [|s l IH]; [constructor|]. rewrite fmap_cons.
  intros [Hs Hl]%Forall_cons [Hsort Hhd]%StronglySorted_inv. constructor; [by apply IH|].
  rewrite Forall_fmap in Hhd. rewrite !Forall_forall in *. intros t Ht.
  apply (due_key_time before); [done|done|by apply Hl|by apply Hhd].
Qed.

(** The first [limit] due schedules. *)
Record due_rows v (before : Z) (limit : nat) (l : list Schedule.t) : Prop := {
  dr_rows : Forall (fun s => has_schedule v s /\ due before s) l;
  dr_sorted : StronglySorted (fun s t => Schedule.NextScheduledAt s <= Schedule.NextScheduledAt t) l;
  dr_nodup : NoDup l;
  dr_length : (length l <= limit)%nat;
  dr_complete s : has_schedule v s -> due before s -> s ∈ l \/
    length l = limit /\ Forall (fun t => Schedule.NextScheduledAt t <= Schedule.NextScheduledAt s) l;
}.

(** The keys of a sorted prefix of the due index, read back as rows. *)
Lemma due_rows_of_keys v before n l items rest :
  0 <= before < two63 -> schedules_ok v -> items = schedule_due_key <$> l ->
  StronglySorted blt (items ++ rest) -> length items = Nat.min n (length (items ++ rest)) ->
  Forall (has_schedule v) l ->
  (forall k, k ∈ items ++ rest <-> k ∈ q_due v /\
     in_range (scheduledIndexPKPrefix 0) (scheduledIndexPKPrefix before) k) ->
  due_rows v before n l.
Proof.
  intros Hb Hok -> Hsort Hlen Hhas Hin. rewrite length_app, length_fmap in Hlen.
  assert (Hdue : forall s, s ∈ l -> has_schedule v s /\ due before s).
  { intros s Hs. rewrite Forall_forall in Hhas. split; [by apply Hhas|].
    apply due_in_range; [done|by apply (has_schedule_wf v), Hhas|]. apply Hin, elem_of_app. left.
    apply list_elem_of_fmap. by exists s. }
  split.
  - apply Forall_forall. exact Hdue.
  - apply (due_keys_sorted before); [done| |by apply StronglySorted_app_1_l in Hsort].
    apply Forall_forall. intros s Hs. by apply Hdue.
  - apply (NoDup_fmap_1 schedule_due_key), (StronglySorted_NoDup blt), (StronglySorted_app_1_l _ _ _ Hsort).
  - lia.
  - intros t Ht Hdt. assert (Hk : schedule_due_key t ∈ (schedule_due_key <$> l) ++ rest).
    { apply Hin. split; [apply (so_due v Hok); by exists t|].
      apply due_in_range; [done|by apply (has_schedule_wf v)|done]. }
    apply elem_of_app in Hk as [(s & E & Hs)%list_elem_of_fmap|Hk].
    + left. assert (t = s) as ->; [|done]. destruct (Hdue s Hs) as [Hs' _].
      assert (Ek : skey t = skey s) by (by apply schedule_due_key_key; [apply (has_schedule_wf v)..|]).
      unfold has_schedule, stores in *. congruence.
    + right. split; [destruct rest; [by apply not_elem_of_nil in Hk|cbn in Hlen; lia]|].
      apply Forall_forall. intros s Hs. apply (due_key_time before); [done|by apply Hdue|done|].
      eapply (StronglySorted_app_1_elem_of blt); [exact Hsort| |exact Hk]. apply list_elem_of_fmap. by exists s.
Qed.

Lemma wpq_schedules_ListDue v before limit (Q : list Schedule.t -> QView -> Prop) :
  0 <= before < two63 -> 0 < limit -> schedules_ok v ->
  (forall l, due_rows v before (Z.to_nat limit) l -> Q l v) -> wpq (schedules_ListDue before limit) v Q.
Proof.
  intros Hb Hl Hok HQ st <-. apply wp_bind, wp_gets.
  set (all := si_ListInRange _ _ _). assert (Nat.max 1 (Z.to_nat limit) = Z.to_nat limit) as -> by lia.
  set (items := take (Z.to_nat limit) all).
  assert (Hall : forall k, k ∈ all <-> k ∈ q_due (qview st) /\
    in_range (scheduledIndexPKPrefix 0) (scheduledIndexPKPrefix before) k)
    by (intros k; apply si_ListInRange_spec).
  assert (Esplit : items ++ drop (Z.to_nat limit) all = all) by apply take_drop.
  assert (Hfor : Forall (fun k => exists s, has_schedule (qview st) s /\ schedule_due_key s = k) items).
  { apply Forall_forall. intros k Hk. apply (so_due _ Hok), Hall. rewrite <-Esplit. apply elem_of_app. by left. }
  apply (wp_for_map _ (fun ks ss st' => st' = st /\ Forall (has_schedule (qview st)) ss /\
    items = (schedule_due_key <$> ss) ++ ks)); [done| |].
  - intros k ks ss st' (-> & Hss & E). rewrite E in Hfor. apply Forall_app in Hfor as [_ Hfor].
    apply Forall_cons in Hfor as [(s & Hs & <-) _].
    rewrite due_item_id_key by (by apply (has_schedule_wf (qview st))).
    apply wp_bind, wp_gets. rewrite bt_Get_spec.
    change (wp (orNotFound (q_sched (qview st) !! skey s)) st (fun y st' => st' = st /\
      Forall (has_schedule (qview st)) (ss ++ [y]) /\ items = (schedule_due_key <$> ss ++ [y]) ++ ks)).
    rewrite (Hs : q_sched (qview st) !! skey s = Some s). apply wp_ret. split; [done|].
    split; [by apply Forall_app; split; [|constructor]|]. by rewrite fmap_app, <-app_assoc.
  - intros ss st' (-> & Hss & E). rewrite app_nil_r in E. apply HQ.
    apply (due_rows_of_keys _ _ _ _ items (drop (Z.to_nat limit) all)); rewrite ?Esplit; try done.
    + apply si_ListInRange_sorted.
    + unfold items. rewrite length_take. lia.
Qed.

Lemma op_DequeSchedules v before :
  0 <= before < two63 -> QInv v ->
  (forall s, has_schedule v s -> due before s -> alive v s) ->
  wpq (DequeSchedules before) v (fun r v' => v' = v /\ exists entries, r = QPayload entries /\
    due_rows v before (Z.to_nat maxDequeueSchedules) entries.*1 /\
    Forall (fun e => has_queue v e.2 /\ Queue.Id e.2 = owner e.1) entries).
Proof.
  intros Hb Hv Hal. unfold DequeSchedules. pose proof Hv as [Hq Hs Hl].
  apply wpq_bind, wpq_schedules_ListDue; [done|done|done|]. intros l Hd. apply wpq_bind.
  apply (wpq_for_map _ (fun todo es v' => v' = v /\ l = es.*1 ++ todo /\
    Forall (fun e => has_queue v e.2 /\ Queue.Id e.2 = owner e.1) es)); [done| |].
  - intros s todo es v' (-> & E & Hes). fold (owner s). qsteps.
    assert (Hsd : has_schedule v s /\ due before s).
    { pose proof (dr_rows _ _ _ _ Hd) as Hr. rewrite E in Hr. apply Forall_app in Hr as [_ Hr].
      by apply Forall_cons in Hr as [? _]. }
    destruct Hsd as [Hs1 Hs2]. destruct (Hal s Hs1 Hs2) as [x Hx].
    apply (wpq_orNotFound _ x); [done|]. apply wpq_ret. split; [done|].
    split; [by rewrite E, fmap_app, <-app_assoc|]. apply Forall_app. split; [done|]. constructor; [|done].
    apply lookup_queue; [done|split; apply (has_schedule_wf v s Hs Hs1)|done].
  - intros es v' (-> & E & Hes). apply wpq_ret. split; [done|]. exists es. split; [done|].
    split; [|done]. rewrite app_nil_r in E. by rewrite <-E.
Qed.
End due.
