(* ===== verification/QueuesSystem.v ===== *)
(** * The queues core as a transition system *)

From S2P Require Export QueuesGC.

Section qsystem.
Context {U : Utils} {H : Honey} {C : CronLib}.

Inductive QCall : Type :=
  | CallCreateQueue (req : CreateQueueRequest.t) (now : Z)
  | CallListQueues (req : ListQueuesRequest.t)
  | CallGetQueue (id : QueueId.t)
  | CallGetQueueByName (req : QueueNameRequest.t)
  | CallUpdateQueue (req : UpdateQueueRequest.t) (now : Z)
  | CallDeleteQueue (req : QueueNameRequest.t)
  | CallSwapQueueId (req : SwapQueueIdRequest.t) (now : Z)
  | CallCreateSchedule (req : CreateScheduleRequest.t) (now : Z)
  | CallGetSchedule (req : ScheduleNameRequest.t)
  | CallListSchedules (req : ListSchedulesRequest.t)
  | CallUpdateSchedule (req : UpdateScheduleRequest.t) (now : Z)
  | CallDeleteSchedule (req : ScheduleNameRequest.t)
  | CallDequeSchedules (dueBefore : Z)
  | CallReportSchedulesStatus (req : ReportSchedulesStatusRequest.t) (now : Z)
  | CallRunQueuesGarbageCollection (req : RunQueuesGarbageCollectionRequest.t).

Definition qexec (c : QCall) : M QTxn unit :=
  match c with
  | CallCreateQueue req now => CreateQueue req now ;; mret tt
  | CallListQueues req => ListQueues req ;; mret tt
  | CallGetQueue id => GetQueue id ;; mret tt
  | CallGetQueueByName req => GetQueueByName req ;; mret tt
  | CallUpdateQueue req now => UpdateQueue req now ;; mret tt
  | CallDeleteQueue req => DeleteQueue req ;; mret tt
  | CallSwapQueueId req now => SwapQueueId req now ;; mret tt
  | CallCreateSchedule req now => CreateSchedule req now ;; mret tt
  | CallGetSchedule req => GetSchedule req ;; mret tt
  | CallListSchedules req => ListSchedules req ;; mret tt
  | CallUpdateSchedule req now => UpdateSchedule req now ;; mret tt
  | CallDeleteSchedule req => DeleteSchedule req ;; mret tt
  | CallDequeSchedules dueBefore => DequeSchedules dueBefore ;; mret tt
  | CallReportSchedulesStatus req now => ReportSchedulesStatus req now ;; mret tt
  | CallRunQueuesGarbageCollection req => RunQueuesGarbageCollection req ;; mret tt
  end.

(** The widths of the Go types; and a new queue id is not one that still awaits
    collection. *)
Definition qadmissible (c : QCall) (v : QView) : Prop :=
  match c with
  | CallCreateQueue req _ =>
      wf_qid (CreateQueueRequest.QueueId req) /\ q_gc v !! queue_key (CreateQueueRequest.QueueId req) = None
  | CallUpdateQueue req _ => is_u64 (UpdateQueueRequest.AccountId req)
  | CallGetQueueByName req | CallDeleteQueue req => is_u64 (QueueNameRequest.AccountId req)
  | CallSwapQueueId req _ =>
      let new := QueueId.mk (SwapQueueIdRequest.AccountId req) (SwapQueueIdRequest.NewQueueId req) in
      wf_qid new /\ q_gc v !! queue_key new = None
  | CallCreateSchedule req _ =>
      is_u64 (CreateScheduleRequest.AccountId req) /\ is_u64 (CreateScheduleRequest.ScheduleId req)
  | CallGetSchedule req | CallDeleteSchedule req => is_u64 (ScheduleNameRequest.AccountId req)
  | CallUpdateSchedule req _ => is_u64 (UpdateScheduleRequest.AccountId req)
  | CallReportSchedulesStatus req _ =>
      wf_sid (ReportSchedulesStatusRequest.ScheduleId req) /\
      is_i64 (ReportSchedulesStatusRequest.NextScheduledAt req)
  | CallDequeSchedules dueBefore => 0 <= dueBefore < two63
  | _ => True
  end.

Context {HO : HoneyOk H}.

Inductive qstep_to : QTxn -> QCall -> QTxn -> Prop :=
  | qstep_call s c : qadmissible c (qview s) -> qstep_to s c (rpc (qexec c) s).2.

Inductive qreachable : QTxn -> Prop :=
  | qreachable_new : qreachable QNewCore
  | qreachable_step s c s' : qreachable s -> qstep_to s c s' -> qreachable s'.

(** ** Preservation *)

Context {UO : UtilsOk U} {CO : CronOk C}.

Lemma QInv_empty : QInv empty_qview.
Proof.
  split; split; cbn; try apply keyed_empty; try apply named_empty; try apply listed_empty.
  - intros a Ha. by rewrite lookup_empty, tally_empty.
  - intros k [c Hc]. by destruct (lookup_empty_Some _ _ Hc).
  - intros x Hx. by destruct (lookup_empty_Some _ _ Hx).
  - intros s Hs. by destruct (lookup_empty_Some _ _ Hs).
  - intros k [r Hr]. by destruct (lookup_empty_Some _ _ Hr).
Qed.

(** A call either keeps the invariant or is rolled back. *)
Definition keeps (m : M QTxn unit) (v : QView) : Prop :=
  forall s, qview s = v -> QInv (qview (rpc m s).2).

Lemma keeps_wpq {A} (m : M QTxn A) v :
  wpq m v (fun _ v' => QInv v') -> keeps (m ;; mret tt) v.
Proof.
  intros Hm s Hs. destruct (proj1 (wp_ok _ _ _) (Hm s Hs)) as (a & s' & E & Hv).
  unfold rpc, mbind, M_bind. by rewrite E.
Qed.

Lemma keeps_meets {A} (m : M QTxn (QResponse A)) v o : QInv v -> meets m v o -> keeps (m ;; mret tt) v.
Proof.
  intros Hv. destruct o as [[r A']|]; cbn [meets].
  - intros Hm. apply keeps_wpq. eapply wpq_mono; [exact Hm|]. by intros ?? (_ & _ & ?).
  - intros Hm s Hs. unfold rpc, mbind, M_bind. rewrite (Hm s Hs). cbn. by rewrite Hs.
Qed.

Lemma keeps_readonly {A} (m : M QTxn A) v : QInv v -> readonly m -> keeps (m ;; mret tt) v.
Proof.
  intros Hv Hm s <-. unfold rpc, mbind, M_bind. destruct (m s) as [[a s']|] eqn:E; [|done].
  cbn. by apply Hm in E as ->.
Qed.

Lemma readonly_queues_Get id : readonly (queues_Get id).
Proof. apply readonly_gets. Qed.
Lemma readonly_queues_GetByName a name : readonly (queues_GetByName a name).
Proof. apply readonly_bind; [apply readonly_gets|]. intros [n|]; [apply readonly_queues_Get|apply readonly_ret]. Qed.
Lemma readonly_schedules_Get id : readonly (schedules_Get id).
Proof. apply readonly_gets. Qed.
Lemma readonly_found {A B} (o : option A) e (k : A -> M QTxn (QResponse B)) :
  (forall a, readonly (k a)) -> readonly (found o e k).
Proof. intros Hk. destruct o; [apply Hk|apply readonly_ret]. Qed.
#[local] Hint Resolve readonly_queues_Get readonly_queues_GetByName readonly_schedules_Get
  readonly_found : readonly.

Lemma readonly_DequeSchedules dueBefore : readonly (DequeSchedules dueBefore).
Proof. unfold DequeSchedules, schedules_ListDue. auto 8 with readonly. Qed.
Lemma readonly_lists : (forall req, readonly (ListQueues req)) /\ (forall req, readonly (ListSchedules req)).
Proof. split; intros req; unfold ListQueues, ListSchedules, queues_List, schedules_List; auto with readonly. Qed.

Lemma QInv_qexec c v : QInv v -> qadmissible c v -> keeps (qexec c) v.
Proof.
  intros Hv Hadm. destruct c; cbn [qexec qadmissible] in *.
  - destruct Hadm. by eapply keeps_meets, refine_CreateQueue.
  - apply keeps_readonly, readonly_lists; done.
  - apply keeps_readonly; [done|]. unfold GetQueue. auto with readonly.
  - apply keeps_readonly; [done|]. unfold GetQueueByName. auto with readonly.
  - by eapply keeps_meets, refine_UpdateQueue.
  - by eapply keeps_meets, refine_DeleteQueue.
  - destruct Hadm. by eapply keeps_meets, refine_SwapQueueId.
  - destruct Hadm. by eapply keeps_meets, refine_CreateSchedule.
  - by eapply keeps_meets, refine_GetSchedule.
  - apply keeps_readonly, readonly_lists; done.
  - by eapply keeps_meets, refine_UpdateSchedule.
  - by eapply keeps_meets, refine_DeleteSchedule.
  - by apply keeps_readonly, readonly_DequeSchedules.
  - destruct Hadm. by eapply keeps_meets, refine_ReportSchedulesStatus.
  - apply keeps_wpq. eapply wpq_mono; [by apply op_RunQueuesGarbageCollection|].
    intros r v' (_ & gone & Hrun & _). apply Hrun.
Qed.

Lemma QInv_reachable s : qreachable s -> QInv (qview s).
Proof.
  induction 1 as [|s c s' _ IH Hstep]; [rewrite qview_new; apply QInv_empty|].
  destruct Hstep as [s c Hadm]. by apply (QInv_qexec c (qview s)).
Qed.

(** ** Specifications seen from a transaction *)

(** [m] run in [s] answers and leaves behind what the specification says. *)
Definition qruns {A} (m : M QTxn (QResponse A)) (s : QTxn) (o : option (QResponse A * QSpec)) : Prop :=
  match o with
  | Some (r, A') => exists s', m s = Ok (r, s') /\ qabs (qview s') = A'
  | None => m s = Fail ErrCron
  end.

Lemma meets_qruns {A} (m : M QTxn (QResponse A)) s o : meets m (qview s) o -> qruns m s o.
Proof.
  destruct o as [[r A']|]; cbn; [|by auto]. intros Hm.
  destruct (proj1 (wp_ok _ _ _) (Hm s eq_refl)) as (a & s' & E & -> & Ha & _). by exists s'.
Qed.

Lemma qruns_Some {A} (m : M QTxn (QResponse A)) s p r :
  qruns m s (Some p) -> p.1 = r -> exists s', m s = Ok (r, s') /\ qabs (qview s') = p.2.
Proof. by destruct p as [r' A']; intros Hm <-. Qed.

Lemma wpq_wp {A} (m : M QTxn A) s (Q : A -> QView -> Prop) :
  wpq m (qview s) Q -> wp m s (fun a s' => Q a (qview s')).
Proof. intros Hm. by apply Hm. Qed.
End qsystem.

#[export] Hint Resolve readonly_queues_Get readonly_queues_GetByName readonly_schedules_Get
  readonly_found : readonly.
