(* ===== verification/QueuesExamples.v ===== *)
(** * A concrete run of the queues core

    The reference store, byte helpers and cron library run the model; the states below are
    reached by admissible calls and serve as inputs of the witnesses. *)

From S2P Require Export QueuesSystem.

#[export] Existing Instance utils_ref.
#[export] Existing Instance honey_ref.
#[export] Existing Instance cron_ref.

Module QRun.
Definition id1 : QueueId.t := QueueId.mk 7 3.
Definition id2 : QueueId.t := QueueId.mk 7 4.
Definition now0 : Z := 1000 * time_Second.
Definition now1 : Z := 1001 * time_Second.

Definition create_req (id : QueueId.t) (name : string) : CreateQueueRequest.t :=
  CreateQueueRequest.mk id (str name) [] 30 None None None 3600 10.
Definition update_req (version : Z) : UpdateQueueRequest.t :=
  UpdateQueueRequest.mk 7 (str "jobs") (str "d") 60 None None None 7200 version.
Definition name_req (name : string) : QueueNameRequest.t := QueueNameRequest.mk 7 (str name).
Definition swap_req : SwapQueueIdRequest.t := SwapQueueIdRequest.mk 7 (str "jobs") 9.
Definition schedule_req (n : Z) (name : string) : CreateScheduleRequest.t :=
  CreateScheduleRequest.mk 7 (str "jobs") n (str name) [] (str "* * * * *") (str "p") [] 60 None (str "UTC") 5.
Definition schedule_name (name : string) : ScheduleNameRequest.t :=
  ScheduleNameRequest.mk 7 (str "jobs") (str name).
Definition update_schedule_req (version : Z) : UpdateScheduleRequest.t :=
  UpdateScheduleRequest.mk 7 (str "jobs") (str "hourly") (str "d") (str "0 * * * *") (str "q") [] 60 None
    (str "UTC") version.
Definition gc_req : RunQueuesGarbageCollectionRequest.t := RunQueuesGarbageCollectionRequest.mk 1 1 1.

Definition call (c : QCall) (s : QTxn) : QTxn := (rpc (qexec c) s).2.

(** One queue with two schedules; then a second, unrelated queue. *)
Definition s1 : QTxn := call (CallCreateQueue (create_req id1 "jobs") now0) QNewCore.
Definition s2 : QTxn := call (CallCreateSchedule (schedule_req 1 "hourly") now0) s1.
Definition s3 : QTxn := call (CallCreateSchedule (schedule_req 2 "daily") now1) s2.
Definition s4 : QTxn := call (CallCreateQueue (create_req id2 "mail") now1) s3.
(** The first queue is deleted; its schedules await collection. *)
Definition s5 : QTxn := call (CallDeleteQueue (name_req "jobs")) s4.

Lemma reach_call c s : qreachable s -> qadmissible c (qview s) -> qreachable (call c s).
Proof. intros Hs Hc. eapply qreachable_step; [exact Hs|]. by constructor. Qed.

Lemma qreachable_s1 : qreachable s1.
Proof. apply reach_call; [constructor|]. by apply (bool_decide_unpack _); vm_compute. Qed.
Lemma qreachable_s2 : qreachable s2.
Proof. apply reach_call; [apply qreachable_s1|]. by apply (bool_decide_unpack _); vm_compute. Qed.
Lemma qreachable_s3 : qreachable s3.
Proof. apply reach_call; [apply qreachable_s2|]. by apply (bool_decide_unpack _); vm_compute. Qed.
Lemma qreachable_s4 : qreachable s4.
Proof. apply reach_call; [apply qreachable_s3|]. by apply (bool_decide_unpack _); vm_compute. Qed.
Lemma qreachable_s5 : qreachable s5.
Proof. apply reach_call; [apply qreachable_s4|]. by apply (bool_decide_unpack _); vm_compute. Qed.
End QRun.
