(* ===== verification/QueuesProps.v ===== *)
(** * Properties of the queues core

    What the queues core guarantees of its reachable stores and of its handlers, followed by
    the two behaviours its invariant has to exclude.  Witnesses apply the theorems to the
    run of [QueuesExamples]. *)

From S2P Require Export QueuesExamples.

Section queues_props.
Context {U : Utils} {UO : UtilsOk U} {H : Honey} {HO : HoneyOk H} {C : CronLib} {CO : CronOk C}.

(** C18: a store reached from the empty one by admissible calls keeps the invariant: the name
    indexes and the due index are the exact images of the rows, the two counts count rows, and
    the queue of a schedule exists or its id awaits collection, never both.  Admissible calls
    have Go's integer widths, and never create a queue under, or swap one to, the id of a
    deleted queue that still awaits collection.  The ids are random numbers and the code does
    not check for that: its check looks at the queues table only, and a queue that gets such
    an id loses its schedules to the collector ([QueuesFindings.reused_id_loses_schedules]). *)
Theorem queues_reachable_invariant s : qreachable s -> QInv (qview s).
Proof. apply QInv_reachable. Qed.

(** C19: on every store reached by admissible calls [CreateQueue], [GetQueueByName], [UpdateQueue] and
    [DeleteQueue] answer and write what the index-free specification says, error answers
    included. *)
Theorem queue_handlers_refine_spec s :
  qreachable s -> let A := qabs (qview s) in
  (forall req now, qadmissible (CallCreateQueue req now) (qview s) ->
     qruns (CreateQueue req now) s (Some (spec_CreateQueue req now A))) /\
  (forall req, is_u64 (QueueNameRequest.AccountId req) ->
     qruns (GetQueueByName req) s (Some (spec_GetQueueByName req A)) /\
     qruns (DeleteQueue req) s (Some (spec_DeleteQueue req A))) /\
  (forall req now, is_u64 (UpdateQueueRequest.AccountId req) ->
     qruns (UpdateQueue req now) s (Some (spec_UpdateQueue req now A))).
Proof.
  intros Hv%QInv_reachable A. split; [|split].
  - intros req now [H1 H2]. by apply meets_qruns, refine_CreateQueue.
  - intros req Ha. split; apply meets_qruns; [by apply refine_GetQueueByName|by apply refine_DeleteQueue].
  - intros req now Ha. by apply meets_qruns, refine_UpdateQueue.
Qed.

(** C20: on every store reached by admissible calls the schedule handlers answer and write what the index-free
    specification says; they fail exactly when the cron library rejects the expression or
    the time zone, and then only after every other check has passed. *)
Theorem schedule_handlers_refine_spec s :
  qreachable s -> let A := qabs (qview s) in
  (forall req now, qadmissible (CallCreateSchedule req now) (qview s) ->
     qruns (CreateSchedule req now) s (spec_CreateSchedule req now A)) /\
  (forall req, is_u64 (ScheduleNameRequest.AccountId req) ->
     qruns (GetSchedule req) s (spec_GetSchedule req A) /\
     qruns (DeleteSchedule req) s (spec_DeleteSchedule req A)) /\
  (forall req now, is_u64 (UpdateScheduleRequest.AccountId req) ->
     qruns (UpdateSchedule req now) s (spec_UpdateSchedule req now A)) /\
  (forall req now, qadmissible (CallReportSchedulesStatus req now) (qview s) ->
     qruns (ReportSchedulesStatus req now) s (Some (spec_ReportSchedulesStatus req now A))).
Proof.
  intros Hv%QInv_reachable A. split; [|split; [|split]].
  - intros req now [H1 H2]. by apply meets_qruns, refine_CreateSchedule.
  - intros req Ha. split; apply meets_qruns; [by apply refine_GetSchedule|by apply refine_DeleteSchedule].
  - intros req now Ha. by apply meets_qruns, refine_UpdateSchedule.
  - intros req now [H1 H2]. by apply meets_qruns, refine_ReportSchedulesStatus.
Qed.

(** C21: an admissible [SwapQueueId] on a store reached by admissible calls gives the queue its new id and moves every one of its schedules under
    it, keeping their names, settings and next ticks; the walk over the pages of schedules
    ends although it rewrites the table it pages through. *)
Theorem SwapQueueId_refines_spec s req now :
  qreachable s -> qadmissible (CallSwapQueueId req now) (qview s) ->
  qruns (SwapQueueId req now) s (Some (spec_SwapQueueId req now (qabs (qview s)))).
Proof. intros Hv%QInv_reachable [H1 H2]. by apply meets_qruns, refine_SwapQueueId. Qed.

(** optimistic concurrency: of two updates that expect the same version, the second is
    refused with the version the first one left. *)
Theorem stale_update_is_refused s req req' now now' x s' :
  qreachable s -> is_u64 (UpdateQueueRequest.AccountId req) ->
  UpdateQueueRequest.AccountId req' = UpdateQueueRequest.AccountId req ->
  UpdateQueueRequest.QueueName req' = UpdateQueueRequest.QueueName req ->
  UpdateQueueRequest.ExpectedVersion req' = UpdateQueueRequest.ExpectedVersion req ->
  UpdateQueue req now s = Ok (QPayload x, s') ->
  UpdateQueue req' now' s' = Ok (QError (versionMismatchError (UpdateQueueRequest.QueueName req')
    (i64 (UpdateQueueRequest.ExpectedVersion req + 1)) (UpdateQueueRequest.ExpectedVersion req)), s').
Proof.
  intros Hv%QInv_reachable Ha Ea En Ev E.
  pose proof (refine_UpdateQueue (qview s) req now Hv Ha) as Hr. unfold spec_UpdateQueue in Hr.
  rewrite find_queue_by_name in Hr by (done || apply Hv).
  destruct (by_name (qview s) _ _) as [y|] eqn:Ey.
  2: { specialize (Hr s eq_refl). unfold wp in Hr. rewrite E in Hr. by destruct Hr as ([=] & _). }
  apply by_name_Some in Ey as (Hy & Eay & Eny); [|apply Hv|done].
  destruct (Z.eqb_spec (Queue.Version y) (UpdateQueueRequest.ExpectedVersion req)) as [Evy|];
    specialize (Hr s eq_refl); unfold wp in Hr; rewrite E in Hr; [|by destruct Hr as ([=] & _)].
  destruct Hr as ([= ->] & Ht%(f_equal a_queues) & Hv'). cbn [a_queues qabs put_queue] in Ht.
  set (z := updated_queue req now y) in *.
  assert (Hz : by_name (qview s') (UpdateQueueRequest.AccountId req) (UpdateQueueRequest.QueueName req) = Some z).
  { apply by_name_Some; [apply Hv'|done|]. split; [|done]. unfold has_queue, stores. rewrite Ht. apply lookup_insert_eq. }
  unfold UpdateQueue, mbind, M_bind. rewrite Ea, En, Ev, (reads_queues_GetByName _ _ _ s' eq_refl), Hz. cbn [found].
  assert (Evz : Queue.Version z = i64 (UpdateQueueRequest.ExpectedVersion req + 1)) by (by rewrite <-Evy).
  rewrite Evz. rewrite (proj2 (Z.eqb_neq _ _) (i64_succ_ne _)). done.
Qed.

(** names identify: an account has at most one queue of a name and a queue at most one
    schedule of a name, and looking a name up finds that row. *)
Theorem names_identify_rows s :
  qreachable s ->
  (forall x y, has_queue (qview s) x -> has_queue (qview s) y ->
     QueueId.AccountId (Queue.Id x) = QueueId.AccountId (Queue.Id y) -> Queue.Name x = Queue.Name y ->
     x = y /\ GetQueueByName (QueueNameRequest.mk (QueueId.AccountId (Queue.Id x)) (Queue.Name x)) s =
              Ok (QPayload x, s)) /\
  (forall t u, has_schedule (qview s) t -> has_schedule (qview s) u ->
     owner t = owner u -> Schedule.Name t = Schedule.Name u -> t = u).
Proof.
  intros Hv%QInv_reachable. pose proof Hv as [Hq Hs _]. split.
  - intros x y Hx Hy Ea En. pose proof (has_queue_wf _ x Hq Hx) as [Hax _].
    assert (Ex : by_name (qview s) (QueueId.AccountId (Queue.Id x)) (Queue.Name x) = Some x)
      by (by apply by_name_Some).
    assert (Ey : by_name (qview s) (QueueId.AccountId (Queue.Id x)) (Queue.Name x) = Some y)
      by (by apply by_name_Some; [..|split_and!; [done|symmetry|symmetry]]).
    split; [congruence|]. unfold GetQueueByName, mbind, M_bind. cbn.
    by rewrite (reads_queues_GetByName _ _ _ s eq_refl), Ex.
  - intros t u Ht Hu Eo En. apply (named_unique wf_schedule skey schedule_name_key snum
      schedule_name_num_key _ _ t u (so_rows _ Hs) (so_names _ Hs) Ht Hu).
    unfold schedule_name_key. unfold owner in Eo. congruence.
Qed.

(** [DequeSchedules] returns the due schedules in the order of their ticks, at most 250
    of them and none twice, each with its own queue; a due schedule it leaves out is not
    earlier than any it returns, and it leaves one out only when the page is full. *)
Theorem DequeSchedules_returns_due s before :
  qreachable s -> 0 <= before < two63 ->
  (forall t, has_schedule (qview s) t -> due before t -> alive (qview s) t) ->
  ⟪ s ⟫ DequeSchedules before ⟪ r, s' ⟫ exists entries, r = QPayload entries /\
    due_rows (qview s) before 250 entries.*1 /\
    Forall (fun e => has_queue (qview s) e.2 /\ Queue.Id e.2 = owner e.1) entries.
Proof.
  intros Hv%QInv_reachable Hb Hal. eapply wp_mono; [by apply wpq_wp, op_DequeSchedules|].
  intros r s' (_ & entries & -> & Hd & Hq). by exists entries.
Qed.

(** one collection run removes at most its budget of schedules, all of deleted queues,
    touches no queue, and drops a record only when no schedule of its queue is left. *)
Theorem queue_collection_is_safe s req :
  let budget := page_or_default (RunQueuesGarbageCollectionRequest.MaxVisitedSchedules req) 1000 in
  qreachable s ->
  ⟪ s ⟫ RunQueuesGarbageCollection req ⟪ r, s' ⟫ r = QPayload tt /\
    q_table (qview s') = q_table (qview s) /\
    (exists gone, Z.of_nat (length gone) <= budget /\
       (forall t, has_schedule (qview s') t <-> has_schedule (qview s) t /\ t ∉ gone) /\
       Forall (fun t => q_table (qview s) !! queue_key (owner t) = None) gone) /\
    (forall k r, q_gc (qview s) !! k = Some r -> q_gc (qview s') !! k = None ->
       forall t, has_schedule (qview s') t -> owner t <> QueuesGarbageCollectionRecord.QueueId r).
Proof.
  intros budget Hv%QInv_reachable. eapply wp_mono; [by apply wpq_wp, op_RunQueuesGarbageCollection|].
  intros r s' (-> & gone & [R1 R2 R3 R4 R5] & _). split; [done|].
  destruct (co_rest _ _ _ R2) as (Et & _ & _). split; [done|]. split.
  - exists gone. split; [done|]. split; [apply R2|done].
  - intros k rec Hk Hn t Ht Eo. destruct (ln_gc _ (qi_linked _ Hv) _ _ Hk) as [-> _].
    assert (Ek : gc_key rec = queue_key (owner t)) by (rewrite Eo; apply gc_pk_eq).
    rewrite Ek in Hk, Hn. pose proof (ln_dead _ (qi_linked _ Hv) _ (mk_is_Some _ _ Hk)) as Hd.
    destruct (ln_owner _ (qi_linked _ R1) t Ht) as [[y Hy]|[y Hy]]; [|congruence].
    rewrite Et in Hy. congruence.
Qed.

(** C22: collection drains: on a store reached by admissible calls, after as many runs as there
    are records and schedules, whatever the page sizes and budget, no record is left and
    exactly the schedules of existing queues remain.  This is for stores on which no queue was
    created under, or swapped to, the id of a deleted queue while that id awaited collection
    (the condition on admissible calls): the code allows it, and then the collector removes
    the schedules of the new queue ([QueuesFindings.reused_id_loses_schedules]). *)
Theorem queue_collection_drains s req n :
  qreachable s -> (pending (qview s) <= n)%nat ->
  ⟪ s ⟫ collect_ticks n req ⟪ r, s' ⟫ q_gc (qview s') = ∅ /\
    q_table (qview s') = q_table (qview s) /\
    forall t, has_schedule (qview s') t <-> has_schedule (qview s) t /\ alive (qview s) t.
Proof.
  intros Hv%QInv_reachable Hn. eapply wp_mono; [by apply wpq_wp, wpq_collect_ticks; [|right]|].
  intros [] s' (_ & Et & Eg & Hs). by split_and!.
Qed.
End queues_props.

(** ** Behaviours outside the specification *)

Module QueuesFindings.
Import QRun.

(** What a client sees of a call: an application error or a part of the payload;
    [None] when the call fails. *)
Definition answer {A B} (m : M QTxn (QResponse A)) (f : A -> B) (s : QTxn) : option (QAppError + B) :=
  match m s with
  | Ok (QPayload a, _) => Some (inr (f a))
  | Ok (QError e, _) => Some (inl e)
  | Fail _ => None
  end.

Definition failure {A} (m : M QTxn A) (s : QTxn) : option Err :=
  match m s with Ok _ => None | Fail e => Some e end.

(** A schedule of the second queue, due with the others. *)
Definition mail_req : CreateScheduleRequest.t :=
  CreateScheduleRequest.mk 7 (str "mail") 5 (str "digest") [] (str "* * * * *") [] [] 60 None (str "UTC") 5.
Definition f1 : QTxn := call (CallCreateSchedule mail_req now1) s4.
Definition f2 : QTxn := call (CallDeleteQueue (name_req "jobs")) f1.
Definition horizon : Z := now1 + 60 * time_Second.

(** between [DeleteQueue] and the end of its collection, one due schedule of the
    deleted queue makes [DequeSchedules] fail, so that no schedule of any queue is
    returned; before the deletion all three were. *)
Theorem deleted_queue_blocks_dequeue :
  answer (DequeSchedules horizon) length f1 = Some (inr 3%nat) /\
  failure (DequeSchedules horizon) f2 = Some ErrNotFound.
Proof. split; vm_compute; reflexivity. Qed.

(** The id of the deleted queue is given to a new one. *)
Definition g1 : QTxn := call (CallCreateQueue (create_req id1 "fresh") now1) s5.
Definition fresh_req : CreateScheduleRequest.t :=
  CreateScheduleRequest.mk 7 (str "fresh") 8 (str "nightly") [] (str "* * * * *") [] [] 60 None (str "UTC") 5.
Definition g2 : QTxn := call (CallCreateSchedule fresh_req now1) g1.
Definition g3 : QTxn := (rpc (collect_ticks 4 gc_req) g2).2.
Definition fresh_name : ScheduleNameRequest.t := ScheduleNameRequest.mk 7 (str "fresh") (str "nightly").

(** The id check of [CreateQueue] does not see ids that await collection: a queue
    created under such an id loses its own schedules to the collector. *)
Theorem reused_id_loses_schedules :
  answer (GetSchedule fresh_name) (ScheduleId.ScheduleId ∘ Schedule.Id) g2 = Some (inr 8) /\
  answer (GetSchedule fresh_name) (ScheduleId.ScheduleId ∘ Schedule.Id) g3 =
    Some (inl (scheduleNotFoundError (str "fresh") (str "nightly"))) /\
  answer (GetQueueByName (name_req "fresh")) Queue.Id g3 = Some (inr id1).
Proof. split_and!; vm_compute; reflexivity. Qed.
End QueuesFindings.

(** ** Witnesses *)

Lemma queues_reachable_invariant_witness : QInv (qview QRun.s5).
Proof. apply queues_reachable_invariant, QRun.qreachable_s5. Defined.

Lemma queue_handlers_refine_spec_witness :
  exists s', CreateQueue (QRun.create_req QRun.id2 "jobs") QRun.now1 QRun.s1 =
    Ok (QError (queueNameExistsError (str "jobs")), s').
Proof.
  destruct (queue_handlers_refine_spec QRun.s1 QRun.qreachable_s1) as [Hc _].
  destruct (qruns_Some _ _ _ (QError (queueNameExistsError (str "jobs")))
    (Hc (QRun.create_req QRun.id2 "jobs") QRun.now1 ltac:(by_eval)) ltac:(by_eval)) as (s' & E & _).
  by exists s'.
Defined.

Lemma schedule_handlers_refine_spec_witness :
  exists s', CreateSchedule (QRun.schedule_req 3 "hourly") QRun.now1 QRun.s3 =
    Ok (QError (scheduleNameExistsError (str "hourly") (str "jobs")), s').
Proof.
  destruct (schedule_handlers_refine_spec QRun.s3 QRun.qreachable_s3) as (Hc & _).
  specialize (Hc (QRun.schedule_req 3 "hourly") QRun.now1 ltac:(by_eval)).
  assert (Es : fst <$> spec_CreateSchedule (QRun.schedule_req 3 "hourly") QRun.now1 (qabs (qview QRun.s3)) =
    Some (QError (scheduleNameExistsError (str "hourly") (str "jobs")))) by by_eval.
  revert Hc Es. generalize (spec_CreateSchedule (QRun.schedule_req 3 "hourly") QRun.now1 (qabs (qview QRun.s3))).
  intros [[r A]|] Hc Es; [|done]. injection Es as ->. destruct Hc as (s' & E & _). by exists s'.
Defined.

Lemma SwapQueueId_refines_spec_witness :
  exists r s', SwapQueueId QRun.swap_req QRun.now1 QRun.s3 = Ok (r, s') /\
    (ScheduleId.QueueId ∘ Schedule.Id ∘ snd <$> map_to_list (a_scheds (qabs (qview s')))) = [9; 9].
Proof.
  destruct (qruns_Some _ _ _ _ (SwapQueueId_refines_spec QRun.s3 QRun.swap_req QRun.now1 QRun.qreachable_s3
    ltac:(by_eval)) eq_refl) as (s' & E & Ha).
  eexists _, s'. split; [exact E|]. rewrite Ha. by_eval.
Defined.

Lemma stale_update_is_refused_witness :
  exists x s', UpdateQueue (QRun.update_req 1) QRun.now1 QRun.s1 = Ok (QPayload x, s') /\
    UpdateQueue (QRun.update_req 1) QRun.now1 s' = Ok (QError (versionMismatchError (str "jobs") 2 1), s').
Proof.
  destruct (UpdateQueue (QRun.update_req 1) QRun.now1 QRun.s1) as [[[e|x] s']|e] eqn:E.
  - exfalso. apply (f_equal (fun r => match r with Ok (QPayload _, _) => true | _ => false end)) in E.
    revert E. by vm_compute.
  - exists x, s'. split; [reflexivity|].
    exact (stale_update_is_refused QRun.s1 (QRun.update_req 1) (QRun.update_req 1) QRun.now1 QRun.now1 x s'
      QRun.qreachable_s1 ltac:(by_eval) eq_refl eq_refl eq_refl E).
  - exfalso. apply (f_equal (fun r => match r with Ok (QPayload _, _) => true | _ => false end)) in E.
    revert E. by vm_compute.
Defined.

Lemma names_identify_rows_witness :
  forall t u, has_schedule (qview QRun.s3) t -> has_schedule (qview QRun.s3) u ->
    owner t = owner u -> Schedule.Name t = Schedule.Name u -> t = u.
Proof. apply (names_identify_rows QRun.s3 QRun.qreachable_s3). Defined.

Lemma DequeSchedules_returns_due_witness :
  ⟪ QRun.s4 ⟫ DequeSchedules (QRun.now1 + time_Minute) ⟪ r, s' ⟫ exists entries, r = QPayload entries /\
    due_rows (qview QRun.s4) (QRun.now1 + time_Minute) 250 entries.*1.
Proof.
  eapply wp_mono; [apply (DequeSchedules_returns_due QRun.s4 (QRun.now1 + time_Minute));
    [apply QRun.qreachable_s4|by_eval|]|].
  - intros t Ht _. apply (all_alive (qview QRun.s4)); [apply QInv_reachable, QRun.qreachable_s4| |exact Ht].
    vm_compute. reflexivity.
  - intros r s' (entries & -> & Hd & _). by exists entries.
Defined.

Lemma queue_collection_is_safe_witness :
  ⟪ QRun.s5 ⟫ RunQueuesGarbageCollection QRun.gc_req ⟪ r, s' ⟫ q_table (qview s') = q_table (qview QRun.s5).
Proof.
  eapply wp_mono; [apply (queue_collection_is_safe QRun.s5 QRun.gc_req), QRun.qreachable_s5|].
  by intros r s' (_ & Et & _).
Defined.

Lemma queue_collection_drains_witness :
  ⟪ QRun.s5 ⟫ collect_ticks 3 QRun.gc_req ⟪ r, s' ⟫ q_gc (qview s') = ∅.
Proof.
  eapply wp_mono; [apply (queue_collection_drains QRun.s5 QRun.gc_req 3); [apply QRun.qreachable_s5|by_eval]|].
  by intros r s' [Eg _].
Defined.
