(* ===== verification/TasksTables.v ===== *)
(** * The tables of the tasks core ([pkg/tasks], all files but [core.go])

    Key layouts, the table records and their methods, and the transaction
    view [Txn] of one tasks core: the union of its tables.  Every table has
    its own one-byte prefix ([table_prefixes.go]), so tables never share keys
    and the transaction is a record of independent containers. *)

From S2P Require Export Honey Corepb Pagination.

(** ** [table_prefixes.go] *)

Definition tablePrefixTasks : bytes := [0].
Definition tablePrefixDedupeKeysIndex : bytes := [1].
Definition tablePrefixQueueIndex : bytes := [2].
Definition tablePrefixInProgressIndex : bytes := [3].
Definition tablePrefixDeadTasksIndex : bytes := [4].
Definition tablePrefixExpirationIndex : bytes := [5].
Definition tablePrefixThreads : bytes := [6].
Definition tablePrefixThreadedTasksIndex : bytes := [7].
Definition tablePrefixCounters : bytes := [8].
Definition tablePrefixQueueState : bytes := [9].
Definition tablePrefixRateLimiters : bytes := [10].
Definition tablePrefixPurgeGCRecords : bytes := [11].

Definition tasks_prefixes : list bytes :=
  [tablePrefixTasks; tablePrefixDedupeKeysIndex; tablePrefixQueueIndex;
   tablePrefixInProgressIndex; tablePrefixDeadTasksIndex;
   tablePrefixExpirationIndex; tablePrefixThreads;
   tablePrefixThreadedTasksIndex; tablePrefixCounters; tablePrefixQueueState;
   tablePrefixRateLimiters; tablePrefixPurgeGCRecords].

(** ** Keys *)

Section keys.
Context `{U : Utils}.

(** [tasks.go] *)
Definition tablePK (accountId queueId : Z) : bytes :=
  ConcatBytes [AUint64 accountId; AUint64 queueId].
Definition tableSK (taskId : Z) : bytes := ConcatBytes [AUint64 taskId].
Definition dedupeKeysIndexPK (accountId queueId : Z) (dedupeKey : bytes) : bytes :=
  ConcatBytes [AUint64 accountId; AUint64 queueId; AString dedupeKey].
Definition queueIndexItem (scheduledAt taskId : Z) : bytes :=
  ConcatBytes [AInt64 scheduledAt; AUint64 taskId].
Definition inProgressIndexItem (visibleAt taskId : Z) : bytes :=
  ConcatBytes [AInt64 visibleAt; AUint64 taskId].
Definition deadTasksIndexItem (lastFailedAt taskId : Z) : bytes :=
  ConcatBytes [AInt64 lastFailedAt; AUint64 taskId].
Definition itemPrefix (t : Z) : bytes := ConcatBytes [AInt64 t].

Definition extractTaskIdFromIndexItem (item : bytes) : Z :=
  BytesToUint64 (drop (length item - 8) item).
Definition extractTimeFromIndexItem (item : bytes) : Z :=
  i64 (BytesToUint64 (take 8 (drop (length item - 16) item))).

(** [threads.go]: the thread id is length-prefixed. *)
Definition threads_tablePK (accountId queueId : Z) (threadId : bytes) : bytes :=
  ConcatBytes [AUint64 accountId; AUint64 queueId;
               AUint32 (Z.of_nat (length threadId)); AString threadId].
Definition threadIndexPK (accountId queueId : Z) (threadId : bytes) : bytes :=
  ConcatBytes [AUint64 accountId; AUint64 queueId;
               AUint32 (Z.of_nat (length threadId)); AString threadId].
Definition threadedTasksIndexItem (scheduledAt taskId : Z) : bytes :=
  ConcatBytes [AInt64 scheduledAt; AUint64 taskId].

(** [expiration.go] *)
Definition expiration_item (expiresAt : Z) (taskId : TaskId.t) : bytes :=
  ConcatBytes [AInt64 expiresAt; AUint64 (TaskId.AccountId taskId);
               AUint64 (TaskId.QueueId taskId); AUint64 (TaskId.TaskId taskId)].
Definition expiration_itemPrefix (expiresAt : Z) : bytes :=
  ConcatBytes [AInt64 expiresAt].

(** The per-queue tables ([counters.go], [queue_state.go],
    [rate_limiters.go], [purge_gc_records.go]) share one key layout. *)
Definition queue_tablePK (accountId queueId : Z) : bytes :=
  ConcatBytes [AUint64 accountId; AUint64 queueId].

(** The primary key of a task row. *)
Definition task_key (taskId : TaskId.t) : bytes :=
  ConcatBytes [ABytes (tablePK (TaskId.AccountId taskId) (TaskId.QueueId taskId));
               ABytes (tableSK (TaskId.TaskId taskId))].
End keys.

(** ** Tables *)

Section tables.
Context `{H : Honey}.

Record tasksTable := mkTasksTable {
  table : BinaryTable Task.t;
  dedupeKeysIndex : Uint64Table;
  queueIndex : OneToManySortedIndex;
  inProgressIndex : OneToManySortedIndex;
  deadTasksIndex : OneToManySortedIndex;
  expiration : SortedIndex;
}.

Record threadsTable := mkThreadsTable {
  threads_table : BinaryTable Thread.t;
  threadedTasksIndex : OneToManySortedIndex;
}.

(** The tables of one tasks core, as one transaction sees them. *)
Record Txn := mkTxn {
  tasks : tasksTable;
  threads : threadsTable;
  counters : BinaryTable TasksCounter.t;
  queueState : BinaryTable QueueState.t;
  rateLimiters : BinaryTable RateLimiterState.t;
  purgeGCRecords : BinaryTable PurgeQueueGarbageCollectionRecord.t;
}.

Definition newTasksTable : tasksTable :=
  mkTasksTable (bt_new _) (bt_new _) omi_new omi_new omi_new si_new.
Definition newThreadsTable : threadsTable := mkThreadsTable (bt_new _) omi_new.

(** [NewCore] over an empty store. *)
Definition NewCore : Txn :=
  mkTxn newTasksTable newThreadsTable (bt_new _) (bt_new _) (bt_new _) (bt_new _).

(** Field updates. *)
Definition upd_tasks (f : tasksTable -> tasksTable) (s : Txn) : Txn :=
  mkTxn (f (tasks s)) (threads s) (counters s) (queueState s) (rateLimiters s) (purgeGCRecords s).
Definition upd_threads (f : threadsTable -> threadsTable) (s : Txn) : Txn :=
  mkTxn (tasks s) (f (threads s)) (counters s) (queueState s) (rateLimiters s) (purgeGCRecords s).
Definition upd_counters f (s : Txn) : Txn :=
  mkTxn (tasks s) (threads s) (f (counters s)) (queueState s) (rateLimiters s) (purgeGCRecords s).
Definition upd_queueState f (s : Txn) : Txn :=
  mkTxn (tasks s) (threads s) (counters s) (f (queueState s)) (rateLimiters s) (purgeGCRecords s).
Definition upd_rateLimiters f (s : Txn) : Txn :=
  mkTxn (tasks s) (threads s) (counters s) (queueState s) (f (rateLimiters s)) (purgeGCRecords s).
Definition upd_purgeGCRecords f (s : Txn) : Txn :=
  mkTxn (tasks s) (threads s) (counters s) (queueState s) (rateLimiters s) (f (purgeGCRecords s)).

Definition upd_table f := upd_tasks (fun t => mkTasksTable (f (table t))
  (dedupeKeysIndex t) (queueIndex t) (inProgressIndex t) (deadTasksIndex t) (expiration t)).
Definition upd_dedupeKeysIndex f := upd_tasks (fun t => mkTasksTable (table t)
  (f (dedupeKeysIndex t)) (queueIndex t) (inProgressIndex t) (deadTasksIndex t) (expiration t)).
Definition upd_queueIndex f := upd_tasks (fun t => mkTasksTable (table t)
  (dedupeKeysIndex t) (f (queueIndex t)) (inProgressIndex t) (deadTasksIndex t) (expiration t)).
Definition upd_inProgressIndex f := upd_tasks (fun t => mkTasksTable (table t)
  (dedupeKeysIndex t) (queueIndex t) (f (inProgressIndex t)) (deadTasksIndex t) (expiration t)).
Definition upd_deadTasksIndex f := upd_tasks (fun t => mkTasksTable (table t)
  (dedupeKeysIndex t) (queueIndex t) (inProgressIndex t) (f (deadTasksIndex t)) (expiration t)).
Definition upd_expiration f := upd_tasks (fun t => mkTasksTable (table t)
  (dedupeKeysIndex t) (queueIndex t) (inProgressIndex t) (deadTasksIndex t) (f (expiration t))).
Definition upd_threads_table f := upd_threads (fun t =>
  mkThreadsTable (f (threads_table t)) (threadedTasksIndex t)).
Definition upd_threadedTasksIndex f := upd_threads (fun t =>
  mkThreadsTable (threads_table t) (f (threadedTasksIndex t))).
End tables.

(** ** Table methods *)

Section methods.
Context `{U : Utils} `{H : Honey}.
Local Abbreviation T := (M Txn).

(** [tasksTable.Get]; [None] is [store.ErrNotFound]. *)
Definition tasks_lookup (taskId : TaskId.t) : T (option Task.t) :=
  gets (fun s => bt_Get (table (tasks s)) (task_key taskId)).
Definition tasks_Get (taskId : TaskId.t) : T Task.t :=
  tasks_lookup taskId ≫= orNotFound.
Definition tasks_set (task : Task.t) : T unit :=
  modify (upd_table (fun t => bt_Set t (task_key (Task.Id task)) task)).
Definition tasks_delete (taskId : TaskId.t) : T unit :=
  modify (upd_table (fun t => bt_Delete t (task_key taskId))).

Definition dedupeKeysIndex_Get (k : bytes) : T (option Z) :=
  gets (fun s => bt_Get (dedupeKeysIndex (tasks s)) k).
Definition dedupeKeysIndex_Set (k : bytes) (taskId : Z) : T unit :=
  modify (upd_dedupeKeysIndex (fun t => bt_Set t k taskId)).
Definition dedupeKeysIndex_Delete (k : bytes) : T unit :=
  modify (upd_dedupeKeysIndex (fun t => bt_Delete t k)).

Definition queueIndex_Add (pk item : bytes) : T unit :=
  modify (upd_queueIndex (fun i => omi_Add i pk item)).
Definition queueIndex_Delete (pk item : bytes) : T unit :=
  modify (upd_queueIndex (fun i => omi_Delete i pk item)).
Definition inProgressIndex_Add (pk item : bytes) : T unit :=
  modify (upd_inProgressIndex (fun i => omi_Add i pk item)).
Definition inProgressIndex_Delete (pk item : bytes) : T unit :=
  modify (upd_inProgressIndex (fun i => omi_Delete i pk item)).
Definition deadTasksIndex_Add (pk item : bytes) : T unit :=
  modify (upd_deadTasksIndex (fun i => omi_Add i pk item)).
Definition deadTasksIndex_Delete (pk item : bytes) : T unit :=
  modify (upd_deadTasksIndex (fun i => omi_Delete i pk item)).

(** [expirationIndex.add] / [remove] *)
Definition expiration_add (taskId : TaskId.t) (expiresAt : Z) : T unit :=
  modify (upd_expiration (fun i => si_Add i (expiration_item expiresAt taskId))).
Definition expiration_remove (taskId : TaskId.t) (expiresAt : Z) : T unit :=
  modify (upd_expiration (fun i => si_Delete i (expiration_item expiresAt taskId))).

(** [expiredTaskRef] *)
Record expiredTaskRef := mkRef { ref_TaskId : TaskId.t; ref_ExpiresAt : Z }.

Definition expiration_ref (item : bytes) : expiredTaskRef :=
  mkRef (TaskId.mk (BytesToUint64 (take 8 (drop 8 item)))
                   (BytesToUint64 (take 8 (drop 16 item)))
                   (BytesToUint64 (take 8 (drop 24 item))))
        (i64 (BytesToUint64 (take 8 item))).

(** The callback appends first and stops once [len(refs) >= limit], so at
    least one entry is returned whenever one is due. *)
Definition expiration_ListDue (before : Z) (limit : Z) : T (list expiredTaskRef) :=
  gets (fun s => expiration_ref <$>
    take (Nat.max 1 (Z.to_nat limit))
      (si_ListInRange (expiration (tasks s))
         (expiration_itemPrefix 0) (expiration_itemPrefix before))).

(** [threadsTable] *)
Definition threads_lookup (accountId queueId : Z) (threadId : bytes) : T (option Thread.t) :=
  gets (fun s => bt_Get (threads_table (threads s)) (threads_tablePK accountId queueId threadId)).
Definition threads_Get (accountId queueId : Z) (threadId : bytes) : T Thread.t :=
  threads_lookup accountId queueId threadId ≫= orNotFound.
Definition threads_set (accountId queueId : Z) (thread : Thread.t) : T unit :=
  modify (upd_threads_table (fun t =>
    bt_Set t (threads_tablePK accountId queueId (Thread.ThreadId thread)) thread)).
Definition threads_Delete (accountId queueId : Z) (threadId : bytes) : T unit :=
  modify (upd_threads_table (fun t =>
    bt_Delete t (threads_tablePK accountId queueId threadId))).
Definition threads_AddToIndex (accountId queueId : Z) (threadId : bytes)
    (scheduledAt taskId : Z) : T unit :=
  modify (upd_threadedTasksIndex (fun i =>
    omi_Add i (threadIndexPK accountId queueId threadId)
              (threadedTasksIndexItem scheduledAt taskId))).
Definition threads_RemoveFromIndex (accountId queueId : Z) (threadId : bytes)
    (scheduledAt taskId : Z) : T unit :=
  modify (upd_threadedTasksIndex (fun i =>
    omi_Delete i (threadIndexPK accountId queueId threadId)
                 (threadedTasksIndexItem scheduledAt taskId))).
(** [ListIndex]: the task ids of a thread, in index order. *)
Definition threads_ListIndex (accountId queueId : Z) (threadId : bytes) : T (list Z) :=
  gets (fun s => extractTaskIdFromIndexItem <$>
    omi_ListAll (threadedTasksIndex (threads s)) (threadIndexPK accountId queueId threadId)).

(** [countersTable], [queueStateTable]: a missing row reads as zero. *)
Definition counters_Get (accountId queueId : Z) : T TasksCounter.t :=
  gets (fun s => default TasksCounter.zero
                   (bt_Get (counters s) (queue_tablePK accountId queueId))).
Definition counters_Set (accountId queueId : Z) (c : TasksCounter.t) : T unit :=
  modify (upd_counters (fun t => bt_Set t (queue_tablePK accountId queueId) c)).
Definition counters_Delete (accountId queueId : Z) : T unit :=
  modify (upd_counters (fun t => bt_Delete t (queue_tablePK accountId queueId))).
Definition queueState_Get (accountId queueId : Z) : T QueueState.t :=
  gets (fun s => default QueueState.zero
                   (bt_Get (queueState s) (queue_tablePK accountId queueId))).
Definition queueState_Set (accountId queueId : Z) (st : QueueState.t) : T unit :=
  modify (upd_queueState (fun t => bt_Set t (queue_tablePK accountId queueId) st)).
Definition queueState_Delete (accountId queueId : Z) : T unit :=
  modify (upd_queueState (fun t => bt_Delete t (queue_tablePK accountId queueId))).

(** [rateLimitersTable] *)
Definition rateLimiters_GetOrDefault (accountId queueId : Z)
    (rateLimiting : TokenBucketRateLimiting.t) (now : Z) : T RateLimiterState.t :=
  gets (fun s => default
    (RateLimiterState.mk (TokenBucketRateLimiting.MaxTokens rateLimiting) now)
    (bt_Get (rateLimiters s) (queue_tablePK accountId queueId))).
Definition rateLimiters_Set (accountId queueId : Z) (st : RateLimiterState.t) : T unit :=
  modify (upd_rateLimiters (fun t => bt_Set t (queue_tablePK accountId queueId) st)).
Definition rateLimiters_Delete (accountId queueId : Z) : T unit :=
  modify (upd_rateLimiters (fun t => bt_Delete t (queue_tablePK accountId queueId))).

(** [purgeGCRecordsTable] *)
Definition purgeGCRecords_Create (r : PurgeQueueGarbageCollectionRecord.t) : T unit :=
  let q := PurgeQueueGarbageCollectionRecord.QueueId r in
  modify (upd_purgeGCRecords (fun t =>
    bt_Set t (queue_tablePK (QueueId.AccountId q) (QueueId.QueueId q)) r)).
Definition purgeGCRecords_Delete (r : PurgeQueueGarbageCollectionRecord.t) : T unit :=
  let q := PurgeQueueGarbageCollectionRecord.QueueId r in
  modify (upd_purgeGCRecords (fun t =>
    bt_Delete t (queue_tablePK (QueueId.AccountId q) (QueueId.QueueId q)))).
Definition purgeGCRecords_Exists (accountId queueId : Z) : T bool :=
  gets (fun s => bool_decide (is_Some
    (bt_Get (purgeGCRecords s) (queue_tablePK accountId queueId)))).
Definition purgeGCRecords_List (limit : Z) : T (list PurgeQueueGarbageCollectionRecord.t) :=
  gets (fun s => ListPaginatedResult.Items
    (bt_ListPaginated (purgeGCRecords s) [] None limit)).

(** [listTasksResult], [tasksTable.List], [listFromIndex] *)
Record listTasksResult := mkListTasksResult {
  ltr_Tasks : list Task.t;
  ltr_NextPaginationToken : option CorePaginationToken.t;
  ltr_PreviousPaginationToken : option CorePaginationToken.t;
}.

Definition listFromIndex (accountId queueId : Z)
    (index : Txn -> OneToManySortedIndex)
    (monsteraToken : option PaginationToken.t) (limit : Z) : T listTasksResult :=
  result ← gets (fun s =>
    omi_ListPaginated (index s) (tablePK accountId queueId) monsteraToken limit);
  let items := ListPaginatedResult.Items result in
  let items := if is_reverse monsteraToken then reverse items else items in
  ts ← for_map items (fun item =>
    tasks_Get (TaskId.mk accountId queueId (extractTaskIdFromIndexItem item)));
  mret (mkListTasksResult ts
    (MonsteraToCore (ListPaginatedResult.NextPaginationToken result))
    (MonsteraToCore (ListPaginatedResult.PreviousPaginationToken result))).

Definition tasks_List (accountId queueId : Z) (state : TaskState)
    (paginationToken : option CorePaginationToken.t) (limit : Z) : T listTasksResult :=
  let monsteraToken := CoreToMonstera paginationToken in
  match state with
  | TASK_STATE_INVALID =>
      result ← gets (fun s =>
        bt_ListPaginated (table (tasks s)) (tablePK accountId queueId) monsteraToken limit);
      let ts := ListPaginatedResult.Items result in
      let ts := if is_reverse monsteraToken then reverse ts else ts in
      mret (mkListTasksResult ts
        (MonsteraToCore (ListPaginatedResult.NextPaginationToken result))
        (MonsteraToCore (ListPaginatedResult.PreviousPaginationToken result)))
  | TASK_STATE_ENQUEUED =>
      listFromIndex accountId queueId (fun s => queueIndex (tasks s)) monsteraToken limit
  | TASK_STATE_IN_PROGRESS =>
      listFromIndex accountId queueId (fun s => inProgressIndex (tasks s)) monsteraToken limit
  | TASK_STATE_DEAD =>
      listFromIndex accountId queueId (fun s => deadTasksIndex (tasks s)) monsteraToken limit
  | TASK_STATE_OTHER _ => fail ErrUnknownTaskState
  end.

Definition tasks_ListAll (accountId queueId : Z) : T (list Task.t) :=
  gets (fun s => bt_ListAll (table (tasks s)) (tablePK accountId queueId)).

(** [tasksTable.restoreIndexes]: rebuild every secondary index of a task
    streamed from a snapshot. *)
Definition restoreIndexes (task : Task.t) (isHead : bool) : T unit :=
  let id := Task.Id task in
  let pk := tablePK (TaskId.AccountId id) (TaskId.QueueId id) in
  tasks_set task ;;
  when (bool_decide (Task.DedupeKey task <> []) &&
        bool_decide (Task.State task <> TASK_STATE_DEAD))
    (dedupeKeysIndex_Set
       (dedupeKeysIndexPK (TaskId.AccountId id) (TaskId.QueueId id) (Task.DedupeKey task))
       (TaskId.TaskId id)) ;;
  match Task.State task with
  | TASK_STATE_ENQUEUED =>
      when isHead
        (queueIndex_Add pk (queueIndexItem (Task.ScheduledAt task) (TaskId.TaskId id)))
  | TASK_STATE_IN_PROGRESS =>
      inProgressIndex_Add pk (inProgressIndexItem (Task.VisibleAt task) (TaskId.TaskId id))
  | TASK_STATE_DEAD =>
      deadTasksIndex_Add pk (deadTasksIndexItem (Task.LastFailedAt task) (TaskId.TaskId id))
  | _ => mret tt
  end ;;
  expiration_add id (Task.ExpiresAt task).
End methods.
