(* ===== verification/TasksCore.v ===== *)
(** * The tasks core ([pkg/tasks/core.go])

    Every method of [tasks.Core] as a computation over the transaction view
    [Txn].  Methods are translated statement by statement: a Go error stops
    the computation, a [nil] pointer the code tests is an [option], a loop
    over an index is a loop over the items it visits with the code's stopping
    condition, and all time and counter arithmetic wraps at 64 bits.

    A handler either commits its transaction (the computation finishes) or
    discards it (it fails, and the store is left as it was): see [rpc]. *)

From S2P Require Export TasksTables.

(** ** Requests and responses ([corepb/tasks.proto], [coreapis]) *)

Module EnqueueRequestEntry.
Record t := mk {
  Payload : bytes;
  ScheduledAt : Z;
  ExpiresAt : Z;
  DedupeKey : bytes;
  RetryStrategy : option RetryStrategy.t;
  OverwriteOnDuplicate : list OverwriteOnDuplicate;
  ThreadId : bytes;
}.
End EnqueueRequestEntry.

Module EnqueueRequest.
Record t := mk { QueueId : QueueId.t; Entries : list EnqueueRequestEntry.t }.
End EnqueueRequest.

Module DequeueRequest.
Record t := mk {
  QueueId : QueueId.t;
  DequeuingSettings : option DequeuingSettings.t;
  DequeueLimit : Z;
  DeadLetterQueueConfig : option DeadLetterQueueConfig.t;
  KeepaliveTimeoutInSeconds : Z;
}.
End DequeueRequest.

Module ReportStatusRequestEntry.
Record t := mk {
  TaskId : TaskId.t;
  Status : Status;
  Attempt : Z;
  KeepaliveTimeoutInSeconds : Z;
}.
End ReportStatusRequestEntry.

Module ReportStatusRequest.
Record t := mk {
  Entries : list ReportStatusRequestEntry.t;
  DeadLetterQueueConfig : option DeadLetterQueueConfig.t;
}.
End ReportStatusRequest.

Module ReportStatusResponseEntry.
Record t := mk { TaskId : TaskId.t; Result : ReportResult }.
End ReportStatusResponseEntry.

Module DeleteTasksRequest.
Record t := mk { QueueId : QueueId.t; TaskIds : list Z }.
End DeleteTasksRequest.

Module RestartTasksRequestEntry.
Record t := mk { TaskId : Z; ScheduledAt : Z; ExpiresAt : Z }.
End RestartTasksRequestEntry.

Module RestartTasksRequest.
Record t := mk { QueueId : QueueId.t; Entries : list RestartTasksRequestEntry.t }.
End RestartTasksRequest.

Module RestartTasksResponseEntry.
Record t := mk { TaskId : Z; Result : RestartResult; Task : option Task.t }.
End RestartTasksResponseEntry.

Module ListTasksRequest.
Record t := mk {
  QueueId : QueueId.t;
  State : TaskState;
  PaginationToken : option CorePaginationToken.t;
  Limit : Z;
}.
End ListTasksRequest.

Module GetStatisticsResponse.
Record t := mk {
  EnqueuedTasksCount : Z;
  InProgressTasksCount : Z;
  DeadTasksCount : Z;
  ProcessedTasksCount : Z;
  ExpiredTasksCount : Z;
  AgeOfOldestEnqueuedTask : Z;
  TaskIdSequence : Z;
}.
End GetStatisticsResponse.

Module RunPurgeQueueGarbageCollectionRequest.
Record t := mk {
  GcRecordsPageSize : Z;
  GcRecordTasksPageSize : Z;
  MaxVisitedTasks : Z;
}.
End RunPurgeQueueGarbageCollectionRequest.

Module RunTasksGarbageCollectionRequest.
Record t := mk { MaxVisitedTasks : Z; PageSize : Z }.
End RunTasksGarbageCollectionRequest.

(** Application errors ([mrpc.Error]): values of a response, not failures. *)
Inductive AppError : Set :=
  | taskNotFoundError (taskId : TaskId.t)
  | queueIdPurgedError (accountId queueId : Z).

Inductive Response (A : Type) : Type :=
  | ApplicationError (e : AppError)
  | Payload (a : A).
Arguments ApplicationError {A} _.
Arguments Payload {A} _.

(** ** Constants *)

Definition maxVisitedTasksForDequeuing : Z := 100.
Definition defaultGCMaxVisitedTasks : Z := 1000.
Definition defaultGCPageSize : Z := 250.
Definition defaultPurgeGCRecordsPageSize : Z := 100.
Definition defaultPurgeGCRecordTasksPageSize : Z := 250.
Definition defaultPurgeGCMaxVisitedTasks : Z := 1000.

Inductive taskDeletionReason : Set :=
  | taskDeletionNone
  | taskDeletionSucceeded
  | taskDeletionExpired.

(** [int64(time.Second) * n] added to a timestamp. *)
Definition after_seconds (now seconds : Z) : Z := i64 (now + i64 (seconds * time_Second)).

Section core.
Context `{U : Utils} `{H : Honey}.
Local Abbreviation T := (M Txn).

(** ** Thread head coordination *)

(** The [ListIndex] callback always stops at the first member. *)
Definition first_in_thread (accountId queueId : Z) (threadId : bytes) : T (option Task.t) :=
  taskIds ← threads_ListIndex accountId queueId threadId;
  match taskIds with
  | [] => mret None
  | taskId :: _ =>
      task ← tasks_Get (TaskId.mk accountId queueId taskId);
      mret (Some task)
  end.

Definition reconcileThreadHead (accountId queueId : Z) (thread : Thread.t) : T unit :=
  earliest ← first_in_thread accountId queueId (Thread.ThreadId thread);
  currentHead ← tasks_Get (Thread.HeadTaskId thread);
  earliest ← deref earliest;
  let pk := tablePK accountId queueId in
  let headId := TaskId.TaskId (Task.Id currentHead) in
  if TaskId.TaskId (Task.Id earliest) =? headId then
    if Thread.ScheduledAt thread =? Task.ScheduledAt earliest then mret tt
    else
      when (bool_decide (Task.State currentHead = TASK_STATE_ENQUEUED))
        (queueIndex_Delete pk (queueIndexItem (Thread.ScheduledAt thread) headId) ;;
         queueIndex_Add pk (queueIndexItem (Task.ScheduledAt earliest) headId)) ;;
      threads_set accountId queueId
        (Thread.set_ScheduledAt (Task.ScheduledAt earliest) thread)
  else if bool_decide (Task.State currentHead <> TASK_STATE_ENQUEUED) then mret tt
  else
    queueIndex_Delete pk (queueIndexItem (Task.ScheduledAt currentHead) headId) ;;
    threads_set accountId queueId
      (Thread.set_ScheduledAt (Task.ScheduledAt earliest)
         (Thread.set_HeadTaskId (Task.Id earliest) thread)) ;;
    queueIndex_Add pk
      (queueIndexItem (Task.ScheduledAt earliest) (TaskId.TaskId (Task.Id earliest))).

Definition promoteNextThreadHead (accountId queueId : Z) (thread : Thread.t) : T unit :=
  nextHead ← first_in_thread accountId queueId (Thread.ThreadId thread);
  match nextHead with
  | Some nextHead =>
      threads_set accountId queueId
        (Thread.set_ScheduledAt (Task.ScheduledAt nextHead)
           (Thread.set_HeadTaskId (Task.Id nextHead)
              (Thread.set_VisibleAt 0 thread))) ;;
      queueIndex_Add (tablePK accountId queueId)
        (queueIndexItem (Task.ScheduledAt nextHead) (TaskId.TaskId (Task.Id nextHead)))
  | None => threads_Delete accountId queueId (Thread.ThreadId thread)
  end.

Definition attachTaskToThread (task : Task.t) : T unit :=
  let id := Task.Id task in
  let a := TaskId.AccountId id in let q := TaskId.QueueId id in
  threads_AddToIndex a q (Task.ThreadId task) (Task.ScheduledAt task) (TaskId.TaskId id) ;;
  thread ← threads_lookup a q (Task.ThreadId task);
  match thread with
  | None =>
      threads_set a q (Thread.mk (Task.ThreadId task) id (Task.ScheduledAt task) 0) ;;
      queueIndex_Add (tablePK a q) (queueIndexItem (Task.ScheduledAt task) (TaskId.TaskId id))
  | Some thread => reconcileThreadHead a q thread
  end.

Definition detachTaskFromThread (task : Task.t) : T unit :=
  let id := Task.Id task in
  let a := TaskId.AccountId id in let q := TaskId.QueueId id in
  threads_RemoveFromIndex a q (Task.ThreadId task) (Task.ScheduledAt task) (TaskId.TaskId id) ;;
  thread ← threads_Get a q (Task.ThreadId task);
  if TaskId.TaskId (Thread.HeadTaskId thread) =? TaskId.TaskId id
  then promoteNextThreadHead a q thread
  else mret tt.

Definition rescheduleTaskInThread (task : Task.t) (oldScheduledAt : Z) : T unit :=
  let id := Task.Id task in
  let a := TaskId.AccountId id in let q := TaskId.QueueId id in
  threads_RemoveFromIndex a q (Task.ThreadId task) oldScheduledAt (TaskId.TaskId id) ;;
  threads_AddToIndex a q (Task.ThreadId task) (Task.ScheduledAt task) (TaskId.TaskId id) ;;
  thread ← threads_Get a q (Task.ThreadId task);
  reconcileThreadHead a q thread.

(** ** Task life cycle *)

Definition task_pk (task : Task.t) : bytes :=
  tablePK (TaskId.AccountId (Task.Id task)) (TaskId.QueueId (Task.Id task)).
Definition task_n (task : Task.t) : Z := TaskId.TaskId (Task.Id task).
Definition task_dedupePK (task : Task.t) : bytes :=
  dedupeKeysIndexPK (TaskId.AccountId (Task.Id task)) (TaskId.QueueId (Task.Id task))
    (Task.DedupeKey task).

(** [if task.DedupeKey != "" { dedupeKeysIndex.Delete(...) }] *)
Definition release_dedupe (task : Task.t) : T unit :=
  when (bool_decide (Task.DedupeKey task <> [])) (dedupeKeysIndex_Delete (task_dedupePK task)).

(** [if task.ThreadId != "" { detachTaskFromThread(...) }] *)
Definition detach_if_threaded (task : Task.t) : T unit :=
  when (bool_decide (Task.ThreadId task <> [])) (detachTaskFromThread task).

(** A read-modify-write of the task's queue counters. *)
Definition bump_counters (task : Task.t) (f : TasksCounter.t -> TasksCounter.t) : T unit :=
  let a := TaskId.AccountId (Task.Id task) in let q := TaskId.QueueId (Task.Id task) in
  counters ← counters_Get a q;
  counters_Set a q (f counters).

Definition getTaskIdByDedupeKey (accountId queueId : Z) (dedupeKey : bytes)
    : T (option TaskId.t) :=
  taskId ← dedupeKeysIndex_Get (dedupeKeysIndexPK accountId queueId dedupeKey);
  mret (TaskId.mk accountId queueId <$> taskId).

Definition createTask (task : Task.t) : T unit :=
  tasks_set task ;;
  when (bool_decide (Task.DedupeKey task <> []))
    (dedupeKeysIndex_Set (task_dedupePK task) (task_n task)) ;;
  (if bool_decide (Task.ThreadId task = [])
   then queueIndex_Add (task_pk task) (queueIndexItem (Task.ScheduledAt task) (task_n task))
   else attachTaskToThread task) ;;
  expiration_add (Task.Id task) (Task.ExpiresAt task) ;;
  bump_counters task (TasksCounter.add_Enqueued 1).

Definition count_deletion (reason : taskDeletionReason) (c : TasksCounter.t) : TasksCounter.t :=
  match reason with
  | taskDeletionNone => c
  | taskDeletionSucceeded => TasksCounter.add_Processed 1 c
  | taskDeletionExpired => TasksCounter.add_Expired 1 c
  end.

Definition deleteTask (task : Task.t) (reason : taskDeletionReason) : T unit :=
  let a := TaskId.AccountId (Task.Id task) in let q := TaskId.QueueId (Task.Id task) in
  counters ← counters_Get a q;
  let counters := count_deletion reason counters in
  counters ←
    match Task.State task with
    | TASK_STATE_ENQUEUED =>
        queueIndex_Delete (task_pk task) (queueIndexItem (Task.ScheduledAt task) (task_n task)) ;;
        release_dedupe task ;;
        detach_if_threaded task ;;
        mret (TasksCounter.add_Enqueued (-1) counters)
    | TASK_STATE_DEAD =>
        deadTasksIndex_Delete (task_pk task)
          (deadTasksIndexItem (Task.LastFailedAt task) (task_n task)) ;;
        mret (TasksCounter.add_Dead (-1) counters)
    | TASK_STATE_IN_PROGRESS =>
        inProgressIndex_Delete (task_pk task)
          (inProgressIndexItem (Task.VisibleAt task) (task_n task)) ;;
        release_dedupe task ;;
        detach_if_threaded task ;;
        mret (TasksCounter.add_InProgress (-1) counters)
    | _ => mret counters
    end;
  expiration_remove (Task.Id task) (Task.ExpiresAt task) ;;
  tasks_delete (Task.Id task) ;;
  counters_Set a q counters.

(** One [switch] arm of [overwriteDuplicate]; the task is mutated in place. *)
Definition overwrite_one (scheduledAt : Z) (payload : bytes) (expiresAt : Z)
    (duplicate : Task.t) (o : OverwriteOnDuplicate) : T Task.t :=
  match o with
  | OVERWRITE_ON_DUPLICATE_EXPIRES_AT =>
      expiration_remove (Task.Id duplicate) (Task.ExpiresAt duplicate) ;;
      let duplicate := Task.set_ExpiresAt expiresAt duplicate in
      expiration_add (Task.Id duplicate) (Task.ExpiresAt duplicate) ;;
      mret duplicate
  | OVERWRITE_ON_DUPLICATE_PAYLOAD => mret (Task.set_Payload payload duplicate)
  | OVERWRITE_ON_DUPLICATE_SCHEDULED_AT =>
      let oldScheduledAt := Task.ScheduledAt duplicate in
      let duplicate := Task.set_ScheduledAt scheduledAt duplicate in
      (if bool_decide (Task.ThreadId duplicate = []) then
         queueIndex_Delete (task_pk duplicate)
           (queueIndexItem oldScheduledAt (task_n duplicate)) ;;
         queueIndex_Add (task_pk duplicate)
           (queueIndexItem (Task.ScheduledAt duplicate) (task_n duplicate))
       else
         tasks_set duplicate ;;
         rescheduleTaskInThread duplicate oldScheduledAt) ;;
      mret duplicate
  | _ => mret duplicate
  end.

Fixpoint overwrite_all (scheduledAt : Z) (payload : bytes) (expiresAt : Z)
    (os : list OverwriteOnDuplicate) (duplicate : Task.t) : T Task.t :=
  match os with
  | [] => mret duplicate
  | o :: os =>
      duplicate ← overwrite_one scheduledAt payload expiresAt duplicate o;
      overwrite_all scheduledAt payload expiresAt os duplicate
  end.

Definition overwriteDuplicate (duplicateId : TaskId.t)
    (overwriteOnDuplicate : list OverwriteOnDuplicate)
    (scheduledAt : Z) (payload : bytes) (expiresAt : Z) : T (option Task.t) :=
  match overwriteOnDuplicate with
  | [] => mret None
  | _ =>
      duplicate ← tasks_Get duplicateId;
      if bool_decide (Task.State duplicate = TASK_STATE_ENQUEUED) then
        duplicate ← overwrite_all scheduledAt payload expiresAt overwriteOnDuplicate duplicate;
        tasks_set duplicate ;;
        mret (Some duplicate)
      else mret (Some duplicate)
  end.

Definition heartbeatTask (task : Task.t) (now keepaliveTimeoutInSeconds : Z) : T unit :=
  let a := TaskId.AccountId (Task.Id task) in let q := TaskId.QueueId (Task.Id task) in
  inProgressIndex_Delete (task_pk task)
    (inProgressIndexItem (Task.VisibleAt task) (task_n task)) ;;
  let task := Task.set_VisibleAt (after_seconds now keepaliveTimeoutInSeconds) task in
  tasks_set task ;;
  when (bool_decide (Task.ThreadId task <> []))
    (thread ← threads_Get a q (Task.ThreadId task);
     if negb (TaskId.TaskId (Thread.HeadTaskId thread) =? task_n task)
     then fail ErrNotThreadHead
     else threads_set a q (Thread.set_VisibleAt (Task.VisibleAt task) thread)) ;;
  inProgressIndex_Add (task_pk task)
    (inProgressIndexItem (Task.VisibleAt task) (task_n task)).

(** The [ListAll] callback appends first and stops once [overflow] tasks
    are collected. *)
Definition evictExcessDeadTasks (accountId queueId maxSize deadTasksCount : Z) : T unit :=
  if maxSize <=? 0 then mret tt
  else
    let overflow := i64 (deadTasksCount - maxSize) in
    if overflow <=? 0 then mret tt
    else
      items ← gets (fun s => take (Z.to_nat overflow)
        (omi_ListAll (deadTasksIndex (tasks s)) (tablePK accountId queueId)));
      oldest ← for_map items (fun item =>
        tasks_Get (TaskId.mk accountId queueId (extractTaskIdFromIndexItem item)));
      for_each oldest (fun task => deleteTask task taskDeletionNone).

Definition failTaskToDead (task : Task.t) (now : Z)
    (dlqConfig : option DeadLetterQueueConfig.t) : T unit :=
  match dlqConfig with
  | None => deleteTask task taskDeletionNone
  | Some dlq =>
      if negb (DeadLetterQueueConfig.Enable dlq) then deleteTask task taskDeletionNone
      else
        let a := TaskId.AccountId (Task.Id task) in
        let q := TaskId.QueueId (Task.Id task) in
        inProgressIndex_Delete (task_pk task)
          (inProgressIndexItem (Task.VisibleAt task) (task_n task)) ;;
        let task := Task.set_State TASK_STATE_DEAD task in
        let task := Task.set_LastFailedAt now task in
        let task := Task.set_ExpiresAt
          (after_seconds (Task.LastFailedAt task)
             (DeadLetterQueueConfig.RetentionPeriodInSeconds dlq)) task in
        tasks_set task ;;
        expiration_add (Task.Id task) (Task.ExpiresAt task) ;;
        release_dedupe task ;;
        detach_if_threaded task ;;
        deadTasksIndex_Add (task_pk task)
          (deadTasksIndexItem (Task.LastFailedAt task) (task_n task)) ;;
        counters ← counters_Get a q;
        let counters := TasksCounter.add_Dead 1 (TasksCounter.add_InProgress (-1) counters) in
        counters_Set a q counters ;;
        evictExcessDeadTasks a q (DeadLetterQueueConfig.MaxSize dlq)
          (TasksCounter.DeadTasksCount counters)
  end.

(** [task.RetryStrategy.RetryIntervalsInSeconds[task.Attempts-1]] *)
Definition retry_interval (task : Task.t) : T Z :=
  rs ← deref (Task.RetryStrategy task);
  let i := i32 (Task.Attempts task - 1) in
  if i <? 0 then fail (ErrPanic IndexOutOfRange)
  else match RetryStrategy.RetryIntervalsInSeconds rs !! Z.to_nat i with
       | Some v => mret v
       | None => fail (ErrPanic IndexOutOfRange)
       end.

Definition failTaskToRetry (task : Task.t) (now : Z) : T unit :=
  let a := TaskId.AccountId (Task.Id task) in let q := TaskId.QueueId (Task.Id task) in
  inProgressIndex_Delete (task_pk task)
    (inProgressIndexItem (Task.VisibleAt task) (task_n task)) ;;
  let oldScheduledAt := Task.ScheduledAt task in
  interval ← retry_interval task;
  let task := Task.set_State TASK_STATE_ENQUEUED task in
  let task := Task.set_ScheduledAt (after_seconds now interval) task in
  let task := Task.set_LastFailedAt now task in
  let task := Task.set_VisibleAt 0 task in
  tasks_set task ;;
  expiration_add (Task.Id task) (Task.ExpiresAt task) ;;
  (if bool_decide (Task.ThreadId task = []) then
     queueIndex_Add (task_pk task) (queueIndexItem (Task.ScheduledAt task) (task_n task))
   else
     rescheduleTaskInThread task oldScheduledAt ;;
     thread ← threads_Get a q (Task.ThreadId task);
     threads_set a q (Thread.set_VisibleAt 0 thread)) ;;
  bump_counters task (fun c =>
    TasksCounter.add_Enqueued 1 (TasksCounter.add_InProgress (-1) c)).

(** [int32(len(...))] of the retry intervals. *)
Definition handleTaskFailure (task : Task.t) (now : Z)
    (dlqConfig : option DeadLetterQueueConfig.t) : T unit :=
  if Task.ExpiresAt task <? now then deleteTask task taskDeletionExpired
  else
    let exhausted :=
      match Task.RetryStrategy task with
      | None => true
      | Some rs => Task.Attempts task >?
          i32 (Z.of_nat (length (RetryStrategy.RetryIntervalsInSeconds rs)))
      end in
    if exhausted then failTaskToDead task now dlqConfig
    else failTaskToRetry task now.

(** ** Dequeuing *)

(** Integer division truncates towards zero and panics on zero. *)
Definition go_div (a b : Z) : T Z :=
  if b =? 0 then fail (ErrPanic DivideByZero) else mret (i64 (Z.quot a b)).

Definition getRefillInterval (r : TokenBucketRateLimiting.t) : T Z :=
  let refill unit := go_div (i64 (TokenBucketRateLimiting.Interval r * unit))
                            (TokenBucketRateLimiting.MaxTokens r) in
  match TokenBucketRateLimiting.Unit r with
  | INTERVAL_UNIT_SECONDS => refill time_Second
  | INTERVAL_UNIT_MINUTES => refill time_Minute
  | INTERVAL_UNIT_HOURS => refill time_Hour
  | _ => fail (ErrPanic UnknownIntervalUnit)
  end.

(** The refill block of [Dequeue]. *)
Definition refillTokens (state : RateLimiterState.t) (maxTokens refillInterval now : Z)
    : T RateLimiterState.t :=
  let tokens := RateLimiterState.Tokens state in
  let last := RateLimiterState.LastRefilledAt state in
  if tokens <? maxTokens then
    newTokens ← go_div (i64 (now - last)) refillInterval;
    mret (if newTokens >? 0 then
            if i64 (tokens + newTokens) >? maxTokens
            then RateLimiterState.mk maxTokens now
            else RateLimiterState.mk (i64 (tokens + newTokens))
                   (i64 (last + i64 (newTokens * refillInterval)))
          else state)
  else mret (RateLimiterState.mk tokens now).

(** [ListInRange] with a callback that visits at most
    [maxVisitedTasksForDequeuing] items. *)
Definition dequeueInProgressTasksBeforeTime (accountId queueId now : Z)
    (dlqConfig : option DeadLetterQueueConfig.t) : T unit :=
  state ← queueState_Get accountId queueId;
  items ← gets (fun s => take (Z.to_nat maxVisitedTasksForDequeuing)
    (omi_ListInRange (inProgressIndex (tasks s)) (tablePK accountId queueId)
       (itemPrefix (QueueState.LastVisitedInProgress state)) (itemPrefix now)));
  timedOutTasks ← for_map items (fun item =>
    tasks_Get (TaskId.mk accountId queueId (extractTaskIdFromIndexItem item)));
  let state :=
    match last items with
    | None => QueueState.set_LastVisitedInProgress now state
    | Some item => QueueState.set_LastVisitedInProgress (extractTimeFromIndexItem item) state
    end in
  queueState_Set accountId queueId state ;;
  for_each timedOutTasks (fun task => handleTaskFailure task now dlqConfig).

(** What the scan callback of [dequeueTasksBeforeTime] accumulates. *)
Record scan := mkScan {
  sc_dequeued : list Task.t;
  sc_expired : list Task.t;
  sc_visited : Z;
  sc_state : QueueState.t;
  sc_counters : TasksCounter.t;
}.

(** The caps the callback checks before touching an item. *)
Definition scan_saturated (limit : Z) (settings : option DequeuingSettings.t) (sc : scan) : bool :=
  (Z.of_nat (length (sc_dequeued sc)) >=? limit) ||
  (sc_visited sc >=? maxVisitedTasksForDequeuing) ||
  match settings with
  | None => false
  | Some ds =>
      (DequeuingSettings.MaxInProgressTasks ds >? 0) &&
      (TasksCounter.InProgressTasksCount (sc_counters sc)
         >=? DequeuingSettings.MaxInProgressTasks ds)
  end.

Definition scan_take (now : Z) (item : bytes) (task : Task.t) (sc : scan) : scan :=
  let state := QueueState.set_LastVisitedEnqueued (extractTimeFromIndexItem item) (sc_state sc) in
  if Task.ExpiresAt task <? now then
    mkScan (sc_dequeued sc) (sc_expired sc ++ [task]) (sc_visited sc + 1) state
      (TasksCounter.add_Enqueued (-1) (sc_counters sc))
  else
    mkScan (sc_dequeued sc ++ [task]) (sc_expired sc) (sc_visited sc + 1) state
      (TasksCounter.add_Enqueued (-1) (TasksCounter.add_InProgress 1 (sc_counters sc))).

Fixpoint scan_queue (accountId queueId now limit : Z) (settings : option DequeuingSettings.t)
    (items : list bytes) (sc : scan) : T scan :=
  match items with
  | [] => mret sc
  | item :: items =>
      if scan_saturated limit settings sc then mret sc
      else
        task ← tasks_Get (TaskId.mk accountId queueId (extractTaskIdFromIndexItem item));
        scan_queue accountId queueId now limit settings items (scan_take now item task sc)
  end.

(** The loop over [expiredTasks]. *)
Definition dropExpired (accountId queueId : Z) (task : Task.t) : T unit :=
  queueIndex_Delete (tablePK accountId queueId)
    (queueIndexItem (Task.ScheduledAt task) (task_n task)) ;;
  expiration_remove (Task.Id task) (Task.ExpiresAt task) ;;
  tasks_delete (Task.Id task) ;;
  when (bool_decide (Task.DedupeKey task <> []))
    (dedupeKeysIndex_Delete (dedupeKeysIndexPK accountId queueId (Task.DedupeKey task))).

(** The loop over [dequeuedTasks]. *)
Definition startTask (accountId queueId now keepaliveTimeoutInSeconds : Z)
    (task : Task.t) : T Task.t :=
  queueIndex_Delete (tablePK accountId queueId)
    (queueIndexItem (Task.ScheduledAt task) (task_n task)) ;;
  expiration_remove (Task.Id task) (Task.ExpiresAt task) ;;
  let task := Task.set_VisibleAt (after_seconds now keepaliveTimeoutInSeconds) task in
  let task := Task.set_Attempts (i32 (Task.Attempts task + 1)) task in
  let task := Task.set_State TASK_STATE_IN_PROGRESS task in
  tasks_set task ;;
  inProgressIndex_Add (tablePK accountId queueId)
    (inProgressIndexItem (Task.VisibleAt task) (task_n task)) ;;
  mret task.

Definition dequeueTasksBeforeTime (accountId queueId now limit : Z)
    (dequeuingSettings : option DequeuingSettings.t) (keepaliveTimeoutInSeconds : Z)
    : T (list Task.t) :=
  state ← queueState_Get accountId queueId;
  counters ← counters_Get accountId queueId;
  items ← gets (fun s =>
    omi_ListInRange (queueIndex (tasks s)) (tablePK accountId queueId)
      (itemPrefix (QueueState.LastVisitedEnqueued state)) (itemPrefix now));
  sc ← scan_queue accountId queueId now limit dequeuingSettings items
         (mkScan [] [] 0 state counters);
  let state :=
    match items with
    | [] => QueueState.set_LastVisitedEnqueued now (sc_state sc)
    | _ => sc_state sc
    end in
  queueState_Set accountId queueId state ;;
  counters_Set accountId queueId
    (TasksCounter.add_Expired (Z.of_nat (length (sc_expired sc))) (sc_counters sc)) ;;
  for_each (sc_expired sc) (dropExpired accountId queueId) ;;
  for_map (sc_dequeued sc) (startTask accountId queueId now keepaliveTimeoutInSeconds).

(** ** Handlers *)

Definition checkQueueNotPurged (accountId queueId : Z) : T (option AppError) :=
  purged ← purgeGCRecords_Exists accountId queueId;
  mret (if purged : bool then Some (queueIdPurgedError accountId queueId) else None).

Definition GetTask (taskId : TaskId.t) (now : Z) : T (Response Task.t) :=
  task ← tasks_lookup taskId;
  mret match task with
       | None => ApplicationError (taskNotFoundError taskId)
       | Some task =>
           if bool_decide (Task.State task <> TASK_STATE_IN_PROGRESS) &&
              (Task.ExpiresAt task <? now)
           then ApplicationError (taskNotFoundError taskId)
           else Payload task
       end.

(** The callback always stops at the first item. *)
Definition getAgeOfOldestEnqueuedTask (accountId queueId now : Z) : T Z :=
  items ← gets (fun s =>
    omi_ListInRange (queueIndex (tasks s)) (tablePK accountId queueId)
      (itemPrefix 0) (itemPrefix now));
  mret match items with
       | [] => 0
       | item :: _ => i64 (now - extractTimeFromIndexItem item)
       end.

Definition GetStatistics (queue : QueueId.t) (now : Z) : T (Response GetStatisticsResponse.t) :=
  let accountId := QueueId.AccountId queue in let queueId := QueueId.QueueId queue in
  counters ← counters_Get accountId queueId;
  state ← queueState_Get accountId queueId;
  age ← getAgeOfOldestEnqueuedTask accountId queueId now;
  mret (Payload (GetStatisticsResponse.mk
    (TasksCounter.EnqueuedTasksCount counters)
    (TasksCounter.InProgressTasksCount counters)
    (TasksCounter.DeadTasksCount counters)
    (TasksCounter.ProcessedTasksCount counters)
    (TasksCounter.ExpiredTasksCount counters)
    age
    (i64 (QueueState.TaskIdSequence state)))).

Definition ListTasks (req : ListTasksRequest.t) : T (Response listTasksResult) :=
  let accountId := QueueId.AccountId (ListTasksRequest.QueueId req) in
  let queueId := QueueId.QueueId (ListTasksRequest.QueueId req) in
  appErr ← checkQueueNotPurged accountId queueId;
  match appErr with
  | Some e => mret (ApplicationError e)
  | None =>
      result ← tasks_List accountId queueId (ListTasksRequest.State req)
                 (ListTasksRequest.PaginationToken req)
                 (GetLimitWithDefaults (ListTasksRequest.Limit req));
      mret (Payload result)
  end.

(** The task an [Enqueue] entry creates. *)
Definition new_task (accountId queueId taskId now scheduledAt : Z)
    (entry : EnqueueRequestEntry.t) : Task.t :=
  Task.mk (TaskId.mk accountId queueId taskId)
    (EnqueueRequestEntry.Payload entry)
    now scheduledAt
    (EnqueueRequestEntry.ExpiresAt entry)
    (EnqueueRequestEntry.DedupeKey entry)
    TASK_STATE_ENQUEUED 0 0 0
    (EnqueueRequestEntry.RetryStrategy entry)
    (EnqueueRequestEntry.ThreadId entry).

(** One iteration of the loop of [Enqueue]: the task it appends, if any. *)
Definition enqueue_entry (accountId queueId now : Z) (entry : EnqueueRequestEntry.t)
    (state : QueueState.t) : T (option Task.t * QueueState.t) :=
  let scheduledAt :=
    if EnqueueRequestEntry.ScheduledAt entry <? now then now
    else EnqueueRequestEntry.ScheduledAt entry in
  duplicateId ←
    (if bool_decide (EnqueueRequestEntry.DedupeKey entry <> [])
     then getTaskIdByDedupeKey accountId queueId (EnqueueRequestEntry.DedupeKey entry)
     else mret None);
  match duplicateId with
  | Some duplicateId =>
      duplicate ← overwriteDuplicate duplicateId
        (EnqueueRequestEntry.OverwriteOnDuplicate entry) scheduledAt
        (EnqueueRequestEntry.Payload entry) (EnqueueRequestEntry.ExpiresAt entry);
      mret (duplicate, state)
  | None =>
      let state := QueueState.set_TaskIdSequence
                     (u64 (QueueState.TaskIdSequence state + 1)) state in
      let task := new_task accountId queueId (QueueState.TaskIdSequence state)
                    now scheduledAt entry in
      createTask task ;;
      mret (Some task, state)
  end.

Fixpoint enqueue_entries (accountId queueId now : Z) (entries : list EnqueueRequestEntry.t)
    (ts : list Task.t) (state : QueueState.t) : T (list Task.t * QueueState.t) :=
  match entries with
  | [] => mret (ts, state)
  | entry :: entries =>
      r ← enqueue_entry accountId queueId now entry state;
      enqueue_entries accountId queueId now entries
        (ts ++ match r.1 with Some t => [t] | None => [] end) r.2
  end.

Definition Enqueue (req : EnqueueRequest.t) (now : Z) : T (Response (list Task.t)) :=
  let accountId := QueueId.AccountId (EnqueueRequest.QueueId req) in
  let queueId := QueueId.QueueId (EnqueueRequest.QueueId req) in
  appErr ← checkQueueNotPurged accountId queueId;
  match appErr with
  | Some e => mret (ApplicationError e)
  | None =>
      state ← queueState_Get accountId queueId;
      r ← enqueue_entries accountId queueId now (EnqueueRequest.Entries req) [] state;
      queueState_Set accountId queueId r.2 ;;
      mret (Payload r.1)
  end.

(** The token bucket is consulted only when both its fields are positive. *)
Definition rate_limiting (settings : option DequeuingSettings.t)
    : option TokenBucketRateLimiting.t :=
  match settings with
  | None => None
  | Some ds =>
      match DequeuingSettings.RateLimiting ds with
      | None => None
      | Some r =>
          if (TokenBucketRateLimiting.Interval r >? 0) &&
             (TokenBucketRateLimiting.MaxTokens r >? 0)
          then Some r else None
      end
  end.

Definition take_tokens (accountId queueId now : Z) (r : TokenBucketRateLimiting.t)
    : T RateLimiterState.t :=
  state ← rateLimiters_GetOrDefault accountId queueId r now;
  refillInterval ← getRefillInterval r;
  refillTokens state (TokenBucketRateLimiting.MaxTokens r) refillInterval now.

Definition Dequeue (req : DequeueRequest.t) (now : Z) : T (Response (list Task.t)) :=
  let accountId := QueueId.AccountId (DequeueRequest.QueueId req) in
  let queueId := QueueId.QueueId (DequeueRequest.QueueId req) in
  let settings := DequeueRequest.DequeuingSettings req in
  appErr ← checkQueueNotPurged accountId queueId;
  match appErr with
  | Some e => mret (ApplicationError e)
  | None =>
      rateLimiterState ←
        match rate_limiting settings with
        | None => mret None
        | Some r => st ← take_tokens accountId queueId now r; mret (Some st)
        end;
      let dequeueLimit :=
        match rateLimiterState with
        | None => DequeueRequest.DequeueLimit req
        | Some st =>
            if RateLimiterState.Tokens st <? DequeueRequest.DequeueLimit req
            then RateLimiterState.Tokens st else DequeueRequest.DequeueLimit req
        end in
      dequeueInProgressTasksBeforeTime accountId queueId now
        (DequeueRequest.DeadLetterQueueConfig req) ;;
      ts ← dequeueTasksBeforeTime accountId queueId now dequeueLimit settings
             (DequeueRequest.KeepaliveTimeoutInSeconds req);
      match rateLimiterState with
      | None => mret tt
      | Some st =>
          rateLimiters_Set accountId queueId
            (RateLimiterState.mk
               (i64 (RateLimiterState.Tokens st - Z.of_nat (length ts)))
               (RateLimiterState.LastRefilledAt st))
      end ;;
      mret (Payload ts)
  end.

Definition reportStatus (taskId : TaskId.t) (now : Z) (status : Status) (attempt : Z)
    (keepaliveTimeoutInSeconds : Z) (dlqConfig : option DeadLetterQueueConfig.t)
    : T ReportResult :=
  task ← tasks_lookup taskId;
  match task with
  | None => mret RESULT_NOT_FOUND
  | Some task =>
      if bool_decide (Task.State task <> TASK_STATE_IN_PROGRESS)
      then mret RESULT_NOT_IN_PROGRESS
      else if negb (Task.Attempts task =? attempt) then mret RESULT_STALE_ATTEMPT
      else match status with
           | STATUS_IN_PROGRESS =>
               heartbeatTask task now keepaliveTimeoutInSeconds ;; mret RESULT_OK
           | STATUS_FAILED => handleTaskFailure task now dlqConfig ;; mret RESULT_OK
           | STATUS_SUCCEEDED => deleteTask task taskDeletionSucceeded ;; mret RESULT_OK
           | _ => mret RESULT_INVALID
           end
  end.

Definition ReportStatus (req : ReportStatusRequest.t) (now : Z)
    : T (Response (list ReportStatusResponseEntry.t)) :=
  entries ← for_map (ReportStatusRequest.Entries req) (fun e =>
    result ← reportStatus (ReportStatusRequestEntry.TaskId e) now
      (ReportStatusRequestEntry.Status e) (ReportStatusRequestEntry.Attempt e)
      (ReportStatusRequestEntry.KeepaliveTimeoutInSeconds e)
      (ReportStatusRequest.DeadLetterQueueConfig req);
    mret (ReportStatusResponseEntry.mk (ReportStatusRequestEntry.TaskId e) result));
  mret (Payload entries).

Definition DeleteTasks (req : DeleteTasksRequest.t) : T (Response unit) :=
  let accountId := QueueId.AccountId (DeleteTasksRequest.QueueId req) in
  let queueId := QueueId.QueueId (DeleteTasksRequest.QueueId req) in
  for_each (DeleteTasksRequest.TaskIds req) (fun taskId =>
    task ← tasks_lookup (TaskId.mk accountId queueId taskId);
    match task with
    | None => mret tt
    | Some task => deleteTask task taskDeletionNone
    end) ;;
  mret (Payload tt).

(** Returns the restarted task: the Go code mutates it in place. *)
Definition restartTask (task : Task.t) (now scheduledAt expiresAt : Z) : T Task.t :=
  deadTasksIndex_Delete (task_pk task)
    (deadTasksIndexItem (Task.LastFailedAt task) (task_n task)) ;;
  expiration_remove (Task.Id task) (Task.ExpiresAt task) ;;
  bump_counters task (TasksCounter.add_Dead (-1)) ;;
  let scheduledAt := if scheduledAt <? now then now else scheduledAt in
  let task := Task.set_State TASK_STATE_ENQUEUED task in
  let task := Task.set_Attempts 0 task in
  let task := Task.set_ScheduledAt scheduledAt task in
  let task := Task.set_ExpiresAt expiresAt task in
  let task := Task.set_VisibleAt 0 task in
  let task := Task.set_LastFailedAt 0 task in
  createTask task ;;
  mret task.

Definition restart_entry (accountId queueId now : Z) (e : RestartTasksRequestEntry.t)
    : T RestartTasksResponseEntry.t :=
  let n := RestartTasksRequestEntry.TaskId e in
  let reply r := mret (RestartTasksResponseEntry.mk n r None) in
  task ← tasks_lookup (TaskId.mk accountId queueId n);
  match task with
  | None => reply RESTART_NOT_FOUND
  | Some task =>
      if bool_decide (Task.State task <> TASK_STATE_DEAD) then reply RESTART_NOT_DEAD
      else if Task.ExpiresAt task <? now then reply RESTART_NOT_FOUND
      else
        conflictId ←
          (if bool_decide (Task.DedupeKey task <> [])
           then getTaskIdByDedupeKey accountId queueId (Task.DedupeKey task)
           else mret None);
        let conflict :=
          match conflictId with
          | Some c => negb (TaskId.TaskId c =? task_n task)
          | None => false
          end in
        if conflict : bool then reply RESTART_DEDUPE_CONFLICT
        else
          task ← restartTask task now (RestartTasksRequestEntry.ScheduledAt e)
                   (RestartTasksRequestEntry.ExpiresAt e);
          mret (RestartTasksResponseEntry.mk n RESTART_RESTARTED (Some task))
  end.

Definition RestartTasks (req : RestartTasksRequest.t) (now : Z)
    : T (Response (list RestartTasksResponseEntry.t)) :=
  let accountId := QueueId.AccountId (RestartTasksRequest.QueueId req) in
  let queueId := QueueId.QueueId (RestartTasksRequest.QueueId req) in
  entries ← for_map (RestartTasksRequest.Entries req) (restart_entry accountId queueId now);
  mret (Payload entries).

Definition PurgeQueue (queue : QueueId.t) : T (Response unit) :=
  purgeGCRecords_Create (PurgeQueueGarbageCollectionRecord.mk queue) ;;
  mret (Payload tt).

(** ** Garbage collection *)

(** Deletes the tasks of one page; [true] once the budget is spent. *)
Fixpoint purge_page (maxVisitedTasks : Z) (page : list Task.t) (visited : Z) : T (Z * bool) :=
  match page with
  | [] => mret (visited, false)
  | task :: page =>
      deleteTask task taskDeletionNone ;;
      if visited + 1 >=? maxVisitedTasks then mret (visited + 1, true)
      else purge_page maxVisitedTasks page (visited + 1)
  end.

(** The inner [for] loop over one record. *)
Fixpoint purge_record (fuel : nat) (tasksPageSize maxVisitedTasks : Z)
    (gcRecord : PurgeQueueGarbageCollectionRecord.t) (visited : Z) : T (Z * bool) :=
  match fuel with
  | O => fail ErrOutOfFuel
  | S fuel =>
      let queue := PurgeQueueGarbageCollectionRecord.QueueId gcRecord in
      let accountId := QueueId.AccountId queue in let queueId := QueueId.QueueId queue in
      result ← tasks_List accountId queueId TASK_STATE_INVALID None tasksPageSize;
      r ← purge_page maxVisitedTasks (ltr_Tasks result) visited;
      if r.2 : bool then mret r
      else match ltr_NextPaginationToken result with
           | Some _ => purge_record fuel tasksPageSize maxVisitedTasks gcRecord r.1
           | None =>
               purgeGCRecords_Delete gcRecord ;;
               counters_Delete accountId queueId ;;
               queueState_Delete accountId queueId ;;
               rateLimiters_Delete accountId queueId ;;
               mret r
           end
  end.

(** [recordsLoop] *)
Fixpoint purge_records (tasksPageSize maxVisitedTasks : Z)
    (gcRecords : list PurgeQueueGarbageCollectionRecord.t) (visited : Z) : T unit :=
  match gcRecords with
  | [] => mret tt
  | gcRecord :: gcRecords =>
      r ← purge_record (S (Z.to_nat maxVisitedTasks)) tasksPageSize maxVisitedTasks
            gcRecord visited;
      if r.2 : bool then mret tt
      else purge_records tasksPageSize maxVisitedTasks gcRecords r.1
  end.

(** [if n <= 0 { n = d }] *)
Definition or_default (n d : Z) : Z := if n <=? 0 then d else n.

Definition RunPurgeQueueGarbageCollection (req : RunPurgeQueueGarbageCollectionRequest.t)
    : T (Response unit) :=
  let gcRecordsPageSize := or_default
    (RunPurgeQueueGarbageCollectionRequest.GcRecordsPageSize req)
    defaultPurgeGCRecordsPageSize in
  let gcRecordTasksPageSize := or_default
    (RunPurgeQueueGarbageCollectionRequest.GcRecordTasksPageSize req)
    defaultPurgeGCRecordTasksPageSize in
  let maxVisitedTasks := or_default
    (RunPurgeQueueGarbageCollectionRequest.MaxVisitedTasks req)
    defaultPurgeGCMaxVisitedTasks in
  gcRecords ← purgeGCRecords_List gcRecordsPageSize;
  purge_records gcRecordTasksPageSize maxVisitedTasks gcRecords 0 ;;
  mret (Payload tt).

(** One due entry: a stale entry is dropped, a task is deleted. *)
Definition sweep (ref : expiredTaskRef) : T unit :=
  task ← tasks_lookup (ref_TaskId ref);
  match task with
  | None => expiration_remove (ref_TaskId ref) (ref_ExpiresAt ref)
  | Some task => deleteTask task taskDeletionExpired
  end.

Fixpoint gc_loop (fuel : nat) (now maxVisitedTasks pageSize visited : Z) : T unit :=
  if visited <? maxVisitedTasks then
    match fuel with
    | O => fail ErrOutOfFuel
    | S fuel =>
        let remaining := maxVisitedTasks - visited in
        let limit := if pageSize >? remaining then remaining else pageSize in
        expired ← expiration_ListDue now limit;
        match expired with
        | [] => mret tt
        | _ =>
            for_each expired sweep ;;
            if Z.of_nat (length expired) <? limit then mret tt
            else gc_loop fuel now maxVisitedTasks pageSize
                   (visited + Z.of_nat (length expired))
        end
    end
  else mret tt.

Definition RunTasksGarbageCollection (req : RunTasksGarbageCollectionRequest.t) (now : Z)
    : T (Response unit) :=
  let maxVisitedTasks := or_default
    (RunTasksGarbageCollectionRequest.MaxVisitedTasks req) defaultGCMaxVisitedTasks in
  let pageSize := or_default
    (RunTasksGarbageCollectionRequest.PageSize req) defaultGCPageSize in
  let pageSize := if pageSize >? maxVisitedTasks then maxVisitedTasks else pageSize in
  gc_loop (Z.to_nat maxVisitedTasks) now maxVisitedTasks pageSize 0 ;;
  mret (Payload tt).
End core.
