(* ===== verification/TasksKeys.v ===== *)
(** * Key layouts of the tasks core: injectivity, order, round trips

    What the comments of [tasks.go], [threads.go] and [expiration.go] promise
    about the byte layouts, proved from [UtilsOk]: distinct rows have distinct
    keys, a prefix scan of one queue or one thread never sees another's
    entries, index items sort by time and then by id, and the fields read back
    from an item are the ones it was built from. *)

From S2P Require Export TasksCore.

#[local] Ltac unfold_keys := cbn [fmap list_fmap arg_bytes concat].

Section keys_ok.
Context {U : Utils} {UO : UtilsOk U}.

(** ** Layouts *)

Lemma tablePK_eq a q : tablePK a q = be64 a ++ be64 q.
Proof. unfold tablePK. rewrite ConcatBytes_spec. unfold_keys. by rewrite app_nil_r. Qed.

Lemma queue_tablePK_eq a q : queue_tablePK a q = be64 a ++ be64 q.
Proof. unfold queue_tablePK. rewrite ConcatBytes_spec. unfold_keys. by rewrite app_nil_r. Qed.

Lemma task_key_eq i :
  task_key i = be64 (TaskId.AccountId i) ++ be64 (TaskId.QueueId i) ++ be64 (TaskId.TaskId i).
Proof.
  unfold task_key. rewrite ConcatBytes_spec. unfold_keys.
  rewrite tablePK_eq. unfold tableSK. rewrite ConcatBytes_spec. unfold_keys.
  by rewrite !app_nil_r, <-app_assoc.
Qed.

Lemma dedupeKeysIndexPK_eq a q d : dedupeKeysIndexPK a q d = be64 a ++ be64 q ++ d.
Proof. unfold dedupeKeysIndexPK. rewrite ConcatBytes_spec. unfold_keys. by rewrite app_nil_r. Qed.

Lemma queueIndexItem_eq t n : queueIndexItem t n = be64 t ++ be64 n.
Proof. unfold queueIndexItem. rewrite ConcatBytes_spec. unfold_keys. by rewrite app_nil_r. Qed.

Lemma inProgressIndexItem_eq t n : inProgressIndexItem t n = be64 t ++ be64 n.
Proof. apply queueIndexItem_eq. Qed.
Lemma deadTasksIndexItem_eq t n : deadTasksIndexItem t n = be64 t ++ be64 n.
Proof. apply queueIndexItem_eq. Qed.
Lemma threadedTasksIndexItem_eq t n : threadedTasksIndexItem t n = be64 t ++ be64 n.
Proof. apply queueIndexItem_eq. Qed.

Lemma itemPrefix_eq t : itemPrefix t = be64 t.
Proof. unfold itemPrefix. rewrite ConcatBytes_spec. unfold_keys. by rewrite app_nil_r. Qed.

Lemma threadIndexPK_eq a q th :
  threadIndexPK a q th = be64 a ++ be64 q ++ be32 (Z.of_nat (length th)) ++ th.
Proof. unfold threadIndexPK. rewrite ConcatBytes_spec. unfold_keys. by rewrite app_nil_r. Qed.

Lemma threads_tablePK_eq a q th :
  threads_tablePK a q th = threadIndexPK a q th.
Proof. done. Qed.

Lemma expiration_item_eq t i :
  expiration_item t i = be64 t ++ task_key i.
Proof.
  unfold expiration_item. rewrite ConcatBytes_spec, task_key_eq. unfold_keys.
  by rewrite app_nil_r.
Qed.

Lemma expiration_itemPrefix_eq t : expiration_itemPrefix t = be64 t.
Proof. unfold expiration_itemPrefix. rewrite ConcatBytes_spec. unfold_keys. by rewrite app_nil_r. Qed.

(** ** Injectivity *)

Lemma be64_app_inj a b x y : be64 a ++ x = be64 b ++ y -> be64 a = be64 b /\ x = y.
Proof. intros. apply app_eq_same_length; [by rewrite !length_be64|done]. Qed.

Lemma tablePK_inj a q a' q' :
  is_u64 a -> is_u64 q -> is_u64 a' -> is_u64 q' ->
  tablePK a q = tablePK a' q' -> a = a' /\ q = q'.
Proof.
  rewrite !tablePK_eq. intros Ha Hq Ha' Hq' [H1 H2]%be64_app_inj.
  eauto using be64_inj_u64.
Qed.

Lemma length_tablePK a q : length (tablePK a q) = 16%nat.
Proof. by rewrite tablePK_eq, length_app, !length_be64. Qed.

Definition wf_id (i : TaskId.t) : Prop :=
  is_u64 (TaskId.AccountId i) /\ is_u64 (TaskId.QueueId i) /\ is_u64 (TaskId.TaskId i).

Lemma task_key_inj i j : wf_id i -> wf_id j -> task_key i = task_key j -> i = j.
Proof.
  destruct i as [a q n], j as [a' q' n']. unfold wf_id. cbn.
  intros (?&?&?) (?&?&?). rewrite !task_key_eq. cbn [TaskId.AccountId TaskId.QueueId TaskId.TaskId].
  intros [? [? ?]%be64_app_inj]%be64_app_inj.
  f_equal; by apply be64_inj_u64.
Qed.

(** A task key under one queue's prefix is a task of that queue. *)
Lemma task_key_prefix a q i :
  is_u64 a -> is_u64 q -> wf_id i ->
  tablePK a q `prefix_of` task_key i <-> TaskId.AccountId i = a /\ TaskId.QueueId i = q.
Proof.
  intros Ha Hq (Hi1 & Hi2 & _). rewrite tablePK_eq, task_key_eq, app_assoc. split.
  - intros Hp. rewrite <-(app_nil_r (be64 a ++ be64 q)) in Hp.
    apply prefix_app_same_length in Hp as [Hp _]; [|by rewrite !length_app, !length_be64].
    apply be64_app_inj in Hp as [??]. split; symmetry; by apply be64_inj_u64.
  - intros [-> ->]. by apply prefix_app_r.
Qed.

Lemma dedupeKeysIndexPK_inj a q d a' q' d' :
  is_u64 a -> is_u64 q -> is_u64 a' -> is_u64 q' ->
  dedupeKeysIndexPK a q d = dedupeKeysIndexPK a' q' d' -> a = a' /\ q = q' /\ d = d'.
Proof.
  rewrite !dedupeKeysIndexPK_eq. intros Ha Hq Ha' Hq' [H1 [H2 H3]%be64_app_inj]%be64_app_inj.
  eauto using be64_inj_u64.
Qed.

(** Items of the four per-queue indexes. *)
Lemma index_item_inj t n t' n' :
  is_i64 t -> is_u64 n -> is_i64 t' -> is_u64 n' ->
  be64 t ++ be64 n = be64 t' ++ be64 n' -> t = t' /\ n = n'.
Proof. intros ???? [H1 H2]%be64_app_inj. eauto using be64_inj_u64, be64_inj_i64. Qed.

(** The length prefix makes thread keys prefix-free: no thread's key is a
    prefix of a key under another thread. *)
Lemma threadIndexPK_prefix_free a q th a' q' th' x :
  is_u64 a -> is_u64 q -> is_u64 a' -> is_u64 q' ->
  Z.of_nat (length th) < 2 ^ 32 -> Z.of_nat (length th') < 2 ^ 32 ->
  threadIndexPK a q th `prefix_of` threadIndexPK a' q' th' ++ x ->
  a = a' /\ q = q' /\ th = th'.
Proof.
  intros Ha Hq Ha' Hq' Hl Hl'. rewrite !threadIndexPK_eq, <-!app_assoc.
  intros [E1 Hp]%prefix_app_same_length; [|by rewrite !length_be64].
  apply prefix_app_same_length in Hp as [E2 Hp]; [|by rewrite !length_be64].
  apply prefix_app_same_length in Hp as [E3 Hp];
    [|unfold be32; by rewrite !length_be_bytes].
  apply be64_inj_u64 in E1, E2; [|done..].
  unfold be32 in E3. apply be_bytes_inj in E3.
  change (256 ^ Z.of_nat 4) with (2 ^ 32) in E3.
  rewrite !Z.mod_small in E3 by lia.
  rewrite <-(app_nil_r th) in Hp.
  apply prefix_app_same_length in Hp as [E4 _]; [done|lia].
Qed.

Lemma threadIndexPK_inj a q th a' q' th' :
  is_u64 a -> is_u64 q -> is_u64 a' -> is_u64 q' ->
  Z.of_nat (length th) < 2 ^ 32 -> Z.of_nat (length th') < 2 ^ 32 ->
  threadIndexPK a q th = threadIndexPK a' q' th' -> a = a' /\ q = q' /\ th = th'.
Proof.
  intros ?????? E. apply (threadIndexPK_prefix_free _ _ _ _ _ _ []); [done..|].
  by rewrite app_nil_r, E.
Qed.

(** ** Reading items back *)

Lemma extractTaskId_item t n : is_u64 n ->
  extractTaskIdFromIndexItem (be64 t ++ be64 n) = n.
Proof.
  intros Hn. unfold extractTaskIdFromIndexItem.
  rewrite length_app, !length_be64. change (8 + 8 - 8)%nat with 8%nat.
  rewrite drop_app_length' by (by rewrite length_be64).
  rewrite BytesToUint64_spec. by apply u64_id.
Qed.

Lemma extractTime_item t n : is_i64 t ->
  extractTimeFromIndexItem (be64 t ++ be64 n) = t.
Proof.
  intros Ht. unfold extractTimeFromIndexItem.
  rewrite length_app, !length_be64. change (8 + 8 - 16)%nat with 0%nat.
  rewrite drop_0, take_app_length' by (by rewrite length_be64).
  rewrite BytesToUint64_spec. by apply i64_u64.
Qed.

Lemma expiration_ref_item t i : is_i64 t -> wf_id i ->
  expiration_ref (expiration_item t i) = mkRef i t.
Proof.
  intros Ht (H1 & H2 & H3). destruct i as [a q n]. cbn in *.
  rewrite expiration_item_eq, task_key_eq.
  cbn [TaskId.AccountId TaskId.QueueId TaskId.TaskId]. unfold expiration_ref.
  rewrite (take_app_length' (be64 t)) by (by rewrite length_be64).
  rewrite (drop_app_length' (be64 t)) by (by rewrite length_be64).
  rewrite (take_app_length' (be64 a)) by (by rewrite length_be64).
  rewrite (app_assoc (be64 t)), (drop_app_length' (be64 t ++ be64 a))
    by (by rewrite length_app, !length_be64).
  rewrite (take_app_length' (be64 q)) by (by rewrite length_be64).
  rewrite (app_assoc _ (be64 q)), (drop_app_length' ((be64 t ++ be64 a) ++ be64 q))
    by (by rewrite !length_app, !length_be64).
  rewrite take_ge by (by rewrite length_be64).
  rewrite !BytesToUint64_spec, !u64_id, i64_u64 by done. done.
Qed.

(** ** Order *)

(** For non-negative times an index item precedes another exactly when it
    is earlier, or equally early with a smaller task id. *)
Lemma index_item_order t n t' n' :
  0 <= t < two63 -> 0 <= t' < two63 -> is_u64 n -> is_u64 n' ->
  blt (be64 t ++ be64 n) (be64 t' ++ be64 n') <-> t < t' \/ t = t' /\ n < n'.
Proof.
  intros Ht Ht' Hn Hn'. rewrite blt_app by (by rewrite !length_be64).
  rewrite blt_be64 by done. rewrite blt_be64_u by done. split.
  - intros [?|[E ?]]; [auto|]. right. split; [|done].
    apply be64_inj_i64; [..|done]; unfold is_i64; rewrite two63_val in *; lia.
  - intros [?|[-> ?]]; auto.
Qed.

Lemma index_item_in_range lo hi t n :
  0 <= lo < two63 -> 0 <= hi < two63 -> 0 <= t < two63 ->
  in_range (be64 lo) (be64 hi) (be64 t ++ be64 n) <-> lo <= t <= hi.
Proof. intros. by apply item_in_range. Qed.
End keys_ok.
