(* ===== verification/TasksView.v ===== *)
(** * The abstract view of a tasks core

    [View] is the content of the twelve containers of a tasks core as finite
    maps and sets, [view] reads it off any transaction over a store that
    meets [HoneyOk], and [wpv] is total correctness at the level of views:
    [wpv m v Q] says that from every transaction with view [v] the
    computation [m] finishes, with a result and a view in [Q].  One rule per
    table method; the correctness proofs of the core use nothing else about
    the store. *)

From S2P Require Export TasksKeys.

Record View := mkView {
  v_table : gmap bytes Task.t;
  v_dedupe : gmap bytes Z;
  v_queue : gset bytes;
  v_inp : gset bytes;
  v_dead : gset bytes;
  v_exp : gset bytes;
  v_thr : gmap bytes Thread.t;
  v_tidx : gset bytes;
  v_cnt : gmap bytes TasksCounter.t;
  v_qst : gmap bytes QueueState.t;
  v_rl : gmap bytes RateLimiterState.t;
  v_purge : gmap bytes PurgeQueueGarbageCollectionRecord.t;
}.

Definition set_table x v := mkView x (v_dedupe v) (v_queue v) (v_inp v) (v_dead v) (v_exp v)
  (v_thr v) (v_tidx v) (v_cnt v) (v_qst v) (v_rl v) (v_purge v).
Definition set_dedupe x v := mkView (v_table v) x (v_queue v) (v_inp v) (v_dead v) (v_exp v)
  (v_thr v) (v_tidx v) (v_cnt v) (v_qst v) (v_rl v) (v_purge v).
Definition set_queue x v := mkView (v_table v) (v_dedupe v) x (v_inp v) (v_dead v) (v_exp v)
  (v_thr v) (v_tidx v) (v_cnt v) (v_qst v) (v_rl v) (v_purge v).
Definition set_inp x v := mkView (v_table v) (v_dedupe v) (v_queue v) x (v_dead v) (v_exp v)
  (v_thr v) (v_tidx v) (v_cnt v) (v_qst v) (v_rl v) (v_purge v).
Definition set_dead x v := mkView (v_table v) (v_dedupe v) (v_queue v) (v_inp v) x (v_exp v)
  (v_thr v) (v_tidx v) (v_cnt v) (v_qst v) (v_rl v) (v_purge v).
Definition set_exp x v := mkView (v_table v) (v_dedupe v) (v_queue v) (v_inp v) (v_dead v) x
  (v_thr v) (v_tidx v) (v_cnt v) (v_qst v) (v_rl v) (v_purge v).
Definition set_thr x v := mkView (v_table v) (v_dedupe v) (v_queue v) (v_inp v) (v_dead v) (v_exp v)
  x (v_tidx v) (v_cnt v) (v_qst v) (v_rl v) (v_purge v).
Definition set_tidx x v := mkView (v_table v) (v_dedupe v) (v_queue v) (v_inp v) (v_dead v) (v_exp v)
  (v_thr v) x (v_cnt v) (v_qst v) (v_rl v) (v_purge v).
Definition set_cnt x v := mkView (v_table v) (v_dedupe v) (v_queue v) (v_inp v) (v_dead v) (v_exp v)
  (v_thr v) (v_tidx v) x (v_qst v) (v_rl v) (v_purge v).
Definition set_qst x v := mkView (v_table v) (v_dedupe v) (v_queue v) (v_inp v) (v_dead v) (v_exp v)
  (v_thr v) (v_tidx v) (v_cnt v) x (v_rl v) (v_purge v).
Definition set_rl x v := mkView (v_table v) (v_dedupe v) (v_queue v) (v_inp v) (v_dead v) (v_exp v)
  (v_thr v) (v_tidx v) (v_cnt v) (v_qst v) x (v_purge v).
Definition set_purge x v := mkView (v_table v) (v_dedupe v) (v_queue v) (v_inp v) (v_dead v) (v_exp v)
  (v_thr v) (v_tidx v) (v_cnt v) (v_qst v) (v_rl v) x.

Section view.
Context {U : Utils} {UO : UtilsOk U} {H : Honey} {HO : HoneyOk H}.

Definition view (s : Txn) : View := mkView
  (bt_den (table (tasks s))) (bt_den (V := Z) (dedupeKeysIndex (tasks s)))
  (omi_den (queueIndex (tasks s))) (omi_den (inProgressIndex (tasks s)))
  (omi_den (deadTasksIndex (tasks s))) (si_den (expiration (tasks s)))
  (bt_den (threads_table (threads s))) (omi_den (threadedTasksIndex (threads s)))
  (bt_den (counters s)) (bt_den (queueState s)) (bt_den (rateLimiters s))
  (bt_den (purgeGCRecords s)).

Definition empty_view : View := mkView ∅ ∅ ∅ ∅ ∅ ∅ ∅ ∅ ∅ ∅ ∅ ∅.

Lemma view_NewCore : view NewCore = empty_view.
Proof. unfold view, Uint64Table. cbn. by rewrite !bt_den_new, !omi_den_new, !si_den_new. Qed.

Definition wpv {A} (m : M Txn A) (v : View) (Q : A -> View -> Prop) : Prop :=
  forall s, view s = v -> wp m s (fun a s' => Q a (view s')).

(** ** Structural rules *)

Lemma wpv_ret {A} (a : A) v (Q : A -> View -> Prop) : Q a v -> wpv (mret a) v Q.
Proof. by intros HQ s <-. Qed.

Lemma wpv_bind {A B} (m : M Txn A) (f : A -> M Txn B) v Q :
  wpv m v (fun a v' => wpv (f a) v' Q) -> wpv (m ≫= f) v Q.
Proof.
  intros Hm s Hs. apply wp_bind. eapply wp_mono; [by apply Hm|].
  intros a s' Ha. by apply Ha.
Qed.

Lemma wpv_mono {A} (m : M Txn A) v (Q Q' : A -> View -> Prop) :
  wpv m v Q -> (forall a v', Q a v' -> Q' a v') -> wpv m v Q'.
Proof. intros Hm HQ s Hs. eapply wp_mono; [by apply Hm|]. auto. Qed.

Lemma wpv_ext {A} (m m' : M Txn A) v Q :
  (forall s, m s = m' s) -> wpv m' v Q -> wpv m v Q.
Proof. intros E Hm s Hs. unfold wp. rewrite E. by apply Hm. Qed.

Lemma wpv_when (b : bool) (m : M Txn unit) v (Q : unit -> View -> Prop) :
  (b = true -> wpv m v Q) -> (b = false -> Q tt v) -> wpv (when b m) v Q.
Proof. unfold when. destruct b; intros; [auto|by apply wpv_ret; auto]. Qed.

Lemma wpv_deref {A} (p : option A) a v (Q : A -> View -> Prop) :
  p = Some a -> Q a v -> wpv (deref p) v Q.
Proof. intros -> HQ. by apply wpv_ret. Qed.

Lemma wpv_orNotFound {A} (o : option A) a v (Q : A -> View -> Prop) :
  o = Some a -> Q a v -> wpv (orNotFound o) v Q.
Proof. intros -> HQ. by apply wpv_ret. Qed.

Lemma wpv_for_each {A} (f : A -> M Txn unit) (I : list A -> View -> Prop) l v Q :
  I l v ->
  (forall x l' v, I (x :: l') v -> wpv (f x) v (fun _ v' => I l' v')) ->
  (forall v, I [] v -> Q tt v) ->
  wpv (for_each l f) v Q.
Proof.
  intros HI Hstep HQ s <-.
  apply (wp_for_each f (fun l s => I l (view s))); [done| |auto].
  intros x l' s' HI'. exact (Hstep x l' _ HI' s' eq_refl).
Qed.

Lemma wpv_for_map {A B} (f : A -> M Txn B)
    (I : list A -> list B -> View -> Prop) l v (Q : list B -> View -> Prop) :
  I l [] v ->
  (forall x l' ys v, I (x :: l') ys v -> wpv (f x) v (fun y v' => I l' (ys ++ [y]) v')) ->
  (forall ys v, I [] ys v -> Q ys v) ->
  wpv (for_map l f) v Q.
Proof.
  intros HI Hstep HQ s <-.
  apply (wp_for_map f (fun l ys s => I l ys (view s))); [done| |auto].
  intros x l' ys s' HI'. exact (Hstep x l' ys _ HI' s' eq_refl).
Qed.

(** ** Reads *)

Lemma wpv_tasks_lookup i v Q :
  Q (v_table v !! task_key i) v -> wpv (tasks_lookup i) v Q.
Proof. intros HQ s <-. apply wp_gets. by rewrite bt_Get_spec. Qed.

Lemma wpv_tasks_Get i t v (Q : Task.t -> View -> Prop) :
  v_table v !! task_key i = Some t -> Q t v -> wpv (tasks_Get i) v Q.
Proof. intros Ht HQ. apply wpv_bind, wpv_tasks_lookup. by eapply wpv_orNotFound. Qed.

Lemma wpv_dedupeKeysIndex_Get k v Q :
  Q (v_dedupe v !! k) v -> wpv (dedupeKeysIndex_Get k) v Q.
Proof. intros HQ s <-. apply wp_gets. by rewrite bt_Get_spec. Qed.

Lemma wpv_threads_lookup a q th v Q :
  Q (v_thr v !! threadIndexPK a q th) v -> wpv (threads_lookup a q th) v Q.
Proof. intros HQ s <-. apply wp_gets. by rewrite bt_Get_spec. Qed.

Lemma wpv_threads_Get a q th r v (Q : Thread.t -> View -> Prop) :
  v_thr v !! threadIndexPK a q th = Some r -> Q r v -> wpv (threads_Get a q th) v Q.
Proof. intros Ht HQ. apply wpv_bind, wpv_threads_lookup. by eapply wpv_orNotFound. Qed.

Lemma wpv_threads_ListIndex a q th v (Q : list Z -> View -> Prop) :
  (forall items, StronglySorted blt items ->
     (forall x, x ∈ items <-> threadIndexPK a q th ++ x ∈ v_tidx v) ->
     Q (extractTaskIdFromIndexItem <$> items) v) ->
  wpv (threads_ListIndex a q th) v Q.
Proof.
  intros HQ s <-. apply wp_gets, HQ; [apply omi_ListAll_sorted|].
  intros x. apply omi_ListAll_spec.
Qed.

Lemma wpv_counters_Get a q v (Q : TasksCounter.t -> View -> Prop) :
  Q (default TasksCounter.zero (v_cnt v !! queue_tablePK a q)) v ->
  wpv (counters_Get a q) v Q.
Proof. intros HQ s <-. apply wp_gets. by rewrite bt_Get_spec. Qed.

Lemma wpv_queueState_Get a q v (Q : QueueState.t -> View -> Prop) :
  Q (default QueueState.zero (v_qst v !! queue_tablePK a q)) v ->
  wpv (queueState_Get a q) v Q.
Proof. intros HQ s <-. apply wp_gets. by rewrite bt_Get_spec. Qed.

Lemma wpv_rateLimiters_GetOrDefault a q r now v (Q : RateLimiterState.t -> View -> Prop) :
  Q (default (RateLimiterState.mk (TokenBucketRateLimiting.MaxTokens r) now)
       (v_rl v !! queue_tablePK a q)) v ->
  wpv (rateLimiters_GetOrDefault a q r now) v Q.
Proof. intros HQ s <-. apply wp_gets. by rewrite bt_Get_spec. Qed.

Lemma wpv_purgeGCRecords_Exists a q v (Q : bool -> View -> Prop) :
  Q (bool_decide (is_Some (v_purge v !! queue_tablePK a q))) v ->
  wpv (purgeGCRecords_Exists a q) v Q.
Proof.
  intros HQ s <-. apply wp_gets.
  erewrite bool_decide_ext; [exact HQ|]. by rewrite bt_Get_spec.
Qed.

(** A scan of a queue's index, possibly restricted to a range or cut off:
    any list that depends only on the sorted content. *)
Lemma wpv_omi_ListAll (ix : Txn -> OneToManySortedIndex) (vix : View -> gset bytes)
    {A} (g : list bytes -> A) pk v (Q : A -> View -> Prop) :
  (forall s, omi_den (ix s) = vix (view s)) ->
  (forall items, StronglySorted blt items ->
     (forall x, x ∈ items <-> pk ++ x ∈ vix v) -> Q (g items) v) ->
  wpv (gets (fun s => g (omi_ListAll (ix s) pk))) v Q.
Proof.
  intros Hix HQ s <-. apply wp_gets, HQ; [apply omi_ListAll_sorted|].
  intros x. rewrite <-Hix. apply omi_ListAll_spec.
Qed.

Lemma wpv_omi_ListInRange (ix : Txn -> OneToManySortedIndex) (vix : View -> gset bytes)
    {A} (g : list bytes -> A) pk lo hi v (Q : A -> View -> Prop) :
  (forall s, omi_den (ix s) = vix (view s)) ->
  (forall items, StronglySorted blt items ->
     (forall x, x ∈ items <-> pk ++ x ∈ vix v /\ in_range lo hi x) -> Q (g items) v) ->
  wpv (gets (fun s => g (omi_ListInRange (ix s) pk lo hi))) v Q.
Proof.
  intros Hix HQ s <-. apply wp_gets. rewrite omi_ListInRange_spec. apply HQ.
  - apply StronglySorted_filter, omi_ListAll_sorted.
  - intros x. rewrite list_elem_of_filter, omi_ListAll_spec, Hix. tauto.
Qed.

(** ** Writes *)

Ltac view_write := intros HQ s <-; apply wp_modify; unfold view; cbn;
  rewrite ?bt_Set_spec, ?bt_Delete_spec, ?omi_Add_spec, ?omi_Delete_spec,
    ?si_Add_spec, ?si_Delete_spec; exact HQ.

Lemma wpv_tasks_set t v Q :
  Q tt (set_table (<[task_key (Task.Id t) := t]> (v_table v)) v) -> wpv (tasks_set t) v Q.
Proof. view_write. Qed.
Lemma wpv_tasks_delete i v Q :
  Q tt (set_table (delete (task_key i) (v_table v)) v) -> wpv (tasks_delete i) v Q.
Proof. view_write. Qed.
Lemma wpv_dedupeKeysIndex_Set k n v Q :
  Q tt (set_dedupe (<[k := n]> (v_dedupe v)) v) -> wpv (dedupeKeysIndex_Set k n) v Q.
Proof. view_write. Qed.
Lemma wpv_dedupeKeysIndex_Delete k v Q :
  Q tt (set_dedupe (delete k (v_dedupe v)) v) -> wpv (dedupeKeysIndex_Delete k) v Q.
Proof. view_write. Qed.
Lemma wpv_queueIndex_Add pk x v Q :
  Q tt (set_queue ({[pk ++ x]} ∪ v_queue v) v) -> wpv (queueIndex_Add pk x) v Q.
Proof. view_write. Qed.
Lemma wpv_queueIndex_Delete pk x v Q :
  Q tt (set_queue (v_queue v ∖ {[pk ++ x]}) v) -> wpv (queueIndex_Delete pk x) v Q.
Proof. view_write. Qed.
Lemma wpv_inProgressIndex_Add pk x v Q :
  Q tt (set_inp ({[pk ++ x]} ∪ v_inp v) v) -> wpv (inProgressIndex_Add pk x) v Q.
Proof. view_write. Qed.
Lemma wpv_inProgressIndex_Delete pk x v Q :
  Q tt (set_inp (v_inp v ∖ {[pk ++ x]}) v) -> wpv (inProgressIndex_Delete pk x) v Q.
Proof. view_write. Qed.
Lemma wpv_deadTasksIndex_Add pk x v Q :
  Q tt (set_dead ({[pk ++ x]} ∪ v_dead v) v) -> wpv (deadTasksIndex_Add pk x) v Q.
Proof. view_write. Qed.
Lemma wpv_deadTasksIndex_Delete pk x v Q :
  Q tt (set_dead (v_dead v ∖ {[pk ++ x]}) v) -> wpv (deadTasksIndex_Delete pk x) v Q.
Proof. view_write. Qed.
Lemma wpv_expiration_add i e v Q :
  Q tt (set_exp ({[expiration_item e i]} ∪ v_exp v) v) -> wpv (expiration_add i e) v Q.
Proof. view_write. Qed.
Lemma wpv_expiration_remove i e v Q :
  Q tt (set_exp (v_exp v ∖ {[expiration_item e i]}) v) -> wpv (expiration_remove i e) v Q.
Proof. view_write. Qed.
Lemma wpv_threads_set a q r v Q :
  Q tt (set_thr (<[threadIndexPK a q (Thread.ThreadId r) := r]> (v_thr v)) v) ->
  wpv (threads_set a q r) v Q.
Proof. view_write. Qed.
Lemma wpv_threads_Delete a q th v Q :
  Q tt (set_thr (delete (threadIndexPK a q th) (v_thr v)) v) -> wpv (threads_Delete a q th) v Q.
Proof. view_write. Qed.
Lemma wpv_threads_AddToIndex a q th t n v Q :
  Q tt (set_tidx ({[threadIndexPK a q th ++ threadedTasksIndexItem t n]} ∪ v_tidx v) v) ->
  wpv (threads_AddToIndex a q th t n) v Q.
Proof. view_write. Qed.
Lemma wpv_threads_RemoveFromIndex a q th t n v Q :
  Q tt (set_tidx (v_tidx v ∖ {[threadIndexPK a q th ++ threadedTasksIndexItem t n]}) v) ->
  wpv (threads_RemoveFromIndex a q th t n) v Q.
Proof. view_write. Qed.
Lemma wpv_counters_Set a q c v Q :
  Q tt (set_cnt (<[queue_tablePK a q := c]> (v_cnt v)) v) -> wpv (counters_Set a q c) v Q.
Proof. view_write. Qed.
Lemma wpv_counters_Delete a q v Q :
  Q tt (set_cnt (delete (queue_tablePK a q) (v_cnt v)) v) -> wpv (counters_Delete a q) v Q.
Proof. view_write. Qed.
Lemma wpv_queueState_Set a q c v Q :
  Q tt (set_qst (<[queue_tablePK a q := c]> (v_qst v)) v) -> wpv (queueState_Set a q c) v Q.
Proof. view_write. Qed.
Lemma wpv_queueState_Delete a q v Q :
  Q tt (set_qst (delete (queue_tablePK a q) (v_qst v)) v) -> wpv (queueState_Delete a q) v Q.
Proof. view_write. Qed.
Lemma wpv_rateLimiters_Set a q c v Q :
  Q tt (set_rl (<[queue_tablePK a q := c]> (v_rl v)) v) -> wpv (rateLimiters_Set a q c) v Q.
Proof. view_write. Qed.
Lemma wpv_rateLimiters_Delete a q v Q :
  Q tt (set_rl (delete (queue_tablePK a q) (v_rl v)) v) -> wpv (rateLimiters_Delete a q) v Q.
Proof. view_write. Qed.
Lemma wpv_purgeGCRecords_Create r v Q :
  let q := PurgeQueueGarbageCollectionRecord.QueueId r in
  Q tt (set_purge (<[queue_tablePK (QueueId.AccountId q) (QueueId.QueueId q) := r]>
                     (v_purge v)) v) ->
  wpv (purgeGCRecords_Create r) v Q.
Proof. intros q. view_write. Qed.
Lemma wpv_purgeGCRecords_Delete r v Q :
  let q := PurgeQueueGarbageCollectionRecord.QueueId r in
  Q tt (set_purge (delete (queue_tablePK (QueueId.AccountId q) (QueueId.QueueId q))
                     (v_purge v)) v) ->
  wpv (purgeGCRecords_Delete r) v Q.
Proof. intros q. view_write. Qed.

Lemma wpv_bump_counters t f v Q :
  let k := queue_tablePK (TaskId.AccountId (Task.Id t)) (TaskId.QueueId (Task.Id t)) in
  Q tt (set_cnt (<[k := f (default TasksCounter.zero (v_cnt v !! k))]> (v_cnt v)) v) ->
  wpv (bump_counters t f) v Q.
Proof.
  intros k HQ. apply wpv_bind, wpv_counters_Get, wpv_counters_Set. exact HQ.
Qed.
End view.

(** [vstep] runs the next table operation of a computation. *)
Ltac vstep :=
  first
    [ apply wpv_bind
    | apply wpv_ret
    | apply wpv_tasks_lookup
    | apply wpv_dedupeKeysIndex_Get
    | apply wpv_threads_lookup
    | apply wpv_counters_Get
    | apply wpv_queueState_Get
    | apply wpv_rateLimiters_GetOrDefault
    | apply wpv_purgeGCRecords_Exists
    | apply wpv_tasks_set | apply wpv_tasks_delete
    | apply wpv_dedupeKeysIndex_Set | apply wpv_dedupeKeysIndex_Delete
    | apply wpv_queueIndex_Add | apply wpv_queueIndex_Delete
    | apply wpv_inProgressIndex_Add | apply wpv_inProgressIndex_Delete
    | apply wpv_deadTasksIndex_Add | apply wpv_deadTasksIndex_Delete
    | apply wpv_expiration_add | apply wpv_expiration_remove
    | apply wpv_threads_set | apply wpv_threads_Delete
    | apply wpv_threads_AddToIndex | apply wpv_threads_RemoveFromIndex
    | apply wpv_counters_Set | apply wpv_counters_Delete
    | apply wpv_queueState_Set | apply wpv_queueState_Delete
    | apply wpv_rateLimiters_Set | apply wpv_rateLimiters_Delete
    | apply wpv_purgeGCRecords_Create | apply wpv_purgeGCRecords_Delete
    | apply wpv_bump_counters ].
Ltac vsteps := repeat (vstep; cbv beta).
