(* ===== verification/TasksInv.v ===== *)
(** * The invariant of the tasks core

    Every secondary structure of a tasks core is a function of its task rows:
    each index is the image of the rows in the states it covers, the gauges of
    the counters count rows, and each thread row names the head of its thread.
    [Inv] says so.  This file has the definition and the lemmas that carry
    each part across the insertion, replacement or removal of one row. *)

From S2P Require Export TasksView.

Section inv.
Context {U : Utils} {UO : UtilsOk U}.
Implicit Types (t u : Task.t) (mem : Task.t -> Prop).

(** ** Rows *)

(** The number of retries a task's strategy allows. *)
Definition retries t : Z :=
  match Task.RetryStrategy t with
  | None => 0
  | Some rs => Z.of_nat (length (RetryStrategy.RetryIntervalsInSeconds rs))
  end.

(** Field values a row can hold: Go's widths, the three states the core
    writes, thread ids whose length fits the [uint32] prefix, and an attempt
    counter within the retry budget. *)
Record wf_task t : Prop := {
  wf_Id : wf_id (Task.Id t);
  wf_ScheduledAt : is_i64 (Task.ScheduledAt t);
  wf_ExpiresAt : is_i64 (Task.ExpiresAt t);
  wf_VisibleAt : is_i64 (Task.VisibleAt t);
  wf_LastFailedAt : is_i64 (Task.LastFailedAt t);
  wf_ThreadId : Z.of_nat (length (Task.ThreadId t)) < 2 ^ 32;
  wf_State : Task.State t = TASK_STATE_ENQUEUED \/ Task.State t = TASK_STATE_IN_PROGRESS \/
             Task.State t = TASK_STATE_DEAD;
  wf_Retries : retries t < 2 ^ 31 - 1;
  wf_Attempts : 0 <= Task.Attempts t <= retries t + 1 /\
    (Task.State t = TASK_STATE_ENQUEUED -> Task.Attempts t <= retries t) /\
    (Task.State t = TASK_STATE_IN_PROGRESS -> 1 <= Task.Attempts t);
}.

(** The rows of a table. *)
Definition has (m : gmap bytes Task.t) t : Prop := m !! task_key (Task.Id t) = Some t.

Definition wf_table (m : gmap bytes Task.t) : Prop :=
  forall k t, m !! k = Some t -> k = task_key (Task.Id t) /\ wf_task t.

(** A set of rows in which an id names at most one row. *)
Record rows mem : Prop := {
  rows_wf t : mem t -> wf_task t;
  rows_fun t u : mem t -> mem u -> Task.Id t = Task.Id u -> t = u;
}.

Lemma rows_has m : wf_table m -> rows (has m).
Proof.
  intros Hm. split.
  - intros t Ht. by apply Hm in Ht as [_ ?].
  - intros t u Ht Hu E. unfold has in *. rewrite E in Ht. congruence.
Qed.

(** The rows after the row of [i] became [new]. *)
Definition mem_upd mem (i : TaskId.t) (new : option Task.t) t : Prop :=
  new = Some t \/ mem t /\ Task.Id t <> i.

Lemma has_insert m t u :
  wf_table m -> wf_task t ->
  has (<[task_key (Task.Id t) := t]> m) u <-> mem_upd (has m) (Task.Id t) (Some t) u.
Proof.
  intros Hm Ht. unfold has, mem_upd. split.
  - destruct (decide (task_key (Task.Id t) = task_key (Task.Id u))) as [E|E].
    + rewrite E, lookup_insert_eq. intros [= ->]. by left.
    + rewrite lookup_insert_ne by done. intros Hu. right. split; [done|]. congruence.
  - intros [[= ->]|[Hu E]]; [by rewrite lookup_insert_eq|].
    rewrite lookup_insert_ne; [done|]. intros E'. apply E. symmetry.
    apply task_key_inj; [apply Ht|by apply Hm in Hu as [_ [? _]]|done].
Qed.

Lemma has_delete m t u :
  wf_table m -> wf_task t ->
  has (delete (task_key (Task.Id t)) m) u <-> mem_upd (has m) (Task.Id t) None u.
Proof.
  intros Hm Ht. unfold has, mem_upd. split.
  - destruct (decide (task_key (Task.Id t) = task_key (Task.Id u))) as [E|E].
    + by rewrite E, lookup_delete_eq.
    + rewrite lookup_delete_ne by done. intros Hu. right. split; [done|]. congruence.
  - intros [[=]|[Hu E]].
    rewrite lookup_delete_ne; [done|]. intros E'. apply E. symmetry.
    apply task_key_inj; [apply Ht|by apply Hm in Hu as [_ [? _]]|done].
Qed.

Lemma wf_table_insert m t :
  wf_table m -> wf_task t -> wf_table (<[task_key (Task.Id t) := t]> m).
Proof.
  intros Hm Ht k u. rewrite lookup_insert_Some.
  intros [[<- <-]|[_ Hu]]; [done|]. by apply Hm.
Qed.

Lemma wf_table_delete m k : wf_table m -> wf_table (delete k m).
Proof. intros Hm k' u [_ Hu]%lookup_delete_Some. by apply Hm. Qed.

Lemma rows_upd mem i new :
  rows mem -> (forall t, new = Some t -> wf_task t /\ Task.Id t = i) ->
  rows (mem_upd mem i new).
Proof.
  intros [Hwf Hfun] Hnew. split.
  - intros t [Ht|[Ht _]]; [by apply Hnew|auto].
  - intros t u [Ht|[Ht Hti]] [Hu|[Hu Hui]] E.
    + congruence.
    + apply Hnew in Ht as [_ <-]. congruence.
    + apply Hnew in Hu as [_ <-]. congruence.
    + auto.
Qed.

(** ** Indexes as images of the rows *)

Definition image mem (P : Task.t -> Prop) (key : Task.t -> bytes) (S : gset bytes) : Prop :=
  forall k, k ∈ S <-> exists t, mem t /\ P t /\ k = key t.

Definition key_inj (key : Task.t -> bytes) : Prop :=
  forall t u, wf_task t -> wf_task u -> key t = key u -> Task.Id t = Task.Id u.

Definition okey (P : Task.t -> Prop) (key : Task.t -> bytes) (o : option Task.t) (k : bytes) : Prop :=
  match o with Some t => P t /\ k = key t | None => False end.

Lemma image_ext mem mem' P P' key S :
  (forall t, mem t /\ P t <-> mem' t /\ P' t) -> image mem P key S -> image mem' P' key S.
Proof.
  intros E Hi k. rewrite (Hi k). split; intros (t & Ht & HP & ->); exists t;
    destruct (E t); tauto.
Qed.

(** The entry of the row of [i] is dropped, the entry of the new row added. *)
Lemma image_upd_del mem P key S S' t0 new :
  key_inj key -> rows mem -> wf_task t0 ->
  (forall t, new = Some t -> wf_task t /\ Task.Id t = Task.Id t0) ->
  (forall t, mem t -> P t -> Task.Id t = Task.Id t0 -> key t = key t0) ->
  image mem P key S ->
  (forall k, k ∈ S' <-> (k ∈ S /\ k <> key t0) \/ okey P key new k) ->
  image (mem_upd mem (Task.Id t0) new) P key S'.
Proof.
  intros Hinj [Hwf Hfun] Ht0 Hnew Hold Hi HS k. rewrite HS, (Hi k). unfold mem_upd, okey. split.
  - intros [[(t & Ht & HP & ->) Hne]|Hk].
    + exists t. split; [right|done]. split; [done|]. intros E. by apply Hne, Hold.
    + destruct new as [t|]; [|done]. exists t. split; [by left|]. tauto.
  - intros (t & [Ht|[Ht Hid]] & HP & ->).
    + rewrite Ht. by right.
    + left. split; [by exists t|]. intros E. by apply Hid, Hinj; auto.
Qed.

(** The row of [i] had no entry; the entry of the new row is added. *)
Lemma image_upd_add mem P key S S' i new :
  (forall t, mem t -> Task.Id t = i -> ~ P t) ->
  image mem P key S ->
  (forall k, k ∈ S' <-> k ∈ S \/ okey P key new k) ->
  image (mem_upd mem i new) P key S'.
Proof.
  intros Hold Hi HS k. rewrite HS, (Hi k). unfold mem_upd, okey. split.
  - intros [(t & Ht & HP & ->)|Hk].
    + exists t. split; [right|done]. split; [done|]. intros E. by eapply Hold.
    + destruct new as [t|]; [|done]. exists t. split; [by left|]. tauto.
  - intros (t & [Ht|[Ht Hid]] & HP & ->); [|left; by exists t]. rewrite Ht. by right.
Qed.

(** The row changed, its entry did not. *)
Lemma image_upd_same mem P key S t0 t1 :
  rows mem -> mem t0 -> (P t0 <-> P t1) -> key t0 = key t1 ->
  image mem P key S -> image (mem_upd mem (Task.Id t0) (Some t1)) P key S.
Proof.
  intros [Hwf Hfun] Ht0 HP E Hi k. rewrite (Hi k). unfold mem_upd. split.
  - intros (t & Ht & HPt & ->). destruct (decide (Task.Id t = Task.Id t0)) as [Ei|Ei].
    + assert (t = t0) as -> by auto. exists t1. rewrite <-HP. auto.
    + exists t. auto.
  - intros (t & [[= <-]|[Ht Hid]] & HPt & ->); [exists t0|exists t]; rewrite ?HP; auto.
Qed.

(** The row [t0] is removed. *)
Lemma image_removed mem P key S S' t0 :
  key_inj key -> rows mem -> mem t0 -> image mem P key S ->
  (forall k, k ∈ S' <-> k ∈ S /\ (P t0 -> k <> key t0)) ->
  image (mem_upd mem (Task.Id t0) None) P key S'.
Proof.
  intros Hinj [Hwf Hfun] Ht0 Hi HS k. rewrite HS, (Hi k). unfold mem_upd. split.
  - intros [(t & Ht & HP & ->) Hne]. exists t. split; [right|done]. split; [done|].
    intros E. assert (t = t0) as -> by auto. by apply Hne.
  - intros (t & [[=]|[Ht Hid]] & HP & ->). split; [by exists t|]. intros _ E.
    by apply Hid, Hinj; auto.
Qed.

(** The row [t0] is replaced by [t1]. *)
Lemma image_replaced mem P key S S' t0 t1 :
  key_inj key -> rows mem -> mem t0 -> Task.Id t1 = Task.Id t0 -> wf_task t1 ->
  image mem P key S ->
  (forall k, k ∈ S' <-> (k ∈ S /\ (P t0 -> k <> key t0)) \/ P t1 /\ k = key t1) ->
  image (mem_upd mem (Task.Id t0) (Some t1)) P key S'.
Proof.
  intros Hinj Hrows Ht0 E Hwt1 Hi HS k. rewrite HS.
  assert (Hr : k ∈ S /\ (P t0 -> k <> key t0) <->
               exists t, mem_upd mem (Task.Id t0) None t /\ P t /\ k = key t).
  { destruct Hrows as [Hwf Hfun]. rewrite (Hi k). unfold mem_upd. split.
    - intros [(t & Ht & HP & ->) Hne]. exists t. split; [right|done]. split; [done|].
      intros Eq. assert (t = t0) as -> by auto. by apply Hne.
    - intros (t & [[=]|[Ht Hid]] & HP & ->). split; [by exists t|]. intros _ Eq.
      by apply Hid, Hinj; auto. }
  rewrite Hr. unfold mem_upd. split.
  - intros [(t & [[=]|Ht] & HP & ->)|[HP ->]]; [by exists t; auto|by exists t1; auto].
  - intros (t & [[= <-]|Ht] & HP & ->); [by right|left; exists t; auto].
Qed.

(** *** The keys *)

Definition enqueued t : Prop := Task.State t = TASK_STATE_ENQUEUED.
Definition in_progress t : Prop := Task.State t = TASK_STATE_IN_PROGRESS.
Definition dead t : Prop := Task.State t = TASK_STATE_DEAD.

Definition qkey t : bytes := task_pk t ++ queueIndexItem (Task.ScheduledAt t) (task_n t).
Definition inp_key t : bytes := task_pk t ++ inProgressIndexItem (Task.VisibleAt t) (task_n t).
Definition dead_key t : bytes := task_pk t ++ deadTasksIndexItem (Task.LastFailedAt t) (task_n t).
Definition exp_key t : bytes := expiration_item (Task.ExpiresAt t) (Task.Id t).

(** Tasks with a delivery or retention deadline: all but the in-progress. *)
Definition has_deadline t : Prop := Task.State t <> TASK_STATE_IN_PROGRESS.

(** Tasks attached to a thread. *)
Definition threaded t : Prop := Task.ThreadId t <> [].
Definition member t : Prop := threaded t /\ Task.State t <> TASK_STATE_DEAD.
Definition threadkey t : bytes :=
  threadIndexPK (TaskId.AccountId (Task.Id t)) (TaskId.QueueId (Task.Id t)) (Task.ThreadId t).
Definition titem t : bytes := threadedTasksIndexItem (Task.ScheduledAt t) (task_n t).
Definition tkey t : bytes := threadkey t ++ titem t.

Lemma item_key_inj (time : Task.t -> Z) :
  (forall t, wf_task t -> is_i64 (time t)) ->
  key_inj (fun t => task_pk t ++ queueIndexItem (time t) (task_n t)).
Proof.
  intros Hi t u Ht Hu. unfold task_pk, task_n.
  destruct (wf_Id t Ht) as (?&?&?), (wf_Id u Hu) as (?&?&?).
  rewrite !queueIndexItem_eq. intros [E1 E2]%app_eq_same_length;
    [|by rewrite !length_tablePK].
  apply tablePK_inj in E1 as [??]; [|done..]. apply index_item_inj in E2 as [??]; auto.
  destruct (Task.Id t), (Task.Id u). cbn in *. congruence.
Qed.

Lemma qkey_inj : key_inj qkey.
Proof. apply item_key_inj, wf_ScheduledAt. Qed.
Lemma inp_key_inj : key_inj inp_key.
Proof. apply (item_key_inj Task.VisibleAt), wf_VisibleAt. Qed.
Lemma dead_key_inj : key_inj dead_key.
Proof. apply (item_key_inj Task.LastFailedAt), wf_LastFailedAt. Qed.

Lemma exp_key_inj : key_inj exp_key.
Proof.
  intros t u Ht Hu. unfold exp_key. rewrite !expiration_item_eq.
  intros [_ E]%be64_app_inj. apply task_key_inj; [apply Ht|apply Hu|done].
Qed.

Lemma threadkey_inj t u :
  wf_task t -> wf_task u -> threadkey t = threadkey u ->
  TaskId.AccountId (Task.Id t) = TaskId.AccountId (Task.Id u) /\
  TaskId.QueueId (Task.Id t) = TaskId.QueueId (Task.Id u) /\
  Task.ThreadId t = Task.ThreadId u.
Proof.
  intros Ht Hu. destruct (wf_Id t Ht) as (?&?&?), (wf_Id u Hu) as (?&?&?).
  apply threadIndexPK_inj; try done; by apply wf_ThreadId.
Qed.

(** Entries under one thread's key are entries of that thread. *)
Lemma threadkey_prefix t u :
  wf_task t -> wf_task u -> forall x, threadkey t ++ x = tkey u ->
  threadkey t = threadkey u /\ x = titem u.
Proof.
  intros Ht Hu x E. destruct (wf_Id t Ht) as (?&?&?), (wf_Id u Hu) as (?&?&?).
  assert (Ek : threadkey t = threadkey u).
  { unfold threadkey at 1 in E. unfold tkey in E.
    pose proof (wf_ThreadId t Ht). pose proof (wf_ThreadId u Hu).
    destruct (threadIndexPK_prefix_free (TaskId.AccountId (Task.Id t))
      (TaskId.QueueId (Task.Id t)) (Task.ThreadId t) (TaskId.AccountId (Task.Id u))
      (TaskId.QueueId (Task.Id u)) (Task.ThreadId u) (titem u)) as (E1 & E2 & E3); try done.
    - unfold threadkey in E. rewrite <-E. by apply prefix_app_r.
    - unfold threadkey. by rewrite E1, E2, E3. }
  split; [done|]. unfold tkey in E. rewrite Ek in E. by apply app_inv_head in E.
Qed.

Lemma titem_inj t u :
  wf_task t -> wf_task u -> titem t = titem u ->
  Task.ScheduledAt t = Task.ScheduledAt u /\ task_n t = task_n u.
Proof.
  intros Ht Hu. unfold titem. rewrite !threadedTasksIndexItem_eq.
  destruct (wf_Id t Ht) as (?&?&?), (wf_Id u Hu) as (?&?&?).
  apply index_item_inj; try done; by apply wf_ScheduledAt.
Qed.

Lemma Id_eq t u :
  TaskId.AccountId (Task.Id t) = TaskId.AccountId (Task.Id u) ->
  TaskId.QueueId (Task.Id t) = TaskId.QueueId (Task.Id u) ->
  task_n t = task_n u -> Task.Id t = Task.Id u.
Proof.
  unfold task_n. destruct (Task.Id t), (Task.Id u). cbn. congruence.
Qed.

Lemma same_thread_Id t u :
  wf_task t -> wf_task u -> threadkey t = threadkey u -> task_n t = task_n u ->
  Task.Id t = Task.Id u.
Proof. intros Ht Hu E En. apply threadkey_inj in E as (?&?&_); auto using Id_eq. Qed.

Lemma tkey_inj : key_inj tkey.
Proof.
  intros t u Ht Hu E. unfold tkey at 1 in E.
  apply threadkey_prefix in E as [E1 E2]; [|done..].
  apply titem_inj in E2 as [_ ?]; [|done..]. by apply same_thread_Id.
Qed.
End inv.
