(* ===== verification/TasksThreads.v ===== *)
(** * Thread head coordination

    The invariant [core.go] assigns to four functions: a thread row exists
    exactly when the thread has members, names one of them as its head, the
    head is the only member that can be in progress and the earliest one while
    it is enqueued, and the queue index holds exactly the enqueued tasks that
    are unthreaded or heads.  [attachTaskToThread], [detachTaskFromThread] and
    [rescheduleTaskInThread] keep it, each under the condition its callers
    establish. *)

From S2P Require Export TasksInv.

Section threads.
Context {U : Utils} {UO : UtilsOk U} {H : Honey} {HO : HoneyOk H}.
Implicit Types (t u h : Task.t) (mem : Task.t -> Prop) (v : View).

Definition head_row (r : Thread.t) h : Prop :=
  Thread.ThreadId r = Task.ThreadId h /\ Thread.HeadTaskId r = Task.Id h /\
  Thread.ScheduledAt r = Task.ScheduledAt h.

(** [t] comes first in its thread, in the byte order of the index. *)
Definition least mem t : Prop :=
  forall u, mem u -> member u -> threadkey u = threadkey t -> ble (titem t) (titem u).

Definition row_ok mem (row : option Thread.t) (k : bytes) : Prop :=
  match row with
  | None => forall t, mem t -> member t -> threadkey t <> k
  | Some r => exists h, mem h /\ member h /\ threadkey h = k /\ head_row r h /\
      (forall t, mem t -> member t -> threadkey t = k -> in_progress t -> t = h) /\
      (enqueued h -> least mem h)
  end.

Definition is_head (T : gmap bytes Thread.t) t : Prop :=
  exists r, T !! threadkey t = Some r /\ Thread.HeadTaskId r = Task.Id t.

(** The tasks a [Dequeue] can see. *)
Definition queued (T : gmap bytes Thread.t) t : Prop :=
  enqueued t /\ (~ threaded t \/ is_head T t).

(** The same, with thread [k] left out. *)
Definition queued_off (T : gmap bytes Thread.t) (k : bytes) t : Prop :=
  queued T t /\ (threaded t -> threadkey t <> k).

Record threads_ok mem v : Prop := {
  to_tidx : image mem member tkey (v_tidx v);
  to_rows k : row_ok mem (v_thr v !! k) k;
  to_queue : image mem (queued (v_thr v)) qkey (v_queue v);
}.

(** What a member sees when it reads rows back. *)
Definition readable mem v : Prop :=
  forall t, mem t -> member t -> v_table v !! task_key (Task.Id t) = Some t.

Lemma member_live t : wf_task t -> member t -> enqueued t \/ in_progress t.
Proof. intros Ht [_ Hd]. destruct (wf_State t Ht) as [?|[?|?]]; [by left|by right|done]. Qed.

(** ** Reading the front of a thread *)

Lemma wpv_first_in_thread mem v t0 (Q : option Task.t -> View -> Prop) :
  wf_task t0 -> rows mem -> readable mem v -> image mem member tkey (v_tidx v) ->
  ((forall u, mem u -> member u -> threadkey u <> threadkey t0) -> Q None v) ->
  (forall e, mem e -> member e -> threadkey e = threadkey t0 -> least mem e -> Q (Some e) v) ->
  wpv (first_in_thread (TaskId.AccountId (Task.Id t0)) (TaskId.QueueId (Task.Id t0))
         (Task.ThreadId t0)) v Q.
Proof.
  intros Ht0 [Hwf Hfun] Hread Hi HN HS. unfold first_in_thread.
  apply wpv_bind, wpv_threads_ListIndex. intros items Hsort Hitems.
  change (threadIndexPK _ _ _) with (threadkey t0) in Hitems.
  assert (Hmem : forall u, mem u -> member u -> threadkey u = threadkey t0 -> titem u ∈ items).
  { intros u Hu Hmu E. rewrite Hitems, <-E, (Hi _). exists u. split; [done|]. by split. }
  destruct items as [|x items]; cbn [fmap list_fmap].
  - apply wpv_ret, HN. intros u Hu Hmu E. apply Hmem in E; [|done..].
    by apply not_elem_of_nil in E.
  - assert (Hx : x ∈ x :: items) by constructor.
    apply Hitems in Hx. rewrite (Hi _) in Hx. destruct Hx as (e & He & Hme & E).
    apply threadkey_prefix in E as [E ->]; [|auto..].
    assert (Hn : extractTaskIdFromIndexItem (titem e) = task_n e).
    { unfold titem. rewrite threadedTasksIndexItem_eq. apply extractTaskId_item.
      by destruct (wf_Id e (Hwf e He)) as (?&?&?). }
    rewrite Hn. apply threadkey_inj in E as E'; [|auto..]. destruct E' as (-> & -> & _).
    replace (TaskId.mk _ _ _) with (Task.Id e) by (unfold task_n; by destruct (Task.Id e)).
    apply wpv_bind. eapply wpv_tasks_Get; [by apply Hread|].
    apply wpv_ret, HS; [done..|]. intros u Hu Hmu Eu.
    assert (Hin : titem u ∈ titem e :: items) by (apply Hmem; congruence).
    destruct (StronglySorted_head _ _ _ Hsort _ Hin) as [->|?]; [by left|by right].
Qed.

(** ** Frame lemmas *)

Lemma row_ok_ext mem mem' row k :
  (forall t, member t -> threadkey t = k -> mem t <-> mem' t) ->
  row_ok mem row k -> row_ok mem' row k.
Proof.
  intros E. destruct row as [r|]; cbn.
  - intros (h & Hh & Hm & Hk & Hr & Hinp & Hl). exists h.
    rewrite <-E by done. do 4 (split; [done|]). split.
    + intros t Ht Hmt Hkt. apply Hinp; [|done..]. by apply E.
    + intros He u Hu Hmu Hku. apply Hl; [done| |done..]. apply E; [done|congruence|done].
  - intros Hn t Ht Hm Hk. eapply Hn; [|done..]. by apply E.
Qed.

Lemma mem_upd_other mem t0 new t :
  wf_task t0 -> (forall u, new = Some u -> wf_task u /\ threadkey u = threadkey t0) ->
  (forall u, mem u -> Task.Id u = Task.Id t0 -> threadkey u = threadkey t0) ->
  threadkey t <> threadkey t0 ->
  mem t <-> mem_upd mem (Task.Id t0) new t.
Proof.
  intros Ht0 Hnew Hold Hk. unfold mem_upd. split.
  - intros Ht. right. split; [done|]. intros E. by apply Hk, Hold.
  - intros [Hn|[? _]]; [|done]. apply Hnew in Hn as [_ ?]. done.
Qed.

(** A head appears in the queue index under its own thread's row only. *)
Lemma queued_off_insert T k r t :
  queued_off T k t <-> queued (<[k := r]> T) t /\ (threaded t -> threadkey t <> k).
Proof.
  unfold queued_off, queued, is_head. split; intros [[He Hq] Hk]; (split; [|done]);
    (split; [done|]); destruct Hq as [Hq|(r' & Hr' & Hh)]; auto.
  - destruct (decide (threadkey t = k)) as [E|E].
    + left. intros Ht. by apply Hk.
    + right. exists r'. by rewrite lookup_insert_ne by done.
  - destruct (decide (threadkey t = k)) as [E|E].
    + left. intros Ht. by apply Hk.
    + right. exists r'. by rewrite lookup_insert_ne in Hr' by done.
Qed.

Lemma queued_off_delete T k t :
  queued_off T k t <-> queued (delete k T) t /\ (threaded t -> threadkey t <> k).
Proof.
  unfold queued_off, queued, is_head. split; intros [[He Hq] Hk]; (split; [|done]);
    (split; [done|]); destruct Hq as [Hq|(r' & Hr' & Hh)]; auto.
  - destruct (decide (threadkey t = k)) as [E|E].
    + left. intros Ht. by apply Hk.
    + right. exists r'. by rewrite lookup_delete_ne by done.
  - destruct (decide (threadkey t = k)) as [E|E].
    + left. intros Ht. by apply Hk.
    + right. exists r'. by rewrite lookup_delete_ne in Hr' by done.
Qed.

(** Once thread [k]'s row names [h], the queue index is what other threads
    contribute plus [h], if it is enqueued. *)
Lemma image_queued_head mem (T : gmap bytes Thread.t) (k : bytes) (r : Thread.t) h (S S' : gset bytes) :
  rows mem -> mem h -> member h -> threadkey h = k -> Thread.HeadTaskId r = Task.Id h ->
  image mem (queued_off T k) qkey S ->
  (forall x, x ∈ S' <-> x ∈ S \/ enqueued h /\ x = qkey h) ->
  image mem (queued (<[k := r]> T)) qkey S'.
Proof.
  intros [Hwf Hfun] Hh Hm Hk Hr Hi HS x. rewrite HS, (Hi x). split.
  - intros [(t & Ht & Hq & ->)|[He ->]].
    + exists t. split; [done|]. split; [|done]. by apply (queued_off_insert T k r).
    + exists h. split; [done|]. split; [|done]. split; [done|]. right. exists r.
      by rewrite Hk, lookup_insert_eq.
  - intros (t & Ht & Hq & ->). destruct (decide (Task.ThreadId t = [])) as [E|E].
    { left. exists t. split; [done|]. split; [|done]. apply (queued_off_insert T k r).
      by split; [done|intros []]. }
    destruct (decide (threadkey t = k)) as [Ek|Ek].
    + right. destruct Hq as [He [Hn|(r' & Hr' & Hid)]]; [by destruct Hn|].
      rewrite Ek, lookup_insert_eq in Hr'. simplify_eq.
      assert (t = h) as -> by (apply Hfun; congruence). done.
    + left. exists t. split; [done|]. split; [|done]. by apply (queued_off_insert T k r).
Qed.

Lemma image_queued_none mem (T : gmap bytes Thread.t) (k : bytes) (S : gset bytes) :
  (forall t, mem t -> member t -> threadkey t <> k) ->
  image mem (queued_off T k) qkey S ->
  image mem (queued (delete k T)) qkey S.
Proof.
  intros Hn. apply image_ext. intros t. rewrite queued_off_delete. split; [tauto|].
  intros [Ht Hq]. split; [done|]. split; [done|]. intros Hth. apply Hn; [done|].
  split; [done|]. destruct Hq as [He _]. unfold enqueued in He. congruence.
Qed.

(** The rows of the other threads are not touched. *)
Lemma rows_insert mem (T : gmap bytes Thread.t) k r :
  (forall k', k' <> k -> row_ok mem (T !! k') k') -> row_ok mem (Some r) k ->
  forall k', row_ok mem (<[k := r]> T !! k') k'.
Proof.
  intros Ho Hr k'. destruct (decide (k' = k)) as [->|E];
    [by rewrite lookup_insert_eq|rewrite lookup_insert_ne by done; auto].
Qed.

Lemma rows_delete mem (T : gmap bytes Thread.t) k :
  (forall k', k' <> k -> row_ok mem (T !! k') k') -> row_ok mem None k ->
  forall k', row_ok mem (delete k T !! k') k'.
Proof.
  intros Ho Hr k'. destruct (decide (k' = k)) as [->|E];
    [by rewrite lookup_delete_eq|rewrite lookup_delete_ne by done; auto].
Qed.
(** ** The head functions *)

(** Only the thread row and the queue index changed. *)
Definition thr_post mem v (v' : View) : Prop :=
  threads_ok mem v' /\ exists T Q, v' = set_thr T (set_queue Q v).

Ltac thr_norm :=
  match goal with
  | |- thr_post ?mem ?v ?v' =>
      let T := eval cbn [v_thr v_queue set_thr set_queue] in (v_thr v') in
      let Q := eval cbn [v_thr v_queue set_thr set_queue] in (v_queue v') in
      change (thr_post mem v (set_thr T (set_queue Q v)))
  end; split; [|by eexists _, _].

(** Everything about a thread but its row, and the other threads. *)
Record thread_ctx mem v (k : bytes) : Prop := {
  tc_rows : rows mem;
  tc_read : readable mem v;
  tc_tidx : image mem member tkey (v_tidx v);
  tc_others k' : k' <> k -> row_ok mem (v_thr v !! k') k';
}.

Lemma threads_ok_head mem v (k : bytes) (r : Thread.t) h (S S' : gset bytes) :
  thread_ctx mem v k -> mem h -> member h -> threadkey h = k -> head_row r h ->
  (forall t, mem t -> member t -> threadkey t = k -> in_progress t -> t = h) ->
  (enqueued h -> least mem h) ->
  image mem (queued_off (v_thr v) k) qkey S ->
  (forall x, x ∈ S' <-> x ∈ S \/ enqueued h /\ x = qkey h) ->
  threads_ok mem (set_thr (<[k := r]> (v_thr v)) (set_queue S' v)).
Proof.
  intros [Hrows Hread Htidx Hoth] Hh Hm Hk Hr Hinp Hl Hi HS. split; cbn.
  - done.
  - apply rows_insert; [done|]. exists h. done.
  - eapply image_queued_head; [done..| |done|done]. apply Hr.
Qed.

Lemma threads_ok_keep mem v (k : bytes) (r : Thread.t) h (S : gset bytes) :
  thread_ctx mem v k -> mem h -> member h -> threadkey h = k -> head_row r h ->
  v_thr v !! k = Some r ->
  (forall t, mem t -> member t -> threadkey t = k -> in_progress t -> t = h) ->
  (enqueued h -> least mem h) ->
  image mem (queued_off (v_thr v) k) qkey S ->
  (forall x, x ∈ v_queue v <-> x ∈ S \/ enqueued h /\ x = qkey h) ->
  thr_post mem v v.
Proof.
  intros Hctx Hh Hm Hk Hr HT Hinp Hl Hi HS.
  pose proof (threads_ok_head mem v k r h S (v_queue v) Hctx Hh Hm Hk Hr Hinp Hl Hi HS) as Hok.
  rewrite insert_id in Hok by done. split; [by destruct v|].
  exists (v_thr v), (v_queue v). by destruct v.
Qed.

(** Entries of other threads are not entries of a member of this one. *)
Lemma queued_off_notin mem v (k : bytes) h u (S : gset bytes) :
  rows mem -> mem h -> member h -> threadkey h = k -> wf_task u -> Task.Id u = Task.Id h ->
  image mem (queued_off (v_thr v) k) qkey S -> qkey u ∉ S.
Proof.
  intros [Hwf Hfun] Hh Hm Hk Hu E Hi Hin. rewrite (Hi _) in Hin.
  destruct Hin as (t & Ht & [Hq Hoff] & Ek). apply qkey_inj in Ek; [|auto..].
  assert (t = h) as -> by (apply Hfun; congruence). by apply Hoff; [apply Hm|].
Qed.

Lemma least_same mem t u :
  rows mem -> mem t -> member t -> mem u -> member u -> threadkey t = threadkey u ->
  least mem t -> least mem u -> task_n t = task_n u.
Proof.
  intros [Hwf Hfun] Ht Hmt Hu Hmu E Hlt Hlu.
  destruct (Hlt u Hu Hmu (eq_sym E)) as [E1|L1].
  - by apply titem_inj in E1 as [_ ?]; auto.
  - destruct (Hlu t Ht Hmt E) as [E2|L2].
    + by apply titem_inj in E2 as [_ ?]; auto.
    + destruct (irreflexivity blt (titem t)). by etrans.
Qed.

(** The entry the queue index holds for the head before reconciliation. *)
Inductive head_entry mem v (r : Thread.t) h (S : gset bytes) : Prop :=
  | he_in_progress :
      in_progress h -> v_thr v !! threadkey h = Some r ->
      Thread.ScheduledAt r = Task.ScheduledAt h -> v_queue v = S ->
      head_entry mem v r h S
  | he_current :
      enqueued h -> v_thr v !! threadkey h = Some r ->
      Thread.ScheduledAt r = Task.ScheduledAt h -> v_queue v = {[qkey h]} ∪ S ->
      head_entry mem v r h S
  | he_absent :
      enqueued h -> Thread.ScheduledAt r <> Task.ScheduledAt h -> v_queue v = S ->
      head_entry mem v r h S
  | he_moved :
      enqueued h -> least mem h -> Thread.ScheduledAt r <> Task.ScheduledAt h ->
      v_queue v = {[qkey (Task.set_ScheduledAt (Thread.ScheduledAt r) h)]} ∪ S ->
      head_entry mem v r h S.

Lemma wf_set_ScheduledAt x t : is_i64 x -> wf_task t -> wf_task (Task.set_ScheduledAt x t).
Proof. intros Hx Hw. destruct Hw, t; by split. Qed.

Lemma Id_set_ScheduledAt x t : Task.Id (Task.set_ScheduledAt x t) = Task.Id t.
Proof. by destruct t. Qed.

Lemma qkey_set_ScheduledAt x t :
  qkey (Task.set_ScheduledAt x t) = task_pk t ++ queueIndexItem x (task_n t).
Proof. by destruct t. Qed.

Lemma wpv_reconcileThreadHead mem v (r : Thread.t) h (S : gset bytes) :
  let k := threadkey h in
  thread_ctx mem v k -> mem h -> member h ->
  Thread.ThreadId r = Task.ThreadId h -> Thread.HeadTaskId r = Task.Id h ->
  is_i64 (Thread.ScheduledAt r) ->
  (forall t, mem t -> member t -> threadkey t = k -> in_progress t -> t = h) ->
  image mem (queued_off (v_thr v) k) qkey S ->
  head_entry mem v r h S ->
  wpv (reconcileThreadHead (TaskId.AccountId (Task.Id h)) (TaskId.QueueId (Task.Id h)) r) v
    (fun _ v' => thr_post mem v v').
Proof.
  intros k Hctx Hh Hm HrT HrH Hr64 Hinp Hi Hq. pose proof Hctx as [Hrows Hread Htidx Hoth].
  pose proof (rows_wf _ Hrows) as Hwf. assert (Hwh : wf_task h) by auto.
  unfold reconcileThreadHead. rewrite HrT, HrH. apply wpv_bind.
  eapply (wpv_first_in_thread mem v h); [done..| |].
  { intros Hn. destruct (Hn h Hh Hm eq_refl). }
  intros e He Hme Hke Hle. apply wpv_bind. eapply wpv_tasks_Get; [by apply Hread|].
  apply wpv_bind, wpv_ret. cbv zeta. change (TaskId.TaskId (Task.Id e)) with (task_n e).
  change (TaskId.TaskId (Task.Id h)) with (task_n h).
  change (tablePK _ _) with (task_pk h).
  assert (Hnotin : forall u, wf_task u -> Task.Id u = Task.Id h -> qkey u ∉ S)
    by (intros u Hu Eu; by eapply (queued_off_notin mem v k h)).
  pose proof (Hnotin h Hwh eq_refl) as Hnh.
  assert (Hnr : qkey (Task.set_ScheduledAt (Thread.ScheduledAt r) h) ∉ S)
    by (apply Hnotin; [by apply wf_set_ScheduledAt|apply Id_set_ScheduledAt]).
  destruct (Z.eqb_spec (task_n e) (task_n h)) as [En|En].
  - assert (e = h) as -> by (apply (rows_fun _ Hrows); [done..|apply same_thread_Id; auto]).
    destruct (Z.eqb_spec (Thread.ScheduledAt r) (Task.ScheduledAt h)) as [Es|Es].
    + apply wpv_ret. eapply (threads_ok_keep mem v k r h S); try done.
      * by destruct Hq.
      * destruct Hq as [Hst HT E1 ->|Hst HT E1 ->|Hst E1 ->|Hst E1 E2 ->]; try done.
        -- intros x. unfold in_progress, enqueued in *. intuition congruence.
        -- intros x. set_solver.
    + assert (He' : enqueued h) by (by destruct Hq).
      unfold enqueued in He'. rewrite bool_decide_true by done. cbn [when].
      vsteps. rewrite <-(qkey_set_ScheduledAt (Thread.ScheduledAt r) h).
      change (task_pk h ++ queueIndexItem (Task.ScheduledAt h) (task_n h)) with (qkey h).
      assert (Hn' : Thread.ThreadId (Thread.set_ScheduledAt (Task.ScheduledAt h) r) =
                      Task.ThreadId h) by (by destruct r).
      rewrite Hn'. change (threadIndexPK _ _ _) with k. thr_norm.
      eapply threads_ok_head; try done; [destruct r; cbn in *; by repeat split|].
      intros x. destruct Hq as [Hst HT E1 ->|Hst HT E1 ->|Hst E1 ->|Hst E1 E2 ->]; try done;
        set_solver.
  - assert (Hne : ~ least mem h).
    { intros Hl. apply En. by eapply least_same. }
    case_bool_decide as Hst.
    + apply wpv_ret. destruct Hq as [Hst' HT E1 E2|Hst' HT E1 E2|Hst' E1 E2|Hst' E1 E2 E3]; try done.
      eapply (threads_ok_keep mem v k r h S); try done; unfold in_progress, enqueued in *.
      intros x. rewrite E2. intuition congruence.
    + assert (Hst' : enqueued h) by (destruct (decide (Task.State h = TASK_STATE_ENQUEUED)); tauto).
      vsteps. apply threadkey_inj in Hke as Hke'; [|auto..]. destruct Hke' as (Ea & Eq & Et).
      replace (task_pk h ++ queueIndexItem (Task.ScheduledAt e) (task_n e)) with (qkey e)
        by (unfold qkey, task_pk; by rewrite Ea, Eq).
      change (task_pk h ++ _) with (qkey h).
      set (r' := Thread.set_ScheduledAt _ _).
      assert (Hr' : head_row r' e) by (subst r'; unfold head_row; destruct r; cbn in *; intuition congruence).
      replace (threadIndexPK _ _ _) with k
        by (unfold k, threadkey; destruct Hr' as [-> _]; by rewrite Et).
      thr_norm.
      eapply threads_ok_head; try done.
      * intros t Ht Hmt Hkt Hpt. unfold in_progress, enqueued in *.
        assert (t = h) by auto. congruence.
      * intros x. assert (He' : enqueued e).
        { destruct (member_live e) as [|Hpe]; auto. assert (e = h) by auto. congruence. }
        destruct Hq as [Hq HT E1 ->|Hq HT E1 ->|Hq E1 ->|Hq E1 E2 ->]; try done.
        -- unfold in_progress, enqueued in *. congruence.
        -- set_solver.
        -- set_solver.
Qed.
Lemma wpv_promoteNextThreadHead mem v t0 (r : Thread.t) :
  let k := threadkey t0 in
  wf_task t0 -> thread_ctx mem v k -> Thread.ThreadId r = Task.ThreadId t0 ->
  (forall t, mem t -> member t -> threadkey t = k -> enqueued t) ->
  image mem (queued_off (v_thr v) k) qkey (v_queue v) ->
  wpv (promoteNextThreadHead (TaskId.AccountId (Task.Id t0)) (TaskId.QueueId (Task.Id t0)) r) v
    (fun _ v' => thr_post mem v v').
Proof.
  intros k Ht0 Hctx HrT Henq Hi. pose proof Hctx as [Hrows Hread Htidx Hoth].
  pose proof (rows_wf _ Hrows) as Hwf.
  unfold promoteNextThreadHead. rewrite HrT. apply wpv_bind.
  eapply (wpv_first_in_thread mem v t0); [done..| |].
  - intros Hn. vsteps. change (threadIndexPK _ _ _) with k. split.
    + split; cbn; [done| |by apply image_queued_none]. by apply rows_delete.
    + exists (delete k (v_thr v)), (v_queue v). by destruct v.
  - intros e He Hme Hke Hle. vsteps. apply threadkey_inj in Hke as Hke'; [|by auto..].
    destruct Hke' as (Ea & Eq & Et). change (TaskId.TaskId (Task.Id e)) with (task_n e).
    replace (tablePK _ _ ++ _) with (qkey e) by (unfold qkey, task_pk; by rewrite Ea, Eq).
    set (r' := Thread.set_ScheduledAt _ _).
    assert (Hr' : head_row r' e)
      by (subst r'; unfold head_row; destruct r; cbn in *; intuition congruence).
    replace (threadIndexPK _ _ _) with k
      by (unfold k, threadkey; destruct Hr' as [-> _]; by rewrite Et).
    thr_norm. assert (He' : enqueued e) by auto.
    eapply (threads_ok_head mem v k r' e (v_queue v)); try done.
    + intros t Ht Hmt Hkt Hpt. unfold in_progress, enqueued in *.
      pose proof (Henq t Ht Hmt Hkt). unfold enqueued in *. congruence.
    + intros x. set_solver.
Qed.

(** *** The contributions of the other threads *)

Lemma image_queued_off mem (T : gmap bytes Thread.t) (k : bytes) (r : Thread.t) h (Q : gset bytes) :
  rows mem -> mem h -> member h -> threadkey h = k -> T !! k = Some r ->
  Thread.HeadTaskId r = Task.Id h ->
  image mem (queued T) qkey Q -> image mem (queued_off T k) qkey (Q ∖ {[qkey h]}).
Proof.
  intros [Hwf Hfun] Hh Hm Hk HT Hr Hi x. rewrite elem_of_difference, (Hi x), elem_of_singleton.
  split.
  - intros [(t & Ht & Hq & ->) Hne]. exists t. split; [done|]. split; [|done]. split; [done|].
    intros Hth Ek. destruct Hq as [_ [?|(r' & Hr' & E)]]; [done|]. apply Hne. f_equal.
    apply Hfun; congruence.
  - intros (t & Ht & [Hq Hoff] & ->). split; [by exists t|]. intros E.
    apply qkey_inj in E; [|auto..]. assert (t = h) as -> by auto. by apply Hoff; [apply Hm|].
Qed.

(** The entry of an unchanged head, in the terms of [head_entry]. *)
Lemma head_entry_same mem mem' v (r : Thread.t) h :
  rows mem -> mem h -> member h -> v_thr v !! threadkey h = Some r -> head_row r h ->
  image mem (queued (v_thr v)) qkey (v_queue v) ->
  head_entry mem' v r h (v_queue v ∖ {[qkey h]}).
Proof.
  intros [Hwf Hfun] Hh Hm HT (Hr1 & Hr2 & Hr3) Hi.
  destruct (member_live h) as [He|Hp]; [by auto..| |].
  - apply he_current; [done..|]. apply set_eq. intros x.
    assert (qkey h ∈ v_queue v).
    { apply (Hi _). exists h. split; [done|]. split; [|done]. split; [done|]. right. by exists r. }
    destruct (decide (x = qkey h)); set_solver.
  - apply he_in_progress; [done..|]. apply set_eq. intros x.
    rewrite elem_of_difference, elem_of_singleton. split; [|tauto]. intros Hx. split; [done|].
    intros ->. apply (Hi _) in Hx as (t & Ht & [Hq _] & E). apply qkey_inj in E; [|auto..].
    assert (h = t) as <- by auto. unfold enqueued, in_progress in *. congruence.
Qed.

Definition thr_post' mem v (v' : View) : Prop :=
  threads_ok mem v' /\ exists T Q X, v' = set_thr T (set_queue Q (set_tidx X v)).

Lemma thr_post_post' mem v (X : gset bytes) v' :
  thr_post mem (set_tidx X v) v' -> thr_post' mem v v'.
Proof. intros [Hok (T & Q & ->)]. split; [done|]. by exists T, Q, X. Qed.

Lemma wpv_attachTaskToThread mem v t :
  let mem' := mem_upd mem (Task.Id t) (Some t) in
  rows mem -> wf_task t -> enqueued t -> threaded t ->
  (forall u, mem u -> Task.Id u <> Task.Id t) ->
  readable mem' v -> threads_ok mem v ->
  wpv (attachTaskToThread t) v (fun _ v' => thr_post' mem' v v').
Proof.
  intros mem' Hrows Hwt Het Htt Hfresh Hread [Htidx Hrow Hqueue].
  pose proof (rows_wf _ Hrows) as Hwf. set (k := threadkey t). assert (Hmt : member t).
  { split; [done|]. unfold enqueued in Het. congruence. }
  assert (Hrows' : rows mem') by (apply rows_upd; [done|by intros u [= <-]]).
  assert (Hother : forall u, threadkey u <> k -> mem u <-> mem' u).
  { intros u. apply mem_upd_other; [done|by intros ? [= <-]|].
    intros w Hw E. destruct (Hfresh w Hw E). }
  unfold attachTaskToThread. vsteps. change (threadIndexPK _ _ _ ++ _) with (tkey t).
  change (threadIndexPK _ _ _) with k. cbn [v_thr set_tidx].
  set (v1 := set_tidx _ v).
  assert (Hctx : thread_ctx mem' v1 k).
  { split; [done|done| |].
    - cbn. eapply image_upd_add; [|done|].
      + intros u Hu E. by destruct (Hfresh u).
      + intros x. cbn. set_solver.
    - intros k' Hk'. eapply row_ok_ext; [|apply Hrow]. intros u _ Hu. apply Hother. congruence. }
  assert (Hoff : forall S, image mem (queued_off (v_thr v) k) qkey S ->
                           image mem' (queued_off (v_thr v) k) qkey S).
  { intros S. apply image_ext. intros u. unfold mem', mem_upd, queued_off.
    split; intros [Hu [Hq Ho]]; (split; [|done]).
    - right. by split; [|apply Hfresh].
    - destruct Hu as [[= <-]|[? _]]; [by destruct Ho|done]. }
  pose proof (Hrow k) as Hk. destruct (v_thr v !! k) as [r|] eqn:ET.
  - destruct Hk as (h & Hh & Hmh & Hkh & (Hr1 & Hr2 & Hr3) & Hinp & Hl).
    apply threadkey_inj in Hkh as Hkh'; [|by auto..].
    destruct Hkh' as (<- & <- & Et).
    eapply wpv_mono;
      [apply (wpv_reconcileThreadHead mem' v1 r h (v_queue v ∖ {[qkey h]}))
      |intros [] v'; apply (thr_post_post' mem' v)]; rewrite ?Hkh; try done.
    + right. split; [done|]. by apply Hfresh.
    + rewrite Hr3. by apply wf_ScheduledAt, (rows_wf _ Hrows).
    + intros u [[= <-]|[Hu _]] Hmu Hku Hpu; [|auto].
      unfold enqueued, in_progress in *. congruence.
    + apply Hoff. by eapply image_queued_off.
    + eapply (head_entry_same mem mem' v1); [done|done|done|by rewrite Hkh|done|done].
  - vsteps. change (threadIndexPK _ _ _) with k. change (tablePK _ _ ++ _) with (qkey t).
    apply (thr_post_post' mem' v (v_tidx v1)). thr_norm.
    eapply (threads_ok_head mem' v1 k _ t (v_queue v)); try done.
    + by left.
    + intros u [[= <-]|[Hu _]] Hmu Hku _; [done|]. by destruct (Hk u).
    + intros _ u [[= <-]|[Hu _]] Hmu Hku; [by left|]. by destruct (Hk u).
    + apply Hoff. eapply image_ext; [|exact Hqueue]. intros u. unfold queued_off.
      split; [|tauto]. intros [Hu Hq]. split; [done|]. split; [done|]. intros Hth. apply Hk; [done|].
      split; [done|]. destruct Hq as [Hq _]. unfold enqueued in Hq. congruence.
    + intros x. cbn. set_solver.
Qed.
(** [task] is the departing row [t0], possibly with other fields already
    updated; the caller has dropped its queue index entry. *)
Lemma wpv_detachTaskFromThread mem v t0 task :
  let mem' := mem_upd mem (Task.Id t0) None in
  rows mem -> mem t0 -> member t0 ->
  Task.Id task = Task.Id t0 -> Task.ThreadId task = Task.ThreadId t0 ->
  Task.ScheduledAt task = Task.ScheduledAt t0 ->
  readable mem' v -> image mem member tkey (v_tidx v) ->
  (forall k, row_ok mem (v_thr v !! k) k) ->
  image mem' (queued (v_thr v)) qkey (v_queue v) ->
  wpv (detachTaskFromThread task) v (fun _ v' => thr_post' mem' v v').
Proof.
  intros mem' Hrows Ht0 Hm0 EI ET ES Hread Htidx Hrow Hqueue.
  pose proof (rows_wf _ Hrows) as Hwf. set (k := threadkey t0).
  assert (Hrows' : rows mem') by (by apply rows_upd).
  unfold detachTaskFromThread. rewrite EI, ET, ES. vsteps.
  change (threadIndexPK _ _ _ ++ _) with (tkey t0). set (v1 := set_tidx _ v).
  assert (Hctx : thread_ctx mem' v1 k).
  { split; [done|done| |].
    - cbn. eapply image_upd_del; [apply tkey_inj|done|by auto|done| |done|].
      + intros u Hu _ E. f_equal. by apply (rows_fun _ Hrows).
      + intros x. cbn. set_solver.
    - intros k' Hk'. eapply row_ok_ext; [|apply Hrow]. intros u _ Hu.
      apply mem_upd_other; [by auto|done| |by rewrite Hu].
      intros w Hw E. f_equal. by apply (rows_fun _ Hrows). }
  pose proof (Hrow k) as Hk. destruct (v_thr v !! k) as [r|] eqn:ETk; [|by destruct (Hk t0)].
  eapply wpv_orNotFound; [exact ETk|].
  destruct Hk as (h & Hh & Hmh & Hkh & (Hr1 & Hr2 & Hr3) & Hinp & Hl).
  rewrite Hr2. change (TaskId.TaskId (Task.Id h)) with (task_n h).
  change (TaskId.TaskId (Task.Id t0)) with (task_n t0).
  destruct (Z.eqb_spec (task_n h) (task_n t0)) as [En|En].
  - assert (h = t0) as -> by (apply (rows_fun _ Hrows); [done..|apply same_thread_Id; auto]).
    eapply wpv_mono; [apply (wpv_promoteNextThreadHead mem' v1 t0 r)
                     |intros [] v'; apply (thr_post_post' mem' v)]; try done.
    + by auto.
    + intros u [[=]|[Hu Hne]] Hmu Hku. destruct (member_live u) as [|Hp]; [by auto..|].
      destruct Hne. by rewrite (Hinp u).
    + eapply image_ext; [|exact Hqueue]. intros u. unfold queued_off. cbn.
      split; [|tauto]. intros [Hu Hq]. split; [done|]. split; [done|]. intros Hth Eku.
      destruct Hu as [[=]|[Hu Hne]]. destruct Hq as [_ [?|(r' & Hr' & E)]]; [done|].
      apply Hne. rewrite Eku in Hr'. fold k in Hr'. congruence.
  - apply wpv_ret. apply (thr_post_post' mem' v (v_tidx v1)).
    assert (Hh' : mem' h) by (right; split; [done|]; unfold task_n in *; congruence).
    eapply (threads_ok_keep mem' v1 k r h (v_queue v ∖ {[qkey h]})); try done.
    + intros u [[=]|[Hu _]]. auto.
    + intros He u [[=]|[Hu _]]. by apply Hl.
    + by eapply image_queued_off.
    + intros x. cbn. destruct (member_live h) as [He|Hp]; [by auto..| |].
      * assert (qkey h ∈ v_queue v).
        { apply (Hqueue _). exists h. split; [done|]. split; [|done]. split; [done|].
          right. exists r. by rewrite Hkh. }
        destruct (decide (x = qkey h)); set_solver.
      * pose proof (head_entry_same mem' mem' v r h Hrows' Hh' Hmh) as Hhe.
        rewrite Hkh in Hhe. destruct (Hhe ETk (conj Hr1 (conj Hr2 Hr3)) Hqueue) as [? ? ? E|He|He|He];
          try (unfold enqueued, in_progress in *; congruence).
        rewrite <-E. unfold enqueued, in_progress in *. intuition congruence.
Qed.

(** The entry of a head that is itself rescheduled. *)
Lemma reschedule_head_entry mem' v v1 (r : Thread.t) t0 task :
  v_thr v1 = v_thr v -> v_queue v1 = v_queue v ->
  head_entry mem' v r t0 (v_queue v ∖ {[qkey t0]}) ->
  v_thr v !! threadkey t0 = Some r -> enqueued task ->
  Task.Id task = Task.Id t0 -> Task.ThreadId task = Task.ThreadId t0 ->
  (in_progress t0 -> Task.ScheduledAt task <> Task.ScheduledAt t0) ->
  (enqueued t0 -> is_head (v_thr v) t0 ->
     Task.ScheduledAt task = Task.ScheduledAt t0 \/ least mem' task) ->
  Thread.ScheduledAt r = Task.ScheduledAt t0 -> Thread.HeadTaskId r = Task.Id t0 ->
  head_entry mem' v1 r task (v_queue v ∖ {[qkey t0]}).
Proof.
  intros E1 E2 Hhe HT Het EI ET Hinp Henq Hs Hh.
  assert (Ekt : threadkey task = threadkey t0) by (unfold threadkey; by rewrite EI, ET).
  assert (Eq : forall x, task_pk task ++ queueIndexItem x (task_n task) =
                         task_pk t0 ++ queueIndexItem x (task_n t0))
    by (intros; unfold task_pk, task_n; by rewrite EI).
  destruct Hhe as [Hst _ _ Eq'|Hst _ _ Eq'|Hst ? _|Hst _ ? _]; [| |done|done].
  - apply he_absent; [done| |congruence]. rewrite Hs. intros E. by apply Hinp.
  - destruct (decide (Task.ScheduledAt task = Task.ScheduledAt t0)) as [Es|Es].
    + apply he_current; [done|by rewrite E1, Ekt|congruence|].
      rewrite E2, Eq' at 1. unfold qkey. by rewrite Eq, Es.
    + destruct Henq as [|Hl]; [done|by exists r|done|].
      apply he_moved; [done|done|congruence|].
      rewrite E2, Eq' at 1. by rewrite qkey_set_ScheduledAt, Eq, Hs.
Qed.

(** [task] replaces the row [t0] of the same task and thread.  The
    conditions are those under which the queue index follows: a head that
    was in progress gets a new time, a head that was enqueued keeps its time
    or stays the earliest. *)
Lemma wpv_rescheduleTaskInThread mem v t0 task :
  let mem' := mem_upd mem (Task.Id t0) (Some task) in
  rows mem -> mem t0 -> member t0 -> wf_task task -> enqueued task ->
  Task.Id task = Task.Id t0 -> Task.ThreadId task = Task.ThreadId t0 ->
  (in_progress t0 -> Task.ScheduledAt task <> Task.ScheduledAt t0) ->
  (enqueued t0 -> is_head (v_thr v) t0 ->
     Task.ScheduledAt task = Task.ScheduledAt t0 \/ least mem' task) ->
  readable mem' v -> threads_ok mem v ->
  wpv (rescheduleTaskInThread task (Task.ScheduledAt t0)) v (fun _ v' => thr_post' mem' v v').
Proof.
  intros mem' Hrows Ht0 Hm0 Hwt Het EI ET Hinp0 Henq0 Hread [Htidx Hrow Hqueue].
  pose proof (rows_wf _ Hrows) as Hwf. set (k := threadkey t0).
  assert (Ekt : threadkey task = k) by (unfold k, threadkey; by rewrite EI, ET).
  assert (Hmt : member task).
  { split; [unfold threaded; rewrite ET; apply Hm0|]. unfold enqueued in Het. congruence. }
  assert (Hrows' : rows mem') by (apply rows_upd; [done|by intros ? [= <-]]).
  assert (Hold : forall u, mem u -> Task.Id u = Task.Id t0 -> u = t0)
    by (intros; by apply (rows_fun _ Hrows)).
  unfold rescheduleTaskInThread. vsteps. cbn [v_thr v_tidx set_tidx].
  replace (threadIndexPK _ _ _ ++ threadedTasksIndexItem (Task.ScheduledAt t0) _) with (tkey t0)
    by (unfold tkey, threadkey, titem, task_n; by rewrite EI, ET).
  change (threadIndexPK _ _ _ ++ _) with (tkey task).
  change (threadIndexPK _ _ _) with (threadkey task). rewrite Ekt.
  set (v1 := set_tidx _ _).
  assert (Hctx : thread_ctx mem' v1 k).
  { split; [done|done| |].
    - cbn. eapply image_upd_del; [apply tkey_inj|done|by auto| | |exact Htidx|].
      + by intros ? [= <-].
      + intros u Hu _ E. f_equal. auto.
      + intros x. cbn. set_solver.
    - intros k' Hk'. eapply row_ok_ext; [|apply Hrow]. intros u _ Hu.
      apply mem_upd_other; [by auto|by intros ? [= <-]| |by rewrite Hu].
      intros w Hw E. f_equal. auto. }
  assert (Hoff : forall S, image mem (queued_off (v_thr v) k) qkey S ->
                           image mem' (queued_off (v_thr v) k) qkey S).
  { intros S. apply image_ext. intros u. unfold mem', mem_upd, queued_off.
    split; intros [Hu [Hq Ho]]; (split; [|done]).
    - right. split; [done|]. intros E. rewrite (Hold u) in Ho by done. by apply Ho; [apply Hm0|].
    - destruct Hu as [[= <-]|[? _]]; [by destruct Ho; [apply Hmt|]|done]. }
  pose proof (Hrow k) as Hk. destruct (v_thr v !! k) as [r|] eqn:ETk; [|by destruct (Hk t0)].
  eapply wpv_orNotFound; [reflexivity|].
  destruct Hk as (h & Hh & Hmh & Hkh & Hr & Hinp & Hl).
  pose proof (head_entry_same mem mem' v r h Hrows Hh Hmh) as Hhe.
  rewrite Hkh in Hhe. specialize (Hhe ETk Hr Hqueue). pose proof Hr as (Hr1 & Hr2 & Hr3).
  assert (HS : image mem' (queued_off (v_thr v) k) qkey (v_queue v ∖ {[qkey h]}))
    by (by apply Hoff; eapply image_queued_off).
  assert (Hr64 : is_i64 (Thread.ScheduledAt r)) by (rewrite Hr3; apply wf_ScheduledAt; auto).
  assert (Hinp' : forall u, mem' u -> member u -> threadkey u = k -> in_progress u ->
                    u = h /\ Task.Id h <> Task.Id t0).
  { intros u [[= <-]|[Hu Hne]] Hmu Hku Hpu.
    - unfold enqueued, in_progress in *. congruence.
    - assert (u = h) as <- by auto. done. }
  destruct (decide (Task.Id h = Task.Id t0)) as [E|E].
  - assert (h = t0) as -> by auto.
    eapply wpv_mono;
      [apply (wpv_reconcileThreadHead mem' v1 r task (v_queue v ∖ {[qkey t0]}))
      |intros [] v'; apply (thr_post_post' mem' v)]; rewrite ?Ekt; try done.
    + by left.
    + by rewrite ET.
    + by rewrite EI.
    + intros u Hu Hmu Hku Hpu. by destruct (Hinp' u) as [_ []].
    + by apply (reschedule_head_entry mem' v v1 r t0 task).
  - apply threadkey_inj in Hkh as Hkh'; [|by auto..]. destruct Hkh' as (Ea & Eq & _).
    rewrite EI, <-Ea, <-Eq.
    eapply wpv_mono;
      [apply (wpv_reconcileThreadHead mem' v1 r h (v_queue v ∖ {[qkey h]}))
      |intros [] v'; apply (thr_post_post' mem' v)]; rewrite ?Hkh; try done.
    + by right.
    + intros u Hu Hmu Hku Hpu. by destruct (Hinp' u).
    + by destruct Hhe; econstructor.
Qed.
End threads.
