(* ===== verification/TasksLifecycle.v ===== *)
(** * The task life cycle keeps the invariant

    [ix_ok] ties every index of a view to a set of rows; [Inv] instantiates it
    with the rows of the task table and adds the counters and the task id
    sequence.  One lemma per transition of [core.go]: creation, deletion,
    heartbeat, retry, death with eviction, start, and expiry during a
    dequeue. *)

From S2P Require Export TasksThreads.

Section lifecycle.
Context {U : Utils} {UO : UtilsOk U} {H : Honey} {HO : HoneyOk H}.
Implicit Types (t u : Task.t) (mem : Task.t -> Prop) (v : View).

(** ** Dedupe keys *)

(** A live task holds its dedupe key; death releases it. *)
Definition claims t : Prop := Task.DedupeKey t <> [] /\ Task.State t <> TASK_STATE_DEAD.

Definition dedupe_ok mem (D : gmap bytes Z) : Prop :=
  forall k n, D !! k = Some n <-> exists t, mem t /\ claims t /\ k = task_dedupePK t /\ n = task_n t.

Lemma task_dedupePK_inj t u :
  wf_task t -> wf_task u -> task_dedupePK t = task_dedupePK u ->
  TaskId.AccountId (Task.Id t) = TaskId.AccountId (Task.Id u) /\
  TaskId.QueueId (Task.Id t) = TaskId.QueueId (Task.Id u) /\
  Task.DedupeKey t = Task.DedupeKey u.
Proof.
  intros Ht Hu. destruct (wf_Id t Ht) as (?&?&?), (wf_Id u Hu) as (?&?&?).
  by apply dedupeKeysIndexPK_inj.
Qed.

(** No two live tasks of a queue share a dedupe key. *)
Lemma dedupe_unique mem D t u :
  rows mem -> dedupe_ok mem D -> mem t -> mem u -> claims t -> claims u ->
  task_dedupePK t = task_dedupePK u -> t = u.
Proof.
  intros [Hwf Hfun] HD Ht Hu Hct Hcu E. apply Hfun; [done..|].
  apply task_dedupePK_inj in E as E'; [|auto..]. destruct E' as (E1 & E2 & _).
  apply Id_eq; [done..|].
  assert (H1 : D !! task_dedupePK t = Some (task_n t)) by (apply HD; eauto).
  assert (H2 : D !! task_dedupePK u = Some (task_n u)) by (apply HD; eauto).
  congruence.
Qed.

Lemma dedupe_release mem D t0 new :
  rows mem -> mem t0 -> claims t0 -> (forall t, new = Some t -> ~ claims t) ->
  dedupe_ok mem D -> dedupe_ok (mem_upd mem (Task.Id t0) new) (delete (task_dedupePK t0) D).
Proof.
  intros Hrows Ht0 Hc0 Hnew HD k n. rewrite lookup_delete_Some, (HD k n). unfold mem_upd. split.
  - intros [Hne (t & Ht & Hc & -> & ->)]. exists t. split; [right|done]. split; [done|].
    intros E. apply Hne. f_equal. symmetry. by apply (rows_fun _ Hrows).
  - intros (t & [Ht|[Ht Hid]] & Hc & -> & ->); [by destruct (Hnew t)|].
    split; [|by exists t]. intros E. apply Hid. f_equal. by eapply dedupe_unique.
Qed.

Lemma dedupe_claim mem D t :
  (forall u, mem u -> Task.Id u = Task.Id t -> ~ claims u) -> claims t ->
  D !! task_dedupePK t = None ->
  dedupe_ok mem D ->
  dedupe_ok (mem_upd mem (Task.Id t) (Some t)) (<[task_dedupePK t := task_n t]> D).
Proof.
  intros Hold Hc HN HD k n. rewrite lookup_insert_Some, (HD k n). unfold mem_upd. split.
  - intros [[<- <-]|[Hne (u & Hu & Hcu & -> & ->)]]; [exists t; by auto|].
    exists u. split; [right|done]. split; [done|]. intros E. by destruct (Hold u).
  - intros (u & [[= <-]|[Hu Hid]] & Hcu & -> & ->); [by left|]. right.
    split; [|by exists u]. intros E. rewrite E in HN.
    assert (D !! task_dedupePK u = Some (task_n u)) by (apply HD; eauto). congruence.
Qed.

Lemma dedupe_silent mem D i new :
  (forall u, mem u -> Task.Id u = i -> ~ claims u) -> (forall t, new = Some t -> ~ claims t) ->
  dedupe_ok mem D -> dedupe_ok (mem_upd mem i new) D.
Proof.
  intros Hold Hnew HD k n. rewrite (HD k n). unfold mem_upd. split.
  - intros (t & Ht & Hc & -> & ->). exists t. split; [right|done]. split; [done|].
    intros E. by destruct (Hold t).
  - intros (t & [Ht|[Ht _]] & Hc & -> & ->); [by destruct (Hnew t)|by exists t].
Qed.

Lemma dedupe_same mem D t0 t1 :
  rows mem -> mem t0 -> Task.Id t1 = Task.Id t0 -> Task.DedupeKey t1 = Task.DedupeKey t0 ->
  (claims t0 <-> claims t1) ->
  dedupe_ok mem D -> dedupe_ok (mem_upd mem (Task.Id t0) (Some t1)) D.
Proof.
  intros Hrows Ht0 EI ED Hc HD k n. rewrite (HD k n). unfold mem_upd.
  assert (Ek : task_dedupePK t1 = task_dedupePK t0) by (unfold task_dedupePK; by rewrite EI, ED).
  assert (En : task_n t1 = task_n t0) by (unfold task_n; by rewrite EI).
  split.
  - intros (t & Ht & Hct & -> & ->). destruct (decide (Task.Id t = Task.Id t0)) as [E|E].
    + assert (t = t0) as -> by (by apply (rows_fun _ Hrows)). exists t1. split; [by left|].
      split; [by apply Hc|done].
    + exists t. split; [by right|done].
  - intros (t & [[= <-]|[Ht _]] & Hct & -> & ->); [exists t0|exists t]; [|done].
    split; [done|]. split; [by apply Hc|done].
Qed.

(** ** Indexes *)

Record ix_ok mem v : Prop := {
  ix_rows : rows mem;
  ix_threads : threads_ok mem v;
  ix_inp : image mem in_progress inp_key (v_inp v);
  ix_dead : image mem dead dead_key (v_dead v);
  ix_exp : image mem has_deadline exp_key (v_exp v);
  ix_dedupe : dedupe_ok mem (v_dedupe v);
}.

Lemma rows_ext mem mem' : (forall t, mem t <-> mem' t) -> rows mem -> rows mem'.
Proof.
  intros E [Hwf Hfun]. split; [intros t Ht; by apply Hwf, E|].
  intros t u Ht Hu. by apply Hfun; apply E.
Qed.

Lemma threads_ok_ext mem mem' v :
  (forall t, mem t <-> mem' t) -> threads_ok mem v -> threads_ok mem' v.
Proof.
  intros E [H1 H2 H3]. split.
  - eapply image_ext; [|done]. intros t. by rewrite E.
  - intros k. eapply row_ok_ext; [|apply H2]. auto.
  - eapply image_ext; [|done]. intros t. by rewrite E.
Qed.

Lemma dedupe_ok_ext mem mem' D :
  (forall t, mem t <-> mem' t) -> dedupe_ok mem D -> dedupe_ok mem' D.
Proof. intros E HD k n. rewrite (HD k n). by setoid_rewrite E. Qed.

Lemma ix_ok_ext mem mem' v : (forall t, mem t <-> mem' t) -> ix_ok mem v -> ix_ok mem' v.
Proof.
  intros E [H1 H2 H3 H4 H5 H6].
  split; eauto using rows_ext, threads_ok_ext, dedupe_ok_ext;
    (eapply image_ext; [|done]); intros t; by rewrite E.
Qed.

(** Parts of a view no index operation touches. *)
Definition same_meta v v' : Prop :=
  v_qst v' = v_qst v /\ v_rl v' = v_rl v /\ v_purge v' = v_purge v.

(** The rows [mem] are what the table returns. *)
Definition stored mem v : Prop :=
  forall t, mem t -> v_table v !! task_key (Task.Id t) = Some t.

Lemma stored_readable mem v : stored mem v -> readable mem v.
Proof. intros Hs t Ht _. by apply Hs. Qed.

Definition task_qpk t : bytes :=
  queue_tablePK (TaskId.AccountId (Task.Id t)) (TaskId.QueueId (Task.Id t)).

Definition bumped v t (f : TasksCounter.t -> TasksCounter.t) : gmap bytes TasksCounter.t :=
  <[task_qpk t := f (default TasksCounter.zero (v_cnt v !! task_qpk t))]> (v_cnt v).
(** ** Thread bookkeeping of one transition *)

Lemma threads_ok_fields mem v v' :
  v_tidx v' = v_tidx v -> v_thr v' = v_thr v -> v_queue v' = v_queue v ->
  threads_ok mem v -> threads_ok mem v'.
Proof. intros E1 E2 E3 [H1 H2 H3]. split; by rewrite ?E1, ?E2, ?E3. Qed.

(** Rows outside any thread affect the queue index only. *)
Lemma threads_ok_unthreaded mem v (i : TaskId.t) (new : option Task.t) (Q' : gset bytes) :
  (forall u, mem u -> Task.Id u = i -> ~ member u) -> (forall t, new = Some t -> ~ member t) ->
  threads_ok mem v -> image (mem_upd mem i new) (queued (v_thr v)) qkey Q' ->
  threads_ok (mem_upd mem i new) (set_queue Q' v).
Proof.
  intros Hold Hnew [H1 H2 H3] HQ. split; cbn; [| |done].
  - eapply image_upd_add; [by eauto|done|]. intros k. destruct new as [t|]; cbn; [|tauto].
    pose proof (Hnew t eq_refl). tauto.
  - intros k. eapply row_ok_ext; [|apply H2]. intros t Hm _. unfold mem_upd. split.
    + intros Ht. right. split; [done|]. intros E. by eapply Hold.
    + intros [Ht|[? _]]; [by destruct (Hnew t)|done].
Qed.

Lemma wpv_claim_dedupe mem v t :
  (forall u, mem u -> Task.Id u <> Task.Id t) -> enqueued t ->
  (claims t -> v_dedupe v !! task_dedupePK t = None) -> dedupe_ok mem (v_dedupe v) ->
  wpv (when (bool_decide (Task.DedupeKey t <> []))
        (dedupeKeysIndex_Set (task_dedupePK t) (task_n t))) v
    (fun _ v' => exists D, v' = set_dedupe D v /\
                   dedupe_ok (mem_upd mem (Task.Id t) (Some t)) D).
Proof.
  intros Hfresh He Hfree HD. unfold enqueued in He.
  apply wpv_when; intros Hb; rewrite ?bool_decide_eq_true, ?bool_decide_eq_false in Hb.
  - vsteps. eexists; split; [done|]. assert (claims t) by (split; congruence).
    apply dedupe_claim; auto. intros u Hu E. by destruct (Hfresh u).
  - exists (v_dedupe v). split; [by destruct v|]. apply dedupe_silent; [|by intros ? [= <-] []|done].
    intros u Hu E. by destruct (Hfresh u).
Qed.

(** [new] is the row that replaces [t0], a dead or deleted one. *)
Lemma wpv_release_dedupe mem v t0 task new :
  rows mem -> mem t0 -> Task.State t0 <> TASK_STATE_DEAD ->
  Task.Id task = Task.Id t0 -> Task.DedupeKey task = Task.DedupeKey t0 ->
  (forall t, new = Some t -> dead t) -> dedupe_ok mem (v_dedupe v) ->
  wpv (release_dedupe task) v
    (fun _ v' => exists D, v' = set_dedupe D v /\ dedupe_ok (mem_upd mem (Task.Id t0) new) D).
Proof.
  intros Hrows Ht0 Hl EI ED Hnew HD.
  assert (Hn : forall t, new = Some t -> ~ claims t).
  { intros t Ht [_ Hc]. by apply Hc, Hnew. }
  unfold release_dedupe. rewrite ED. replace (task_dedupePK task) with (task_dedupePK t0)
    by (unfold task_dedupePK; by rewrite EI, ED).
  apply wpv_when; intros Hb; rewrite ?bool_decide_eq_true, ?bool_decide_eq_false in Hb.
  - vsteps. eexists; split; [done|]. by apply dedupe_release.
  - exists (v_dedupe v). split; [by destruct v|]. apply dedupe_silent; [|done..].
    intros u Hu E [Hc _]. apply Hb. by rewrite <-(rows_fun _ Hrows u t0).
Qed.

Lemma wpv_detach_if_threaded mem v t0 task new :
  rows mem -> mem t0 -> Task.State t0 <> TASK_STATE_DEAD ->
  Task.Id task = Task.Id t0 -> Task.ThreadId task = Task.ThreadId t0 ->
  Task.ScheduledAt task = Task.ScheduledAt t0 ->
  (forall t, new = Some t -> dead t) ->
  stored (mem_upd mem (Task.Id t0) None) v ->
  image mem member tkey (v_tidx v) -> (forall k, row_ok mem (v_thr v !! k) k) ->
  image (mem_upd mem (Task.Id t0) None) (queued (v_thr v)) qkey (v_queue v) ->
  wpv (detach_if_threaded task) v
    (fun _ v' => thr_post' (mem_upd mem (Task.Id t0) new) v v').
Proof.
  intros Hrows Ht0 Hl EI ET ES Hnew Hst Htidx Hrow HQ.
  assert (Hadd : forall w, threads_ok (mem_upd mem (Task.Id t0) None) w ->
                 threads_ok (mem_upd mem (Task.Id t0) new) w).
  { intros w [H1 H2 H3]. assert (Hx : forall t P, (P t -> Task.State t <> TASK_STATE_DEAD) ->
      mem_upd mem (Task.Id t0) None t /\ P t <-> mem_upd mem (Task.Id t0) new t /\ P t).
    { intros t P HP. unfold mem_upd. split; intros [Hm HPt]; (split; [|done]).
      - destruct Hm as [[=]|Hm]. by right.
      - destruct Hm as [Hm|Hm]; [|by right]. by destruct (HP HPt), (Hnew t Hm). }
    split.
    - eapply image_ext; [|exact H1]. intros t. apply Hx. by intros [_ ?].
    - intros k. eapply row_ok_ext; [|apply H2]. intros t [_ Hd] _.
      destruct (Hx t (fun _ => True)); tauto.
    - eapply image_ext; [|exact H3]. intros t. apply Hx. intros [He _].
      unfold enqueued in He. congruence. }
  unfold detach_if_threaded. rewrite ET.
  apply wpv_when; intros Hb; rewrite ?bool_decide_eq_true, ?bool_decide_eq_false in Hb.
  - eapply wpv_mono; [eapply (wpv_detachTaskFromThread mem v t0 task); try done|].
    + by apply stored_readable.
    + intros [] v' [Hok HT]. split; [by apply Hadd|done].
  - split; [|exists (v_thr v), (v_queue v), (v_tidx v); by destruct v]. apply Hadd.
    assert (Hnt : ~ member t0) by (intros [? _]; done).
    replace v with (set_queue (v_queue v) v) by (by destruct v).
    assert (Hold : forall u, mem u -> Task.Id u = Task.Id t0 -> ~ member u).
    { intros u Hu E. by rewrite (rows_fun _ Hrows u t0). }
    split; cbn; [| |done].
    + eapply image_upd_add; [done|done|]. intros k. cbn. tauto.
    + intros k. eapply row_ok_ext; [|apply Hrow]. intros t Hm _. unfold mem_upd. split.
      * intros Ht. right. split; [done|]. intros E. by eapply Hold.
      * by intros [[=]|[? _]].
Qed.

(** ** Creation *)

Lemma wpv_createTask mem v t :
  ix_ok mem v -> stored mem v -> (forall u, mem u -> Task.Id u <> Task.Id t) ->
  wf_task t -> enqueued t -> (claims t -> v_dedupe v !! task_dedupePK t = None) ->
  wpv (createTask t) v (fun _ v' =>
    ix_ok (mem_upd mem (Task.Id t) (Some t)) v' /\
    v_table v' = <[task_key (Task.Id t) := t]> (v_table v) /\
    v_cnt v' = bumped v t (TasksCounter.add_Enqueued 1) /\ same_meta v v').
Proof.
  intros [Hrows Hthr Hinp Hdead Hexp Hded] Hst Hfresh Hwt Het Hfree.
  assert (Hold : forall u, mem u -> Task.Id u = Task.Id t -> False) by eauto.
  assert (Hst' : stored (mem_upd mem (Task.Id t) (Some t))
                   (set_table (<[task_key (Task.Id t) := t]> (v_table v)) v)).
  { intros u [[= <-]|[Hu Hne]]; cbn; [by rewrite lookup_insert_eq|].
    rewrite lookup_insert_ne; [by apply Hst|]. intros E. apply Hne. symmetry.
    apply task_key_inj; [apply Hwt|by apply wf_Id, (rows_wf _ Hrows)|done]. }
  unfold createTask. vstep. vstep. cbv beta. vstep.
  eapply wpv_mono; [by eapply wpv_claim_dedupe|]. intros [] v1 (D & -> & HD). cbn.
  vstep. set (w := set_dedupe D _).
  assert (Hw : wpv (if bool_decide (Task.ThreadId t = [])
       then queueIndex_Add (task_pk t) (queueIndexItem (Task.ScheduledAt t) (task_n t))
       else attachTaskToThread t) w
       (fun _ w' => thr_post' (mem_upd mem (Task.Id t) (Some t)) w w')).
  { case_bool_decide as Hth.
    - vsteps. change (task_pk t ++ _) with (qkey t). split.
      + apply (threads_ok_unthreaded mem w); [by intros u Hu E; destruct (Hold u)| | |].
        * intros ? [= <-] [Hn _]. done.
        * by eapply threads_ok_fields; [..|exact Hthr].
        * eapply image_upd_add; [by intros u Hu E; destruct (Hold u)|apply Hthr|].
          intros k. cbn. assert (queued (v_thr v) t).
          { split; [done|]. left. intros Hn. done. }
          set_solver.
      + by exists (v_thr w), ({[qkey t]} ∪ v_queue w), (v_tidx w).
    - apply wpv_attachTaskToThread; try done.
      + by apply stored_readable.
      + by eapply threads_ok_fields; [..|exact Hthr]. }
  eapply wpv_mono; [exact Hw|]. intros [] w' [Hok (T & Q & X & ->)]. vsteps. cbn.
  split; [|by repeat split]. split; cbn.
  - apply rows_upd; [done|by intros ? [= <-]].
  - by eapply threads_ok_fields; [..|exact Hok].
  - eapply image_upd_add; [by intros u Hu E; destruct (Hold u)|done|]. intros k. cbn.
    unfold enqueued, in_progress in *. intuition congruence.
  - eapply image_upd_add; [by intros u Hu E; destruct (Hold u)|done|]. intros k. cbn.
    unfold enqueued, dead in *. intuition congruence.
  - eapply image_upd_add; [by intros u Hu E; destruct (Hold u)|done|]. intros k. cbn.
    assert (has_deadline t) by (unfold has_deadline, enqueued in *; congruence).
    change (expiration_item _ _) with (exp_key t). set_solver.
  - done.
Qed.
(** ** Deletion *)

Definition gauge_add (st : TaskState) (n : Z) (c : TasksCounter.t) : TasksCounter.t :=
  match st with
  | TASK_STATE_ENQUEUED => TasksCounter.add_Enqueued n c
  | TASK_STATE_IN_PROGRESS => TasksCounter.add_InProgress n c
  | TASK_STATE_DEAD => TasksCounter.add_Dead n c
  | _ => c
  end.

Lemma stored_removed mem v t : stored mem v -> stored (mem_upd mem (Task.Id t) None) v.
Proof. intros Hs u [[=]|[Hu _]]. by apply Hs. Qed.

Lemma stored_fields mem v v' : v_table v' = v_table v -> stored mem v -> stored mem v'.
Proof. intros E Hs t Ht. rewrite E. by apply Hs. Qed.

Lemma ix_ok_removed mem v w t :
  ix_ok mem v -> mem t ->
  threads_ok (mem_upd mem (Task.Id t) None) w ->
  dedupe_ok (mem_upd mem (Task.Id t) None) (v_dedupe w) ->
  (forall k, k ∈ v_inp w <-> k ∈ v_inp v /\ (in_progress t -> k <> inp_key t)) ->
  (forall k, k ∈ v_dead w <-> k ∈ v_dead v /\ (dead t -> k <> dead_key t)) ->
  v_exp w = v_exp v ∖ {[exp_key t]} ->
  ix_ok (mem_upd mem (Task.Id t) None) w.
Proof.
  intros [Hrows Hthr Hinp Hdead Hexp Hded] Ht Hthr' Hded' HI HD HE. split; [|done| | | |done].
  - by apply rows_upd.
  - eapply image_removed; [apply inp_key_inj|done..].
  - eapply image_removed; [apply dead_key_inj|done..].
  - rewrite HE. eapply image_upd_del; [apply exp_key_inj|done| |done| |done|].
    + by apply (rows_wf _ Hrows).
    + intros u Hu _ E. f_equal. by apply (rows_fun _ Hrows).
    + intros k. cbn. set_solver.
Qed.

(** The index part of [deleteTask] on a live row. *)
Lemma image_queue_removed mem v t :
  rows mem -> mem t -> threads_ok mem v -> enqueued t ->
  image (mem_upd mem (Task.Id t) None) (queued (v_thr v)) qkey (v_queue v ∖ {[qkey t]}).
Proof.
  intros Hrows Ht Hthr He.
  eapply image_upd_del; [apply qkey_inj|done|by apply (rows_wf _ Hrows)|done| |apply Hthr|].
  - intros u Hu _ E. f_equal. by apply (rows_fun _ Hrows).
  - intros k. cbn. set_solver.
Qed.

(** A row that is not in the queue index leaves it as it is. *)
Lemma image_queue_not_enqueued mem v t new :
  rows mem -> mem t -> threads_ok mem v -> ~ enqueued t ->
  (forall u, new = Some u -> ~ enqueued u) ->
  image (mem_upd mem (Task.Id t) new) (queued (v_thr v)) qkey (v_queue v).
Proof.
  intros Hrows Ht Hthr He Hnew. eapply image_upd_add; [|apply Hthr|].
  - intros u Hu E [Hq _]. by rewrite (rows_fun _ Hrows u t) in Hq.
  - intros k. destruct new as [u|]; cbn; [|tauto].
    split; [by left|]. intros [?|[[Hq _] _]]; [done|]. by destruct (Hnew u).
Qed.

Lemma wpv_deleteTask mem v t reason :
  ix_ok mem v -> stored mem v -> mem t ->
  wpv (deleteTask t reason) v (fun _ v' =>
    ix_ok (mem_upd mem (Task.Id t) None) v' /\
    v_table v' = delete (task_key (Task.Id t)) (v_table v) /\
    v_cnt v' = bumped v t (fun c => gauge_add (Task.State t) (-1) (count_deletion reason c)) /\
    same_meta v v').
Proof.
  intros Hix Hst Ht. pose proof Hix as [Hrows Hthr Hinp Hdead Hexp Hded].
  unfold deleteTask. vstep. vstep. cbv beta zeta. vstep.
  set (c := count_deletion reason _).
  apply (wpv_mono _ _ (fun c' w => c' = gauge_add (Task.State t) (-1) c /\
    threads_ok (mem_upd mem (Task.Id t) None) w /\
    dedupe_ok (mem_upd mem (Task.Id t) None) (v_dedupe w) /\
    (forall k, k ∈ v_inp w <-> k ∈ v_inp v /\ (in_progress t -> k <> inp_key t)) /\
    (forall k, k ∈ v_dead w <-> k ∈ v_dead v /\ (dead t -> k <> dead_key t)) /\
    v_exp w = v_exp v /\ v_table w = v_table v /\ v_cnt w = v_cnt v /\ same_meta v w)).
  2:{ intros c' w (-> & H1 & H2 & H3 & H4 & E1 & E2 & E3 & E4). vsteps. cbn.
      rewrite E1, E2, E3. split; [|split; [done|split; [done|by destruct E4 as (?&?&?)]]].
      eapply ix_ok_removed; try done. by eapply threads_ok_fields; [..|exact H1]. }
  assert (Hlive : Task.State t <> TASK_STATE_DEAD -> forall w,
    v_dedupe w = v_dedupe v -> v_table w = v_table v -> v_tidx w = v_tidx v ->
    v_thr w = v_thr v ->
    image (mem_upd mem (Task.Id t) None) (queued (v_thr w)) qkey (v_queue w) ->
    forall st' : TasksCounter.t, wpv (release_dedupe t ;; detach_if_threaded t ;; mret st') w
      (fun c' w' => c' = st' /\ threads_ok (mem_upd mem (Task.Id t) None) w' /\
         dedupe_ok (mem_upd mem (Task.Id t) None) (v_dedupe w') /\
         exists D T Q X, w' = set_thr T (set_queue Q (set_tidx X (set_dedupe D w))))).
  { intros Hl w Ew1 Ew2 Ew3 Ew4 HQ st'. vstep.
    eapply wpv_mono; [apply (wpv_release_dedupe mem w t t None); try done; by rewrite Ew1|].
    intros [] w1 (D & -> & HD). vstep.
    eapply wpv_mono; [eapply (wpv_detach_if_threaded mem _ t t None); try done|].
    - eapply stored_removed, stored_fields, Hst. done.
    - cbn. rewrite Ew3. apply Hthr.
    - cbn. rewrite Ew4. apply Hthr.
    - intros [] w2 [Hok (T & Q & X & ->)]. apply wpv_ret. split; [done|]. split; [done|].
      split; [done|]. by exists D, T, Q, X. }
  pose proof (wf_State t (rows_wf _ Hrows _ Ht)) as Hws.
  unfold in_progress, dead. destruct (Task.State t) eqn:Est; try (exfalso; naive_solver).
  - vstep. vstep. change (task_pk t ++ _) with (qkey t).
    eapply wpv_mono; [apply Hlive; try done; cbn; by apply image_queue_removed|].
    intros c' w (-> & H1 & H2 & D & T & Q & X & ->). cbn.
    split; [done|]. split; [done|]. split; [done|].
    split; [intros; intuition congruence|]. split; [intros; intuition congruence|]. done.
  - vstep. vstep. change (task_pk t ++ _) with (inp_key t).
    eapply wpv_mono; [apply Hlive; try done; cbn; apply image_queue_not_enqueued; try done|].
    + unfold enqueued. congruence.
    + intros c' w (-> & H1 & H2 & D & T & Q & X & ->). cbn.
      split; [done|]. split; [done|]. split; [done|].
      split; [set_solver|]. split; [intros; intuition congruence|]. done.
  - vsteps. change (task_pk t ++ _) with (dead_key t). cbn.
    assert (Hnm : forall u, mem u -> Task.Id u = Task.Id t -> ~ member u /\ ~ claims u).
    { intros u Hu E. rewrite (rows_fun _ Hrows u t) by done. split; by intros [_ ?]. }
    split; [done|]. split.
    { eapply threads_ok_fields; [..|apply (threads_ok_unthreaded mem v (Task.Id t) None (v_queue v))];
        try done; [naive_solver|].
      apply image_queue_not_enqueued; try done. unfold enqueued. congruence. }
    split; [by apply dedupe_silent; [naive_solver|..]|].
    split; [intros; intuition congruence|]. split; [set_solver|]. done.
Qed.
(** ** Transitions that keep the row *)

Lemma threads_ok_replaced mem v t0 t1 (Q' : gset bytes) :
  rows mem -> mem t0 -> Task.State t0 <> TASK_STATE_DEAD -> Task.State t1 <> TASK_STATE_DEAD ->
  Task.Id t1 = Task.Id t0 -> Task.ThreadId t1 = Task.ThreadId t0 ->
  Task.ScheduledAt t1 = Task.ScheduledAt t0 -> wf_task t1 ->
  (in_progress t1 -> threaded t0 -> in_progress t0 \/ is_head (v_thr v) t0) ->
  (enqueued t1 -> enqueued t0) ->
  threads_ok mem v ->
  image (mem_upd mem (Task.Id t0) (Some t1)) (queued (v_thr v)) qkey Q' ->
  threads_ok (mem_upd mem (Task.Id t0) (Some t1)) (set_queue Q' v).
Proof.
  intros Hrows Ht0 Hl0 Hl1 EI ET ES Hwt1 Hp Hq [H1 H2 H3] HQ.
  set (mem' := mem_upd mem (Task.Id t0) (Some t1)).
  assert (Ek : threadkey t1 = threadkey t0) by (unfold threadkey; by rewrite EI, ET).
  assert (Ei : titem t1 = titem t0) by (unfold titem, task_n; by rewrite EI, ES).
  assert (Em : member t1 <-> member t0) by (unfold member, threaded; rewrite ET; tauto).
  assert (Hl : forall h h', mem h -> threadkey h' = threadkey h -> titem h' = titem h ->
                 least mem h -> least mem' h').
  { intros h h' Hh Ekh Eih Hlh u [[= <-]|[Hu _]] Hmu Eku; rewrite Eih.
    - rewrite Ei. apply Hlh; [done|by apply Em|congruence].
    - apply Hlh; [done..|congruence]. }
  split; cbn; [| |done].
  - apply image_upd_same; try done. unfold tkey. by rewrite Ek, Ei.
  - intros k. pose proof (H2 k) as Hk. destruct (v_thr v !! k) as [r|] eqn:HT; cycle 1.
    { intros u [[= <-]|[Hu _]] Hmu; [rewrite Ek; apply Hk; [done|by apply Em]|by apply Hk]. }
    destruct Hk as (h & Hh & Hmh & Hkh & (Hr1 & Hr2 & Hr3) & Hinp & Hle).
    destruct (decide (Task.Id h = Task.Id t0)) as [E|E].
    + assert (h = t0) as -> by (by apply (rows_fun _ Hrows)). exists t1.
      split; [by left|]. split; [by apply Em|]. split; [congruence|].
      split; [unfold head_row; rewrite ET, EI, ES; done|]. split.
      * intros u [[= <-]|[Hu Hne]] Hmu Hku Hpu; [done|]. by rewrite (Hinp u) in Hne.
      * intros He. by apply (Hl t0 t1); auto.
    + exists h. split; [by right|]. do 3 (split; [done|]). split.
      * intros u [[= <-]|[Hu Hne]] Hmu Hku Hpu; [|auto]. exfalso. apply E.
        destruct Hp as [Hp0|(r' & Hr' & E')]; [done|by apply Em in Hmu as [? _]| |].
        -- rewrite (Hinp t0); [done|done|by apply Em|congruence|done].
        -- rewrite <-Ek, Hku, HT in Hr'. congruence.
      * intros He. by apply (Hl h h); auto.
Qed.

Lemma threads_ok_touch mem v k (r r' : Thread.t) :
  v_thr v !! k = Some r -> Thread.ThreadId r' = Thread.ThreadId r ->
  Thread.HeadTaskId r' = Thread.HeadTaskId r -> Thread.ScheduledAt r' = Thread.ScheduledAt r ->
  threads_ok mem v -> threads_ok mem (set_thr (<[k := r']> (v_thr v)) v).
Proof.
  intros HT E1 E2 E3 [H1 H2 H3]. split; cbn; [done| |].
  - intros k'. destruct (decide (k' = k)) as [->|Hne].
    + rewrite lookup_insert_eq. pose proof (H2 k) as Hk. rewrite HT in Hk.
      destruct Hk as (h & ?&?&?& Hr &?&?). exists h. unfold head_row in *.
      rewrite E1, E2, E3. done.
    + rewrite lookup_insert_ne by done. apply H2.
  - eapply image_ext; [|exact H3]. intros t. unfold queued, is_head.
    enough (Hiff : (exists r0, v_thr v !! threadkey t = Some r0 /\ Thread.HeadTaskId r0 = Task.Id t)
      <-> (exists r0, <[k:=r']> (v_thr v) !! threadkey t = Some r0 /\ Thread.HeadTaskId r0 = Task.Id t))
      by tauto.
    destruct (decide (threadkey t = k)) as [->|Hne].
    + rewrite lookup_insert_eq, HT. split; intros (r0 & [= <-] & E); eexists; split; try done; congruence.
    + by rewrite lookup_insert_ne by done.
Qed.

Lemma ix_ok_replaced mem v w t0 t1 :
  ix_ok mem v -> mem t0 -> Task.Id t1 = Task.Id t0 -> wf_task t1 ->
  threads_ok (mem_upd mem (Task.Id t0) (Some t1)) w ->
  dedupe_ok (mem_upd mem (Task.Id t0) (Some t1)) (v_dedupe w) ->
  (forall k, k ∈ v_inp w <-> (k ∈ v_inp v /\ (in_progress t0 -> k <> inp_key t0)) \/
                             in_progress t1 /\ k = inp_key t1) ->
  (forall k, k ∈ v_dead w <-> (k ∈ v_dead v /\ (dead t0 -> k <> dead_key t0)) \/
                             dead t1 /\ k = dead_key t1) ->
  (forall k, k ∈ v_exp w <-> (k ∈ v_exp v /\ (has_deadline t0 -> k <> exp_key t0)) \/
                             has_deadline t1 /\ k = exp_key t1) ->
  ix_ok (mem_upd mem (Task.Id t0) (Some t1)) w.
Proof.
  intros [Hrows Hthr Hinp Hdead Hexp Hded] Ht EI Hw Hthr' Hded' HI HD HE.
  split; [|done| | | |done].
  - apply rows_upd; [done|]. by intros ? [= <-].
  - eapply image_replaced; [apply inp_key_inj|done..].
  - eapply image_replaced; [apply dead_key_inj|done..].
  - eapply image_replaced; [apply exp_key_inj|done..].
Qed.

(** The row [t0] became [t1] in the table. *)
Lemma stored_replaced mem v t0 t1 :
  rows mem -> mem t0 -> Task.Id t1 = Task.Id t0 -> wf_task t1 -> stored mem v ->
  stored (mem_upd mem (Task.Id t0) (Some t1))
    (set_table (<[task_key (Task.Id t1) := t1]> (v_table v)) v).
Proof.
  intros Hrows Ht0 EI Hw Hst u [[= <-]|[Hu Hne]]; cbn; [by rewrite lookup_insert_eq|].
  rewrite lookup_insert_ne; [by apply Hst|]. intros E. apply Hne. symmetry. rewrite <-EI.
  apply task_key_inj; [apply Hw|by apply wf_Id, (rows_wf _ Hrows)|done].
Qed.
(** What every transition of one row guarantees. *)
Definition row_step mem v (i : TaskId.t) (new : option Task.t)
    (f : TasksCounter.t -> TasksCounter.t) (t : Task.t) (v' : View) : Prop :=
  ix_ok (mem_upd mem i new) v' /\
  v_table v' = partial_alter (fun _ => new) (task_key i) (v_table v) /\
  v_cnt v' = bumped v t f /\ same_meta v v'.

Lemma is_i64_after now s : is_i64 (after_seconds now s).
Proof. apply is_i64_i64. Qed.

Lemma is_i64_0 : is_i64 0.
Proof. by split. Qed.

Lemma bumped_id v t : task_qpk t ∈ dom (v_cnt v) -> bumped v t id = v_cnt v.
Proof.
  intros [c Hc]%elem_of_dom. unfold bumped. by rewrite Hc, insert_id.
Qed.

(** *** Start: [ENQUEUED] to [IN_PROGRESS] *)

Definition started (now ka : Z) t : Task.t :=
  Task.set_State TASK_STATE_IN_PROGRESS
    (Task.set_Attempts (i32 (Task.Attempts (Task.set_VisibleAt (after_seconds now ka) t) + 1))
       (Task.set_VisibleAt (after_seconds now ka) t)).

Lemma wf_started now ka t : wf_task t -> enqueued t -> wf_task (started now ka t).
Proof.
  intros [???????? (Ha1 & Ha2 & _)] He. specialize (Ha2 He). unfold enqueued in He.
  destruct t; split; cbn in *; auto using is_i64_after.
  unfold retries in *. cbn in *. rewrite i32_id by lia. repeat split; try done; lia.
Qed.

Lemma started_fields now ka t :
  let t1 := started now ka t in
  Task.Id t1 = Task.Id t /\ Task.ThreadId t1 = Task.ThreadId t /\
  Task.ScheduledAt t1 = Task.ScheduledAt t /\ Task.DedupeKey t1 = Task.DedupeKey t /\
  Task.ExpiresAt t1 = Task.ExpiresAt t /\ Task.State t1 = TASK_STATE_IN_PROGRESS.
Proof. by destruct t. Qed.

Lemma wpv_startTask mem v now ka t :
  ix_ok mem v -> mem t -> queued (v_thr v) t ->
  wpv (startTask (TaskId.AccountId (Task.Id t)) (TaskId.QueueId (Task.Id t)) now ka t) v
    (fun t1 v' => t1 = started now ka t /\
       ix_ok (mem_upd mem (Task.Id t) (Some (started now ka t))) v' /\
       v_table v' = <[task_key (Task.Id t) := started now ka t]> (v_table v) /\
       v_cnt v' = v_cnt v /\ v_thr v' = v_thr v /\ same_meta v v').
Proof.
  intros Hix Ht Hq. pose proof Hix as [Hrows Hthr Hinp Hdead Hexp Hded].
  destruct (started_fields now ka t) as (EI & ET & ES & ED & EE & Est).
  pose proof Hq as [He Hhead]. unfold enqueued in He.
  unfold startTask. vsteps. fold (started now ka t). rewrite ?EI.
  change (tablePK _ _) with (task_pk t). 
  change (task_pk t ++ queueIndexItem _ (task_n t)) with (qkey t).
  change (expiration_item _ _) with (exp_key t).
  replace (task_pk t ++ inProgressIndexItem _ _) with (inp_key (started now ka t))
    by (unfold inp_key, task_pk, task_n; by rewrite EI).
  split; [done|]. split; [|by repeat split]. eapply ix_ok_replaced; try done; cbn.
  - by apply wf_started; [apply (rows_wf _ Hrows)|].
  - eapply threads_ok_fields;
      [..|apply (threads_ok_replaced mem v t (started now ka t) (v_queue v ∖ {[qkey t]}))]; try done.
    + congruence.
    + congruence.
    + by apply wf_started; [apply (rows_wf _ Hrows)|].
    + intros _ Hth. right. by destruct Hhead.
    + eapply image_replaced; [apply qkey_inj|done|done|done| |apply Hthr|].
      * by apply wf_started; [apply (rows_wf _ Hrows)|].
      * intros k. assert (~ queued (v_thr v) (started now ka t)).
        { intros [Hn _]. unfold enqueued in Hn. congruence. }
        set_solver.
  - eapply dedupe_same; try done. unfold claims. rewrite ED, Est, He. naive_solver.
  - intros k. unfold in_progress. rewrite He, Est. set_solver.
  - intros k. unfold dead. rewrite He, Est. set_solver.
  - intros k. unfold has_deadline. rewrite He, Est. set_solver.
Qed.

(** *** Heartbeat: a new visibility deadline *)

Definition renewed (now ka : Z) t : Task.t := Task.set_VisibleAt (after_seconds now ka) t.

Lemma renewed_fields now ka t :
  let t1 := renewed now ka t in
  Task.Id t1 = Task.Id t /\ Task.ThreadId t1 = Task.ThreadId t /\
  Task.ScheduledAt t1 = Task.ScheduledAt t /\ Task.DedupeKey t1 = Task.DedupeKey t /\
  Task.ExpiresAt t1 = Task.ExpiresAt t /\ Task.State t1 = Task.State t /\
  Task.LastFailedAt t1 = Task.LastFailedAt t.
Proof. by destruct t. Qed.

(** An in-progress member is the head its thread row names. *)
Lemma in_progress_head mem v t :
  rows mem -> threads_ok mem v -> mem t -> threaded t -> in_progress t ->
  exists r, v_thr v !! threadkey t = Some r /\ head_row r t.
Proof.
  intros Hrows [_ H2 _] Ht Hth Hp. pose proof (H2 (threadkey t)) as Hk.
  assert (Hm : member t). { split; [done|]. unfold in_progress in Hp. congruence. }
  destruct (v_thr v !! threadkey t) as [r|]; [|by destruct (Hk t)].
  destruct Hk as (h & Hh & Hmh & Hkh & Hr & Hinp & _). exists r.
  by rewrite (Hinp t).
Qed.

Lemma wpv_heartbeatTask mem v now ka t :
  ix_ok mem v -> mem t -> in_progress t ->
  wpv (heartbeatTask t now ka) v (fun _ v' =>
    ix_ok (mem_upd mem (Task.Id t) (Some (renewed now ka t))) v' /\
    v_table v' = <[task_key (Task.Id t) := renewed now ka t]> (v_table v) /\
    v_cnt v' = v_cnt v /\ same_meta v v').
Proof.
  intros Hix Ht Hp. pose proof Hix as [Hrows Hthr Hinp Hdead Hexp Hded].
  destruct (renewed_fields now ka t) as (EI & ET & ES & ED & EE & Est & EL).
  set (t1 := renewed now ka t) in *.
  assert (Hw1 : wf_task t1).
  { destruct (rows_wf _ Hrows _ Ht). subst t1. destruct t; split; cbn in *; auto using is_i64_after. }
  unfold in_progress in Hp. unfold heartbeatTask. fold (renewed now ka t). fold t1.
  vstep. vstep. vstep. vstep. change (task_pk t ++ _) with (inp_key t). cbv zeta. rewrite EI, ET.
  set (w := set_table _ _). vstep.
  apply (wpv_mono _ _ (fun _ w' => threads_ok (mem_upd mem (Task.Id t) (Some t1)) w' /\
    exists T, w' = set_thr T w)).
  - assert (Hok : threads_ok (mem_upd mem (Task.Id t) (Some t1)) w).
    { eapply threads_ok_fields; [..|apply (threads_ok_replaced mem v t t1 (v_queue v))]; try done.
      - congruence.
      - congruence.
      - by left.
      - unfold enqueued. congruence.
      - apply image_queue_not_enqueued; try done; unfold enqueued; [congruence|].
        intros u [= <-]. congruence. }
    apply wpv_when; intros Hb; rewrite ?bool_decide_eq_true, ?bool_decide_eq_false in Hb.
    + destruct (in_progress_head mem v t) as (r & HT & Hr1 & Hr2 & Hr3); try done.
      vstep. eapply wpv_threads_Get; [exact HT|]. rewrite Hr2.
      replace (task_n t1) with (TaskId.TaskId (Task.Id t)) by (unfold task_n; by rewrite EI).
      rewrite Z.eqb_refl. cbn [negb]. vsteps.
      replace (threadIndexPK _ _ _) with (threadkey t)
        by (unfold threadkey; destruct r; cbn in *; congruence).
      split; [|by eexists]. by eapply (threads_ok_touch _ w); [exact HT|destruct r..|].
    + split; [done|]. exists (v_thr w). by destruct w.
  - intros [] w' [Hok (T & ->)]. vsteps. subst w. cbn.
    replace (task_pk t1 ++ _) with (inp_key t1) by done.
    split; [|by repeat split]. eapply ix_ok_replaced; try done; cbn.
    + by eapply threads_ok_fields; [..|exact Hok].
    + eapply dedupe_same; try done. unfold claims. by rewrite ED, Est.
    + intros k. unfold in_progress. rewrite Est, Hp. set_solver.
    + intros k. unfold dead. rewrite Est, Hp. set_solver.
    + intros k. unfold has_deadline. rewrite Est, Hp. set_solver.
Qed.
(** *** Retry: [IN_PROGRESS] back to [ENQUEUED] *)

Definition retried (now interval : Z) t : Task.t :=
  Task.set_VisibleAt 0
    (Task.set_LastFailedAt now
       (Task.set_ScheduledAt (after_seconds now interval)
          (Task.set_State TASK_STATE_ENQUEUED t))).

Lemma retried_fields now iv t :
  let t1 := retried now iv t in
  Task.Id t1 = Task.Id t /\ Task.ThreadId t1 = Task.ThreadId t /\
  Task.ScheduledAt t1 = after_seconds now iv /\ Task.DedupeKey t1 = Task.DedupeKey t /\
  Task.ExpiresAt t1 = Task.ExpiresAt t /\ Task.State t1 = TASK_STATE_ENQUEUED.
Proof. by destruct t. Qed.

(** The backoff before the next delivery. *)
Definition backoff t (iv : Z) : Prop :=
  exists rs, Task.RetryStrategy t = Some rs /\
    RetryStrategy.RetryIntervalsInSeconds rs !! Z.to_nat (Task.Attempts t - 1) = Some iv.

Lemma wpv_retry_interval v t iv :
  wf_task t -> in_progress t -> backoff t iv ->
  wpv (retry_interval t) v (fun i v' => i = iv /\ v' = v).
Proof.
  intros [???????? (Ha1 & _ & Ha2)] Hp (rs & Ers & Hiv). specialize (Ha2 Hp).
  unfold retry_interval. rewrite Ers. apply wpv_bind, wpv_ret. cbn.
  unfold retries in *. rewrite Ers in *. rewrite i32_id by lia.
  replace (Task.Attempts t - 1 <? 0) with false by lia. rewrite Hiv. by apply wpv_ret.
Qed.

Lemma wf_retried now iv t :
  wf_task t -> backoff t iv -> in_progress t -> is_i64 now -> wf_task (retried now iv t).
Proof.
  intros [???????? (Ha1 & _ & Ha2)] (rs & Ers & Hiv) Hp Hn. specialize (Ha2 Hp).
  apply lookup_lt_Some in Hiv. destruct t; split; cbn in *; auto using is_i64_after, is_i64_0.
  unfold retries in *. cbn in *. rewrite Ers in *. repeat split; try done; lia.
Qed.

Lemma wpv_failTaskToRetry mem v now iv t :
  ix_ok mem v -> stored mem v -> mem t -> in_progress t -> is_i64 now -> backoff t iv ->
  (threaded t -> after_seconds now iv <> Task.ScheduledAt t) ->
  wpv (failTaskToRetry t now) v (fun _ v' =>
    ix_ok (mem_upd mem (Task.Id t) (Some (retried now iv t))) v' /\
    v_table v' = <[task_key (Task.Id t) := retried now iv t]> (v_table v) /\
    v_cnt v' = bumped v t (fun c => gauge_add TASK_STATE_ENQUEUED 1
                                      (gauge_add TASK_STATE_IN_PROGRESS (-1) c)) /\
    same_meta v v').
Proof.
  intros Hix Hst Ht Hp Hnow Hb Hne. pose proof Hix as [Hrows Hthr Hinp Hdead Hexp Hded].
  destruct (retried_fields now iv t) as (EI & ET & ES & ED & EE & Est).
  assert (Hw1 : wf_task (retried now iv t))
    by (apply wf_retried; try done; by apply (rows_wf _ Hrows)).
  set (t1 := retried now iv t) in *.
  unfold failTaskToRetry. vstep. vstep. change (task_pk t ++ _) with (inp_key t). vstep.
  eapply wpv_mono; [eapply (wpv_retry_interval _ t iv); try done; by apply (rows_wf _ Hrows)|].
  intros ? ? [-> ->]. fold (retried now iv t). fold t1. vstep. vstep. vstep. vstep. vstep.
  cbv zeta. rewrite EI, ET, EE. change (expiration_item _ _) with (exp_key t).
  set (w := set_exp _ _).
  assert (Hstw : stored (mem_upd mem (Task.Id t) (Some t1)) w).
  { eapply stored_fields; [|by apply (stored_replaced mem v t t1)]. cbn. by rewrite EI. }
  apply (wpv_mono _ _ (fun _ w' => thr_post' (mem_upd mem (Task.Id t) (Some t1)) w w')).
  - case_bool_decide as Hth.
    + vsteps. replace (task_pk t1 ++ _) with (qkey t1) by done.
      split; [|by exists (v_thr w), ({[qkey t1]} ∪ v_queue w), (v_tidx w)].
      apply (threads_ok_unthreaded mem w).
      * intros u Hu E [Hn _]. by rewrite (rows_fun _ Hrows u t) in Hn.
      * intros ? [= <-] [Hn _]. unfold threaded in Hn. congruence.
      * by eapply threads_ok_fields; [..|exact Hthr].
      * eapply image_upd_add; [|apply Hthr|].
        -- intros u Hu E [Hn _]. rewrite (rows_fun _ Hrows u t) in Hn by done.
           unfold enqueued, in_progress in *. congruence.
        -- intros k. cbn. assert (queued (v_thr v) t1).
           { split; [done|]. left. unfold threaded. rewrite ET. auto. }
           set_solver.
    + vstep. eapply wpv_mono; [apply (wpv_rescheduleTaskInThread mem w t t1); try done|].
      * split; [done|]. unfold in_progress in Hp. congruence.
      * intros _. rewrite ES. by apply Hne.
      * unfold enqueued, in_progress in *. congruence.
      * by apply stored_readable.
      * by eapply threads_ok_fields; [..|exact Hthr].
      * intros [] w' [Hok (T & Q & X & ->)].
        assert (Hr : is_Some (T !! threadkey t)).
        { pose proof (to_rows _ _ Hok (threadkey t)) as Hk. cbn in Hk.
          destruct (T !! threadkey t); [done|]. destruct (Hk t1); [by left| |].
          - split; [unfold threaded; congruence|congruence].
          - unfold threadkey. by rewrite EI, ET. }
        destruct Hr as [r Hr]. vstep. eapply wpv_threads_Get; [exact Hr|]. vsteps. cbn [v_thr set_thr].
        pose proof (to_rows _ _ Hok (threadkey t)) as Hk. cbn in Hk. rewrite Hr in Hk.
        destruct Hk as (h & Hh & _ & Hkh & (Hr1 & _ & _) & _).
        replace (threadIndexPK _ _ _) with (threadkey t).
        2:{ apply threadkey_inj in Hkh as (E1 & E2 & E3).
            - unfold threadkey. destruct r. cbn in *. congruence.
            - apply (rows_wf (mem_upd mem (Task.Id t) (Some t1))); [|done].
              apply rows_upd; [done|]. by intros ? [= <-].
            - by apply (rows_wf _ Hrows). }
        split; [|by eexists _, Q, X].
        by eapply (threads_ok_touch _ (set_thr T _)); [exact Hr|destruct r..|].
  - intros [] w' [Hok (T & Q & X & ->)]. vsteps. subst w. cbn.
    split; [|split; [done|split; [|by repeat split]]].
    2:{ unfold bumped, task_qpk. cbn. by rewrite EI. }
    assert (HdE : has_deadline t1) by (unfold has_deadline; congruence).
    assert (HdN : ~ has_deadline t) by (unfold has_deadline, in_progress in *; congruence).
    assert (Ek : exp_key t1 = exp_key t) by (unfold exp_key; congruence).
    eapply ix_ok_replaced; try done; cbn.
    + by eapply threads_ok_fields; [..|exact Hok].
    + eapply dedupe_same; try done. unfold claims. rewrite ED, Est, Hp. naive_solver.
    + intros k. unfold in_progress in *. rewrite Hp, Est. set_solver.
    + intros k. unfold dead. rewrite Hp, Est. set_solver.
    + intros k. rewrite Ek. set_solver.
Qed.
(** *** Death: [IN_PROGRESS] to [DEAD] *)

Definition died (now retention : Z) t : Task.t :=
  let t1 := Task.set_LastFailedAt now (Task.set_State TASK_STATE_DEAD t) in
  Task.set_ExpiresAt (after_seconds (Task.LastFailedAt t1) retention) t1.

Lemma died_fields now ret t :
  let t1 := died now ret t in
  Task.Id t1 = Task.Id t /\ Task.ThreadId t1 = Task.ThreadId t /\
  Task.ScheduledAt t1 = Task.ScheduledAt t /\ Task.DedupeKey t1 = Task.DedupeKey t /\
  Task.State t1 = TASK_STATE_DEAD /\ Task.LastFailedAt t1 = now /\
  Task.ExpiresAt t1 = after_seconds now ret.
Proof. by destruct t. Qed.

Lemma wf_died now ret t : wf_task t -> is_i64 now -> wf_task (died now ret t).
Proof.
  intros [???????? (Ha1 & _ & _)] Hn. destruct t; split; cbn in *; auto using is_i64_after.
  unfold retries in *. cbn in *. repeat split; try done; lia.
Qed.

(** [failTaskToDead] up to and including the counters. *)
Definition killTask t (now : Z) (dlq : DeadLetterQueueConfig.t) : M Txn TasksCounter.t :=
  let a := TaskId.AccountId (Task.Id t) in
  let q := TaskId.QueueId (Task.Id t) in
  inProgressIndex_Delete (task_pk t) (inProgressIndexItem (Task.VisibleAt t) (task_n t)) ;;
  let t1 := died now (DeadLetterQueueConfig.RetentionPeriodInSeconds dlq) t in
  tasks_set t1 ;;
  expiration_add (Task.Id t1) (Task.ExpiresAt t1) ;;
  release_dedupe t1 ;;
  detach_if_threaded t1 ;;
  deadTasksIndex_Add (task_pk t1) (deadTasksIndexItem (Task.LastFailedAt t1) (task_n t1)) ;;
  counters ← counters_Get a q;
  let counters := TasksCounter.add_Dead 1 (TasksCounter.add_InProgress (-1) counters) in
  counters_Set a q counters ;;
  mret counters.

Lemma wpv_killTask mem v now dlq t :
  let t1 := died now (DeadLetterQueueConfig.RetentionPeriodInSeconds dlq) t in
  let f c := gauge_add TASK_STATE_DEAD 1 (gauge_add TASK_STATE_IN_PROGRESS (-1) c) in
  ix_ok mem v -> stored mem v -> mem t -> in_progress t -> is_i64 now ->
  wpv (killTask t now dlq) v (fun c v' =>
    c = f (default TasksCounter.zero (v_cnt v !! task_qpk t)) /\
    ix_ok (mem_upd mem (Task.Id t) (Some t1)) v' /\
    v_table v' = <[task_key (Task.Id t) := t1]> (v_table v) /\
    v_cnt v' = bumped v t f /\ same_meta v v').
Proof.
  intros t1 f Hix Hst Ht Hp Hn. pose proof Hix as [Hrows Hthr Hinp Hdead Hexp Hded].
  destruct (died_fields now (DeadLetterQueueConfig.RetentionPeriodInSeconds dlq) t)
    as (EI & ET & ES & ED & Est & EL & _). fold t1 in EI, ET, ES, ED, Est, EL.
  assert (Hw1 : wf_task t1) by (apply wf_died; [by apply (rows_wf _ Hrows)|done]).
  assert (Hl : Task.State t <> TASK_STATE_DEAD) by (unfold in_progress in Hp; congruence).
  assert (Hnew : forall u, Some t1 = Some u -> dead u) by (by intros ? [= <-]).
  unfold killTask. fold t1. vstep. vstep. vstep. vstep. vstep. vstep.
  change (task_pk t ++ _) with (inp_key t). rewrite EI. set (w := set_exp _ _). vstep.
  eapply wpv_mono; [by apply (wpv_release_dedupe mem w t t1 (Some t1))|].
  intros [] ? (D & -> & HD). vstep.
  eapply wpv_mono; [apply (wpv_detach_if_threaded mem _ t t1 (Some t1)); try done|].
  - intros u [[=]|[Hu Hne]]. cbn. rewrite lookup_insert_ne; [by apply Hst|]. intros E.
    apply Hne. symmetry. apply task_key_inj; [by apply wf_Id, (rows_wf _ Hrows)..|done].
  - apply Hthr.
  - apply Hthr.
  - apply (image_queue_not_enqueued mem v); try done. unfold enqueued, in_progress in *. congruence.
  - intros [] ? [Hok (T & Q & X & ->)]. vsteps. cbn.
    split; [done|]. split; [|by repeat split].
    replace (task_pk t1 ++ deadTasksIndexItem _ _) with (dead_key t1) by (by unfold dead_key; rewrite EL).
    eapply ix_ok_replaced; try done; cbn.
    + by eapply threads_ok_fields; [..|exact Hok].
    + intros k. unfold in_progress in *. rewrite Hp, Est. set_solver.
    + intros k. unfold dead, in_progress in *. rewrite Hp, Est. set_solver.
    + intros k. unfold has_deadline, in_progress in *. rewrite Hp, Est.
      change (expiration_item _ _) with (expiration_item (Task.ExpiresAt t1) (Task.Id t)).
      rewrite <-EI. change (expiration_item _ _) with (exp_key t1). set_solver.
Qed.
End lifecycle.
