(* ===== verification/TasksCounts.v ===== *)
(** * Counters

    The gauges of a queue's counter row count the rows of the task table, and
    every id in the table is covered by the queue's id sequence.  [Inv] is the
    whole invariant; [Inv_step] turns one row transition into preservation of
    it. *)

From S2P Require Export TasksLifecycle.

Section counts.
Context {U : Utils} {UO : UtilsOk U} {H : Honey} {HO : HoneyOk H}.
Implicit Types (t u : Task.t) (v : View) (m : gmap bytes Task.t).

Definition in_queue (a q : Z) t : Prop :=
  TaskId.AccountId (Task.Id t) = a /\ TaskId.QueueId (Task.Id t) = q.

Definition counted (a q : Z) (st : TaskState) t : Prop := in_queue a q t /\ Task.State t = st.

#[global] Instance counted_dec a q st t : Decision (counted a q st t).
Proof. unfold counted, in_queue. apply _. Defined.

(** The number of rows of queue [(a, q)] in state [st]. *)
Definition count m (a q : Z) (st : TaskState) : Z :=
  Z.of_nat (size (filter (fun kt => counted a q st kt.2) m)).

Definition ind (a q : Z) (st : TaskState) (o : option Task.t) : Z :=
  match o with
  | Some t => if decide (counted a q st t) then 1 else 0
  | None => 0
  end.

#[global] Instance in_queue_dec a q t : Decision (in_queue a q t).
Proof. unfold in_queue. apply _. Defined.

(** Two versions of one row count towards the same queue. *)
Lemma ind_version a q st t0 t1 :
  Task.Id t1 = Task.Id t0 ->
  ind a q st (Some t1) =
    if decide (in_queue a q t0) then (if decide (Task.State t1 = st) then 1 else 0) else 0.
Proof.
  intros E. unfold ind, counted, in_queue. repeat case_decide; naive_solver congruence.
Qed.

Lemma count_insert_fresh m k t a q st :
  m !! k = None -> count (<[k := t]> m) a q st = count m a q st + ind a q st (Some t).
Proof.
  intros Hk. unfold count, ind. destruct (decide (counted a q st t)) as [Hc|Hc].
  - rewrite map_filter_insert_True by done.
    rewrite map_size_insert_None; [lia|]. apply map_lookup_filter_None. by left.
  - rewrite map_filter_insert_False, delete_id by done. lia.
Qed.

Lemma count_delete m k a q st :
  count (delete k m) a q st = count m a q st - ind a q st (m !! k).
Proof.
  destruct (m !! k) as [t|] eqn:Hk.
  - rewrite <-(insert_delete_id m k t) at 2 by done.
    rewrite count_insert_fresh by apply lookup_delete_eq. lia.
  - rewrite delete_id by done. cbn. lia.
Qed.

Lemma count_insert m k t a q st :
  count (<[k := t]> m) a q st = count m a q st - ind a q st (m !! k) + ind a q st (Some t).
Proof.
  rewrite <-insert_delete_eq, count_insert_fresh by apply lookup_delete_eq.
  by rewrite count_delete.
Qed.

Lemma count_nonneg m a q st : 0 <= count m a q st.
Proof. unfold count. lia. Qed.

(** A queue whose count is zero has no row in that state. *)
Lemma count_pos m k t a q st : m !! k = Some t -> counted a q st t -> 0 < count m a q st.
Proof.
  intros Hk Hc. rewrite <-(insert_delete_id m k t), count_insert_fresh
    by (done || apply lookup_delete_eq).
  pose proof (count_nonneg (delete k m) a q st). cbn. rewrite decide_True by done. lia.
Qed.

Definition gauge (c : TasksCounter.t) (st : TaskState) : Z :=
  match st with
  | TASK_STATE_ENQUEUED => TasksCounter.EnqueuedTasksCount c
  | TASK_STATE_IN_PROGRESS => TasksCounter.InProgressTasksCount c
  | TASK_STATE_DEAD => TasksCounter.DeadTasksCount c
  | _ => 0
  end.

Definition gauged (st : TaskState) : Prop :=
  st = TASK_STATE_ENQUEUED \/ st = TASK_STATE_IN_PROGRESS \/ st = TASK_STATE_DEAD.

Definition counter_of v (a q : Z) : TasksCounter.t :=
  default TasksCounter.zero (v_cnt v !! queue_tablePK a q).

(** Each gauge is the number of rows, up to [off]. *)
Definition counts_off v (off : Z -> Z -> TaskState -> Z) : Prop :=
  forall a q st, is_u64 a -> is_u64 q -> gauged st ->
    gauge (counter_of v a q) st = i64 (count (v_table v) a q st + off a q st).

Definition no_off (a q : Z) (st : TaskState) : Z := 0.

Lemma gauge_gauge_add c st st' n :
  gauged st -> gauge (gauge_add st' n c) st =
    if decide (st = st') then i64 (gauge c st + n) else gauge c st.
Proof.
  intros Hst. destruct c as [e i d p x].
  destruct Hst as [->|[->| ->]]; destruct st'; cbn; by repeat case_decide.
Qed.

Lemma gauge_count_deletion reason c st : gauge (count_deletion reason c) st = gauge c st.
Proof. by destruct reason, c, st. Qed.

Lemma queue_tablePK_inj a q a' q' :
  is_u64 a -> is_u64 q -> is_u64 a' -> is_u64 q' ->
  queue_tablePK a q = queue_tablePK a' q' -> a = a' /\ q = q'.
Proof. rewrite !queue_tablePK_eq, <-!tablePK_eq. apply tablePK_inj. Qed.

(** ** The task id sequence *)

Definition seq_of v (a q : Z) : Z :=
  QueueState.TaskIdSequence (default QueueState.zero (v_qst v !! queue_tablePK a q)).

(** ** The invariant *)

(** The counters may be off by [off] and the ids are bounded by [sq]: a
    handler breaks and restores these two while it runs. *)
Record Inv_gen v (off : Z -> Z -> TaskState -> Z) (sq : Z -> Z -> Z) : Prop := {
  ig_table : wf_table (v_table v);
  ig_ix : ix_ok (has (v_table v)) v;
  ig_counts : counts_off v off;
  ig_seq t : has (v_table v) t ->
    task_n t <= sq (TaskId.AccountId (Task.Id t)) (TaskId.QueueId (Task.Id t));
}.

Record Inv v : Prop := {
  inv_gen : Inv_gen v no_off (seq_of v);
  inv_seq_u64 k st : v_qst v !! k = Some st -> is_u64 (QueueState.TaskIdSequence st);
}.

Lemma seq_of_meta v v' : same_meta v v' -> seq_of v' = seq_of v.
Proof. unfold seq_of. by intros (-> & _ & _). Qed.

Lemma stored_has v : stored (has (v_table v)) v.
Proof. intros t Ht. exact Ht. Qed.

Lemma has_wf v off sq t : Inv_gen v off sq -> has (v_table v) t -> wf_task t.
Proof. intros [Ht _ _ _] Hh. by apply (rows_wf _ (rows_has _ Ht)). Qed.

(** *** Counter updates *)

(** [f] moves each gauge by [d], wrapping at 64 bits. *)
Definition additive (f : TasksCounter.t -> TasksCounter.t) (d : TaskState -> Z) : Prop :=
  forall c st, gauged st -> is_i64 (gauge c st) -> gauge (f c) st = i64 (gauge c st + d st).

Lemma additive_gauge_add st0 n :
  additive (gauge_add st0 n) (fun st => if decide (st = st0) then n else 0).
Proof.
  intros c st Hst Hc. rewrite gauge_gauge_add by done. case_decide; [done|].
  rewrite Z.add_0_r. by rewrite i64_id.
Qed.

Lemma additive_count_deletion reason : additive (count_deletion reason) (fun _ => 0).
Proof. intros c st Hst Hc. by rewrite gauge_count_deletion, Z.add_0_r, i64_id. Qed.

Lemma additive_id : additive id (fun _ => 0).
Proof. intros c st Hst Hc. by rewrite Z.add_0_r, i64_id. Qed.

Lemma additive_comp f g d e :
  additive f d -> additive g e -> additive (fun c => f (g c)) (fun st => e st + d st).
Proof.
  intros Hf Hg c st Hst Hc. rewrite Hf, Hg by (done || rewrite Hg by done; auto).
  rewrite i64_i64_add. f_equal. lia.
Qed.

(** One row changes while its queue's counters are moved by [d]. *)
Lemma counts_step v v' t off off' f d :
  wf_id (Task.Id t) -> additive f d ->
  (forall a q st, count (v_table v') a q st =
     count (v_table v) a q st + off a q st - off' a q st +
     (if decide (in_queue a q t) then d st else 0)) ->
  v_cnt v' = bumped v t f -> counts_off v off -> counts_off v' off'.
Proof.
  intros (Hw1 & Hw2 & _) Hf Hc Eb Ho a q st Ha Hq Hst. unfold counter_of. rewrite Eb. unfold bumped.
  specialize (Hc a q st). specialize (Ho a q st Ha Hq Hst). unfold counter_of in Ho.
  destruct (decide (in_queue a q t)) as [[<- <-]|Hn].
  - change (queue_tablePK (TaskId.AccountId _) _) with (task_qpk t) in *.
    rewrite lookup_insert_eq. cbn [default from_option id].
    rewrite Hf by (done || rewrite Ho; auto). rewrite Ho.
    rewrite i64_i64_add. f_equal. rewrite Hc. lia.
  - rewrite lookup_insert_ne; [rewrite Ho; f_equal; lia|]. intros E. apply Hn.
    by apply queue_tablePK_inj in E.
Qed.

(** ** Transitions of one row *)

Lemma Inv_gen_removed v v' off off' sq t f d :
  Inv_gen v off sq -> has (v_table v) t ->
  ix_ok (mem_upd (has (v_table v)) (Task.Id t) None) v' ->
  v_table v' = delete (task_key (Task.Id t)) (v_table v) ->
  v_cnt v' = bumped v t f -> additive f d ->
  (forall a q st, off' a q st = off a q st + ind a q st (Some t) +
     (if decide (in_queue a q t) then d st else 0)) ->
  Inv_gen v' off' sq.
Proof.
  intros Hinv Ht Hix Et Ec Hf Hoff. pose proof (has_wf _ _ _ _ Hinv Ht) as Hw.
  destruct Hinv as [Hwf _ Hc Hs]. split.
  - rewrite Et. by apply wf_table_delete.
  - eapply ix_ok_ext; [|done]. intros u. rewrite Et. symmetry. by apply has_delete.
  - eapply counts_step; [apply Hw|exact Hf| |done..]. intros a q st.
    rewrite Et, count_delete, Hoff, Ht. lia.
  - intros u Hu. apply Hs. unfold has in *. rewrite Et in Hu.
    by apply lookup_delete_Some in Hu as [_ ?].
Qed.

Lemma Inv_gen_written v v' off off' sq t f d :
  Inv_gen v off sq -> wf_task t ->
  ix_ok (mem_upd (has (v_table v)) (Task.Id t) (Some t)) v' ->
  v_table v' = <[task_key (Task.Id t) := t]> (v_table v) ->
  v_cnt v' = bumped v t f -> additive f d ->
  (forall a q st, off' a q st = off a q st + ind a q st (v_table v !! task_key (Task.Id t)) -
     ind a q st (Some t) + (if decide (in_queue a q t) then d st else 0)) ->
  task_n t <= sq (TaskId.AccountId (Task.Id t)) (TaskId.QueueId (Task.Id t)) ->
  Inv_gen v' off' sq.
Proof.
  intros [Hwf _ Hc Hs] Hw Hix Et Ec Hf Hoff Hn. split.
  - rewrite Et. by apply wf_table_insert.
  - eapply ix_ok_ext; [|done]. intros u. rewrite Et. symmetry. by apply has_insert.
  - eapply counts_step; [apply Hw|exact Hf| |done..]. intros a q st.
    rewrite Et, count_insert, Hoff. lia.
  - intros u Hu. unfold has in Hu. rewrite Et in Hu.
    apply lookup_insert_Some in Hu as [[_ <-]|[_ Hu]]; [done|]. by apply Hs.
Qed.

(** The counters are left alone. *)
Lemma counts_unbumped v v' off off' :
  (forall a q st, count (v_table v') a q st =
     count (v_table v) a q st + off a q st - off' a q st) ->
  v_cnt v' = v_cnt v -> counts_off v off -> counts_off v' off'.
Proof.
  intros Hc Ec Ho a q st Ha Hq Hst. unfold counter_of. rewrite Ec.
  specialize (Ho a q st Ha Hq Hst). unfold counter_of in Ho. rewrite Ho, Hc. f_equal. lia.
Qed.

Lemma Inv_gen_rewritten v v' off off' sq t0 t1 :
  Inv_gen v off sq -> has (v_table v) t0 -> wf_task t1 -> Task.Id t1 = Task.Id t0 ->
  ix_ok (mem_upd (has (v_table v)) (Task.Id t0) (Some t1)) v' ->
  v_table v' = <[task_key (Task.Id t0) := t1]> (v_table v) -> v_cnt v' = v_cnt v ->
  (forall a q st, off' a q st = off a q st + ind a q st (Some t0) - ind a q st (Some t1)) ->
  Inv_gen v' off' sq.
Proof.
  intros [Hwf _ Hc Hs] Ht0 Hw EI Hix Et Ec Hoff. rewrite <-EI in Hix, Et. split.
  - rewrite Et. by apply wf_table_insert.
  - eapply ix_ok_ext; [|done]. intros u. rewrite Et. symmetry. by apply has_insert.
  - eapply counts_unbumped; [|done..]. intros a q st.
    rewrite Et, count_insert, Hoff, EI, Ht0. lia.
  - intros u Hu. unfold has in Hu. rewrite Et in Hu.
    apply lookup_insert_Some in Hu as [[_ <-]|[_ Hu]]; [|by apply Hs].
    unfold task_n. rewrite EI. by apply Hs.
Qed.
(** Queue state, token buckets and purge markers are not part of the
    invariant on rows. *)
Lemma Inv_gen_fields v v' off sq :
  v_table v' = v_table v -> v_dedupe v' = v_dedupe v -> v_queue v' = v_queue v ->
  v_inp v' = v_inp v -> v_dead v' = v_dead v -> v_exp v' = v_exp v ->
  v_thr v' = v_thr v -> v_tidx v' = v_tidx v -> v_cnt v' = v_cnt v ->
  Inv_gen v off sq -> Inv_gen v' off sq.
Proof.
  intros E1 E2 E3 E4 E5 E6 E7 E8 E9 [H1 [I1 I2 I3 I4 I5 I6] H3 H4].
  split; rewrite ?E1; try done.
  - split; rewrite ?E1, ?E2, ?E3, ?E4, ?E5, ?E6, ?E7, ?E8; try done.
    by apply (threads_ok_fields _ v).
  - intros a q st. unfold counter_of. rewrite E1, E9. apply H3.
Qed.

(** A new core satisfies the invariant. *)
Lemma Inv_empty : Inv empty_view.
Proof.
  assert (Hno : forall t, ~ has ∅ t) by (intros t; unfold has; by rewrite lookup_empty).
  split; [|intros k st; cbn; by rewrite lookup_empty]. split; cbn.
  - intros k t. by rewrite lookup_empty.
  - assert (Him : forall P key, image (has ∅) P key ∅).
    { intros P key k. split; [set_solver|]. intros (t & Ht & _). by destruct (Hno t). }
    split; cbn; auto.
    + split; intros t; naive_solver.
    + split; cbn; auto. intros k. rewrite lookup_empty. intros t Ht. by destruct (Hno t).
    + intros k n. rewrite lookup_empty. split; [done|]. intros (t & Ht & _). by destruct (Hno t).
  - intros a q st Ha Hq Hst. unfold counter_of. cbn. rewrite lookup_empty. unfold count. cbn.
    rewrite map_filter_empty, map_size_empty. by destruct Hst as [->|[->| ->]].
  - intros t Ht. by destruct (Hno t).
Qed.
End counts.
