(* ===== verification/TasksOps.v ===== *)
(** * Every transition of [core.go] keeps the invariant

    The lemmas of [TasksLifecycle] at the level of the whole invariant, each
    with what it does to the rows; then the composite operations: eviction
    from the dead-letter queue, failure handling and restarts. *)

From S2P Require Export TasksCounts.

Section ops.
Context {U : Utils} {UO : UtilsOk U} {H : Honey} {HO : HoneyOk H}.
Implicit Types (t u : Task.t) (v : View).

Ltac solve_off t :=
  let a := fresh "a" in let q := fresh "q" in let st := fresh "st" in
  intros a q st; unfold ind, counted, no_off;
  destruct (decide (in_queue a q t)); repeat case_decide; try lia; naive_solver congruence.

Lemma op_deleteTask v off sq t reason :
  Inv_gen v off sq -> has (v_table v) t ->
  wpv (deleteTask t reason) v (fun _ v' => Inv_gen v' off sq /\
    v_table v' = delete (task_key (Task.Id t)) (v_table v) /\ same_meta v v').
Proof.
  intros Hinv Ht. eapply wpv_mono;
    [apply (wpv_deleteTask (has (v_table v))); [apply Hinv|apply stored_has|done]|].
  intros [] v' (Hix & Et & Ec & Hm). split; [|done].
  eapply Inv_gen_removed; [done..| |].
  - apply (additive_comp (gauge_add (Task.State t) (-1)));
      [apply additive_gauge_add|apply additive_count_deletion].
  - solve_off t.
Qed.

Lemma op_createTask v off sq t :
  Inv_gen v off sq -> v_table v !! task_key (Task.Id t) = None -> wf_task t -> enqueued t ->
  (claims t -> v_dedupe v !! task_dedupePK t = None) ->
  task_n t <= sq (TaskId.AccountId (Task.Id t)) (TaskId.QueueId (Task.Id t)) ->
  wpv (createTask t) v (fun _ v' => Inv_gen v' off sq /\
    v_table v' = <[task_key (Task.Id t) := t]> (v_table v) /\ same_meta v v').
Proof.
  intros Hinv Hn Hw He Hc Hs. eapply wpv_mono;
    [apply (wpv_createTask (has (v_table v))); [apply Hinv|apply stored_has| |done..]|].
  - intros u Hu E. unfold has in Hu. rewrite E in Hu. congruence.
  - intros [] v' (Hix & Et & Ec & Hm). split; [|done].
    eapply Inv_gen_written; [done..| | |done].
    + apply (additive_gauge_add TASK_STATE_ENQUEUED).
    + rewrite Hn. unfold enqueued in He. solve_off t.
Qed.

Lemma op_heartbeatTask v off sq now ka t :
  Inv_gen v off sq -> has (v_table v) t -> in_progress t ->
  wpv (heartbeatTask t now ka) v (fun _ v' => Inv_gen v' off sq /\
    v_table v' = <[task_key (Task.Id t) := renewed now ka t]> (v_table v) /\ same_meta v v').
Proof.
  intros Hinv Ht Hp. destruct (renewed_fields now ka t) as (EI & _ & _ & _ & _ & Est & _).
  eapply wpv_mono; [apply (wpv_heartbeatTask (has (v_table v))); [apply Hinv|done..]|].
  intros [] v' (Hix & Et & Ec & Hm). split; [|done].
  eapply Inv_gen_rewritten; [done..| |done|done|done|done|].
  - destruct (has_wf _ _ _ _ Hinv Ht). destruct t; split; cbn in *; auto using is_i64_after.
  - intros a q st. rewrite (ind_version a q st t t), (ind_version a q st t (renewed now ka t)), Est
      by done. lia.
Qed.

Lemma op_startTask v off sq now ka t :
  Inv_gen v off sq -> has (v_table v) t -> queued (v_thr v) t ->
  wpv (startTask (TaskId.AccountId (Task.Id t)) (TaskId.QueueId (Task.Id t)) now ka t) v
    (fun t1 v' => t1 = started now ka t /\
       Inv_gen v' (fun a q st => off a q st + ind a q st (Some t) -
                                 ind a q st (Some (started now ka t))) sq /\
       v_table v' = <[task_key (Task.Id t) := started now ka t]> (v_table v) /\
       v_cnt v' = v_cnt v /\ v_thr v' = v_thr v /\ same_meta v v').
Proof.
  intros Hinv Ht Hq. destruct (started_fields now ka t) as (EI & _).
  eapply wpv_mono; [apply (wpv_startTask (has (v_table v))); [apply Hinv|done..]|].
  intros t1 v' (-> & Hix & Et & Ec & ET & Hm). split; [done|]. split; [|done].
  eapply Inv_gen_rewritten; [done..| |done|done|done|done|done].
  apply wf_started; [by apply (has_wf _ _ _ _ Hinv)|apply Hq].
Qed.

Lemma op_failTaskToRetry v off sq now iv t :
  Inv_gen v off sq -> has (v_table v) t -> in_progress t -> is_i64 now -> backoff t iv ->
  (threaded t -> after_seconds now iv <> Task.ScheduledAt t) ->
  wpv (failTaskToRetry t now) v (fun _ v' => Inv_gen v' off sq /\
    v_table v' = <[task_key (Task.Id t) := retried now iv t]> (v_table v) /\ same_meta v v').
Proof.
  intros Hinv Ht Hp Hn Hb Hne.
  destruct (retried_fields now iv t) as (EI & _ & _ & _ & _ & Est).
  assert (Ht' : v_table v !! task_key (Task.Id t) = Some t) by exact Ht.
  eapply wpv_mono;
    [apply (wpv_failTaskToRetry (has (v_table v)) v now iv);
       [apply Hinv|apply stored_has|done..]|].
  intros [] v' (Hix & Et & Ec & Hm). split; [|done].
  rewrite <-EI in Hix. rewrite <-EI in Et at 1.
  eapply (Inv_gen_written v v' off off sq (retried now iv t) (fun c =>
    gauge_add TASK_STATE_ENQUEUED 1 (gauge_add TASK_STATE_IN_PROGRESS (-1) c)));
    [done| |done|done| | | |].
  - apply wf_retried; try done. by apply (has_wf _ _ _ _ Hinv).
  - rewrite Ec. unfold bumped, task_qpk. by rewrite EI.
  - apply (additive_comp (gauge_add TASK_STATE_ENQUEUED 1)); apply additive_gauge_add.
  - intros a q st. rewrite EI, Ht', (ind_version a q st t t),
      (ind_version a q st t (retried now iv t)), Est, Hp by done.
    assert (Hiff : in_queue a q (retried now iv t) <-> in_queue a q t)
      by (unfold in_queue; by rewrite EI).
    rewrite (decide_ext _ _ _ _ Hiff). repeat case_decide; lia || congruence.
  - unfold task_n. rewrite EI. by apply Hinv.
Qed.
(** ** Reading the rows an index lists *)

(** [x] is the item of row [t] of queue [(a, q)] in an index over the rows
    in [P], ordered by [time]. *)
Definition fetched (m : gmap bytes Task.t) (P : Task.t -> Prop) (time : Task.t -> Z)
    (a q : Z) (x : bytes) t : Prop :=
  has m t /\ P t /\ in_queue a q t /\ x = queueIndexItem (time t) (task_n t).

Lemma index_item_fetched (m : gmap bytes Task.t) (P : Task.t -> Prop) (time : Task.t -> Z) (S : gset bytes) a q x :
  wf_table m -> is_u64 a -> is_u64 q ->
  image (has m) P (fun t => task_pk t ++ queueIndexItem (time t) (task_n t)) S ->
  tablePK a q ++ x ∈ S <-> exists t, fetched m P time a q x t.
Proof.
  intros Hm Ha Hq Hi. rewrite (Hi _). unfold fetched. split.
  - intros (t & Ht & HP & E). exists t. split; [done|]. split; [done|].
    apply app_eq_same_length in E as [E1 E2]; [|unfold task_pk; by rewrite !length_tablePK].
    apply Hm in Ht as [_ Ht]. destruct (wf_Id t Ht) as (?&?&?).
    apply tablePK_inj in E1 as [-> ->]; done.
  - intros (t & Ht & HP & [<- <-] & ->). by exists t.
Qed.

Lemma fetched_id m P time a q x t :
  wf_table m -> fetched m P time a q x t ->
  TaskId.mk a q (extractTaskIdFromIndexItem x) = Task.Id t.
Proof.
  intros Hm (Ht & _ & [<- <-] & ->). apply Hm in Ht as [_ Ht].
  destruct (wf_Id t Ht) as (?&?&?). rewrite queueIndexItem_eq, extractTaskId_item by done.
  unfold task_n. by destruct (Task.Id t).
Qed.

Lemma wpv_fetch P time a q items v :
  wf_table (v_table v) ->
  Forall (fun x => exists t, fetched (v_table v) P time a q x t) items ->
  wpv (for_map items (fun item => tasks_Get (TaskId.mk a q (extractTaskIdFromIndexItem item)))) v
    (fun ts v' => v' = v /\ Forall2 (fetched (v_table v) P time a q) items ts).
Proof.
  intros Hm Hall.
  apply (wpv_for_map _ (fun l ts v' => v' = v /\
    exists done, items = done ++ l /\ Forall2 (fetched (v_table v) P time a q) done ts)).
  - split; [done|]. by exists [].
  - intros x l ts ? [-> (done & -> & Hf)].
    apply Forall_app in Hall as [_ [[t Ht] _]%Forall_cons].
    rewrite (fetched_id _ _ _ _ _ _ _ Hm Ht). eapply wpv_tasks_Get; [apply Ht|].
    split; [done|]. exists (done ++ [x]). rewrite <-app_assoc. split; [done|].
    apply Forall2_app; [done|]. by constructor.
  - intros ts ? [-> (done & E & Hf)]. rewrite app_nil_r in E. by subst done.
Qed.

Lemma fetched_NoDup m P time a q items ts :
  Forall2 (fetched m P time a q) items ts -> NoDup items -> NoDup ts.
Proof.
  induction 1 as [|x t items ts Hx Hf IH]; intros Hnd; [constructor|].
  apply NoDup_cons in Hnd as [Hni Hnd]. constructor; [|auto]. intros Hin. apply Hni.
  apply list_elem_of_lookup in Hin as [i Hi].
  destruct (Forall2_lookup_r _ _ _ _ _ Hf Hi) as (y & Hy & Hfy).
  apply list_elem_of_lookup. exists i. rewrite Hy. f_equal.
  destruct Hx as (_ & _ & _ & ->), Hfy as (_ & _ & _ & ->). done.
Qed.

(** An index lists as many items as it has rows. *)
Lemma length_index_items m (P : Task.t -> Prop) time a q st items :
  wf_table m -> (forall t, wf_task t -> is_i64 (time t)) ->
  (forall t, P t <-> Task.State t = st) -> NoDup items ->
  (forall x, x ∈ items <-> exists t, fetched m P time a q x t) ->
  Z.of_nat (length items) = count m a q st.
Proof.
  intros Hm Htime HP Hnd Hi. unfold count.
  assert (Hp : items ≡ₚ (fun kt => queueIndexItem (time kt.2) (task_n kt.2)) <$>
            map_to_list (filter (fun kt => counted a q st kt.2) m)).
  { apply NoDup_Permutation; [done| |].
    - apply NoDup_fmap_2_strong; [|apply NoDup_map_to_list].
      intros [k t] [k' t'] Hk Hk' E. cbn in E.
      apply elem_of_map_to_list, map_lookup_filter_Some in Hk as [Hk [Hq _]].
      apply elem_of_map_to_list, map_lookup_filter_Some in Hk' as [Hk' [Hq' _]].
      destruct (Hm _ _ Hk) as [-> Hw], (Hm _ _ Hk') as [-> Hw'].
      destruct (wf_Id t Hw) as (?&?&?), (wf_Id t' Hw') as (?&?&?).
      rewrite !queueIndexItem_eq in E. apply index_item_inj in E as [_ E]; auto.
      cbn in *. destruct Hq, Hq'.
      assert (EI : Task.Id t = Task.Id t') by (apply Id_eq; congruence).
      rewrite EI in *. congruence.
    - intros x. rewrite Hi, list_elem_of_fmap. split.
      + intros (t & Ht & HPt & Hq & ->). exists (task_key (Task.Id t), t). split; [done|].
        apply elem_of_map_to_list, map_lookup_filter_Some. split; [done|]. split; [done|].
        by apply HP.
      + intros ([k t] & -> & Hk). apply elem_of_map_to_list, map_lookup_filter_Some in Hk as [Hk [Hq Hs]].
        destruct (Hm _ _ Hk) as [-> _]. exists t. cbn. repeat split; try done; [by apply HP|apply Hq..]. }
  rewrite Hp, length_fmap, length_map_to_list. done.
Qed.
(** ** Eviction from the dead-letter queue *)

Lemma same_meta_refl v : same_meta v v.
Proof. done. Qed.
Lemma same_meta_trans v1 v2 v3 : same_meta v1 v2 -> same_meta v2 v3 -> same_meta v1 v3.
Proof. intros (?&?&?) (?&?&?). repeat split; congruence. Qed.

Lemma op_delete_all v off sq ts reason a q st :
  Inv_gen v off sq -> Forall (fun t => has (v_table v) t /\ counted a q st t) ts -> NoDup ts ->
  wpv (for_each ts (fun t => deleteTask t reason)) v (fun _ v' => Inv_gen v' off sq /\
    same_meta v v' /\ (forall u, has (v_table v') u <-> has (v_table v) u /\ u ∉ ts) /\
    count (v_table v') a q st = count (v_table v) a q st - Z.of_nat (length ts)).
Proof.
  intros Hinv Hts Hnd.
  apply (wpv_for_each _ (fun l w => Inv_gen w off sq /\ same_meta v w /\
    exists gone, ts = gone ++ l /\
      (forall u, has (v_table w) u <-> has (v_table v) u /\ u ∉ gone) /\
      count (v_table w) a q st = count (v_table v) a q st - Z.of_nat (length gone))).
  - split; [done|]. split; [done|]. exists []. split; [done|]. split; [set_solver|cbn; lia].
  - intros t l w (Hw & Hm & gone & -> & Hrows & Hc).
    apply Forall_app in Hts as [_ [[Ht Hct] _]%Forall_cons].
    apply NoDup_app in Hnd as (_ & Hd & Hnd). apply NoDup_cons in Hnd as [_ _].
    assert (Htw : has (v_table w) t).
    { apply Hrows. split; [done|]. intros Hin. apply (Hd t Hin). set_solver. }
    eapply wpv_mono; [by apply op_deleteTask|]. intros [] w' (Hw' & Et & Hm').
    split; [done|]. split; [by eapply same_meta_trans|]. exists (gone ++ [t]).
    rewrite <-app_assoc. split; [done|]. split.
    + intros u. rewrite Et, has_delete; [|apply Hw|by apply (has_wf _ _ _ _ Hw)].
      unfold mem_upd. rewrite Hrows, not_elem_of_app, list_elem_of_singleton. split.
      * intros [[=]|[[Hu Hg] Hid]]. split; [done|]. split; [done|]. congruence.
      * intros (Hu & Hg & Hne). right. split; [done|]. intros E. apply Hne.
        unfold has in Hu, Ht. rewrite E in Hu. congruence.
    + rewrite Et, count_delete, Hc, Htw. cbn. rewrite decide_True by done.
      rewrite length_app. cbn. lia.
  - intros w (Hw & Hm & gone & E & Hrows & Hc). rewrite app_nil_r in E. subst gone. done.
Qed.

(** What is left of the dead-letter queue of [(a, q)] when its size is
    limited to [maxSize]. *)
Definition dead_item t : bytes := deadTasksIndexItem (Task.LastFailedAt t) (task_n t).

(** The prefix of a sorted index precedes what it leaves. *)
Lemma evict_order m n items oldest a q u w :
  StronglySorted blt items ->
  (forall x, x ∈ items <-> exists t, fetched m dead Task.LastFailedAt a q x t) ->
  Forall2 (fetched m dead Task.LastFailedAt a q) (take n items) oldest ->
  wf_table m -> u ∈ oldest -> has m w -> w ∉ oldest -> counted a q TASK_STATE_DEAD w ->
  blt (dead_item u) (dead_item w).
Proof.
  intros Hsort Hf Hold Hm Hu Hw Hnw [Hwq Hwd].
  apply list_elem_of_lookup in Hu as [i Hi].
  destruct (Forall2_lookup_r _ _ _ _ _ Hold Hi) as (x & Hx & Hux & _ & _ & ->).
  assert (Hxw : dead_item w ∈ items) by (apply Hf; by exists w).
  rewrite <-(take_drop n items) in Hxw, Hsort. apply elem_of_app in Hxw as [Hin|Hin].
  - exfalso. apply list_elem_of_lookup in Hin as [j Hj].
    destruct (Forall2_lookup_l _ _ _ _ _ Hold Hj) as (t & Ht & Hft). apply Hnw.
    replace w with t; [by eapply list_elem_of_lookup_2|].
    assert (Hfw : fetched m dead Task.LastFailedAt a q (dead_item w) w) by done.
    apply fetched_id in Hfw as E1; [|done]. apply fetched_id in Hft as E2; [|done].
    destruct Hft as (Ht' & _). unfold has in *. rewrite <-E2, E1 in Ht'. congruence.
  - eapply StronglySorted_app_1_elem_of; [exact Hsort| |exact Hin].
    by eapply list_elem_of_lookup_2.
Qed.

Lemma op_evict v off sq a q maxSize deadCount :
  Inv_gen v off sq -> is_u64 a -> is_u64 q ->
  wpv (evictExcessDeadTasks a q maxSize deadCount) v (fun _ v' => Inv_gen v' off sq /\
    same_meta v v' /\ (forall u, has (v_table v') u -> has (v_table v) u) /\
    (forall u, has (v_table v) u -> ~ counted a q TASK_STATE_DEAD u -> has (v_table v') u) /\
    (forall u w, has (v_table v) u -> ~ has (v_table v') u ->
       has (v_table v') w -> counted a q TASK_STATE_DEAD w -> blt (dead_item u) (dead_item w)) /\
    count (v_table v') a q TASK_STATE_DEAD =
      let c := count (v_table v) a q TASK_STATE_DEAD in
      if 0 <? maxSize then c - Z.max 0 (Z.min (i64 (deadCount - maxSize)) c) else c).
Proof.
  intros Hinv Ha Hq. unfold evictExcessDeadTasks.
  assert (Hskip : forall n : Z, n <= 0 \/ ~ 0 < maxSize ->
    n = i64 (deadCount - maxSize) ->
    count (v_table v) a q TASK_STATE_DEAD =
      let c := count (v_table v) a q TASK_STATE_DEAD in
      if 0 <? maxSize then c - Z.max 0 (Z.min (i64 (deadCount - maxSize)) c) else c).
  { intros n Hn <-. cbv zeta. destruct (0 <? maxSize) eqn:E; lia. }
  destruct (Z.leb_spec maxSize 0) as [Hz|Hz].
  { apply wpv_ret. do 5 (split; [done|]). by eapply (Hskip _); [right; lia|]. }
  destruct (Z.leb_spec (i64 (deadCount - maxSize)) 0) as [Ho|Ho].
  { apply wpv_ret. do 5 (split; [done|]). by eapply (Hskip _); [left|]. }
  set (n := Z.to_nat (i64 (deadCount - maxSize))). apply wpv_bind.
  apply (wpv_omi_ListAll (fun s => deadTasksIndex (tasks s)) v_dead (take n)); [done|].
  intros items Hsort Hitems.
  assert (Hf : forall x, x ∈ items <->
                 exists t, fetched (v_table v) dead Task.LastFailedAt a q x t).
  { intros x. rewrite Hitems. apply index_item_fetched; [apply Hinv|done|done|].
    exact (ix_dead _ _ (ig_ix _ _ _ Hinv)). }
  assert (Hnd : NoDup items) by (by apply (StronglySorted_NoDup blt)).
  assert (Hlen : Z.of_nat (length items) = count (v_table v) a q TASK_STATE_DEAD).
  { apply (length_index_items _ dead Task.LastFailedAt); try done; [apply Hinv|].
    apply wf_LastFailedAt. }
  apply wpv_bind. eapply wpv_mono; [apply (wpv_fetch dead Task.LastFailedAt)|].
  - apply Hinv.
  - apply Forall_take, Forall_forall. intros x. apply Hf.
  - intros oldest ? [-> Hold].
    assert (Hall : Forall (fun t => has (v_table v) t /\ counted a q TASK_STATE_DEAD t) oldest).
    { apply Forall_forall. intros t Ht. apply list_elem_of_lookup in Ht as [i Hi].
      destruct (Forall2_lookup_r _ _ _ _ _ Hold Hi) as (y & _ & Hy & Hd & Hin & _). done. }
    eapply wpv_mono; [apply (op_delete_all v off sq oldest taskDeletionNone a q TASK_STATE_DEAD);
      [done..|]|].
    + eapply fetched_NoDup; [done|]. rewrite <-(take_drop n items) in Hnd.
      by apply NoDup_app in Hnd as [? _].
    + intros [] v' (Hinv' & Hm & Hrows & Hc). split; [done|]. split; [done|].
      split; [naive_solver|]. split.
      { intros u Hu Hn. apply Hrows. split; [done|]. intros Hin.
        rewrite Forall_forall in Hall. by apply Hn, Hall. }
      split.
      * intros u w Hu Hgone [Hw Hkept]%Hrows Hcw.
        eapply (evict_order (v_table v) n items oldest); try done.
        -- apply Hinv.
        -- rewrite Hrows in Hgone. destruct (decide (u ∈ oldest)); tauto.
      * rewrite Hc. apply Forall2_length in Hold. rewrite <-Hold, length_take.
        replace (0 <? maxSize) with true by lia. cbv zeta. subst n. lia.
Qed.
(** ** Failure handling *)

Lemma failTaskToDead_enabled t now dlq s :
  DeadLetterQueueConfig.Enable dlq = true ->
  failTaskToDead t now (Some dlq) s =
    (c ← killTask t now dlq;
     evictExcessDeadTasks (TaskId.AccountId (Task.Id t)) (TaskId.QueueId (Task.Id t))
       (DeadLetterQueueConfig.MaxSize dlq) (TasksCounter.DeadTasksCount c)) s.
Proof.
  intros E. unfold failTaskToDead, killTask. rewrite E. cbn [negb].
  change (Task.set_ExpiresAt _ _)
    with (died now (DeadLetterQueueConfig.RetentionPeriodInSeconds dlq) t).
  set (t1 := died _ _ t).
  assert (E1 : TaskId.AccountId (Task.Id t1) = TaskId.AccountId (Task.Id t)) by (by destruct t).
  unfold mbind, M_bind, mret, M_ret. repeat case_match; simplify_eq; done.
Qed.

(** The dead-letter queue of a queue after one more death. *)
Definition dlq_size (maxSize c : Z) : Z :=
  if 0 <? maxSize then c - Z.max 0 (Z.min (i64 (i64 c - maxSize)) c) else c.

Lemma op_failTaskToDead v sq now dlq t :
  let a := TaskId.AccountId (Task.Id t) in let q := TaskId.QueueId (Task.Id t) in
  Inv_gen v no_off sq -> has (v_table v) t -> in_progress t -> is_i64 now ->
  DeadLetterQueueConfig.Enable dlq = true ->
  wpv (failTaskToDead t now (Some dlq)) v (fun _ v' => Inv_gen v' no_off sq /\ same_meta v v' /\
    (forall u, has (v_table v') u -> has (v_table v) u \/
       u = died now (DeadLetterQueueConfig.RetentionPeriodInSeconds dlq) t) /\
    (forall u, has (v_table v) u -> Task.Id u <> Task.Id t -> ~ counted a q TASK_STATE_DEAD u ->
       has (v_table v') u) /\
    ~ has (v_table v') t /\
    count (v_table v') a q TASK_STATE_DEAD =
      dlq_size (DeadLetterQueueConfig.MaxSize dlq) (count (v_table v) a q TASK_STATE_DEAD + 1)).
Proof.
  intros a q Hinv Ht Hp Hn He. pose proof (has_wf _ _ _ _ Hinv Ht) as Hw.
  set (t1 := died _ _ t). set (f c := gauge_add TASK_STATE_DEAD 1 (gauge_add TASK_STATE_IN_PROGRESS (-1) c)).
  destruct (died_fields now (DeadLetterQueueConfig.RetentionPeriodInSeconds dlq) t)
    as (EI & _ & _ & _ & Est & _). fold t1 in EI, Est.
  eapply wpv_ext; [intros s; by apply failTaskToDead_enabled|]. apply wpv_bind.
  eapply wpv_mono; [apply (wpv_killTask (has (v_table v))); [apply Hinv|apply stored_has|done..]|].
  intros c v1 (Ec & Hix & Et & Ecnt & Hm). fold t1 in Hix, Et. fold f in Ec, Ecnt.
  assert (Hw1 : wf_task t1) by (by apply wf_died).
  assert (Hinv1 : Inv_gen v1 no_off sq).
  { rewrite <-EI in Hix. rewrite <-EI in Et at 1.
    eapply (Inv_gen_written v v1 no_off no_off sq t1 f); try done.
    - rewrite Ecnt. unfold bumped, task_qpk. by rewrite EI.
    - apply (additive_comp (gauge_add TASK_STATE_DEAD 1)); apply additive_gauge_add.
    - intros a' q' st. rewrite EI, Ht, (ind_version a' q' st t t), (ind_version a' q' st t t1), Est, Hp by done.
      assert (Hiff : in_queue a' q' t1 <-> in_queue a' q' t) by (unfold in_queue; by rewrite EI).
      rewrite (decide_ext _ _ _ _ Hiff). unfold no_off. repeat case_decide; lia || congruence.
    - unfold task_n. rewrite EI. by apply Hinv. }
  assert (Hc1 : count (v_table v1) a q TASK_STATE_DEAD = count (v_table v) a q TASK_STATE_DEAD + 1).
  { rewrite Et, count_insert, Ht, (ind_version _ _ _ t t), (ind_version _ _ _ t t1), Est, Hp by done.
    rewrite !(decide_True (P := in_queue a q t)) by done. repeat case_decide; lia || congruence. }
  destruct (wf_Id t Hw) as (Ha & Hq & _).
  assert (Hdc : TasksCounter.DeadTasksCount c = i64 (count (v_table v1) a q TASK_STATE_DEAD)).
  { pose proof (ig_counts _ _ _ Hinv1 a q TASK_STATE_DEAD Ha Hq) as Hg. unfold no_off in Hg.
    rewrite Z.add_0_r in Hg. rewrite <-Hg by (unfold gauged; auto). unfold counter_of.
    rewrite Ecnt. unfold bumped. change (queue_tablePK a q) with (task_qpk t).
    rewrite lookup_insert_eq. by rewrite Ec. }
  eapply wpv_mono; [by apply (op_evict v1 no_off sq)|].
  intros [] v' (Hinv' & Hm' & Hsub & Hkeep & _ & Hcnt). split; [done|].
  split; [by eapply same_meta_trans|].
  assert (Hrows1 : forall u, has (v_table v1) u <-> mem_upd (has (v_table v)) (Task.Id t) (Some t1) u).
  { intros u. rewrite Et, <-EI. apply has_insert; [apply Hinv|done]. }
  split; [intros u Hu%Hsub%Hrows1; destruct Hu as [[= <-]|[? _]]; auto|].
  split; [intros u Hu Hne Hnd; apply Hkeep; [apply Hrows1; by right|done]|].
  fold a q in Hcnt. split; [|by rewrite Hcnt, Hdc, Hc1].
  intros [[= E]|[_ []]]%Hsub%Hrows1; [|done]. rewrite E in Est. unfold in_progress in Hp. congruence.
Qed.
(** What handling the failure of row [t] leaves of the other rows. *)
Definition settled v t (v' : View) : Prop :=
  same_meta v v' /\
  (forall u, has (v_table v) u -> Task.Id u <> Task.Id t -> ~ dead u -> has (v_table v') u) /\
  (forall u, has (v_table v') u -> has (v_table v) u \/
     Task.Id u = Task.Id t /\
     (dead u \/ Task.ExpiresAt u = Task.ExpiresAt t /\ Task.ThreadId u = Task.ThreadId t)) /\
  (forall u, has (v_table v') u -> Task.Id u = Task.Id t -> ~ in_progress u).

(** The one case a retry of a threaded task loses it: the new time equals
    the old one (see [TasksFindings]). *)
Definition retry_safe (now : Z) t : Prop :=
  threaded t -> forall iv, backoff t iv -> after_seconds now iv <> Task.ScheduledAt t.

Lemma settled_deleted v v' t :
  wf_table (v_table v) -> wf_task t -> same_meta v v' ->
  v_table v' = delete (task_key (Task.Id t)) (v_table v) -> settled v t v'.
Proof.
  intros Hm Hw Hmeta Et.
  assert (Hr : forall u, has (v_table v') u <-> mem_upd (has (v_table v)) (Task.Id t) None u)
    by (intros u; rewrite Et; by apply has_delete).
  split; [done|]. unfold mem_upd in Hr. split; [|split]; intros u; rewrite Hr; naive_solver.
Qed.

Lemma settled_written v v' t t1 :
  wf_table (v_table v) -> wf_task t1 -> Task.Id t1 = Task.Id t -> ~ in_progress t1 ->
  Task.ExpiresAt t1 = Task.ExpiresAt t -> Task.ThreadId t1 = Task.ThreadId t -> same_meta v v' -> v_table v' = <[task_key (Task.Id t) := t1]> (v_table v) -> settled v t v'.
Proof.
  intros Hm Hw EI Hn EE ET Hmeta Et. rewrite <-EI in Et.
  assert (Hr : forall u, has (v_table v') u <-> mem_upd (has (v_table v)) (Task.Id t1) (Some t1) u)
    by (intros u; rewrite Et; by apply has_insert).
  split; [done|]. unfold mem_upd in Hr. rewrite EI in Hr.
  split; [|split]; intros u; rewrite Hr; naive_solver.
Qed.

Lemma backoff_exists t rs :
  wf_task t -> in_progress t -> Task.RetryStrategy t = Some rs ->
  Task.Attempts t <= Z.of_nat (length (RetryStrategy.RetryIntervalsInSeconds rs)) ->
  exists iv, backoff t iv.
Proof.
  intros Hw Hp Ers Hle. destruct (wf_Attempts t Hw) as (_ & _ & Ha). specialize (Ha Hp).
  destruct (RetryStrategy.RetryIntervalsInSeconds rs !! Z.to_nat (Task.Attempts t - 1)) as [iv|] eqn:E.
  - exists iv, rs. done.
  - apply lookup_ge_None in E. lia.
Qed.

Lemma op_handleTaskFailure v sq now dlqc t :
  Inv_gen v no_off sq -> has (v_table v) t -> in_progress t -> is_i64 now -> retry_safe now t ->
  wpv (handleTaskFailure t now dlqc) v (fun _ v' => Inv_gen v' no_off sq /\ settled v t v').
Proof.
  intros Hinv Ht Hp Hn Hs. pose proof (has_wf _ _ _ _ Hinv Ht) as Hw.
  assert (Hdel : forall reason, wpv (deleteTask t reason) v
    (fun _ v' => Inv_gen v' no_off sq /\ settled v t v')).
  { intros reason. eapply wpv_mono; [by apply op_deleteTask|]. intros [] v' (Hi & Et & Hm).
    split; [done|]. by apply settled_deleted; [apply Hinv|..]. }
  assert (Hdead : wpv (failTaskToDead t now dlqc) v
    (fun _ v' => Inv_gen v' no_off sq /\ settled v t v')).
  { destruct dlqc as [dlq|]; [|apply Hdel]. destruct (DeadLetterQueueConfig.Enable dlq) eqn:Een.
    - eapply wpv_mono; [by apply op_failTaskToDead|].
      intros [] v' (Hi & Hm & Hnew & Hkeep & Hgone & _). split; [done|]. split; [done|].
      split; [intros u Hu Hne Hd; apply Hkeep; try done; by intros [_ ?]|].
      split; [intros u [?| ->]%Hnew; [by left|right; split; [by destruct t|left; by destruct t]]|].
      intros u Hu E Hpu. destruct (Hnew u Hu) as [Hu'| ->].
      + apply Hgone. unfold has in Hu', Ht. rewrite E in Hu'. congruence.
      + by destruct t.
    - unfold failTaskToDead. rewrite Een. apply Hdel. }
  unfold handleTaskFailure. destruct (_ <? now); [apply Hdel|].
  destruct (Task.RetryStrategy t) as [rs|] eqn:Ers; [|apply Hdead].
  pose proof (wf_Retries t Hw) as Hr. unfold retries in Hr. rewrite Ers in Hr.
  rewrite i32_id by lia. destruct (Z.gtb_spec (Task.Attempts t)
    (Z.of_nat (length (RetryStrategy.RetryIntervalsInSeconds rs)))); [apply Hdead|].
  destruct (backoff_exists t rs) as [iv Hiv]; [done..|].
  eapply wpv_mono; [by apply (op_failTaskToRetry v no_off sq now iv); auto|].
  intros [] v' (Hi & Et & Hm). split; [done|].
  destruct (retried_fields now iv t) as (EI & ET & _ & _ & EE & Est).
  eapply (settled_written v v' t (retried now iv t)); try done; [apply Hinv| |].
  - by apply wf_retried.
  - unfold in_progress. congruence.
Qed.
(** The four ways a failure ends. *)
Inductive Fate : Set :=
  | FateExpired
  | FateRetry (interval : Z)
  | FateDead (dlq : DeadLetterQueueConfig.t)
  | FateDropped.

Definition fate (now : Z) (dlqc : option DeadLetterQueueConfig.t) t : Fate :=
  if Task.ExpiresAt t <? now then FateExpired
  else
    let exhausted :=
      match dlqc with
      | Some dlq => if DeadLetterQueueConfig.Enable dlq then FateDead dlq else FateDropped
      | None => FateDropped
      end in
    match Task.RetryStrategy t with
    | None => exhausted
    | Some rs =>
        match RetryStrategy.RetryIntervalsInSeconds rs !! Z.to_nat (Task.Attempts t - 1) with
        | Some interval => FateRetry interval
        | None => exhausted
        end
    end.

Definition fated (now : Z) (f : Fate) t v (v' : View) : Prop :=
  let k := task_key (Task.Id t) in
  let a := TaskId.AccountId (Task.Id t) in let q := TaskId.QueueId (Task.Id t) in
  match f with
  | FateExpired | FateDropped => v_table v' = delete k (v_table v)
  | FateRetry interval => v_table v' = <[k := retried now interval t]> (v_table v)
  | FateDead dlq =>
      (forall u, has (v_table v') u -> has (v_table v) u \/
         u = died now (DeadLetterQueueConfig.RetentionPeriodInSeconds dlq) t) /\
      (forall u, has (v_table v) u -> Task.Id u <> Task.Id t -> ~ counted a q TASK_STATE_DEAD u ->
         has (v_table v') u) /\
      ~ has (v_table v') t /\
      count (v_table v') a q TASK_STATE_DEAD =
        dlq_size (DeadLetterQueueConfig.MaxSize dlq) (count (v_table v) a q TASK_STATE_DEAD + 1)
  end.

Lemma op_fated v sq now dlqc t :
  Inv_gen v no_off sq -> has (v_table v) t -> in_progress t -> is_i64 now -> retry_safe now t ->
  wpv (handleTaskFailure t now dlqc) v (fun _ v' =>
    Inv_gen v' no_off sq /\ fated now (fate now dlqc t) t v v').
Proof.
  intros Hinv Ht Hp Hn Hs. pose proof (has_wf _ _ _ _ Hinv Ht) as Hw.
  assert (Hdel : forall reason, wpv (deleteTask t reason) v
    (fun _ v' => Inv_gen v' no_off sq /\ v_table v' = delete (task_key (Task.Id t)) (v_table v))).
  { intros reason. eapply wpv_mono; [by apply op_deleteTask|]. by intros [] v' (? & ? & _). }
  unfold handleTaskFailure, fate. destruct (_ <? now); [apply Hdel|]. cbv zeta.
  set (ex := match dlqc with Some _ => _ | None => _ end).
  assert (Hdead : wpv (failTaskToDead t now dlqc) v
    (fun _ v' => Inv_gen v' no_off sq /\ fated now ex t v v')).
  { subst ex. destruct dlqc as [dlq|]; [|apply Hdel].
    destruct (DeadLetterQueueConfig.Enable dlq) eqn:Een.
    - eapply wpv_mono; [by apply op_failTaskToDead|]. by intros [] v' (? & _ & ?).
    - unfold failTaskToDead. rewrite Een. apply Hdel. }
  destruct (Task.RetryStrategy t) as [rs|] eqn:Ers; [|apply Hdead].
  pose proof (wf_Retries t Hw) as Hr. unfold retries in Hr. rewrite Ers in Hr.
  destruct (wf_Attempts t Hw) as (_ & _ & Ha). specialize (Ha Hp).
  rewrite i32_id by lia. destruct (RetryStrategy.RetryIntervalsInSeconds rs !! _) as [iv|] eqn:Eiv.
  - pose proof (lookup_lt_Some _ _ _ Eiv).
    destruct (Z.gtb_spec (Task.Attempts t)
      (Z.of_nat (length (RetryStrategy.RetryIntervalsInSeconds rs)))); [lia|].
    assert (Hiv : backoff t iv) by (by exists rs).
    eapply wpv_mono; [by apply (op_failTaskToRetry v no_off sq now iv); auto|]. by intros [] v' (? & ? & _).
  - apply lookup_ge_None in Eiv. destruct (Z.gtb_spec (Task.Attempts t)
      (Z.of_nat (length (RetryStrategy.RetryIntervalsInSeconds rs)))); [apply Hdead|lia].
Qed.
End ops.
