(* ===== verification/TasksEnqueue.v ===== *)
(** * [Enqueue]

    Overwriting a duplicate and creating new tasks keep the invariant; the
    handler as a whole commits a state that satisfies it, whatever mixture of
    new and duplicate entries it gets, except for the one overwrite the source
    mishandles (see [TasksFindings]). *)

From S2P Require Export TasksOps.

Section enqueue.
Context {U : Utils} {UO : UtilsOk U} {H : Honey} {HO : HoneyOk H}.
Implicit Types (t u d : Task.t) (mem : Task.t -> Prop) (v : View).

(** ** Overwriting a duplicate *)

Lemma mem_upd_twice mem i d d' t :
  Task.Id d = i ->
  mem_upd (mem_upd mem i (Some d)) i (Some d') t <-> mem_upd mem i (Some d') t.
Proof. unfold mem_upd. naive_solver. Qed.

(** A row replaced by one that looks the same to the thread tables. *)
Lemma threads_ok_same mem v t0 t1 :
  rows mem -> mem t0 -> Task.Id t1 = Task.Id t0 -> Task.ThreadId t1 = Task.ThreadId t0 ->
  Task.ScheduledAt t1 = Task.ScheduledAt t0 -> Task.State t1 = Task.State t0 ->
  enqueued t0 -> wf_task t1 ->
  threads_ok mem v -> threads_ok (mem_upd mem (Task.Id t0) (Some t1)) v.
Proof.
  intros Hrows Ht0 EI ET ES Est He Hw Hok. unfold enqueued in He.
  eapply threads_ok_fields; [..|apply (threads_ok_replaced mem v t0 t1 (v_queue v))]; try done.
  - congruence.
  - congruence.
  - unfold in_progress. congruence.
  - apply image_upd_same; [done|done| | |apply Hok].
    + unfold queued, enqueued, threaded, is_head, threadkey. by rewrite EI, ET, Est.
    + unfold qkey, task_pk, task_n. by rewrite EI, ES.
Qed.

Definition overwritten (x : Z) (p : bytes) (e : Z) d (o : OverwriteOnDuplicate) : Task.t :=
  match o with
  | OVERWRITE_ON_DUPLICATE_EXPIRES_AT => Task.set_ExpiresAt e d
  | OVERWRITE_ON_DUPLICATE_PAYLOAD => Task.set_Payload p d
  | OVERWRITE_ON_DUPLICATE_SCHEDULED_AT => Task.set_ScheduledAt x d
  | _ => d
  end.

(** Moving [d] to [x] does not take an enqueued head behind a sibling. *)
Definition movable mem v d (x : Z) : Prop :=
  threaded d -> is_head (v_thr v) d -> x = Task.ScheduledAt d \/
    (forall u, mem u -> Task.Id u <> Task.Id d -> member u -> threadkey u = threadkey d ->
       ble (titem (Task.set_ScheduledAt x d)) (titem u)).

Lemma overwritten_fields x p e d o :
  let d' := overwritten x p e d o in
  Task.Id d' = Task.Id d /\ Task.ThreadId d' = Task.ThreadId d /\
  Task.State d' = Task.State d /\ Task.DedupeKey d' = Task.DedupeKey d /\
  Task.LastFailedAt d' = Task.LastFailedAt d /\ Task.VisibleAt d' = Task.VisibleAt d /\
  (Task.ScheduledAt d' = Task.ScheduledAt d \/ Task.ScheduledAt d' = x).
Proof. destruct d, o; cbn; naive_solver. Qed.

Lemma wf_overwritten x p e d o :
  is_i64 x -> is_i64 e -> wf_task d -> wf_task (overwritten x p e d o).
Proof. intros Hx He []. destruct d, o; by split. Qed.

(** The index part of one [switch] arm. *)
Lemma wpv_overwrite_one mem v x p e d o :
  let d' := overwritten x p e d o in
  ix_ok mem v -> mem d -> enqueued d -> is_i64 x -> is_i64 e ->
  stored (mem_upd mem (Task.Id d) None) v ->
  (o = OVERWRITE_ON_DUPLICATE_SCHEDULED_AT -> movable mem v d x) ->
  wpv (overwrite_one x p e d o) v (fun r v' => r = d' /\
    ix_ok (mem_upd mem (Task.Id d) (Some d')) v' /\
    (v_table v' = v_table v \/ v_table v' = <[task_key (Task.Id d) := d']> (v_table v)) /\
    v_cnt v' = v_cnt v /\ same_meta v v' /\
    (o <> OVERWRITE_ON_DUPLICATE_SCHEDULED_AT -> v_thr v' = v_thr v)).
Proof.
  intros d' Hix Hd He Hx He64 Hst Hmov.
  pose proof Hix as [Hrows Hthr Hinp Hdead Hexp Hded].
  destruct (overwritten_fields x p e d o) as (EI & ET & Est & ED & EL & EV & ES).
  fold d' in EI, ET, Est, ED, EL, EV, ES.
  assert (Hw' : wf_task d') by (apply wf_overwritten; try done; by apply (rows_wf _ Hrows)).
  pose proof He as He'. unfold enqueued in He'.
  assert (Hix' : forall w, threads_ok (mem_upd mem (Task.Id d) (Some d')) w ->
    v_dedupe w = v_dedupe v -> v_inp w = v_inp v -> v_dead w = v_dead v ->
    (forall k, k ∈ v_exp w <-> (k ∈ v_exp v /\ k <> exp_key d) \/ k = exp_key d') ->
    ix_ok (mem_upd mem (Task.Id d) (Some d')) w).
  { intros w Hw E1 E2 E3 E4. eapply ix_ok_replaced; try done.
    - rewrite E1. eapply dedupe_same; try done. unfold claims. by rewrite ED, Est.
    - intros k. rewrite E2. unfold in_progress. rewrite Est, He'. naive_solver.
    - intros k. rewrite E3. unfold dead. rewrite Est, He'. naive_solver.
    - intros k. rewrite E4. unfold has_deadline. rewrite Est, He'. naive_solver. }
  assert (Hexp_in : exp_key d ∈ v_exp v).
  { apply (Hexp _). exists d. unfold has_deadline. rewrite He'. done. }
  assert (Hkeep : exp_key d' = exp_key d ->
    forall k, k ∈ v_exp v <-> (k ∈ v_exp v /\ k <> exp_key d) \/ k = exp_key d').
  { intros E k. rewrite E. destruct (decide (k = exp_key d)); naive_solver. }
  destruct o; cbn [overwrite_one].
  - apply wpv_ret. split; [done|]. split; [|split; [by left|done]]. apply Hix'; try done; [|auto].
    by apply threads_ok_same; try (subst d'; destruct d).
  - apply wpv_ret. split; [done|]. split; [|split; [by left|done]]. apply Hix'; try done.
    + by apply threads_ok_same; try (subst d'; destruct d).
    + apply Hkeep. subst d'. by destruct d.
  - change (Task.set_ScheduledAt x d) with d'. rewrite ET. vstep.
    assert (Ex : Task.ScheduledAt d' = x) by (subst d'; by destruct d).
    assert (Epk : forall y, task_pk d' ++ queueIndexItem y (task_n d') =
                            task_pk d ++ queueIndexItem y (task_n d))
      by (intros y; unfold task_pk, task_n; by rewrite EI).
    case_bool_decide as Hth.
    + vsteps. rewrite (Epk (Task.ScheduledAt d)).
      change (task_pk d ++ queueIndexItem (Task.ScheduledAt d) (task_n d)) with (qkey d).
      change (task_pk d' ++ _) with (qkey d').
      split; [done|]. split; [|split; [by left|done]]. apply Hix'; try done; cycle 1.
      { apply Hkeep. subst d'. by destruct d. }
      apply (threads_ok_unthreaded mem v); [| |done|].
      * intros u Hu E [Hn _]. by rewrite (rows_fun _ Hrows u d) in Hn.
      * intros ? [= <-] [Hn _]. unfold threaded in Hn. congruence.
      * eapply image_replaced; [apply qkey_inj|done..|apply Hthr|]. intros k. cbn.
        assert (queued (v_thr v) d) by (split; [done|left; auto]).
        assert (queued (v_thr v) d').
        { split; [unfold enqueued; congruence|]. left. unfold threaded. rewrite ET. auto. }
        set_solver.
    + vstep. vstep. rewrite EI. set (w := set_table _ v).
      eapply wpv_mono; [apply (wpv_rescheduleTaskInThread mem w d d'); try done|].
      * split; [done|]. congruence.
      * unfold enqueued. congruence.
      * unfold in_progress. congruence.
      * intros _ Hhead. destruct (Hmov eq_refl Hth Hhead) as [E|Hle]; [left; congruence|right].
        intros u [[= <-]|[Hu Hne]] Hmu Hku; [by left|]. apply Hle; try done.
        rewrite Hku. unfold threadkey. by rewrite EI, ET.
      * intros u [Hu|Hu] _; cbn [v_table set_table w].
        { assert (u = d') as -> by congruence. rewrite EI. apply lookup_insert_eq. }
        rewrite lookup_insert_ne; [apply Hst; by right|]. intros E. destruct Hu as [Hu Hne].
        apply Hne. symmetry. apply task_key_inj; [by apply wf_Id, (rows_wf _ Hrows)..|done].
      * by eapply threads_ok_fields; [..|exact Hthr].
      * intros [] w' [Hok (T & Q & X & ->)]. vsteps. split; [done|].
        split; [|split; [by right|done]]. apply Hix'; try done.
        apply Hkeep. subst d'. by destruct d.
  - vsteps. split; [done|]. split; [|split; [by left|done]]. apply Hix'; try done.
    + eapply threads_ok_fields; [..|apply (threads_ok_same mem v d d')];
        try (subst d'; by destruct d); done.
    + intros k. fold (exp_key d). change (expiration_item _ _) with (exp_key d'). cbn. set_solver.
  - apply wpv_ret. split; [done|]. split; [|split; [by left|done]]. apply Hix'; try done; [|auto].
    by apply threads_ok_same; try (subst d'; destruct d).
Qed.
(** All arms of the [switch], in the order given. *)
Definition overwritten_all (x : Z) (p : bytes) (e : Z) (os : list OverwriteOnDuplicate) d : Task.t :=
  fold_left (overwritten x p e) os d.

Lemma movable_next mem v v' x p e d o :
  (o <> OVERWRITE_ON_DUPLICATE_SCHEDULED_AT -> v_thr v' = v_thr v) ->
  movable (mem_upd mem (Task.Id d) (Some d)) v d x ->
  let d' := overwritten x p e d o in
  movable (mem_upd mem (Task.Id d) (Some d')) v' d' x.
Proof.
  intros HT Hm d'. destruct (decide (o = OVERWRITE_ON_DUPLICATE_SCHEDULED_AT)) as [->|Ho].
  { intros _ _. left. by destruct d. }
  assert (Hsame : Task.ScheduledAt d' = Task.ScheduledAt d /\
                  titem (Task.set_ScheduledAt x d') = titem (Task.set_ScheduledAt x d) /\
                  threadkey d' = threadkey d)
    by (subst d'; by destruct d, o).
  destruct Hsame as (Es & Ei & Ek).
  destruct (overwritten_fields x p e d o) as (EI & ET & _). fold d' in EI, ET.
  intros Hth (r & Hr & Hh). rewrite HT, Ek in Hr by done.
  destruct Hm as [E|Hle]; [unfold threaded in *; congruence|exists r; by rewrite <-EI|left; congruence|].
  right. intros u Hu Hne Hmu Hku. rewrite Ei. rewrite EI in Hne.
  apply Hle; [|done|done|congruence].
  destruct Hu as [[= <-]|[Hu _]]; [by rewrite EI in Hne|by right].
Qed.

Lemma wpv_overwrite_all mem x p e os : is_i64 x -> is_i64 e -> forall v d,
  let i := Task.Id d in let d' := overwritten_all x p e os d in
  ix_ok (mem_upd mem i (Some d)) v -> enqueued d ->
  stored (mem_upd mem i None) v ->
  (OVERWRITE_ON_DUPLICATE_SCHEDULED_AT ∈ os -> movable (mem_upd mem i (Some d)) v d x) ->
  wpv (overwrite_all x p e os d) v (fun r v' => r = d' /\
    ix_ok (mem_upd mem i (Some d')) v' /\
    Task.Id d' = i /\ Task.State d' = Task.State d /\ wf_task d' /\
    (forall t, <[task_key i := t]> (v_table v') = <[task_key i := t]> (v_table v)) /\
    v_cnt v' = v_cnt v /\ same_meta v v').
Proof.
  intros Hx He. induction os as [|o os IH]; intros v d i d' Hix Hen Hst Hmov.
  - apply wpv_ret. repeat (split; [done|]). split; [|done].
    apply (rows_wf _ (ix_rows _ _ Hix)). by left.
  - cbn [overwrite_all]. vstep. set (d1 := overwritten x p e d o).
    destruct (overwritten_fields x p e d o) as (EI & ET & Est & _). fold d1 in EI, ET, Est.
    assert (Hw : wf_task d) by (apply (rows_wf _ (ix_rows _ _ Hix)); by left).
    eapply wpv_mono; [apply (wpv_overwrite_one (mem_upd mem i (Some d))); try done|].
    + by left.
    + intros t [[=]|[[[= <-]|Ht] Hne]]; [done|]. apply Hst. by right.
    + intros ->. apply Hmov. by left.
    + fold d1. intros r v1 (-> & Hix1 & Htab & Hc & Hm & HT).
      assert (Hix1' : ix_ok (mem_upd mem i (Some d1)) v1)
        by (eapply ix_ok_ext; [|exact Hix1]; intros t; by apply mem_upd_twice).
      assert (Htab1 : forall t, <[task_key i := t]> (v_table v1) = <[task_key i := t]> (v_table v)).
      { intros t. destruct Htab as [->| ->]; [done|]. apply insert_insert_eq. }
      eapply wpv_mono; [eapply (IH v1 d1); rewrite ?EI; [exact Hix1'| | |]|].
      * unfold enqueued in *. congruence.
      * intros t Ht. pose proof Ht as [[=]|[Hmt Hne]]. rewrite <-(Hst t Ht).
        destruct Htab as [->| ->]; [done|]. rewrite lookup_insert_ne; [done|]. intros E. apply Hne.
        symmetry. apply task_key_inj; [by apply wf_Id| |done].
        apply wf_Id, (rows_wf _ (ix_rows _ _ Hix)). by right.
      * intros Hin. apply (movable_next mem v v1); [done|]. apply Hmov. by right.
      * cbn. rewrite EI. intros r v2 (-> & Hix2 & E1 & E2 & Hw2 & E3 & E4 & E5).
        split; [done|]. split; [exact Hix2|]. split; [done|]. split; [|split; [exact Hw2|]].
        -- unfold d'. cbn. fold d1. rewrite <-Est. exact E2.
        -- split; [intros t; by rewrite E3|]. split; [congruence|].
           by eapply same_meta_trans.
Qed.

Lemma op_overwriteDuplicate v off sq x p e os d :
  Inv_gen v off sq -> has (v_table v) d -> os <> [] -> is_i64 x -> is_i64 e ->
  (OVERWRITE_ON_DUPLICATE_SCHEDULED_AT ∈ os -> enqueued d ->
     movable (has (v_table v)) v d x) ->
  wpv (overwriteDuplicate (Task.Id d) os x p e) v (fun r v' =>
    Inv_gen v' off sq /\ same_meta v v' /\
    if decide (enqueued d)
    then r = Some (overwritten_all x p e os d) /\
         v_table v' = <[task_key (Task.Id d) := overwritten_all x p e os d]> (v_table v)
    else r = Some d /\ v' = v).
Proof.
  intros Hinv Hd Hos Hx He Hmov. unfold overwriteDuplicate.
  destruct os as [|o os']; [done|]. set (os := o :: os') in *. vstep.
  eapply wpv_tasks_Get; [exact Hd|]. unfold enqueued. case_bool_decide as Hs; cycle 1.
  { apply wpv_ret. rewrite decide_False by done. done. }
  assert (Hsame : forall t, has (v_table v) t <-> mem_upd (has (v_table v)) (Task.Id d) (Some d) t).
  { intros t. unfold mem_upd. split.
    - intros Ht. destruct (decide (Task.Id t = Task.Id d)) as [E|E]; [left|by right].
      unfold has in Ht, Hd. rewrite E in Ht. congruence.
    - intros [[= <-]|[? _]]; done. }
  vstep. eapply wpv_mono; [apply (wpv_overwrite_all (has (v_table v)) x p e os Hx He v d); [|done| |]|].
  - eapply ix_ok_ext; [exact Hsame|apply Hinv].
  - intros t [[=]|[Ht _]]. exact Ht.
  - intros Hin Hth Hh. destruct (Hmov Hin Hs Hth Hh) as [?|Hle]; [by left|right].
    intros u Hu%Hsame. by apply Hle.
  - intros r v1 (-> & Hix & EI & Est & Hw & Htab & Hc & Hm). vsteps. rewrite EI, decide_True by done.
    cbn. rewrite Htab. split; [|done].
    eapply (Inv_gen_rewritten v _ off off sq d (overwritten_all x p e os d));
      [done|done|done|done| |done|done|].
    + destruct Hix as [? Ht ? ? ? ?]. split; try done. by eapply threads_ok_fields; [..|exact Ht].
    + intros a q st. rewrite (ind_version a q st d d), (ind_version a q st d (overwritten_all x p e os d)), Est
        by done. lia.
Qed.
(** ** The handler *)

(** An entry as the server's validation lets it through. *)
Definition wf_entry (e : EnqueueRequestEntry.t) : Prop :=
  is_i64 (EnqueueRequestEntry.ScheduledAt e) /\ is_i64 (EnqueueRequestEntry.ExpiresAt e) /\
  Z.of_nat (length (EnqueueRequestEntry.ThreadId e)) < 2 ^ 32 /\
  match EnqueueRequestEntry.RetryStrategy e with
  | None => True
  | Some rs => Z.of_nat (length (RetryStrategy.RetryIntervalsInSeconds rs)) < 2 ^ 31 - 1
  end.

(** [k] is a dedupe key some entry may reschedule. *)
Definition rescheduled (entries : list EnqueueRequestEntry.t) (k : bytes) : Prop :=
  exists e, e ∈ entries /\ EnqueueRequestEntry.DedupeKey e = k /\
    OVERWRITE_ON_DUPLICATE_SCHEDULED_AT ∈ EnqueueRequestEntry.OverwriteOnDuplicate e.

(** Keys in [K] belong to unthreaded tasks. *)
Definition unthreaded_rows (a q : Z) (K : bytes -> Prop) v : Prop :=
  forall t, has (v_table v) t -> in_queue a q t -> K (Task.DedupeKey t) -> ~ threaded t.
Definition unthreaded_entries (K : bytes -> Prop) (entries : list EnqueueRequestEntry.t) : Prop :=
  forall e, e ∈ entries -> K (EnqueueRequestEntry.DedupeKey e) ->
    EnqueueRequestEntry.ThreadId e = [].

Definition bound_at (sq : Z -> Z -> Z) (a q n : Z) (a' q' : Z) : Z :=
  if decide (a' = a /\ q' = q) then n else sq a' q'.

Lemma bound_at_eq sq a q n : bound_at sq a q n a q = n.
Proof. unfold bound_at. by rewrite decide_True. Qed.

Lemma Inv_gen_bound v off sq sq' :
  (forall a q, sq a q <= sq' a q) -> Inv_gen v off sq -> Inv_gen v off sq'.
Proof. intros Hle [H1 H2 H3 H4]. split; try done. intros t Ht. etrans; [by apply H4|done]. Qed.

(** A task id above the bound is not in the table. *)
Lemma fresh_id v off sq i :
  Inv_gen v off sq -> wf_id i -> sq (TaskId.AccountId i) (TaskId.QueueId i) < TaskId.TaskId i ->
  v_table v !! task_key i = None.
Proof.
  intros Hinv Hi Hlt. destruct (v_table v !! task_key i) as [t|] eqn:E; [|done].
  destruct (ig_table _ _ _ Hinv _ _ E) as [Ek Hw].
  apply task_key_inj in Ek; [|done|by apply wf_Id]. rewrite Ek in E.
  pose proof (ig_seq _ _ _ Hinv t E). unfold task_n in *. rewrite <-Ek in *. lia.
Qed.

Definition entry_time (now : Z) (e : EnqueueRequestEntry.t) : Z :=
  if EnqueueRequestEntry.ScheduledAt e <? now then now else EnqueueRequestEntry.ScheduledAt e.

Lemma wf_new_task a q n now e :
  is_u64 a -> is_u64 q -> is_u64 n -> is_i64 now -> wf_entry e ->
  wf_task (new_task a q n now (entry_time now e) e).
Proof.
  intros Ha Hq Hn Hnow (H1 & H2 & H3 & H4). split; cbn; auto using is_i64_0.
  - by split.
  - unfold entry_time. by destruct (_ <? now).
  - unfold retries. cbn. destruct (EnqueueRequestEntry.RetryStrategy e); lia.
  - unfold retries. cbn. destruct (EnqueueRequestEntry.RetryStrategy e); repeat split; lia || done.
Qed.

(** The row a claimed dedupe key leads to. *)
Lemma duplicate_row v off sq a q k n :
  Inv_gen v off sq -> is_u64 a -> is_u64 q ->
  v_dedupe v !! dedupeKeysIndexPK a q k = Some n ->
  exists d, has (v_table v) d /\ claims d /\ Task.Id d = TaskId.mk a q n /\
            Task.DedupeKey d = k /\ in_queue a q d.
Proof.
  intros Hinv Ha Hq E. apply (ix_dedupe _ _ (ig_ix _ _ _ Hinv)) in E as (d & Hd & Hc & Ek & ->).
  pose proof (has_wf _ _ _ _ Hinv Hd) as Hw. destruct (wf_Id d Hw) as (?&?&?).
  apply dedupeKeysIndexPK_inj in Ek as (E1 & E2 & E3); [|done..].
  exists d. repeat split; try done; [apply Hc..|]. unfold task_n. rewrite E1, E2. by destruct (Task.Id d).
Qed.

(** *** What an entry should do

    The abstract queue is the table of rows alone: a dedupe key belongs to the live row
    that carries it.  [spec_entry] is the effect of one entry on it: the row returned,
    the new table and the new sequence number. *)
#[global] Instance claims_dec t : Decision (claims t).
Proof. unfold claims. apply _. Defined.

Definition key_holder (m : gmap bytes Task.t) (a q : Z) (k : bytes) : option Task.t :=
  head (filter (fun t => in_queue a q t /\ claims t /\ Task.DedupeKey t = k)
          (snd <$> map_to_list m)).

Definition spec_entry (a q now : Z) (e : EnqueueRequestEntry.t)
    (m : gmap bytes Task.t) (n : Z) : option Task.t * gmap bytes Task.t * Z :=
  match key_holder m a q (EnqueueRequestEntry.DedupeKey e) with
  | None =>
      let t := new_task a q (n + 1) now (entry_time now e) e in
      (Some t, <[task_key (Task.Id t) := t]> m, n + 1)
  | Some d =>
      match EnqueueRequestEntry.OverwriteOnDuplicate e with
      | [] => (None, m, n)
      | os =>
          if decide (enqueued d) then
            let d' := overwritten_all (entry_time now e) (EnqueueRequestEntry.Payload e)
                        (EnqueueRequestEntry.ExpiresAt e) os d in
            (Some d', <[task_key (Task.Id d) := d']> m, n)
          else (Some d, m, n)
      end
  end.

Fixpoint spec_entries (a q now : Z) (es : list EnqueueRequestEntry.t)
    (m : gmap bytes Task.t) (n : Z) : list Task.t * gmap bytes Task.t * Z :=
  match es with
  | [] => ([], m, n)
  | e :: es =>
      let '(r, m1, n1) := spec_entry a q now e m n in
      let '(ts, m2, n2) := spec_entries a q now es m1 n1 in
      (match r with Some t => [t] | None => [] end ++ ts, m2, n2)
  end.

Lemma key_holder_Some m a q k d :
  rows (has m) -> wf_table m ->
  (forall t u, has m t -> has m u -> claims t -> claims u -> task_dedupePK t = task_dedupePK u -> t = u) ->
  has m d -> in_queue a q d -> claims d -> Task.DedupeKey d = k -> key_holder m a q k = Some d.
Proof.
  intros Hr Hm Huniq Hd Hq Hc Ek. unfold key_holder. set (l := filter _ _).
  assert (Hl : forall t, t ∈ l <-> has m t /\ in_queue a q t /\ claims t /\ Task.DedupeKey t = k).
  { intros t. unfold l. rewrite list_elem_of_filter, list_elem_of_fmap. split.
    - intros [? ([k' t'] & -> & Hk%elem_of_map_to_list)]. destruct (Hm _ _ Hk) as [-> _]. done.
    - intros [Ht ?]. split; [done|]. exists (task_key (Task.Id t), t).
      split; [done|]. by apply elem_of_map_to_list. }
  destruct l as [|t l]; [exfalso; by apply (not_elem_of_nil d), Hl|]. cbn. f_equal.
  destruct (proj1 (Hl t)) as (Ht & [E1 E2] & Hct & Ekt); [by left|]. apply Huniq; try done.
  destruct Hq as [E3 E4]. unfold task_dedupePK. congruence.
Qed.

Lemma key_holder_None m a q k :
  wf_table m ->
  (forall t, has m t -> in_queue a q t -> claims t -> Task.DedupeKey t <> k) ->
  key_holder m a q k = None.
Proof.
  intros Hm Hno. unfold key_holder. rewrite filter_all_false; [done|].
  apply Forall_forall. intros t ([k' t'] & -> & Hk%elem_of_map_to_list)%list_elem_of_fmap (Hq & Hc & E).
  destruct (Hm _ _ Hk) as [-> _]. by apply (Hno t').
Qed.

Definition entry_post a q now e K sq n v (r : option Task.t * QueueState.t) (st : QueueState.t)
    (v' : View) : Prop :=
  let n' := QueueState.TaskIdSequence r.2 in
  n <= n' <= n + 1 /\ Inv_gen v' no_off (bound_at sq a q n') /\ same_meta v v' /\
  unthreaded_rows a q K v' /\
  (forall t, has (v_table v) t -> exists t', has (v_table v') t' /\ Task.Id t' = Task.Id t) /\
  match r.1 with
  | None => v' = v
  | Some t => exists t', has (v_table v') t' /\ Task.Id t' = Task.Id t
  end /\ r.2 = QueueState.set_TaskIdSequence n' st /\
  spec_entry a q now e (v_table v) n = (r.1, v_table v', n').
Lemma overwritten_all_keeps x p e os d :
  let d' := overwritten_all x p e os d in
  Task.Id d' = Task.Id d /\ Task.ThreadId d' = Task.ThreadId d /\
  Task.DedupeKey d' = Task.DedupeKey d.
Proof.
  unfold overwritten_all. revert d. induction os as [|o os IH]; intros d; [done|]. cbn.
  destruct (IH (overwritten x p e d o)) as (-> & -> & ->).
  destruct (overwritten_fields x p e d o) as (-> & -> & _ & -> & _). done.
Qed.

Lemma unthreaded_rows_insert a q K v v' t :
  wf_table (v_table v) -> wf_task t ->
  v_table v' = <[task_key (Task.Id t) := t]> (v_table v) ->
  (K (Task.DedupeKey t) -> ~ threaded t) -> unthreaded_rows a q K v -> unthreaded_rows a q K v'.
Proof.
  intros Hm Hw Et Ht Hu u Hhu Hq HK. rewrite Et in Hhu.
  apply has_insert in Hhu as [[= <-]|[Hhu _]]; [auto|by apply Hu|done..].
Qed.

Lemma entry_duplicate a q K sq st now e v d :
  Inv_gen v no_off (bound_at sq a q (QueueState.TaskIdSequence st)) ->
  is_i64 now -> wf_entry e -> has (v_table v) d -> in_queue a q d -> claims d ->
  Task.DedupeKey d = EnqueueRequestEntry.DedupeKey e ->
  unthreaded_rows a q K v ->
  (OVERWRITE_ON_DUPLICATE_SCHEDULED_AT ∈ EnqueueRequestEntry.OverwriteOnDuplicate e ->
     K (EnqueueRequestEntry.DedupeKey e)) ->
  wpv (duplicate ← overwriteDuplicate (Task.Id d) (EnqueueRequestEntry.OverwriteOnDuplicate e)
         (entry_time now e) (EnqueueRequestEntry.Payload e) (EnqueueRequestEntry.ExpiresAt e);
       mret (duplicate, st)) v
    (fun r v' => entry_post a q now e K sq (QueueState.TaskIdSequence st) v r st v').
Proof.
  intros Hinv Hnow He Hd Hq Hcl Edk Hrows HK. unfold entry_post. cbn. vstep.
  assert (Hh : key_holder (v_table v) a q (EnqueueRequestEntry.DedupeKey e) = Some d).
  { pose proof (ig_ix _ _ _ Hinv) as [Hr _ _ _ _ Hded]. apply key_holder_Some; try done; [apply Hinv|].
    intros t u. by apply (dedupe_unique _ _ t u Hr Hded). }
  unfold spec_entry. rewrite Hh. clear Hh.
  assert (Est : st = QueueState.set_TaskIdSequence (QueueState.TaskIdSequence st) st) by (by destruct st).
  destruct (EnqueueRequestEntry.OverwriteOnDuplicate e) as [|o os] eqn:Eos.
  { cbn. vsteps. cbn. split; [lia|]. repeat (split; [done|]). split; [by eauto|].
    split; [done|]. split; done. }
  destruct He as (H1 & H2 & H3 & H4).
  eapply wpv_mono; [apply op_overwriteDuplicate; [done|done|done| |done|]|].
  - unfold entry_time. by destruct (_ <? now).
  - intros Hin _ Hth. exfalso. eapply Hrows; [done..| |done]. rewrite Edk. by apply HK.
  - intros r v' (Hinv' & Hm & Hr). vsteps. cbn. split; [lia|]. split; [done|]. split; [done|].
    case_decide; destruct Hr as [-> Hv].
    + set (d' := overwritten_all _ _ _ _ d) in *.
      destruct (overwritten_all_keeps (entry_time now e) (EnqueueRequestEntry.Payload e)
        (EnqueueRequestEntry.ExpiresAt e) (o :: os) d) as (EI & ET & ED). fold d' in EI, ET, ED.
      pose proof Hv as Hv0. rewrite <-EI in Hv.
      assert (Hd' : has (v_table v') d') by (unfold has; rewrite Hv; apply lookup_insert_eq).
      split; [|split; [|split; [by eauto|split; [done|by rewrite Hv0]]]].
      * eapply unthreaded_rows_insert; [apply Hinv|by eapply has_wf|done| |done].
        rewrite ED. intros HKd. unfold threaded. rewrite ET. by apply (Hrows d).
      * intros t Ht. destruct (decide (task_key (Task.Id t) = task_key (Task.Id d'))) as [E|E].
        -- exists d'. split; [done|].
           apply task_key_inj; [by apply wf_Id, (has_wf _ _ _ _ Hinv')|by apply wf_Id, (has_wf _ _ _ _ Hinv)|done].
        -- exists t. split; [|done]. unfold has. by rewrite Hv, lookup_insert_ne.
    + subst v'. split; [done|]. split; [by eauto|]. split; [by eauto|]. split; done.
Qed.

Lemma entry_create a q K sq st now e v :
  let n := QueueState.TaskIdSequence st in
  Inv_gen v no_off (bound_at sq a q n) -> is_u64 a -> is_u64 q -> 0 <= n -> n + 1 < two64 ->
  is_i64 now -> wf_entry e ->
  (EnqueueRequestEntry.DedupeKey e <> [] ->
     v_dedupe v !! dedupeKeysIndexPK a q (EnqueueRequestEntry.DedupeKey e) = None) ->
  unthreaded_rows a q K v ->
  (K (EnqueueRequestEntry.DedupeKey e) -> EnqueueRequestEntry.ThreadId e = []) ->
  let st' := QueueState.set_TaskIdSequence (u64 (n + 1)) st in
  let task := new_task a q (QueueState.TaskIdSequence st') now (entry_time now e) e in
  wpv (createTask task ;; mret (Some task, st')) v
    (fun r v' => entry_post a q now e K sq n v r st v').
Proof.
  intros n Hinv Ha Hq H0 Hn Hnow He Hfree Hrows HK st' task.
  assert (En : QueueState.TaskIdSequence st' = n + 1).
  { subst st'. destruct st; cbn in *. apply u64_id. unfold is_u64. lia. }
  assert (Hw : wf_task task) by (subst task; rewrite En; apply wf_new_task; unfold is_u64; try done; lia).
  assert (EI : Task.Id task = TaskId.mk a q (n + 1)) by (subst task; cbn; by rewrite En).
  assert (Hfr : v_table v !! task_key (Task.Id task) = None).
  { eapply fresh_id; [exact Hinv|by apply wf_Id|]. rewrite EI. cbn. rewrite bound_at_eq. lia. }
  vstep. eapply wpv_mono; [apply (op_createTask v no_off (bound_at sq a q (n + 1))); [|done|done|done| |]|].
  - eapply Inv_gen_bound; [|exact Hinv]. intros a' q'. unfold bound_at. case_decide; lia.
  - intros [Hc _]. by apply Hfree.
  - unfold task_n. rewrite EI. cbn. rewrite bound_at_eq. lia.
  - intros [] v' (Hinv' & Et & Hm). vsteps. unfold entry_post. cbn. rewrite En.
    split; [lia|]. split; [done|]. split; [done|].
    assert (Ht : has (v_table v') task) by (unfold has; rewrite Et; apply lookup_insert_eq).
    split; [|split; [|split; [by eauto|split]]].
    + eapply unthreaded_rows_insert; [apply Hinv|done|done| |done]. intros HKd Hth. apply Hth. by apply HK.
    + intros t Htt. exists t. split; [|done]. unfold has. rewrite Et, lookup_insert_ne; [done|].
      intros E. unfold has in Htt. congruence.
    + by destruct st; cbn in *; subst st'; rewrite En.
    + unfold spec_entry. rewrite key_holder_None, Et; [by subst task; rewrite En|apply Hinv|].
      intros t Htt [Eta Etq] [Hk Hnd] Ek. rewrite Ek in Hk. apply Hfree in Hk as Hn'.
      assert (Hsome : v_dedupe v !! task_dedupePK t = Some (task_n t))
        by (apply (ix_dedupe _ _ (ig_ix _ _ _ Hinv)); exists t; split_and!; [done|by split; [rewrite Ek|]|done|done]).
      unfold task_dedupePK in Hsome. rewrite Eta, Etq, Ek in Hsome. congruence.
Qed.

Lemma wpv_enqueue_entry a q K sq st now e v :
  let n := QueueState.TaskIdSequence st in
  Inv_gen v no_off (bound_at sq a q n) -> is_u64 a -> is_u64 q -> 0 <= n -> n + 1 < two64 ->
  is_i64 now -> wf_entry e -> unthreaded_rows a q K v ->
  (K (EnqueueRequestEntry.DedupeKey e) -> EnqueueRequestEntry.ThreadId e = []) ->
  (OVERWRITE_ON_DUPLICATE_SCHEDULED_AT ∈ EnqueueRequestEntry.OverwriteOnDuplicate e ->
     K (EnqueueRequestEntry.DedupeKey e)) ->
  wpv (enqueue_entry a q now e st) v (fun r v' => entry_post a q now e K sq n v r st v').
Proof.
  intros n Hinv Ha Hq H0 Hn Hnow He Hrows HKt HKs. unfold enqueue_entry.
  fold (entry_time now e). vstep.
  apply (wpv_mono _ _ (fun r w => w = v /\
    match r with
    | Some i => exists d, has (v_table v) d /\ in_queue a q d /\ claims d /\ Task.Id d = i /\
                  Task.DedupeKey d = EnqueueRequestEntry.DedupeKey e
    | None => EnqueueRequestEntry.DedupeKey e <> [] ->
              v_dedupe v !! dedupeKeysIndexPK a q (EnqueueRequestEntry.DedupeKey e) = None
    end)).
  - case_bool_decide as Hd; [|apply wpv_ret; split; [done|tauto]].
    vsteps. split; [done|].
    destruct (v_dedupe v !! _) as [m|] eqn:E; cbn; [|done].
    destruct (duplicate_row _ _ _ _ _ _ _ Hinv Ha Hq E) as (d & ? & ? & ? & ? & ?). by exists d.
  - intros [i|] w [-> Hr].
    + destruct Hr as (d & Hd & Hqd & Hcl & <- & Ed). by apply entry_duplicate.
    + by apply entry_create.
Qed.
Lemma wpv_enqueue_entries a q K sq now entries : forall st v ts,
  let n := QueueState.TaskIdSequence st in
  Inv_gen v no_off (bound_at sq a q n) -> is_u64 a -> is_u64 q -> 0 <= n ->
  n + Z.of_nat (length entries) < two64 -> is_i64 now -> Forall wf_entry entries ->
  unthreaded_rows a q K v -> unthreaded_entries K entries ->
  (forall k, rescheduled entries k -> K k) ->
  wpv (enqueue_entries a q now entries ts st) v (fun r v' =>
    let n' := QueueState.TaskIdSequence r.2 in
    n <= n' <= n + Z.of_nat (length entries) /\
    Inv_gen v' no_off (bound_at sq a q n') /\ same_meta v v' /\
    (exists new, r.1 = ts ++ new /\ (length new <= length entries)%nat /\
       (forall t, t ∈ new -> exists t', has (v_table v') t' /\ Task.Id t' = Task.Id t) /\
       spec_entries a q now entries (v_table v) n = (new, v_table v', n')) /\
    (forall t, has (v_table v) t -> exists t', has (v_table v') t' /\ Task.Id t' = Task.Id t)).
Proof.
  induction entries as [|e entries IH]; intros st v ts n Hinv Ha Hq H0 Hn Hnow Hwf Hrows Hent HK; cbn.
  - apply wpv_ret. cbn. split; [lia|]. do 2 (split; [done|]). split; [|by eauto].
    exists []. rewrite app_nil_r. do 2 (split; [done|]). split; [set_solver|done].
  - apply Forall_cons in Hwf as [He Hwf]. cbn in Hn. vstep.
    eapply wpv_mono; [apply (wpv_enqueue_entry a q K sq); try done|].
    + lia.
    + intros HKe. apply Hent; [by left|done].
    + intros Hs. apply HK. exists e. by split; [left|].
    + intros [r st'] v1 (Hn1 & Hinv1 & Hm1 & Hrows1 & Hkeep1 & Hr1 & Est & Hsp1). cbn in *.
      eapply wpv_mono; [apply IH; try done|].
      * lia.
      * lia.
      * intros e' He'. apply Hent. by right.
      * intros k (e' & He' & HK'). apply HK. exists e'. by split; [right|].
      * intros [ts' st''] v2. cbn. intros (Hn2 & Hinv2 & Hm2 & (new & -> & Hlen & Hnew & Hsp2) & Hkeep2).
        split; [lia|]. split; [done|]. split; [by eapply same_meta_trans|]. split.
        -- exists (match r with Some t => [t] | None => [] end ++ new).
           rewrite app_assoc. split; [done|]. rewrite length_app.
           split; [destruct r; cbn; lia|].
           split; [|subst n; cbn [spec_entries]; by rewrite Hsp1, Hsp2]. intros t [Ht|Ht]%elem_of_app; [|by apply Hnew].
           destruct r as [t0|]; [|by apply not_elem_of_nil in Ht].
           apply list_elem_of_singleton in Ht as ->. destruct Hr1 as (t' & Ht' & <-).
           by apply Hkeep2.
        -- intros t Ht. destruct (Hkeep1 t Ht) as (t1 & Ht1 & <-). by apply Hkeep2.
Qed.

Definition not_purged v (a q : Z) : Prop := v_purge v !! queue_tablePK a q = None.

Lemma wpv_checkQueueNotPurged a q v (Q : option AppError -> View -> Prop) :
  Q (if decide (not_purged v a q) then None else Some (queueIdPurgedError a q)) v ->
  wpv (checkQueueNotPurged a q) v Q.
Proof.
  intros HQ. unfold checkQueueNotPurged. vsteps. unfold not_purged in HQ.
  destruct (v_purge v !! queue_tablePK a q) as [r|]; [rewrite decide_False in HQ by done|];
    [|rewrite decide_True in HQ by done].
  - by rewrite bool_decide_true by eauto.
  - rewrite bool_decide_false; [done|]. by intros [? [=]].
Qed.

(** Writing back the sequence turns the handler's bound into the stored one. *)
Lemma Inv_seq_written v a q st :
  let v' := set_qst (<[queue_tablePK a q := st]> (v_qst v)) v in
  is_u64 a -> is_u64 q -> is_u64 (QueueState.TaskIdSequence st) ->
  Inv_gen v no_off (bound_at (seq_of v) a q (QueueState.TaskIdSequence st)) ->
  (forall k st, v_qst v !! k = Some st -> is_u64 (QueueState.TaskIdSequence st)) -> Inv v'.
Proof.
  intros v' Ha Hq Hst Hinv Hu. split.
  - assert (Hinv' : Inv_gen v' no_off (bound_at (seq_of v) a q (QueueState.TaskIdSequence st)))
      by (by eapply Inv_gen_fields; [..|exact Hinv]).
    destruct Hinv' as [H1 H2 H3 H4]. split; try done. intros t Ht.
    specialize (H4 t Ht). apply H1 in Ht as Hw. destruct Hw as [_ Hw].
    destruct (wf_Id t Hw) as (?&?&?). unfold bound_at in H4. unfold seq_of, v'. cbn.
    case_decide as Hd.
    + destruct Hd as [-> ->]. by rewrite lookup_insert_eq.
    + rewrite lookup_insert_ne; [done|]. intros E. apply queue_tablePK_inj in E; naive_solver.
  - intros k st'. cbn. intros [[_ <-]|[_ Hk]]%lookup_insert_Some; [done|by eauto].
Qed.

Definition wf_queue (q : QueueId.t) : Prop :=
  is_u64 (QueueId.AccountId q) /\ is_u64 (QueueId.QueueId q).

Lemma op_Enqueue v req now :
  let a := QueueId.AccountId (EnqueueRequest.QueueId req) in
  let q := QueueId.QueueId (EnqueueRequest.QueueId req) in
  let entries := EnqueueRequest.Entries req in
  Inv v -> wf_queue (EnqueueRequest.QueueId req) -> not_purged v a q -> is_i64 now ->
  Forall wf_entry entries -> seq_of v a q + Z.of_nat (length entries) < two64 ->
  unthreaded_entries (rescheduled entries) entries ->
  unthreaded_rows a q (rescheduled entries) v ->
  wpv (Enqueue req now) v (fun r v' => Inv v' /\ v_purge v' = v_purge v /\
    (exists ts, r = Payload ts /\ (length ts <= length entries)%nat /\
       (forall t, t ∈ ts -> exists t', has (v_table v') t' /\ Task.Id t' = Task.Id t) /\
       spec_entries a q now entries (v_table v) (seq_of v a q) = (ts, v_table v', seq_of v' a q)) /\
    (forall t, has (v_table v) t -> exists t', has (v_table v') t' /\ Task.Id t' = Task.Id t)).
Proof.
  intros a q entries [Hinv Hu] [Ha Hq] Hnp Hnow Hwf Hseq Hent Hrows. unfold Enqueue.
  fold a q entries. vstep. apply wpv_checkQueueNotPurged. rewrite decide_True by done.
  vstep. vstep. set (st := default QueueState.zero _).
  assert (Hst : 0 <= QueueState.TaskIdSequence st).
  { subst st. destruct (v_qst v !! _) eqn:E; cbn; [|done]. by apply Hu in E as [? _]. }
  vstep. eapply wpv_mono; [apply (wpv_enqueue_entries a q (rescheduled entries) (seq_of v)); try done|].
  - eapply Inv_gen_bound; [|exact Hinv]. intros a' q'. unfold bound_at. case_decide as Hd; [|lia].
    by destruct Hd as [-> ->].
  - intros [ts st'] v1. cbn. intros (Hn & Hinv1 & Hm & (new & -> & Hlen & Hnew & Hsp) & Hkeep).
    vsteps. cbn. split.
    + destruct Hm as (Em & _). apply Inv_seq_written; try done.
      * unfold is_u64. unfold seq_of in Hseq. fold st in Hseq. lia.
      * unfold seq_of. by rewrite Em.
      * rewrite Em. exact Hu.
    + split; [apply Hm|]. split; [|done]. exists new. do 3 (split; [done|]).
      unfold seq_of at 2. cbn. rewrite lookup_insert_eq. exact Hsp.
Qed.
End enqueue.
