(* ===== verification/TasksDequeue.v ===== *)
(** * [Dequeue]

    The two scans and the handler: timed-out leases are settled, due tasks
    are started up to every cap, and the invariant holds again at the end.
    The token bucket never holds more than its maximum and never grants what
    it does not hold. *)

From S2P Require Export TasksEnqueue.

Section dequeue.
Context {U : Utils} {UO : UtilsOk U} {H : Honey} {HO : HoneyOk H}.
Implicit Types (t u : Task.t) (mem : Task.t -> Prop) (v : View).

(** ** Timed-out leases *)

(** What no scan of queue [(a, q)] changes outside its own queue state. *)
Definition same_but_cursor (a q : Z) v v' : Prop :=
  v_rl v' = v_rl v /\ v_purge v' = v_purge v /\
  (forall k, k <> queue_tablePK a q -> v_qst v' !! k = v_qst v !! k) /\
  seq_of v' a q = seq_of v a q.

Lemma same_but_cursor_meta a q v v' : same_meta v v' -> same_but_cursor a q v v'.
Proof.
  intros Hm. pose proof (seq_of_meta _ _ Hm) as E. destruct Hm as (E1 & E2 & E3).
  split; [done|]. split; [done|]. by rewrite E1, E.
Qed.

Lemma same_but_cursor_trans a q v1 v2 v3 :
  same_but_cursor a q v1 v2 -> same_but_cursor a q v2 v3 -> same_but_cursor a q v1 v3.
Proof.
  intros (E1 & E2 & E3 & E4) (F1 & F2 & F3 & F4). repeat split; try congruence.
  intros k Hk. rewrite F3, E3; done.
Qed.

Lemma same_but_cursor_write a q v st :
  QueueState.TaskIdSequence st = seq_of v a q ->
  same_but_cursor a q v (set_qst (<[queue_tablePK a q := st]> (v_qst v)) v).
Proof.
  intros E. repeat split; try done.
  - intros k Hk. cbn. by rewrite lookup_insert_ne.
  - unfold seq_of at 1. cbn. by rewrite lookup_insert_eq.
Qed.

Lemma seq_of_cursor a q v v' a' q' :
  is_u64 a -> is_u64 q -> is_u64 a' -> is_u64 q' ->
  same_but_cursor a q v v' -> seq_of v' a' q' = seq_of v a' q'.
Proof.
  intros Ha Hq Ha' Hq' (_ & _ & Hk & E). destruct (decide (a' = a /\ q' = q)) as [[-> ->]|Hne]; [done|].
  unfold seq_of. rewrite Hk; [done|]. intros Ek. apply queue_tablePK_inj in Ek; naive_solver.
Qed.

(** Where the scan of the queue index resumes. *)
Definition cursor (a q : Z) v : Z :=
  QueueState.LastVisitedEnqueued (default QueueState.zero (v_qst v !! queue_tablePK a q)).

(** Rows after some of the rows [ts] of the queue were settled. *)
Definition all_settled v (ts : list Task.t) (v' : View) : Prop :=
  (forall u, has (v_table v) u -> Forall (fun t => Task.Id u <> Task.Id t) ts -> ~ dead u ->
     has (v_table v') u) /\
  (forall u, has (v_table v') u -> has (v_table v) u \/
     exists t, t ∈ ts /\ Task.Id u = Task.Id t /\
       (dead u \/ Task.ExpiresAt u = Task.ExpiresAt t /\ Task.ThreadId u = Task.ThreadId t)) /\
  (forall u t, has (v_table v') u -> t ∈ ts -> Task.Id u = Task.Id t -> ~ in_progress u).

(** A row whose keep-alive ran out, between the cursor of the queue and [now]. *)
Definition timed_out (a q now : Z) v t : Prop :=
  has (v_table v) t /\ in_progress t /\ in_queue a q t /\
  in_range (be64 (QueueState.LastVisitedInProgress
                    (default QueueState.zero (v_qst v !! queue_tablePK a q))))
    (be64 now) (inProgressIndexItem (Task.VisibleAt t) (task_n t)).

(** The rows one call times out: [maxVisitedTasksForDequeuing] at most, else all of them. *)
Definition timed_out_batch (a q now : Z) v (ts : list Task.t) : Prop :=
  NoDup ts /\ Forall (timed_out a q now v) ts /\
  Z.of_nat (length ts) <= maxVisitedTasksForDequeuing /\
  (Z.of_nat (length ts) < maxVisitedTasksForDequeuing -> forall t, timed_out a q now v t -> t ∈ ts).

Lemma wpv_settle_all v sq ts now dlqc :
  Inv_gen v no_off sq -> is_i64 now ->
  Forall (fun t => has (v_table v) t /\ in_progress t /\ retry_safe now t) ts -> NoDup ts ->
  wpv (for_each ts (fun t => handleTaskFailure t now dlqc)) v (fun _ v' =>
    Inv_gen v' no_off sq /\ same_meta v v' /\ all_settled v ts v').
Proof.
  intros Hinv Hn Hts Hnd.
  apply (wpv_for_each _ (fun l w => Inv_gen w no_off sq /\ same_meta v w /\
    exists gone, ts = gone ++ l /\ all_settled v gone w)).
  - split; [done|]. split; [done|]. exists []. split; [done|]. split; [done|]. split; [by left|].
    intros u t _ []%not_elem_of_nil.
  - intros t l w (Hw & Hm & gone & -> & Hkeep & Hnew & Hnp).
    apply Forall_app in Hts as [Hgone [(Ht & Hp & Hs) _]%Forall_cons].
    apply NoDup_app in Hnd as (_ & Hd & _).
    assert (Htw : has (v_table w) t).
    { apply Hkeep; [done| |unfold dead, in_progress in *; congruence].
      apply Forall_forall. intros u Hu E. apply (Hd u Hu).
      rewrite Forall_forall in Hgone. destruct (Hgone u Hu) as (Hu' & _).
      replace u with t; [by left|]. unfold has in *. rewrite E in Ht. congruence. }
    eapply wpv_mono; [by apply op_handleTaskFailure|].
    intros [] w' (Hw' & Hm' & Hkeep' & Hnew' & Hnp').
    split; [done|]. split; [by eapply same_meta_trans|]. exists (gone ++ [t]).
    rewrite <-app_assoc. split; [done|]. split; [|split].
    + intros u Hu Hall Hnd'. apply Forall_app in Hall as [H1 [H2 _]%Forall_cons]. auto.
    + intros u [Hu|[E Hu]]%Hnew'.
      * destruct (Hnew u Hu) as [?|(t' & ? & ?)]; [by left|right; exists t'; set_solver].
      * right. exists t. set_solver.
    + intros u t' Hu [Ht'| ->%list_elem_of_singleton]%elem_of_app E; [|by apply Hnp'].
      destruct (decide (Task.Id u = Task.Id t)) as [E'|E']; [by apply Hnp'|].
      apply (Hnp u t'); try done. destruct (Hnew' u Hu) as [?|[? _]]; done.
  - intros w (Hw & Hm & gone & E & Hall). rewrite app_nil_r in E. by subst gone.
Qed.

Lemma timed_out_batch_intro a q now v items ts :
  wf_table (v_table v) -> ix_ok (has (v_table v)) v -> is_u64 a -> is_u64 q ->
  StronglySorted blt items ->
  (forall x, x ∈ items <-> tablePK a q ++ x ∈ v_inp v /\
     in_range (be64 (QueueState.LastVisitedInProgress
       (default QueueState.zero (v_qst v !! queue_tablePK a q)))) (be64 now) x) ->
  Forall2 (fetched (v_table v) in_progress Task.VisibleAt a q)
    (take (Z.to_nat maxVisitedTasksForDequeuing) items) ts ->
  timed_out_batch a q now v ts.
Proof.
  intros Hm Hix Ha Hq Hsort Hitems Hts. set (n := Z.to_nat _) in Hts.
  assert (Hin : forall x, x ∈ items <-> exists t, timed_out a q now v t /\
    x = inProgressIndexItem (Task.VisibleAt t) (task_n t)).
  { intros x. rewrite Hitems, index_item_fetched; [|done..|exact (ix_inp _ _ Hix)]. split.
    - intros [(t & ? & ? & ? & ->) ?]. by exists t.
    - intros (t & (? & ? & ? & ?) & ->). split; [by exists t|done]. }
  assert (Hnd : NoDup items) by (by apply (StronglySorted_NoDup blt)).
  pose proof Hnd as Hnd'. rewrite <-(take_drop n items) in Hnd'. apply NoDup_app in Hnd' as [Hnd' _].
  pose proof (Forall2_length _ _ _ Hts) as Hlen. rewrite length_take in Hlen. split_and!.
  - by eapply fetched_NoDup.
  - apply Forall_forall. intros t Ht. apply list_elem_of_lookup in Ht as [i Hi].
    destruct (Forall2_lookup_r _ _ _ _ _ Hts Hi) as (x & Hx & ? & ? & ? & ->).
    split_and!; try done. apply list_elem_of_lookup_2 in Hx. apply Hitems.
    rewrite <-(take_drop n items). apply elem_of_app. by left.
  - subst n. unfold maxVisitedTasksForDequeuing in *. lia.
  - intros Hlt t Ht. rewrite take_ge in Hts by (subst n; unfold maxVisitedTasksForDequeuing in *; lia).
    assert (Hx : inProgressIndexItem (Task.VisibleAt t) (task_n t) ∈ items) by (apply Hin; by eauto).
    apply list_elem_of_lookup in Hx as [i Hi].
    destruct (Forall2_lookup_l _ _ _ _ _ Hts Hi) as (u & Hu & Hf).
    replace t with u; [by eapply list_elem_of_lookup_2|].
    destruct Hf as (Hhu & _ & [E1 E2] & E3), Ht as (Hht & _ & [E4 E5] & _).
    apply (rows_fun _ (rows_has _ Hm)); try done.
    destruct (Hm _ _ Hhu) as [_ Hwu], (Hm _ _ Hht) as [_ Hwt]. apply (inp_key_inj u t); try done.
    unfold inp_key, task_pk. rewrite E1, E2, E4, E5. f_equal. symmetry. exact E3.
Qed.

Lemma wpv_dequeueInProgress a q now dlqc v :
  Inv v -> is_u64 a -> is_u64 q -> is_i64 now ->
  (forall t, has (v_table v) t -> in_queue a q t -> in_progress t -> retry_safe now t) ->
  wpv (dequeueInProgressTasksBeforeTime a q now dlqc) v (fun _ v' =>
    Inv v' /\ same_but_cursor a q v v' /\
    cursor a q v' = cursor a q v /\
    exists ts, timed_out_batch a q now v ts /\ all_settled v ts v').
Proof.
  intros [Hinv Hu] Ha Hq Hnow Hsafe. unfold dequeueInProgressTasksBeforeTime. vstep. vstep.
  set (st := default QueueState.zero _). vstep.
  apply (wpv_omi_ListInRange (fun s => inProgressIndex (tasks s)) v_inp (take _)); [done|].
  intros items Hsort Hitems. set (n := Z.to_nat maxVisitedTasksForDequeuing).
  assert (Hf : Forall (fun x => exists t, fetched (v_table v) in_progress Task.VisibleAt a q x t) items).
  { apply Forall_forall. intros x [Hx _]%Hitems.
    eapply index_item_fetched in Hx; [done|apply Hinv|done|done|].
    exact (ix_inp _ _ (ig_ix _ _ _ Hinv)). }
  vstep. eapply wpv_mono; [apply (wpv_fetch in_progress Task.VisibleAt); [apply Hinv|by apply Forall_take]|].
  intros ts ? [-> Hts]. vstep. vstep.
  set (st' := match last (take n items) with None => _ | Some _ => _ end).
  assert (Est : QueueState.TaskIdSequence st' = seq_of v a q).
  { unfold seq_of. fold st. subst st'. by destruct (last _), st. }
  assert (Hall : Forall (fun t => has (v_table v) t /\ in_progress t /\ in_queue a q t) ts).
  { apply Forall_forall. intros t Ht. apply list_elem_of_lookup in Ht as [i Hi].
    by destruct (Forall2_lookup_r _ _ _ _ _ Hts Hi) as (y & _ & ? & ? & ? & _). }
  assert (Hb : timed_out_batch a q now v ts).
  { eapply (timed_out_batch_intro a q now v items); try done; [apply Hinv|apply Hinv|].
    intros x. rewrite Hitems, !itemPrefix_eq. done. }
  set (w := set_qst _ v).
  assert (Hinvw : Inv w).
  { apply Inv_seq_written; try done.
    - rewrite Est. unfold seq_of. destruct (v_qst v !! _) eqn:E; cbn; [by apply Hu in E|].
      apply is_u64_0.
    - eapply Inv_gen_bound; [|exact Hinv]. intros a' q'. unfold bound_at. case_decide as Hd; [|done].
      destruct Hd as [-> ->]. by rewrite Est. }
  eapply wpv_mono; [apply (wpv_settle_all w (seq_of w)); [apply Hinvw|done| |]|].
  - eapply Forall_impl; [exact Hall|]. intros t (Ht & Hp & Hqt). split; [done|]. split; [done|]. by apply Hsafe.
  - eapply fetched_NoDup; [done|]. assert (Hnd : NoDup items) by (by apply (StronglySorted_NoDup blt)).
    rewrite <-(take_drop n items) in Hnd. by apply NoDup_app in Hnd as [? _].
  - intros [] v' (Hinv' & Hm & Hset). split; [|split; [|split]].
    + split; [by rewrite (seq_of_meta w v')|]. destruct Hm as (-> & _). apply Hinvw.
    + eapply same_but_cursor_trans; [by apply same_but_cursor_write|by apply same_but_cursor_meta].
    + unfold cursor. destruct Hm as (-> & _). subst w. cbn. rewrite lookup_insert_eq. cbn. fold st.
      subst st'. by destruct (last _), st.
    + by exists ts.
Qed.
(** ** The scan of the queue index *)

Definition expired_at (now : Z) t : Prop := Task.ExpiresAt t < now.
#[global] Instance expired_at_dec now t : Decision (expired_at now t).
Proof. unfold expired_at. apply _. Defined.

Definition nlen {A} (l : list A) : Z := Z.of_nat (length l).

(** What visiting the rows [ts] adds to the accumulator. *)
Record scanned (now : Z) (ts : list Task.t) (sc sc' : scan) : Prop := {
  sd_dequeued : sc_dequeued sc' = sc_dequeued sc ++ filter (fun t => ~ expired_at now t) ts;
  sd_expired : sc_expired sc' = sc_expired sc ++ filter (expired_at now) ts;
  sd_visited : sc_visited sc' = sc_visited sc + nlen ts;
  sd_seq : QueueState.TaskIdSequence (sc_state sc') = QueueState.TaskIdSequence (sc_state sc);
  sd_enq st : gauged st -> is_i64 (gauge (sc_counters sc) st) ->
    gauge (sc_counters sc') st = i64 (gauge (sc_counters sc) st +
      match st with
      | TASK_STATE_ENQUEUED => - nlen ts
      | TASK_STATE_IN_PROGRESS => nlen (filter (fun t => ~ expired_at now t) ts)
      | _ => 0
      end);
}.

Lemma scanned_nil now sc : scanned now [] sc sc.
Proof.
  split; rewrite ?app_nil_r; unfold nlen; cbn; try done; [lia|].
  intros st Hst Hi. destruct Hst as [->|[->| ->]]; rewrite Z.add_0_r, i64_id; done.
Qed.

Lemma scanned_cons now x t ts sc sc' :
  scanned now ts (scan_take now x t sc) sc' -> scanned now (t :: ts) sc sc'.
Proof.
  intros [H1 H2 H3 H4 H5]. unfold scan_take in *. destruct (Z.ltb_spec (Task.ExpiresAt t) now) as [He|He].
  - assert (Hx : expired_at now t) by done. cbn in *. rewrite <-app_assoc in H2.
    split; rewrite ?filter_cons, ?(decide_True (P := expired_at now t)), ?decide_False by tauto; try done.
    + rewrite H3. unfold nlen. cbn. lia.
    + rewrite H4. by destruct (sc_state sc).
    + intros st Hst Hi. specialize (H5 st Hst). destruct (sc_counters sc) as [ce ci cd cp cx].
      destruct Hst as [->|[->| ->]]; cbn in *; rewrite H5 by auto; [|done..].
      rewrite i64_i64_add. f_equal. unfold nlen. cbn. lia.
  - assert (Hx : ~ expired_at now t) by (unfold expired_at; lia). cbn in *. rewrite <-app_assoc in H1.
    split; rewrite ?filter_cons, ?(decide_False (P := expired_at now t)), ?decide_True by tauto; try done.
    + rewrite H3. unfold nlen. cbn. lia.
    + rewrite H4. by destruct (sc_state sc).
    + intros st Hst Hi. specialize (H5 st Hst). destruct (sc_counters sc) as [ce ci cd cp cx].
      destruct Hst as [->|[->| ->]]; cbn in *; rewrite H5 by auto; [| |done];
        rewrite i64_i64_add; f_equal; unfold nlen; cbn; lia.
Qed.

(** The caps of one call. *)
Definition capped (limit : Z) (settings : option DequeuingSettings.t) (sc : scan) : Prop :=
  nlen (sc_dequeued sc) <= limit /\ sc_visited sc <= maxVisitedTasksForDequeuing /\
  match settings with
  | Some ds => 0 < DequeuingSettings.MaxInProgressTasks ds ->
      TasksCounter.InProgressTasksCount (sc_counters sc) <= DequeuingSettings.MaxInProgressTasks ds
  | None => True
  end.

Lemma scan_take_capped limit settings now x t sc :
  (forall ds, settings = Some ds -> is_i64 (DequeuingSettings.MaxInProgressTasks ds)) ->
  is_i64 (TasksCounter.InProgressTasksCount (sc_counters sc)) ->
  scan_saturated limit settings sc = false -> capped limit settings (scan_take now x t sc).
Proof.
  intros Hds Hci Hsat. unfold scan_saturated in Hsat.
  apply orb_false_iff in Hsat as [[Hs1 Hs2]%orb_false_iff Hs3].
  unfold capped, scan_take, nlen in *. destruct (Task.ExpiresAt t <? now); cbn; rewrite ?length_app; cbn.
  - split; [lia|]. split; [lia|]. destruct settings as [ds|]; [|done]. intros Hpos.
    destruct (sc_counters sc); cbn in *. lia.
  - split; [lia|]. split; [lia|]. destruct settings as [ds|]; [|done]. intros Hpos.
    specialize (Hds ds eq_refl). destruct (sc_counters sc) as [ce ci cd cp cx]; cbn in *.
    replace (DequeuingSettings.MaxInProgressTasks ds >? 0) with true in Hs3 by lia. cbn in Hs3.
    unfold is_i64 in *. rewrite i64_id by (unfold is_i64; lia). lia.
Qed.
Lemma wpv_scan_queue P time a q now limit settings v :
  wf_table (v_table v) ->
  (forall ds, settings = Some ds -> is_i64 (DequeuingSettings.MaxInProgressTasks ds)) ->
  forall items sc,
  Forall (fun x => exists t, fetched (v_table v) P time a q x t) items ->
  is_i64 (TasksCounter.InProgressTasksCount (sc_counters sc)) ->
  wpv (scan_queue a q now limit settings items sc) v (fun sc' v' => v' = v /\
    exists n ts, Forall2 (fetched (v_table v) P time a q) (take n items) ts /\
      scanned now ts sc sc' /\ (sc' = sc \/ capped limit settings sc') /\
      (take n items = items \/ scan_saturated limit settings sc' = true)).
Proof.
  intros Hm Hds. induction items as [|x items IH]; intros sc Hf Hci; cbn.
  { apply wpv_ret. split; [done|]. exists 0%nat, []. split; [constructor|].
    split; [apply scanned_nil|by auto]. }
  destruct (scan_saturated limit settings sc) eqn:Hsat.
  { apply wpv_ret. split; [done|]. exists 0%nat, []. split; [constructor|].
    split; [apply scanned_nil|by auto]. }
  apply Forall_cons in Hf as [[t Ht] Hf]. vstep.
  rewrite (fetched_id _ _ _ _ _ _ _ Hm Ht). eapply wpv_tasks_Get; [apply Ht|].
  eapply wpv_mono; [apply IH; [done|]|].
  - unfold scan_take. destruct (_ <? now), (sc_counters sc); cbn in *; auto.
  - intros sc' ? [-> (n & ts & Hts & Hsc & Hcap & Hend)]. split; [done|]. exists (S n), (t :: ts).
    cbn. split; [by constructor|]. split; [by eapply scanned_cons|]. split.
    + right. destruct Hcap as [->|]; [by apply scan_take_capped|done].
    + destruct Hend as [->|]; auto.
Qed.

(** ** Removing and starting the rows found *)

Lemma wpv_dropExpired mem v t :
  ix_ok mem v -> mem t -> enqueued t -> ~ threaded t ->
  wpv (dropExpired (TaskId.AccountId (Task.Id t)) (TaskId.QueueId (Task.Id t)) t) v (fun _ v' =>
    ix_ok (mem_upd mem (Task.Id t) None) v' /\
    v_table v' = delete (task_key (Task.Id t)) (v_table v) /\
    v_cnt v' = v_cnt v /\ v_thr v' = v_thr v /\ same_meta v v').
Proof.
  intros Hix Ht He Hth. pose proof Hix as [Hrows Hthr Hinp Hdead Hexp Hded].
  unfold dropExpired. do 6 vstep. cbn.
  change (tablePK _ _ ++ _) with (qkey t). change (expiration_item _ _) with (exp_key t).
  change (dedupeKeysIndexPK _ _ _) with (task_dedupePK t).
  change (when _ _) with (release_dedupe t).
  eapply wpv_mono; [apply (wpv_release_dedupe mem _ t t None); try done|].
  - unfold enqueued in He. congruence.
  - intros [] ? (D & -> & HD). cbn. split; [|by repeat split].
    apply (ix_ok_removed mem v); cbn; try done.
    + eapply threads_ok_fields;
        [..|apply (threads_ok_unthreaded mem v (Task.Id t) None (v_queue v ∖ {[qkey t]}))]; try done.
      * intros u Hu E [Hn _]. by rewrite (rows_fun _ Hrows u t) in Hn.
      * by apply image_queue_removed.
    + intros k. unfold in_progress, enqueued in *. intuition congruence.
    + intros k. unfold dead, enqueued in *. intuition congruence.
Qed.

(** While the rows [le] wait to be dropped and [ld] to be started, the
    counters are ahead of the table. *)
Definition ahead (a q : Z) (le ld : list Task.t) (a' q' : Z) (st : TaskState) : Z :=
  if decide (a' = a /\ q' = q) then
    match st with
    | TASK_STATE_ENQUEUED => - (nlen le + nlen ld)
    | TASK_STATE_IN_PROGRESS => nlen ld
    | _ => 0
    end
  else 0.

Definition pending (a q : Z) v (l : list Task.t) : Prop :=
  Forall (fun t => has (v_table v) t /\ queued (v_thr v) t /\ in_queue a q t) l.

Lemma pending_kept a q v v' t l :
  wf_table (v_table v) -> wf_task t -> NoDup (t :: l) -> has (v_table v) t ->
  v_thr v' = v_thr v ->
  (forall u, has (v_table v) u -> Task.Id u <> Task.Id t -> has (v_table v') u) ->
  pending a q v l -> pending a q v' l.
Proof.
  intros Hm Hw Hnd Ht ET Hkeep Hp. apply NoDup_cons in Hnd as [Hni _].
  apply Forall_forall. intros u Hu. unfold pending in Hp. rewrite Forall_forall in Hp.
  destruct (Hp u Hu) as (Hh & Hq & Hi). rewrite ET. split; [|done]. apply Hkeep; [done|].
  intros E. apply Hni. replace t with u; [done|]. unfold has in *. rewrite E in Hh. congruence.
Qed.

Lemma op_dropExpired v a q le ld sq t :
  Inv_gen v (ahead a q (t :: le) ld) sq -> has (v_table v) t -> in_queue a q t ->
  enqueued t -> ~ threaded t ->
  wpv (dropExpired a q t) v (fun _ v' => Inv_gen v' (ahead a q le ld) sq /\
    v_table v' = delete (task_key (Task.Id t)) (v_table v) /\
    v_thr v' = v_thr v /\ v_cnt v' = v_cnt v /\ same_meta v v').
Proof.
  intros Hinv Ht Hq He Hth. pose proof Hq as [<- <-].
  eapply wpv_mono; [apply (wpv_dropExpired (has (v_table v))); [apply Hinv|done..]|].
  intros [] v' (Hix & Et & Ec & ET & Hm). split; [|done].
  pose proof (has_wf _ _ _ _ Hinv Ht) as Hw. destruct Hinv as [Hwf _ Hc Hs]. split.
  - rewrite Et. by apply wf_table_delete.
  - eapply ix_ok_ext; [|done]. intros u. rewrite Et. symmetry. by apply has_delete.
  - eapply counts_unbumped; [|done..]. intros a' q' st. rewrite Et, count_delete, Ht.
    rewrite (ind_version a' q' st t t) by done. unfold ahead, in_queue, enqueued, nlen in *.
    rewrite He. cbn. repeat case_decide; destruct st; try lia; naive_solver congruence.
  - intros u Hu. apply Hs. unfold has in *. rewrite Et in Hu.
    by apply lookup_delete_Some in Hu as [_ ?].
Qed.
Lemma wpv_drop_all v a q sq le ld :
  Inv_gen v (ahead a q le ld) sq -> pending a q v le -> pending a q v ld ->
  NoDup (le ++ ld) -> Forall (fun t => ~ threaded t) le ->
  wpv (for_each le (dropExpired a q)) v (fun _ v' =>
    Inv_gen v' (ahead a q [] ld) sq /\ pending a q v' ld /\
    (same_meta v v' /\ v_cnt v' = v_cnt v) /\
    (forall u, has (v_table v') u <-> has (v_table v) u /\ u ∉ le)).
Proof.
  intros Hinv Hle Hld Hnd Hth.
  apply (wpv_for_each _ (fun l w => Inv_gen w (ahead a q l ld) sq /\ pending a q w l /\
    pending a q w ld /\ (same_meta v w /\ v_cnt w = v_cnt v) /\ exists gone, le = gone ++ l /\
    (forall u, has (v_table w) u <-> has (v_table v) u /\ u ∉ gone))).
  - do 4 (split; [done|]). exists []. split; [done|]. set_solver.
  - intros t l w (Hw & Hl & Hd & [Hm Hcn] & gone & -> & Hrows).
    apply Forall_app in Hth as [_ [Htt _]%Forall_cons].
    assert (Hnd' : NoDup (t :: l ++ ld)).
    { rewrite <-app_assoc in Hnd. by apply NoDup_app in Hnd as (_ & _ & ?). }
    apply Forall_cons in Hl as [(Ht & [He Hq] & Hi) Hl].
    eapply wpv_mono; [by apply op_dropExpired|]. intros [] w' (Hw' & Et & ET & Ecn & Hm').
    pose proof (has_wf _ _ _ _ Hw Ht) as Hwt.
    assert (Hr' : forall u, has (v_table w') u <-> mem_upd (has (v_table w)) (Task.Id t) None u)
      by (intros u; rewrite Et; apply has_delete; [apply Hw|done]).
    assert (Hp : pending a q w' (l ++ ld)).
    { eapply (pending_kept a q w w' t); try done; [apply Hw| |].
      - intros u Hu Hne. apply Hr'. by right.
      - by apply Forall_app. }
    apply Forall_app in Hp as [Hp1 Hp2].
    do 3 (split; [done|]). split; [split; [by eapply same_meta_trans|congruence]|].
    exists (gone ++ [t]). rewrite <-app_assoc. split; [done|]. intros u. rewrite Hr'. unfold mem_upd.
    rewrite Hrows, not_elem_of_app, list_elem_of_singleton. apply Hrows in Ht as [Ht _]. split.
    + intros [[=]|[[Hu Hg] Hid]]. split; [done|]. split; [done|]. congruence.
    + intros (Hu & Hg & Hne). right. split; [done|]. intros E. apply Hne.
      unfold has in Hu, Ht. rewrite E in Hu. congruence.
  - intros w (Hw & _ & Hd & Hm & gone & E & Hrows). rewrite app_nil_r in E. by subst gone.
Qed.

Lemma Inv_gen_off_ext v off off' sq :
  (forall a q st, off a q st = off' a q st) -> Inv_gen v off sq -> Inv_gen v off' sq.
Proof.
  intros E [H1 H2 H3 H4]. split; try done. intros a q st Ha Hq Hst. rewrite <-E. by apply H3.
Qed.

Lemma started_ind a q st now ka t :
  ind a q st (Some (started now ka t)) =
    if decide (in_queue a q t) then (if decide (TASK_STATE_IN_PROGRESS = st) then 1 else 0) else 0.
Proof.
  destruct (started_fields now ka t) as (EI & _ & _ & _ & _ & Est).
  by rewrite (ind_version a q st t), Est.
Qed.

Lemma wpv_start_all v a q sq now ka ld :
  Inv_gen v (ahead a q [] ld) sq -> pending a q v ld -> NoDup ld ->
  wpv (for_map ld (startTask a q now ka)) v (fun ts v' =>
    Inv_gen v' no_off sq /\ (same_meta v v' /\ v_cnt v' = v_cnt v) /\ ts = started now ka <$> ld /\
    Forall (has (v_table v')) ts /\
    (forall u, has (v_table v) u -> u ∉ ld -> has (v_table v') u)).
Proof.
  intros Hinv Hld Hnd.
  apply (wpv_for_map _ (fun l ys w => Inv_gen w (ahead a q [] l) sq /\ pending a q w l /\ NoDup l /\
    (same_meta v w /\ v_cnt w = v_cnt v) /\ exists pre, ld = pre ++ l /\ ys = started now ka <$> pre /\
    Forall (has (v_table w)) ys /\ (forall u, has (v_table v) u -> u ∉ pre -> has (v_table w) u))).
  - do 4 (split; [done|]). exists []. split; [done|]. split; [done|]. split; [constructor|]. auto.
  - intros t l ys w (Hw & Hl & Hndl & [Hm Hcn] & pre & -> & -> & Hys & Hkeep).
    assert (Hin : forall u, u ∈ pre ++ t :: l -> has (v_table v) u /\ True).
    { intros u Hu. unfold pending in Hld. rewrite Forall_forall in Hld. by destruct (Hld u Hu). }
    assert (Hone : forall u u', u ∈ pre ++ t :: l -> u' ∈ pre ++ t :: l ->
                     Task.Id u = Task.Id u' -> u = u').
    { intros u u' [Hu _]%Hin [Hu' _]%Hin E. unfold has in *. rewrite E in Hu. congruence. }
    apply Forall_cons in Hl as [(Ht & Hq & [Ea Eq]) Hl].
    pose proof (has_wf _ _ _ _ Hw Ht) as Hwt. rewrite <-Ea, <-Eq.
    eapply wpv_mono; [by apply op_startTask|].
    intros t1 w' (-> & Hw' & Et & Ec & ET & Hm'). set (t1 := started now ka t) in *.
    assert (EI : Task.Id t1 = Task.Id t) by apply started_fields. rewrite <-EI in Et at 1.
    assert (Hwt1 : wf_task t1) by (apply wf_started; [done|apply Hq]).
    assert (Hr' : forall u, has (v_table w') u <-> mem_upd (has (v_table w)) (Task.Id t) (Some t1) u).
    { intros u. rewrite Et, <-EI. apply has_insert; [apply Hw|done]. }
    split; [|split; [|split; [by apply NoDup_cons in Hndl as [_ ?]|split; [split; [by eapply same_meta_trans|congruence]|]]]].
    + destruct Hw' as [G1 G2 G3 G4]. split; try done. intros a' q' st Ha' Hq' Hst.
      rewrite (G3 a' q' st Ha' Hq' Hst). f_equal. f_equal. unfold t1. rewrite started_ind.
      rewrite (ind_version a' q' st t t) by done. destruct Hq as [He _]. unfold enqueued in He.
      rewrite He. unfold ahead, in_queue, nlen. cbn.
      repeat case_decide; destruct st; try lia; naive_solver congruence.
    + rewrite Ea, Eq. eapply (pending_kept a q w w' t); try done; [apply Hw|].
      intros u Hu Hne. apply Hr'. by right.
    + exists (pre ++ [t]). rewrite <-app_assoc, fmap_app. split; [done|]. split; [done|]. split.
      * apply Forall_app. split; [|constructor; [|constructor]].
        -- apply Forall_forall. intros y Hy. rewrite Forall_forall in Hys. apply Hr'. right.
           split; [by apply Hys|]. intros E. apply list_elem_of_fmap in Hy as (t' & -> & Ht').
           assert (E' : Task.Id t' = Task.Id t) by (rewrite <-E; symmetry; apply started_fields).
           apply NoDup_app in Hnd as (_ & Hd & _). apply (Hd t' Ht').
           rewrite (Hone t' t); set_solver.
        -- apply Hr'. by left.
      * intros u Hu Hn. apply Hr'. right. split; [apply Hkeep; set_solver|]. intros E.
        apply Hn. apply elem_of_app. right. apply list_elem_of_singleton.
        destruct (Hin t) as [Htv _]; [set_solver|]. unfold has in *. rewrite E in Hu. congruence.
  - intros ts w (Hw & _ & _ & Hm & pre & E & -> & Hys & Hkeep). rewrite app_nil_r in E. subst pre.
    split; [|done]. eapply Inv_gen_off_ext; [|exact Hw]. intros a' q' st. unfold ahead, no_off, nlen. cbn.
    case_decide; by destruct st.
Qed.
(** ** [dequeueTasksBeforeTime] *)

(** No threaded task waiting in queue [(a, q)] has expired. *)
Definition no_expired_thread (a q now : Z) v : Prop :=
  forall t, has (v_table v) t -> in_queue a q t -> threaded t -> ~ dead t -> ~ expired_at now t.

(** A row the scan would take: queued, due and not expired. *)
Definition takeable (a q now lo : Z) v t : Prop :=
  has (v_table v) t /\ queued (v_thr v) t /\ in_queue a q t /\
  in_range (be64 lo) (be64 now) (queueIndexItem (Task.ScheduledAt t) (task_n t)).

Definition item_of t : bytes := queueIndexItem (Task.ScheduledAt t) (task_n t).

(** The three reasons for which a call leaves due tasks behind. *)
Definition saturated (a q now limit : Z) (settings : option DequeuingSettings.t) v
    (ts : list Task.t) (v' : View) : Prop :=
  limit <= nlen ts \/
  (exists seen, NoDup seen /\ Forall (takeable a q now (cursor a q v) v) seen /\
     maxVisitedTasksForDequeuing <= nlen seen) \/
  (exists ds, settings = Some ds /\ 0 < DequeuingSettings.MaxInProgressTasks ds /\
     DequeuingSettings.MaxInProgressTasks ds
       <= TasksCounter.InProgressTasksCount (counter_of v' a q)).

Record dequeue_post (a q now limit ka : Z) (settings : option DequeuingSettings.t) v
    (ts : list Task.t) (v' : View) : Prop := {
  dq_limit : nlen ts <= Z.max 0 limit;
  dq_visited : nlen ts <= maxVisitedTasksForDequeuing;
  dq_order : StronglySorted blt (item_of <$> ts);
  dq_due : Forall (fun t' => has (v_table v') t' /\ exists t,
    takeable a q now (cursor a q v) v t /\ ~ expired_at now t /\ t' = started now ka t) ts;
  dq_max ds : ts <> [] -> settings = Some ds -> 0 < DequeuingSettings.MaxInProgressTasks ds ->
    TasksCounter.InProgressTasksCount (counter_of v' a q)
      <= DequeuingSettings.MaxInProgressTasks ds;
  dq_complete t : takeable a q now (cursor a q v) v t -> ~ expired_at now t ->
    started now ka t ∈ ts \/ saturated a q now limit settings v ts v';
}.

Lemma ahead_counts v a q now ts c sc st cx :
  is_u64 a -> is_u64 q -> counts_off v no_off ->
  scanned now ts (mkScan [] [] 0 st (counter_of v a q)) sc ->
  c = TasksCounter.add_Expired cx (sc_counters sc) ->
  counts_off (set_cnt (<[queue_tablePK a q := c]> (v_cnt v)) v)
    (ahead a q (sc_expired sc) (sc_dequeued sc)).
Proof.
  intros Ha Hq Hc [S1 S2 S3 S4 S5] -> a' q' s Ha' Hq' Hs. cbn in *. unfold counter_of. cbn.
  specialize (Hc a' q' s Ha' Hq' Hs). unfold no_off in Hc. rewrite Z.add_0_r in Hc.
  unfold ahead. case_decide as Hd.
  - destruct Hd as [-> ->]. rewrite lookup_insert_eq. cbn [default from_option id].
    assert (Eg : gauge (TasksCounter.add_Expired cx (sc_counters sc)) s = gauge (sc_counters sc) s).
    { destruct (sc_counters sc). by destruct Hs as [->|[->| ->]]. }
    rewrite Eg, S5 by (done || rewrite Hc; auto). rewrite Hc, i64_i64_add. f_equal. f_equal.
    rewrite S1, S2. destruct s; try done. unfold nlen.
    rewrite (filter_lengths (expired_at now) ts). lia.
  - rewrite lookup_insert_ne; [unfold counter_of in Hc; rewrite Hc; f_equal; lia|].
    intros E. apply queue_tablePK_inj in E; naive_solver.
Qed.
Lemma Inv_gen_counts v (off off' : Z -> Z -> TaskState -> Z) (sq : Z -> Z -> Z) (C : gmap bytes TasksCounter.t) :
  Inv_gen v off sq -> counts_off (set_cnt C v) off' -> Inv_gen (set_cnt C v) off' sq.
Proof.
  intros [H1 [I1 I2 I3 I4 I5 I6] H3 H4] Hc. split; try done. split; try done.
  by eapply threads_ok_fields; [..|exact I2].
Qed.

Lemma scanned_pending a q now v items ts sc st c :
  wf_table (v_table v) -> NoDup items ->
  Forall2 (fetched (v_table v) (queued (v_thr v)) Task.ScheduledAt a q) items ts ->
  scanned now ts (mkScan [] [] 0 st c) sc ->
  pending a q v (sc_expired sc) /\ pending a q v (sc_dequeued sc) /\
  NoDup (sc_expired sc ++ sc_dequeued sc).
Proof.
  intros Hm Hnd Hts [S1 S2 _ _ _]. cbn in *. rewrite S1, S2.
  assert (Hall : pending a q v ts).
  { apply Forall_forall. intros t Ht. apply list_elem_of_lookup in Ht as [i Hi].
    by destruct (Forall2_lookup_r _ _ _ _ _ Hts Hi) as (y & _ & ? & ? & ? & _). }
  split; [by apply Forall_filter|]. split; [by apply Forall_filter|].
  apply fetched_NoDup in Hts; [|done]. apply NoDup_app. split; [by apply NoDup_filter|].
  split; [|by apply NoDup_filter].
  intros t [Ht _]%list_elem_of_filter [Hn _]%list_elem_of_filter. done.
Qed.

Lemma item_of_started now ka t : item_of (started now ka t) = item_of t.
Proof. by destruct t. Qed.

(** The rows taken, in the order of their index items. *)
Lemma scanned_items P time a q m items ts :
  Forall2 (fetched m P time a q) items ts ->
  (fun t => queueIndexItem (time t) (task_n t)) <$> ts = items.
Proof. induction 1 as [|x t items ts (_ & _ & _ & ->) _ IH]; cbn; [done|]. by rewrite IH. Qed.

Lemma takeable_inj a q now lo v t u :
  wf_table (v_table v) -> takeable a q now lo v t -> takeable a q now lo v u ->
  item_of t = item_of u -> t = u.
Proof.
  intros Hm (Ht & _ & [Ha Hq] & _) (Hu & _ & [Ha' Hq'] & _) E.
  destruct (Hm _ _ Ht) as [_ Hwt], (Hm _ _ Hu) as [_ Hwu]. apply (rows_fun _ (rows_has _ Hm)); try done.
  apply (qkey_inj t u); try done. change (task_pk t ++ item_of t = task_pk u ++ item_of u). unfold task_pk. congruence.
Qed.

Lemma scanned_saturated a q now limit settings v v' ka ts sc :
  let sc0 := mkScan [] [] 0 (default QueueState.zero (v_qst v !! queue_tablePK a q))
               (counter_of v a q) in
  Forall (takeable a q now (cursor a q v) v) ts -> NoDup ts ->
  scanned now ts sc0 sc ->
  TasksCounter.InProgressTasksCount (counter_of v' a q) =
    TasksCounter.InProgressTasksCount (sc_counters sc) ->
  scan_saturated limit settings sc = true ->
  saturated a q now limit settings v (started now ka <$> sc_dequeued sc) v'.
Proof.
  intros sc0 Hts Hnd Hsc Hc Hsat. unfold scan_saturated in Hsat. unfold saturated, nlen at 1.
  rewrite length_fmap, Hc.
  apply orb_true_iff in Hsat as [[Hs|Hs]%orb_true_iff|Hs]; [left; lia|right; left|right; right].
  - exists ts. split_and!; [done|done|]. destruct Hsc as [_ _ S3 _ _]. cbn in S3. lia.
  - destruct settings as [ds|]; [|done]. exists ds. split_and!; [done|lia..].
Qed.

Lemma dequeue_post_intro a q now limit settings ka v v' items n ts sc :
  let st := default QueueState.zero (v_qst v !! queue_tablePK a q) in
  let sc0 := mkScan [] [] 0 st (counter_of v a q) in
  StronglySorted blt items ->
  (forall x, x ∈ items <-> exists t, takeable a q now (cursor a q v) v t /\ x = item_of t) ->
  Forall2 (fetched (v_table v) (queued (v_thr v)) Task.ScheduledAt a q) (take n items) ts ->
  scanned now ts sc0 sc -> sc = sc0 \/ capped limit settings sc ->
  take n items = items \/ scan_saturated limit settings sc = true ->
  wf_table (v_table v) -> is_u64 a -> is_u64 q ->
  Forall (has (v_table v')) (started now ka <$> sc_dequeued sc) ->
  TasksCounter.InProgressTasksCount (counter_of v' a q) =
    TasksCounter.InProgressTasksCount (sc_counters sc) ->
  dequeue_post a q now limit ka settings v (started now ka <$> sc_dequeued sc) v'.
Proof.
  intros st sc0 Hsort Hitems Hts Hsc Hcap Hend Hm Ha Hq Hhas Hc.
  pose proof (scanned_items _ _ _ _ _ _ _ Hts) as Eit. change (item_of <$> ts = take n items) in Eit.
  assert (Hsort' : StronglySorted blt (item_of <$> ts)).
  { rewrite Eit. rewrite <-(take_drop n items) in Hsort. by apply StronglySorted_app_1_l in Hsort. }
  assert (Htake : Forall (takeable a q now (cursor a q v) v) ts).
  { apply Forall_forall. intros t Ht. apply list_elem_of_lookup in Ht as [i Hi].
    destruct (Forall2_lookup_r _ _ _ _ _ Hts Hi) as (x & Hx & Hh & HP & Hqt & ->).
    split_and!; try done. assert (Hin : item_of t ∈ items).
    { apply list_elem_of_lookup_2 in Hx. rewrite <-(take_drop n items). apply elem_of_app. by left. }
    apply Hitems in Hin as (u & (_ & _ & _ & Hr) & E). unfold item_of in E. by rewrite E. }
  assert (Hnd : NoDup ts).
  { eapply (NoDup_fmap_1 item_of), (StronglySorted_NoDup blt), Hsort'. }
  pose proof Hsc as [S1 S2 S3 _ _]. cbn in S1, S2, S3.
  pose proof (filter_lengths (expired_at now) ts) as Hfl.
  split.
  - unfold nlen. rewrite length_fmap. destruct Hcap as [->|(H1 & _)]; cbn; [lia|unfold nlen in *; lia].
  - unfold nlen. rewrite length_fmap. destruct Hcap as [->|(_ & H2 & _)]; [done|].
    unfold nlen in *. rewrite S1. lia.
  - rewrite <-list_fmap_compose. rewrite (list_fmap_ext _ item_of)
      by (intros ? t _; apply item_of_started). rewrite S1. by apply StronglySorted_fmap_filter.
  - apply Forall_forall. intros t' Ht'. rewrite Forall_forall in Hhas. split; [by apply Hhas|].
    apply list_elem_of_fmap in Ht' as (t & -> & Ht). exists t. rewrite S1 in Ht.
    apply list_elem_of_filter in Ht as [? Ht]. rewrite Forall_forall in Htake. auto.
  - intros ds Hnil -> Hpos. rewrite Hc. destruct Hcap as [->|(_ & _ & Hmax)]; [done|auto].
  - intros t Ht Hne. destruct Hend as [Efull|Hsat];
      [left|right; by eapply scanned_saturated].
    apply list_elem_of_fmap. exists t. split; [done|]. rewrite S1. apply list_elem_of_filter.
    split; [done|]. assert (Hin : item_of t ∈ items) by (apply Hitems; by eauto).
    rewrite <-Efull, <-Eit in Hin. apply list_elem_of_fmap in Hin as (u & E & Hu).
    replace t with u; [done|]. rewrite Forall_forall in Htake.
    by apply (takeable_inj a q now (cursor a q v) v); auto.
Qed.

Lemma wpv_dequeueTasksBeforeTime a q now limit settings ka v :
  Inv v -> is_u64 a -> is_u64 q ->
  (forall ds, settings = Some ds -> is_i64 (DequeuingSettings.MaxInProgressTasks ds)) ->
  no_expired_thread a q now v ->
  wpv (dequeueTasksBeforeTime a q now limit settings ka) v (fun ts v' =>
    Inv v' /\ same_but_cursor a q v v' /\ dequeue_post a q now limit ka settings v ts v').
Proof.
  intros [Hinv Hu] Ha Hq Hds Hne. unfold dequeueTasksBeforeTime. do 5 vstep.
  set (st := default QueueState.zero _). fold (counter_of v a q).
  apply (wpv_omi_ListInRange (fun s => queueIndex (tasks s)) v_queue (fun l => l)); [done|].
  intros items Hsort Hitems. rewrite !itemPrefix_eq in Hitems.
  pose proof (ig_table _ _ _ Hinv) as Hm.
  assert (Hf : Forall (fun x => exists t,
    fetched (v_table v) (queued (v_thr v)) Task.ScheduledAt a q x t) items).
  { apply Forall_forall. intros x [Hx _]%Hitems.
    eapply index_item_fetched in Hx; [done|done|done|done|].
    exact (to_queue _ _ (ix_threads _ _ (ig_ix _ _ _ Hinv))). }
  assert (Hi64 : forall s, gauged s -> is_i64 (gauge (counter_of v a q) s)).
  { intros s Hs. rewrite (ig_counts _ _ _ Hinv a q s Ha Hq Hs). auto. }
  vstep. eapply wpv_mono;
    [apply (wpv_scan_queue (queued (v_thr v)) Task.ScheduledAt a q now limit settings v); try done|].
  { apply (Hi64 TASK_STATE_IN_PROGRESS). unfold gauged. auto. }
  intros sc ? [-> (n & ts & Hts & Hsc & Hcap & Hend)]. vstep. vstep. vstep. vstep.
  set (st' := match items with [] => _ | _ => _ end).
  assert (Est : QueueState.TaskIdSequence st' = seq_of v a q).
  { unfold seq_of. fold st. destruct Hsc as [_ _ _ S4 _]. cbn in S4. rewrite <-S4. subst st'.
    destruct items; [|done]. by destruct (sc_state sc). }
  set (c' := TasksCounter.add_Expired _ _). set (w := set_cnt _ _).
  assert (Hnd : NoDup items) by (by apply (StronglySorted_NoDup blt)).
  rewrite <-(take_drop n items) in Hnd. apply NoDup_app in Hnd as [Hnd _].
  destruct (scanned_pending a q now v _ ts sc st _ Hm Hnd Hts Hsc) as (Hpe & Hpd & Hndd).
  assert (Hinvw : Inv_gen w (ahead a q (sc_expired sc) (sc_dequeued sc)) (seq_of v)).
  { eapply Inv_gen_counts; [by eapply Inv_gen_fields; [..|exact Hinv]|].
    exact (ahead_counts v a q now ts c' sc st _ Ha Hq (ig_counts _ _ _ Hinv) Hsc eq_refl). }
  vstep. eapply wpv_mono; [apply (wpv_drop_all w a q (seq_of v)); try done|].
  { apply Forall_forall. intros t Ht Hth. unfold pending in Hpe. rewrite Forall_forall in Hpe.
    destruct (Hpe t Ht) as (Hh & [He _] & Hi). destruct Hsc as [_ S2 _ _ _]. cbn in S2.
    rewrite S2 in Ht. apply list_elem_of_filter in Ht as [Hx _]. apply (Hne t); try done.
    unfold dead, enqueued in *. congruence. }
  intros [] w1 (Hinv1 & Hp1 & [Hm1 Hc1] & Hr1).
  eapply wpv_mono; [apply (wpv_start_all w1 a q (seq_of v)); try done|].
  { by apply NoDup_app in Hndd as (_ & _ & ?). }
  intros ts' v' (Hinv' & [Hm' Hc'] & -> & Hhas & _).
  assert (Hw : same_but_cursor a q v v').
  { eapply (same_but_cursor_trans a q v w); [exact (same_but_cursor_write a q v st' Est)|].
    apply same_but_cursor_meta. by eapply same_meta_trans. }
  split; [|split; [done|]].
  - split.
    + destruct Hinv' as [G1 G2 G3 G4]. split; try done. intros t Ht. specialize (G4 t Ht).
      apply G1 in Ht as [_ Hwt]. destruct (wf_Id t Hwt) as (?&?&?).
      by rewrite (seq_of_cursor a q v v').
    + destruct Hm' as (-> & _), Hm1 as (-> & _). cbn.
      intros k s [[_ <-]|[_ Hk]]%lookup_insert_Some; [|by eauto]. rewrite Est. unfold seq_of.
      destruct (v_qst v !! _) eqn:E; cbn; [by apply Hu in E|apply is_u64_0].
  - eapply (dequeue_post_intro a q now limit settings ka v v' items n ts); try done.
    + intros x. rewrite Hitems, index_item_fetched; [|done|done|done|].
      2:{ exact (to_queue _ _ (ix_threads _ _ (ig_ix _ _ _ Hinv))). }
      split; [intros [(t & ? & ? & ? & ->) ?]; exists t; done|].
      intros (t & (? & ? & ? & ?) & ->). split; [by exists t|done].
    + unfold counter_of at 1. rewrite Hc', Hc1. cbn. rewrite lookup_insert_eq.
      subst c'. by destruct (sc_counters sc).
Qed.
(** ** The token bucket *)

Definition unit_ns (u : IntervalUnit) : option Z :=
  match u with
  | INTERVAL_UNIT_SECONDS => Some time_Second
  | INTERVAL_UNIT_MINUTES => Some time_Minute
  | INTERVAL_UNIT_HOURS => Some time_Hour
  | _ => None
  end.

(** The refill interval of a bucket, when it has one the code can divide by. *)
Definition refill_ns (r : TokenBucketRateLimiting.t) : option Z :=
  match unit_ns (TokenBucketRateLimiting.Unit r) with
  | None => None
  | Some u =>
      let i := i64 (Z.quot (i64 (TokenBucketRateLimiting.Interval r * u))
                           (TokenBucketRateLimiting.MaxTokens r)) in
      if decide (TokenBucketRateLimiting.MaxTokens r = 0 \/ i = 0) then None else Some i
  end.

(** The bucket after the refill block of [Dequeue]. *)
Definition refilled (st : RateLimiterState.t) (maxTokens ri now : Z) : RateLimiterState.t :=
  let tokens := RateLimiterState.Tokens st in
  let last := RateLimiterState.LastRefilledAt st in
  if tokens <? maxTokens then
    let newTokens := i64 (Z.quot (i64 (now - last)) ri) in
    if newTokens >? 0 then
      if i64 (tokens + newTokens) >? maxTokens
      then RateLimiterState.mk maxTokens now
      else RateLimiterState.mk (i64 (tokens + newTokens)) (i64 (last + i64 (newTokens * ri)))
    else st
  else RateLimiterState.mk tokens now.

Lemma wpv_take_tokens a q now r ri v :
  refill_ns r = Some ri ->
  wpv (take_tokens a q now r) v (fun st v' => v' = v /\
    st = refilled (default (RateLimiterState.mk (TokenBucketRateLimiting.MaxTokens r) now)
                     (v_rl v !! queue_tablePK a q))
           (TokenBucketRateLimiting.MaxTokens r) ri now).
Proof.
  intros Hri. unfold take_tokens. vstep. vstep. set (st := default _ _). vstep.
  assert (Hg : wpv (getRefillInterval r) v (fun x v' => v' = v /\ x = ri /\ ri <> 0)).
  { unfold refill_ns, unit_ns in Hri. unfold getRefillInterval, go_div.
    destruct (TokenBucketRateLimiting.Unit r); try done; case_decide as Hd; try done;
      simplify_eq; destruct (Z.eqb_spec (TokenBucketRateLimiting.MaxTokens r) 0); try tauto;
      apply wpv_ret; repeat split; try done; tauto. }
  eapply wpv_mono; [exact Hg|]. intros ? ? (-> & -> & Hnz). unfold refillTokens, refilled.
  destruct (_ <? _); [|by apply wpv_ret].
  unfold go_div. destruct (Z.eqb_spec ri 0); [done|]. vsteps. done.
Qed.

(** A bucket fills at most to its maximum and only grows when refilled. *)
Lemma refilled_bounds st maxTokens ri now :
  0 < ri -> 0 <= RateLimiterState.Tokens st -> 0 <= maxTokens < two63 ->
  0 <= now - RateLimiterState.LastRefilledAt st ->
  now - RateLimiterState.LastRefilledAt st + RateLimiterState.Tokens st < two63 ->
  let st' := refilled st maxTokens ri now in
  RateLimiterState.Tokens st <= RateLimiterState.Tokens st'
    <= Z.max maxTokens (RateLimiterState.Tokens st) /\
  RateLimiterState.Tokens st'
    <= RateLimiterState.Tokens st + (now - RateLimiterState.LastRefilledAt st) / ri.
Proof.
  intros Hri Ht Hmax Hd Hov. unfold refilled.
  set (tk := RateLimiterState.Tokens st) in *. set (ls := RateLimiterState.LastRefilledAt st) in *.
  assert (H0 : 0 <= (now - ls) / ri) by (by apply Z.div_pos).
  destruct (Z.ltb_spec tk maxTokens); [|cbn; lia].
  assert (Hle : (now - ls) / ri <= now - ls) by (apply Z.div_le_upper_bound; nia).
  assert (E1 : i64 (now - ls) = now - ls) by (apply i64_id; unfold is_i64; rewrite two63_val in *; lia).
  rewrite E1, Z.quot_div_nonneg by lia.
  assert (E2 : i64 ((now - ls) / ri) = (now - ls) / ri)
    by (apply i64_id; unfold is_i64; rewrite two63_val in *; lia).
  rewrite E2. destruct (Z.gtb_spec ((now - ls) / ri) 0); [|unfold tk in *; lia].
  assert (E3 : i64 (tk + (now - ls) / ri) = tk + (now - ls) / ri)
    by (apply i64_id; unfold is_i64; rewrite two63_val in *; lia).
  rewrite E3. destruct (Z.gtb_spec (tk + (now - ls) / ri) maxTokens); cbn; lia.
Qed.

(** ** The handler *)

Lemma no_expired_thread_settled a q now v v' ts :
  no_expired_thread a q now v ->
  timed_out_batch a q now v ts ->
  all_settled v ts v' -> no_expired_thread a q now v'.
Proof.
  intros Hne (_ & Hts & _) (_ & Hnew & _) u Hu Hq Hth Hnd.
  destruct (Hnew u Hu) as [?|(t & Ht & EI & [?|[EE ET]])]; [by apply Hne|done|].
  rewrite Forall_forall in Hts. destruct (Hts t Ht) as (Hh & Hp & Hqt & _).
  unfold expired_at, threaded in *. rewrite EE, ET in *. apply (Hne t); try done.
  unfold dead, in_progress in *. congruence.
Qed.

Definition dequeue_limit (req : DequeueRequest.t) (st : option RateLimiterState.t) : Z :=
  match st with
  | None => DequeueRequest.DequeueLimit req
  | Some st => Z.min (RateLimiterState.Tokens st) (DequeueRequest.DequeueLimit req)
  end.

(** The bucket a call starts from, after its refill. *)
Definition call_bucket (req : DequeueRequest.t) (now a q : Z) v : option RateLimiterState.t :=
  match rate_limiting (DequeueRequest.DequeuingSettings req) with
  | None => None
  | Some r =>
      match refill_ns r with
      | None => None
      | Some ri =>
          Some (refilled (default (RateLimiterState.mk (TokenBucketRateLimiting.MaxTokens r) now)
                            (v_rl v !! queue_tablePK a q))
                  (TokenBucketRateLimiting.MaxTokens r) ri now)
      end
  end.

Lemma op_Dequeue v req now :
  let a := QueueId.AccountId (DequeueRequest.QueueId req) in
  let q := QueueId.QueueId (DequeueRequest.QueueId req) in
  let settings := DequeueRequest.DequeuingSettings req in
  let bucket := call_bucket req now a q v in
  Inv v -> wf_queue (DequeueRequest.QueueId req) -> not_purged v a q -> is_i64 now ->
  (forall ds, settings = Some ds -> is_i64 (DequeuingSettings.MaxInProgressTasks ds)) ->
  (forall r, rate_limiting settings = Some r -> is_Some (refill_ns r)) ->
  (forall t, has (v_table v) t -> in_queue a q t -> in_progress t -> retry_safe now t) ->
  no_expired_thread a q now v ->
  wpv (Dequeue req now) v (fun r v' => Inv v' /\ v_purge v' = v_purge v /\
    exists ts tts v1, r = Payload ts /\
    timed_out_batch a q now v tts /\ all_settled v tts v1 /\ cursor a q v1 = cursor a q v /\
    dequeue_post a q now (dequeue_limit req bucket) (DequeueRequest.KeepaliveTimeoutInSeconds req)
      settings v1 ts v' /\
    match bucket with
    | None => v_rl v' = v_rl v
    | Some st => v_rl v' = <[queue_tablePK a q := RateLimiterState.mk
        (i64 (RateLimiterState.Tokens st - nlen ts)) (RateLimiterState.LastRefilledAt st)]> (v_rl v)
    end).
Proof.
  intros a q settings bucket Hinv [Ha Hq] Hnp Hnow Hds Hr Hsafe Hne. unfold Dequeue.
  fold a q settings. vstep. apply wpv_checkQueueNotPurged. rewrite decide_True by done. vstep.
  apply (wpv_mono _ _ (fun st v' => v' = v /\ st = bucket)).
  { subst bucket. unfold call_bucket. fold settings.
    destruct (rate_limiting settings) as [r|] eqn:Er; [|by apply wpv_ret].
    destruct (Hr r eq_refl) as [ri Hri]. rewrite Hri. vstep.
    eapply wpv_mono; [by apply wpv_take_tokens|]. intros st v' [-> ->]. by apply wpv_ret. }
  intros ? ? [-> ->]. cbv zeta.
  set (lim := match bucket with None => _ | Some _ => _ end).
  assert (El : lim = dequeue_limit req bucket).
  { subst lim. unfold dequeue_limit. destruct bucket as [st|]; [|done].
    destruct (Z.ltb_spec (RateLimiterState.Tokens st) (DequeueRequest.DequeueLimit req)); lia. }
  vstep. eapply wpv_mono; [by apply wpv_dequeueInProgress|].
  intros [] v1 (Hinv1 & Hc1 & Hcur & tts & Htts & Hset). vstep.
  eapply wpv_mono; [apply wpv_dequeueTasksBeforeTime; try done|].
  { by eapply no_expired_thread_settled. }
  intros ts v2 (Hinv2 & Hc2 & Hpost). rewrite El in Hpost.
  destruct Hc1 as (E1 & P1 & _), Hc2 as (E2 & P2 & _). destruct bucket as [st|].
  - vsteps. split; [|split; [cbn; congruence|]].
    + destruct Hinv2 as [G Gu]. split; [|done]. by eapply Inv_gen_fields; [..|exact G].
    + exists ts, tts, v1. split_and!; try done; [by destruct Hpost; split|cbn; by rewrite E2, E1].
  - vsteps. split; [done|]. split; [congruence|]. exists ts, tts, v1.
    split_and!; try done. congruence.
Qed.
End dequeue.
