(* ===== verification/TasksHandlers.v ===== *)
(** * The remaining handlers: reports, deletion, restart *)

From S2P Require Export TasksDequeue.

Section handlers.
Context {U : Utils} {UO : UtilsOk U} {H : Honey} {HO : HoneyOk H}.
Implicit Types (t u : Task.t) (v : View).

Lemma Inv_meta v v' : same_meta v v' -> Inv_gen v' no_off (seq_of v) -> Inv v -> Inv v'.
Proof.
  intros Hm Hg [_ Hu]. split; [by rewrite (seq_of_meta v v')|]. destruct Hm as (-> & _). done.
Qed.

Lemma lookup_has v off sq i t :
  Inv_gen v off sq -> wf_id i -> v_table v !! task_key i = Some t ->
  has (v_table v) t /\ Task.Id t = i.
Proof.
  intros Hinv Hi E. destruct (ig_table _ _ _ Hinv _ _ E) as [Ek Hw].
  apply task_key_inj in Ek; [|done|by apply wf_Id]. subst i. done.
Qed.

(** ** [ReportStatus] *)

(** The verdict on a report, from the row it finds. *)
Definition verdict v (e : ReportStatusRequestEntry.t) : ReportResult :=
  match v_table v !! task_key (ReportStatusRequestEntry.TaskId e) with
  | None => RESULT_NOT_FOUND
  | Some t =>
      if decide (in_progress t) then
        if decide (Task.Attempts t = ReportStatusRequestEntry.Attempt e) then
          match ReportStatusRequestEntry.Status e with
          | STATUS_IN_PROGRESS | STATUS_FAILED | STATUS_SUCCEEDED => RESULT_OK
          | _ => RESULT_INVALID
          end
        else RESULT_STALE_ATTEMPT
      else RESULT_NOT_IN_PROGRESS
  end.

Definition all_retry_safe (now : Z) v : Prop :=
  forall t, has (v_table v) t -> in_progress t -> retry_safe now t.

(** What one applied report does to the row [t]. *)
Definition reported (now ka : Z) (status : Status) v t (v' : View) : Prop :=
  match status with
  | STATUS_IN_PROGRESS => v_table v' = <[task_key (Task.Id t) := renewed now ka t]> (v_table v)
  | STATUS_SUCCEEDED => v_table v' = delete (task_key (Task.Id t)) (v_table v)
  | STATUS_FAILED => settled v t v'
  | _ => v' = v
  end.

Lemma retry_safe_renewed now ka n t : retry_safe n t -> retry_safe n (renewed now ka t).
Proof. unfold retry_safe, threaded, backoff. by destruct t. Qed.

Lemma op_reportStatus v now status attempt ka dlqc i :
  let e := ReportStatusRequestEntry.mk i status attempt ka in
  Inv v -> wf_id i -> is_i64 now -> all_retry_safe now v ->
  wpv (reportStatus i now status attempt ka dlqc) v (fun r v' =>
    r = verdict v e /\ Inv v' /\ all_retry_safe now v' /\ same_meta v v' /\
    (r <> RESULT_OK -> v' = v) /\
    (r = RESULT_OK -> exists t, has (v_table v) t /\ Task.Id t = i /\ reported now ka status v t v')).
Proof.
  intros e Hinv Hi Hnow Hsafe. unfold reportStatus, verdict. vstep. vstep. cbn.
  destruct (v_table v !! task_key i) as [t|] eqn:E; [|by apply wpv_ret].
  destruct Hinv as [Hg Hu]. destruct (lookup_has _ _ _ _ _ Hg Hi E) as [Ht Ei].
  pose proof (has_wf _ _ _ _ Hg Ht) as Hw.
  case_bool_decide as Hst; [rewrite decide_False by done; by apply wpv_ret|].
  assert (Hp : in_progress t) by (exact Hst). rewrite decide_True by done.
  destruct (Z.eqb_spec (Task.Attempts t) attempt) as [Ea|Ea]; cbn [negb];
    [rewrite decide_True by done|rewrite decide_False by done; by apply wpv_ret].
  destruct status; try by apply wpv_ret.
  - vstep. eapply wpv_mono; [by apply op_deleteTask|]. intros [] v' (Hg' & Et & Hm). apply wpv_ret.
    assert (Hr : forall u, has (v_table v') u <-> mem_upd (has (v_table v)) (Task.Id t) None u)
      by (intros u; rewrite Et; apply has_delete; [apply Hg|done]).
    split; [done|]. split; [by apply (Inv_meta v)|]. split; [|split; [done|]; split; [done|]; intros _; by exists t].
    intros u [[=]|[Hu' _]]%Hr. by apply Hsafe.
  - vstep. eapply wpv_mono; [by apply op_heartbeatTask|]. intros [] v' (Hg' & Et & Hm). apply wpv_ret.
    assert (EI : Task.Id (renewed now ka t) = Task.Id t) by apply renewed_fields.
    pose proof Et as Et'. rewrite <-EI in Et'.
    assert (Hr : forall u, has (v_table v') u <->
      mem_upd (has (v_table v)) (Task.Id (renewed now ka t)) (Some (renewed now ka t)) u).
    { intros u. rewrite Et'. apply has_insert; [apply Hg|]. eapply has_wf; [exact Hg'|].
      unfold has. rewrite Et'. apply lookup_insert_eq. }
    split; [done|]. split; [by apply (Inv_meta v)|]. split; [|split; [done|]; split; [done|]; intros _; by exists t].
    intros u [[= <-]|[Hu' _]]%Hr Hpu; [|by apply Hsafe]. by apply retry_safe_renewed, Hsafe.
  - vstep. eapply wpv_mono; [apply (op_handleTaskFailure v (seq_of v)); try done; by apply Hsafe|].
    intros [] v' (Hg' & Hset). apply wpv_ret. pose proof Hset as (Hm & _ & Hnew & Hnp).
    split; [done|]. split; [by apply (Inv_meta v)|]. split; [|split; [done|]; split; [done|]; intros _; by exists t].
    intros u Hu' Hpu. destruct (Hnew u Hu') as [?|[Eu _]]; [by apply Hsafe|]. by destruct (Hnp u).
Qed.

Lemma op_ReportStatus v req now :
  Inv v -> is_i64 now -> all_retry_safe now v ->
  Forall (fun e => wf_id (ReportStatusRequestEntry.TaskId e)) (ReportStatusRequest.Entries req) ->
  wpv (ReportStatus req now) v (fun r v' => Inv v' /\ same_meta v v' /\ exists rs, r = Payload rs /\
    ReportStatusResponseEntry.TaskId <$> rs =
      ReportStatusRequestEntry.TaskId <$> ReportStatusRequest.Entries req).
Proof.
  intros Hinv Hnow Hsafe Hwf. unfold ReportStatus. vstep.
  apply (wpv_for_map _ (fun l rs w => Inv w /\ all_retry_safe now w /\ same_meta v w /\ exists pre,
    ReportStatusRequest.Entries req = pre ++ l /\
    ReportStatusResponseEntry.TaskId <$> rs = ReportStatusRequestEntry.TaskId <$> pre)).
  - do 3 (split; [done|]). by exists [].
  - intros e l rs w (Hw & Hs & Hm & pre & E & Ers). vstep.
    rewrite E in Hwf. apply Forall_app in Hwf as [_ [Hi _]%Forall_cons].
    eapply wpv_mono; [by apply op_reportStatus|]. intros r w' (_ & Hw' & Hs' & Hm' & _).
    apply wpv_ret. do 2 (split; [done|]). split; [by eapply same_meta_trans|]. exists (pre ++ [e]). rewrite <-app_assoc, !fmap_app, Ers. done.
  - intros rs w (Hw & _ & Hm & pre & E & Ers). rewrite app_nil_r in E. subst pre.
    apply wpv_ret. do 2 (split; [done|]). by exists rs.
Qed.

(** ** [DeleteTasks] *)

Lemma op_DeleteTasks v req :
  let a := QueueId.AccountId (DeleteTasksRequest.QueueId req) in
  let q := QueueId.QueueId (DeleteTasksRequest.QueueId req) in
  let ids := DeleteTasksRequest.TaskIds req in
  Inv v -> wf_queue (DeleteTasksRequest.QueueId req) -> Forall is_u64 ids ->
  wpv (DeleteTasks req) v (fun r v' => r = Payload tt /\ Inv v' /\ same_meta v v' /\
    (forall u, has (v_table v') u <->
       has (v_table v) u /\ ~ (in_queue a q u /\ task_n u ∈ ids))).
Proof.
  intros a q ids Hinv [Ha Hq] Hids. unfold DeleteTasks. fold a q ids. vstep.
  apply (wpv_for_each _ (fun l w => Inv w /\ same_meta v w /\ exists pre, ids = pre ++ l /\
    (forall u, has (v_table w) u <->
       has (v_table v) u /\ ~ (in_queue a q u /\ task_n u ∈ pre)))).
  - do 2 (split; [done|]). exists []. split; [done|]. set_solver.
  - intros n l w (Hw & Hm & pre & E & Hrows). rewrite E in Hids.
    apply Forall_app in Hids as [_ [Hn _]%Forall_cons].
    assert (Hi : wf_id (TaskId.mk a q n)) by done. destruct Hw as [Hg Hu].
    vstep. vstep. destruct (v_table w !! task_key (TaskId.mk a q n)) as [t|] eqn:Et.
    + destruct (lookup_has _ _ _ _ _ Hg Hi Et) as [Ht Ei].
      eapply wpv_mono; [by apply op_deleteTask|]. intros [] w' (Hg' & Et' & Hm').
      split; [by apply (Inv_meta w)|]. split; [by eapply same_meta_trans|].
      exists (pre ++ [n]). rewrite <-app_assoc. split; [done|]. intros u.
      rewrite Et', has_delete; [|apply Hg|by apply (has_wf _ _ _ _ Hg)]. unfold mem_upd.
      rewrite Hrows. setoid_rewrite elem_of_app. setoid_rewrite list_elem_of_singleton.
      rewrite Ei. split.
      * intros [[=]|[[Hu' Hn'] Hne]]. split; [done|]. intros [Hqu [?|En]]; [tauto|].
        apply Hne. destruct Hqu as [E1 E2]. rewrite <-En, <-E1, <-E2. unfold task_n.
        by destruct (Task.Id u).
      * intros [Hu' Hn']. right. split; [tauto|]. intros Eu. apply Hn'. unfold in_queue, task_n.
        rewrite Eu. cbn. auto.
    + apply wpv_ret. split; [done|]. split; [done|]. exists (pre ++ [n]).
      rewrite <-app_assoc. split; [done|]. intros u. setoid_rewrite elem_of_app.
      setoid_rewrite list_elem_of_singleton. split; [|intros [? Hn']; apply Hrows; tauto].
      intros Hu'. pose proof (proj1 (Hrows u) Hu') as [Hv Hn']. split; [done|].
      intros [Hqu [?|En]]; [tauto|]. destruct Hqu as [E1 E2].
      unfold has in Hu'. replace (Task.Id u) with (TaskId.mk a q n) in Hu'; [congruence|].
      rewrite <-En, <-E1, <-E2. unfold task_n. by destruct (Task.Id u).
  - intros w (Hw & Hm & pre & E & Hrows). rewrite app_nil_r in E. subst pre. by apply wpv_ret.
Qed.
(** ** [RestartTasks] *)

Definition restarted (now scheduledAt expiresAt : Z) t : Task.t :=
  Task.set_LastFailedAt 0
    (Task.set_VisibleAt 0
       (Task.set_ExpiresAt expiresAt
          (Task.set_ScheduledAt (if scheduledAt <? now then now else scheduledAt)
             (Task.set_Attempts 0 (Task.set_State TASK_STATE_ENQUEUED t))))).

Lemma restarted_fields now x e t :
  let t1 := restarted now x e t in
  Task.Id t1 = Task.Id t /\ Task.DedupeKey t1 = Task.DedupeKey t /\
  Task.ThreadId t1 = Task.ThreadId t /\ Task.Payload t1 = Task.Payload t /\
  Task.State t1 = TASK_STATE_ENQUEUED /\ Task.Attempts t1 = 0.
Proof. by destruct t. Qed.

Lemma wf_restarted now x e t :
  wf_task t -> is_i64 now -> is_i64 x -> is_i64 e -> wf_task (restarted now x e t).
Proof.
  intros [] Hn Hx He. destruct t; split; cbn in *; auto using is_i64_0.
  - by destruct (x <? now).
  - unfold retries in *. cbn in *. destruct RetryStrategy; repeat split; try done; lia.
Qed.

Lemma op_restartTask v sq now x e t :
  Inv_gen v no_off sq -> has (v_table v) t -> dead t -> is_i64 now -> is_i64 x -> is_i64 e ->
  (Task.DedupeKey t <> [] -> v_dedupe v !! task_dedupePK t = None) ->
  wpv (restartTask t now x e) v (fun r v' => r = restarted now x e t /\ Inv_gen v' no_off sq /\
    v_table v' = <[task_key (Task.Id t) := restarted now x e t]> (v_table v) /\ same_meta v v').
Proof.
  intros Hinv Ht Hd Hn Hx He Hfree. pose proof (has_wf _ _ _ _ Hinv Ht) as Hw.
  pose proof (ig_ix _ _ _ Hinv) as Hix. pose proof Hix as [Hrows Hthr Hinp Hdead Hexp Hded].
  set (t1 := restarted now x e t).
  destruct (restarted_fields now x e t) as (EI & ED & ET & _ & Est & _). fold t1 in EI, ED, ET, Est.
  assert (Hw1 : wf_task t1) by (by apply wf_restarted). unfold dead in Hd.
  unfold restartTask. do 5 vstep. apply wpv_bump_counters. fold (restarted now x e t). fold t1.
  change (task_pk t ++ _) with (dead_key t). change (expiration_item _ _) with (exp_key t).
  fold (task_qpk t). set (w := set_cnt _ _). vstep.
  assert (Hold : forall u, has (v_table v) u -> Task.Id u = Task.Id t -> u = t)
    by (intros; by apply (rows_fun _ Hrows)).
  assert (Hixw : ix_ok (mem_upd (has (v_table v)) (Task.Id t) None) w).
  { apply (ix_ok_removed (has (v_table v)) v); cbn; try done.
    - eapply threads_ok_fields;
        [..|apply (threads_ok_unthreaded (has (v_table v)) v (Task.Id t) None (v_queue v))]; try done.
      + intros u Hu E [_ Hnd]. by rewrite (Hold u Hu E) in Hnd.
      + apply image_queue_not_enqueued; try done. unfold enqueued. congruence.
    - apply dedupe_silent; [|done..]. intros u Hu E [_ Hnd]. by rewrite (Hold u Hu E) in Hnd.
    - intros k. unfold in_progress. intuition congruence.
    - intros k. set_solver. }
  assert (Hin1 : forall u, mem_upd (mem_upd (has (v_table v)) (Task.Id t) None) (Task.Id t1) (Some t1) u
                      <-> mem_upd (has (v_table v)) (Task.Id t1) (Some t1) u)
    by (intros u; rewrite EI; unfold mem_upd; naive_solver).
  eapply wpv_mono;
    [apply (wpv_createTask (mem_upd (has (v_table v)) (Task.Id t) None) w t1); try done|].
  - intros u [[=]|[Hu _]]. exact Hu.
  - intros u [[=]|[_ Hne]]. by rewrite EI.
  - intros [Hc _]. cbn. replace (task_dedupePK t1) with (task_dedupePK t)
      by (unfold task_dedupePK; by rewrite EI, ED). apply Hfree. congruence.
  - intros [] v' (Hix' & Et & Ec & Hm). apply wpv_ret. split; [done|]. rewrite <-EI.
    split; [|done]. eapply (Inv_gen_written v v' no_off no_off sq t1
      (fun c => gauge_add TASK_STATE_ENQUEUED 1 (gauge_add TASK_STATE_DEAD (-1) c))); try done.
    + by eapply ix_ok_ext; [exact Hin1|].
    + rewrite Ec. unfold bumped. cbn. unfold task_qpk. rewrite EI. fold (task_qpk t).
      by rewrite lookup_insert_eq, insert_insert_eq.
    + apply (additive_comp (gauge_add TASK_STATE_ENQUEUED 1)); apply additive_gauge_add.
    + intros a q st. rewrite EI, Ht, (ind_version a q st t t), (ind_version a q st t t1), Est, Hd by done.
      assert (Hiff : in_queue a q t1 <-> in_queue a q t) by (unfold in_queue; by rewrite EI).
      rewrite (decide_ext _ _ _ _ Hiff). unfold no_off. repeat case_decide; lia || congruence.
    + unfold task_n. rewrite EI. by apply Hinv.
Qed.

(** The outcome of one restart entry, from the row it finds. *)
Definition restart_verdict v (a q now n : Z) : RestartResult :=
  match v_table v !! task_key (TaskId.mk a q n) with
  | None => RESTART_NOT_FOUND
  | Some t =>
      if decide (dead t) then
        if Task.ExpiresAt t <? now then RESTART_NOT_FOUND
        else if decide (Task.DedupeKey t <> [] /\ is_Some (v_dedupe v !! task_dedupePK t))
             then RESTART_DEDUPE_CONFLICT
             else RESTART_RESTARTED
      else RESTART_NOT_DEAD
  end.

Lemma op_restart_entry v a q now e :
  let n := RestartTasksRequestEntry.TaskId e in
  Inv v -> is_u64 a -> is_u64 q -> is_u64 n -> is_i64 now ->
  is_i64 (RestartTasksRequestEntry.ScheduledAt e) ->
  is_i64 (RestartTasksRequestEntry.ExpiresAt e) ->
  wpv (restart_entry a q now e) v (fun r v' =>
    RestartTasksResponseEntry.TaskId r = n /\
    RestartTasksResponseEntry.Result r = restart_verdict v a q now n /\ Inv v' /\ same_meta v v' /\
    (RestartTasksResponseEntry.Result r <> RESTART_RESTARTED -> v' = v) /\
    (RestartTasksResponseEntry.Result r = RESTART_RESTARTED -> exists t,
       has (v_table v) t /\ Task.Id t = TaskId.mk a q n /\
       let t1 := restarted now (RestartTasksRequestEntry.ScheduledAt e)
                   (RestartTasksRequestEntry.ExpiresAt e) t in
       RestartTasksResponseEntry.Task r = Some t1 /\
       v_table v' = <[task_key (TaskId.mk a q n) := t1]> (v_table v))).
Proof.
  intros n Hinv Ha Hq Hn Hnow Hx He. unfold restart_entry, restart_verdict. fold n. vstep. vstep.
  destruct (v_table v !! task_key (TaskId.mk a q n)) as [t|] eqn:E; [|by apply wpv_ret].
  assert (Hi : wf_id (TaskId.mk a q n)) by done.
  pose proof Hinv as [Hg Hu]. destruct (lookup_has _ _ _ _ _ Hg Hi E) as [Ht Ei].
  case_bool_decide as Hd; [rewrite decide_False by done; by apply wpv_ret|].
  assert (Hdd : dead t) by exact Hd. rewrite decide_True by done.
  destruct (_ <? now); [by apply wpv_ret|]. vstep.
  assert (Epk : dedupeKeysIndexPK a q (Task.DedupeKey t) = task_dedupePK t)
    by (unfold task_dedupePK; by rewrite Ei).
  assert (Hno : forall d, v_dedupe v !! task_dedupePK t = Some d -> d <> task_n t).
  { intros d Hd' ->. rewrite <-Epk in Hd'.
    destruct (duplicate_row _ _ _ _ _ _ _ Hg Ha Hq Hd') as (u & Hu' & [_ Hc] & Eu & _).
    apply Hc. replace u with t; [done|]. unfold has in *. rewrite Eu in Hu'. rewrite Ei in Ht.
    unfold task_n in Hu'. rewrite Ei in Hu'. cbn in Hu'. congruence. }
  apply (wpv_mono _ _ (fun r w => w = v /\
    r = if bool_decide (Task.DedupeKey t <> [])
        then TaskId.mk a q <$> v_dedupe v !! task_dedupePK t else None)).
  { case_bool_decide; [|by apply wpv_ret]. vsteps. by rewrite Epk. }
  intros ? ? [-> ->].
  destruct (decide (Task.DedupeKey t <> [] /\ is_Some (v_dedupe v !! task_dedupePK t))) as [[Hk [d Hd']]|Hfree].
  - rewrite bool_decide_true by done. rewrite Hd'. cbn.
    destruct (Z.eqb_spec d (task_n t)) as [->|]; [by destruct (Hno (task_n t))|]. by apply wpv_ret.
  - replace (match _ with Some _ => _ | None => false end) with false.
    2:{ case_bool_decide as Hk; [|done]. destruct (v_dedupe v !! task_dedupePK t) eqn:Hd'; [|done].
        destruct Hfree. by eauto. }
    vstep. eapply wpv_mono; [apply (op_restartTask v (seq_of v)); try done|].
    + intros Hk. destruct (v_dedupe v !! task_dedupePK t) eqn:Hd'; [|done]. destruct Hfree. by eauto.
    + intros r v' (-> & Hg' & Et & Hm). apply wpv_ret. do 2 (split; [done|]).
      split; [by apply (Inv_meta v)|]. split; [done|]. split; [done|]. intros _. exists t.
      rewrite <-Ei. done.
Qed.

Lemma op_RestartTasks v req now :
  let a := QueueId.AccountId (RestartTasksRequest.QueueId req) in
  let q := QueueId.QueueId (RestartTasksRequest.QueueId req) in
  Inv v -> wf_queue (RestartTasksRequest.QueueId req) -> is_i64 now ->
  Forall (fun e => is_u64 (RestartTasksRequestEntry.TaskId e) /\
                   is_i64 (RestartTasksRequestEntry.ScheduledAt e) /\
                   is_i64 (RestartTasksRequestEntry.ExpiresAt e))
    (RestartTasksRequest.Entries req) ->
  wpv (RestartTasks req now) v (fun r v' => Inv v' /\ same_meta v v' /\ exists rs, r = Payload rs /\
    RestartTasksResponseEntry.TaskId <$> rs =
      RestartTasksRequestEntry.TaskId <$> RestartTasksRequest.Entries req).
Proof.
  intros a q Hinv [Ha Hq] Hnow Hwf. unfold RestartTasks. fold a q. vstep.
  apply (wpv_for_map _ (fun l rs w => Inv w /\ same_meta v w /\ exists pre,
    RestartTasksRequest.Entries req = pre ++ l /\
    RestartTasksResponseEntry.TaskId <$> rs = RestartTasksRequestEntry.TaskId <$> pre)).
  - do 2 (split; [done|]). by exists [].
  - intros e l rs w (Hw & Hm & pre & E & Ers).
    rewrite E in Hwf. apply Forall_app in Hwf as [_ [(H1 & H2 & H3) _]%Forall_cons].
    eapply wpv_mono; [by apply op_restart_entry|]. intros r w' (Er & _ & Hw' & Hm' & _).
    split; [done|]. split; [by eapply same_meta_trans|]. exists (pre ++ [e]). rewrite <-app_assoc, !fmap_app, Ers. cbn. by rewrite Er.
  - intros rs w (Hw & Hm & pre & E & Ers). rewrite app_nil_r in E. subst pre.
    apply wpv_ret. do 2 (split; [done|]). by exists rs.
Qed.
End handlers.
