(* ===== verification/TasksGC.v ===== *)
(** * Garbage collection

    Both collectors terminate within their budgets, keep the invariant, and
    remove only what they are meant to remove: [RunTasksGarbageCollection]
    tasks whose deadline has passed, [RunPurgeQueueGarbageCollection] tasks of
    queue ids marked by [PurgeQueue]. *)

From S2P Require Export TasksHandlers.

Section gc.
Context {U : Utils} {UO : UtilsOk U} {H : Honey} {HO : HoneyOk H}.
Implicit Types (t u : Task.t) (v : View).

(** ** Expired tasks *)

Definition task_ref t : expiredTaskRef := mkRef (Task.Id t) (Task.ExpiresAt t).

(** The expiration index puts [t] before [now]. *)
Definition due (now : Z) t : Prop := in_range (be64 0) (be64 now) (exp_key t).

Lemma due_iff now t :
  wf_task t -> 0 <= now < two63 -> 0 <= Task.ExpiresAt t -> due now t <-> Task.ExpiresAt t <= now.
Proof.
  intros Hw Hn He. unfold due, exp_key. rewrite expiration_item_eq, item_in_range.
  - lia.
  - by split.
  - done.
  - split; [done|]. destruct (wf_ExpiresAt t Hw). done.
  - rewrite task_key_eq. intros E%(f_equal length). rewrite !length_app, !length_be64 in E. done.
Qed.

(** [ts] are the first due rows, [rest] the others. *)
Definition due_page v (now : Z) (n : nat) (ts : list Task.t) : Prop :=
  Forall (fun t => has (v_table v) t /\ has_deadline t /\ due now t) ts /\ NoDup ts /\
  (length ts <= n)%nat /\
  ((length ts < n)%nat -> forall u, has (v_table v) u -> has_deadline u -> due now u -> u ∈ ts) /\
  (ts = [] -> forall u, has (v_table v) u -> has_deadline u -> ~ due now u).

Lemma wpv_ListDue v off sq now limit (Q : list expiredTaskRef -> View -> Prop) :
  Inv_gen v off sq -> 0 < limit ->
  (forall ts, due_page v now (Z.to_nat limit) ts -> Q (task_ref <$> ts) v) ->
  wpv (expiration_ListDue now limit) v Q.
Proof.
  intros Hinv Hlim HQ s <-. unfold expiration_ListDue. apply wp_gets.
  set (items := si_ListInRange _ _ _). set (n := Nat.max 1 (Z.to_nat limit)).
  assert (En : n = Z.to_nat limit) by lia.
  assert (Hitems : forall x, x ∈ items <-> exists t, has (v_table (view s)) t /\
            has_deadline t /\ due now t /\ x = exp_key t).
  { intros x. subst items. rewrite si_ListInRange_spec, !expiration_itemPrefix_eq.
    change (si_den _) with (v_exp (view s)). rewrite (ix_exp _ _ (ig_ix _ _ _ Hinv) x). split.
    - intros [(t & Ht & Hd & ->) Hr]. by exists t.
    - intros (t & Ht & Hd & Hr & ->). split; [by exists t|done]. }
  assert (Hnd : NoDup items) by (apply (StronglySorted_NoDup blt), si_ListInRange_sorted).
  assert (Hex : exists all, items = exp_key <$> all /\ expiration_ref <$> items = task_ref <$> all /\
            Forall (fun t => has (v_table (view s)) t /\ has_deadline t /\ due now t) all).
  { assert (Hf : Forall (fun x => exists t, has (v_table (view s)) t /\ has_deadline t /\
              due now t /\ x = exp_key t) items) by (apply Forall_forall; intros x; apply Hitems).
    clear Hitems Hnd. induction Hf as [|x l (t & Ht & Hd & Hdu & ->) _ (all & E1 & E2 & E3)].
    - by exists [].
    - exists (t :: all). pose proof (has_wf _ _ _ _ Hinv Ht) as Hw.
      assert (Er : expiration_ref (exp_key t) = task_ref t)
        by (apply expiration_ref_item; [by apply wf_ExpiresAt|by apply wf_Id]).
      rewrite !fmap_cons, Er, E2, <-E1. do 2 (split; [done|]). by constructor. }
  destruct Hex as (all & E1 & E2 & Hall). rewrite fmap_take, E2, <-fmap_take.
  apply HQ. rewrite <-En. rewrite E1 in Hnd. apply NoDup_fmap_1 in Hnd.
  assert (Hin : forall u, has (v_table (view s)) u -> has_deadline u -> due now u -> u ∈ all).
  { intros u Hu Hd Hdu. assert (Hx : exp_key u ∈ items) by (apply Hitems; by exists u).
    rewrite E1 in Hx. apply list_elem_of_fmap in Hx as (t & Ek & Ht).
    rewrite Forall_forall in Hall. destruct (Hall t Ht) as (Hht & _).
    apply exp_key_inj in Ek; [|by eapply has_wf..]. unfold has in *. rewrite Ek in Hu. congruence. }
  repeat split.
  - by apply Forall_take.
  - rewrite <-(take_drop n all) in Hnd. by apply NoDup_app in Hnd as [? _].
  - rewrite length_take. lia.
  - rewrite length_take. intros Hlt u Hu Hd Hdu. rewrite take_ge by lia. auto.
  - intros Hnil u Hu Hd Hdu. apply Hin in Hdu; [|done..].
    assert (n <> 0%nat) by lia. destruct all; [by apply not_elem_of_nil in Hdu|]. by destruct n.
Qed.

Lemma wpv_sweep_all v off sq ts :
  Inv_gen v off sq -> Forall (has (v_table v)) ts -> NoDup ts ->
  wpv (for_each (task_ref <$> ts) sweep) v (fun _ v' => Inv_gen v' off sq /\ same_meta v v' /\
    (forall u, has (v_table v') u <-> has (v_table v) u /\ u ∉ ts) /\
    (size (v_table v') + length ts = size (v_table v))%nat).
Proof.
  intros Hinv Hts Hnd.
  apply (wpv_for_each _ (fun l w => Inv_gen w off sq /\ same_meta v w /\
    exists gone rest, ts = gone ++ rest /\ l = task_ref <$> rest /\
      (forall u, has (v_table w) u <-> has (v_table v) u /\ u ∉ gone) /\
      (size (v_table w) + length gone = size (v_table v))%nat)).
  - do 2 (split; [done|]). exists [], ts. do 2 (split; [done|]). split; [set_solver|cbn; lia].
  - intros r l w (Hw & Hm & gone & rest & -> & E & Hrows & Hsz).
    destruct rest as [|t rest]; [done|]. injection E as -> ->.
    apply Forall_app in Hts as [_ [Ht _]%Forall_cons].
    apply NoDup_app in Hnd as (_ & Hd & _).
    assert (Htw : has (v_table w) t).
    { apply Hrows. split; [done|]. intros Hin. apply (Hd t Hin). by left. }
    unfold sweep. vstep. vstep. cbn. replace (v_table w !! _) with (Some t) by (symmetry; exact Htw).
    eapply wpv_mono; [by apply op_deleteTask|]. intros [] w' (Hw' & Et & Hm').
    split; [done|]. split; [by eapply same_meta_trans|]. exists (gone ++ [t]), rest.
    rewrite <-app_assoc. do 2 (split; [done|]). split.
    + intros u. rewrite Et, has_delete; [|apply Hw|by apply (has_wf _ _ _ _ Hw)].
      unfold mem_upd. rewrite Hrows, not_elem_of_app, list_elem_of_singleton. split.
      * intros [[=]|[[Hu Hg] Hid]]. split; [done|]. split; [done|]. congruence.
      * intros (Hu & Hg & Hne). right. split; [done|]. intros Ei. apply Hne.
        unfold has in Hu, Ht. rewrite Ei in Hu. congruence.
    + rewrite Et, map_size_delete_Some by (unfold has in Htw; by eauto). rewrite length_app. cbn.
      assert (size (v_table w) <> 0%nat).
      { eapply map_size_ne_0_lookup_2. unfold has in Htw. rewrite Htw. eauto. }
      lia.
  - intros w (Hw & Hm & gone & rest & -> & E & Hrows & Hsz). destruct rest; [|done].
    rewrite app_nil_r. done.
Qed.

(** What a sweep with budget [n] leaves. *)
Definition swept v (now n : Z) (v' : View) : Prop :=
  (forall u, has (v_table v') u -> has (v_table v) u) /\
  (forall u, has (v_table v) u -> ~ has (v_table v') u -> has_deadline u /\ due now u) /\
  ((forall u, has (v_table v') u -> has_deadline u -> ~ due now u) \/
   Z.of_nat (size (v_table v')) + n <= Z.of_nat (size (v_table v))).

Lemma wpv_gc_loop now maxVisited pageSize off sq : 0 < pageSize -> forall fuel v visited,
  Inv_gen v off sq -> maxVisited - visited <= Z.of_nat fuel ->
  wpv (gc_loop fuel now maxVisited pageSize visited) v (fun _ v' =>
    Inv_gen v' off sq /\ same_meta v v' /\ swept v now (maxVisited - visited) v').
Proof.
  intros Hpage. induction fuel as [|fuel IH]; intros v visited Hinv Hfuel; cbn.
  - destruct (Z.ltb_spec visited maxVisited); [lia|]. apply wpv_ret.
    do 2 (split; [done|]). split; [done|]. split; [done|]. right. lia.
  - destruct (Z.ltb_spec visited maxVisited); cycle 1.
    { apply wpv_ret. do 2 (split; [done|]). split; [done|]. split; [done|]. right. lia. }
    set (limit := if _ >? _ then _ else pageSize).
    assert (Hlim : 0 < limit <= maxVisited - visited).
    { subst limit. destruct (Z.gtb_spec pageSize (maxVisited - visited)); lia. }
    vstep. apply (wpv_ListDue v off sq); [done|lia|].
    intros ts (Hall & Hnd & Hlen & Hcomplete & Hnone).
    destruct ts as [|t ts']; [cbn; apply wpv_ret; do 2 (split; [done|]);
      split; [done|]; split; [done|left; by apply Hnone]|].
    set (ts := t :: ts') in *. remember (task_ref <$> ts) as refs eqn:Er.
    destruct refs as [|r refs]; [done|]. rewrite Er. vstep.
    eapply wpv_mono; [apply wpv_sweep_all; [done| |done]|].
    { eapply Forall_impl; [exact Hall|]. by intros u (? & _). }
    intros [] v1 (Hinv1 & Hm1 & Hrows & Hsz). rewrite length_fmap in *.
    assert (Hdel : forall u, has (v_table v) u -> u ∈ ts -> has_deadline u /\ due now u).
    { intros u _ Hu. rewrite Forall_forall in Hall. by apply Hall. }
    assert (Hpos : (0 < length ts)%nat) by (cbn; lia).
    destruct (Z.ltb_spec (Z.of_nat (length ts)) limit) as [Hlt|Hge].
    + apply wpv_ret. do 2 (split; [done|]). split; [naive_solver|]. split.
      * intros u Hu Hn. destruct (decide (u ∈ ts)); [by apply Hdel|]. rewrite Hrows in Hn. tauto.
      * left. intros u [Hu Hni]%Hrows Hd Hdu. apply Hni, Hcomplete; try done. lia.
    + eapply wpv_mono; [apply IH; [done|lia]|].
      intros [] v2 (Hinv2 & Hm2 & Hs1 & Hs2 & Hs3). split; [done|].
      split; [by eapply same_meta_trans|]. split; [naive_solver|]. split.
      * intros u Hu Hn. destruct (decide (u ∈ ts)); [by apply Hdel|].
        apply Hs2; [|done]. apply Hrows. done.
      * destruct Hs3 as [?|Hle]; [by left|right; lia].
Qed.

Lemma op_RunTasksGarbageCollection v req now :
  let budget := or_default (RunTasksGarbageCollectionRequest.MaxVisitedTasks req)
                  defaultGCMaxVisitedTasks in
  Inv v ->
  wpv (RunTasksGarbageCollection req now) v (fun r v' => r = Payload tt /\ Inv v' /\
    same_meta v v' /\ swept v now budget v').
Proof.
  intros budget Hinv. unfold RunTasksGarbageCollection. fold budget.
  assert (Hb : 0 < budget).
  { subst budget. unfold or_default. destruct (Z.leb_spec
      (RunTasksGarbageCollectionRequest.MaxVisitedTasks req) 0); [done|lia]. }
  set (page := or_default _ defaultGCPageSize).
  assert (Hp : 0 < page).
  { subst page. unfold or_default. destruct (Z.leb_spec
      (RunTasksGarbageCollectionRequest.PageSize req) 0); [done|lia]. }
  vstep. destruct Hinv as [Hg Hu]. eapply wpv_mono; [apply (wpv_gc_loop _ _ _ no_off (seq_of v))|].
  - destruct (Z.gtb_spec page budget); lia.
  - done.
  - lia.
  - intros [] v' (Hg' & Hm & Hs). apply wpv_ret. split; [done|]. split; [by apply (Inv_meta v)|].
    split; [done|]. by rewrite Z.sub_0_r in Hs.
Qed.
(** ** Purged queues *)

(** The first page of a queue's rows: [page] is listed, [rest] is not. *)
Definition first_page v (a q : Z) (n : nat) (page rest : list Task.t) : Prop :=
  (forall t, t ∈ page ++ rest <-> has (v_table v) t /\ in_queue a q t) /\ NoDup (page ++ rest) /\
  length page = Nat.min n (length (page ++ rest)).

Lemma wpv_tasks_List_all v a q limit (Q : listTasksResult -> View -> Prop) :
  wf_table (v_table v) -> is_u64 a -> is_u64 q -> 0 < limit ->
  (forall page rest next prev, first_page v a q (Z.to_nat limit) page rest ->
     (next = None <-> rest = []) -> Q (mkListTasksResult page next prev) v) ->
  wpv (tasks_List a q TASK_STATE_INVALID None limit) v Q.
Proof.
  intros Hm Ha Hq Hlim HQ s <-. unfold tasks_List. cbn. apply wp_bind, wp_gets, wp_ret.
  destruct (bt_ListPaginated_spec (table (tasks s)) (tablePK a q) None limit Hlim I)
    as (sk & pg & rs & [P1 P2 P3 P4] & Ei). subst sk. cbn in P1.
  rewrite Ei. set (r := bt_ListPaginated _ _ _ _) in *.
  apply (HQ _ (snd <$> rs)); cycle 1.
  { unfold MonsteraToCore. destruct (ListPaginatedResult.NextPaginationToken r) as [tk|]; [|by subst rs].
    destruct P4 as (_ & (x & rs' & -> & _) & _). done. }
  unfold first_page. rewrite <-fmap_app, <-P1. set (m := v_table (view s)).
  assert (Hin : forall k t, (k, t) ∈ filter (fun e => tablePK a q `prefix_of` e.1)
            (bt_EachEntry (table (tasks s))) <-> m !! k = Some t /\ in_queue a q t).
  { intros k t. rewrite list_elem_of_filter, bt_EachEntry_spec. fold m.
    change (bt_den _ !! k) with (m !! k). cbn.
    enough (m !! k = Some t -> tablePK a q `prefix_of` k <-> in_queue a q t) by tauto.
    intros Hk. destruct (Hm _ _ Hk) as [-> Hw]. apply task_key_prefix; [done..|by apply wf_Id]. }
  split; [|split].
  - intros t. rewrite list_elem_of_fmap. split.
    + intros ([k t'] & -> & [Hk Hqt]%Hin). destruct (Hm _ _ Hk) as [-> _]. done.
    + intros [Ht Hqt]. exists (task_key (Task.Id t), t). split; [done|]. by apply Hin.
  - apply NoDup_fmap_2_strong.
    + intros [k t] [k' t'] [Hk _]%Hin [Hk' _]%Hin. cbn. intros ->.
      destruct (Hm _ _ Hk) as [-> _], (Hm _ _ Hk') as [-> _]. done.
    + apply NoDup_filter. pose proof (bt_EachEntry_sorted (table (tasks s))) as Hs.
      apply (StronglySorted_NoDup blt) in Hs. by apply NoDup_fmap_1 in Hs.
  - rewrite !length_fmap, P1. exact P2.
Qed.

Lemma wpv_purge_page maxVisited off sq page : forall v visited,
  Inv_gen v off sq -> Forall (has (v_table v)) page -> NoDup page -> visited < maxVisited ->
  wpv (purge_page maxVisited page visited) v (fun r v' => Inv_gen v' off sq /\ same_meta v v' /\
    exists gone rest, page = gone ++ rest /\ r.1 = visited + Z.of_nat (length gone) /\
      (if r.2 then r.1 = maxVisited else rest = [] /\ r.1 < maxVisited) /\
      (forall u, has (v_table v') u <-> has (v_table v) u /\ u ∉ gone)).
Proof.
  induction page as [|t page IH]; intros v visited Hinv Hall Hnd Hv; cbn.
  - apply wpv_ret. do 2 (split; [done|]). exists [], []. cbn. split; [done|]. split; [lia|].
    split; [auto|]. set_solver.
  - apply Forall_cons in Hall as [Ht Hall]. apply NoDup_cons in Hnd as [Hni Hnd].
    vstep. eapply wpv_mono; [by apply op_deleteTask|]. intros [] v1 (Hinv1 & Et & Hm1).
    assert (Hr1 : forall u, has (v_table v1) u <-> has (v_table v) u /\ u <> t).
    { intros u. rewrite Et, has_delete; [|apply Hinv|by apply (has_wf _ _ _ _ Hinv)].
      unfold mem_upd. split.
      - intros [[=]|[Hu Hne]]. split; [done|]. congruence.
      - intros [Hu Hne]. right. split; [done|]. intros E. apply Hne. unfold has in *.
        rewrite E in Hu. congruence. }
    destruct (Z.geb_spec (visited + 1) maxVisited).
    + apply wpv_ret. do 2 (split; [done|]). exists [t], page. cbn. split; [done|]. split; [lia|].
      split; [lia|]. intros u. rewrite Hr1, list_elem_of_singleton. done.
    + eapply wpv_mono; [apply IH; [done| |done|lia]|].
      * apply Forall_forall. intros u Hu. rewrite Forall_forall in Hall. apply Hr1.
        split; [by apply Hall|]. by intros ->.
      * intros r v2 (Hinv2 & Hm2 & gone & rest & -> & Er & Hf & Hr2).
        split; [done|]. split; [by eapply same_meta_trans|]. exists (t :: gone), rest. cbn.
        split; [done|]. split; [lia|]. split; [done|]. intros u.
         rewrite Hr2, Hr1, not_elem_of_cons. tauto.
Qed.

(** A queue without rows can lose its counters and its sequence. *)
Lemma count_none m a q st :
  wf_table m -> (forall t, has m t -> ~ in_queue a q t) -> count m a q st = 0.
Proof.
  intros Hm Hno. unfold count. apply (f_equal Z.of_nat (y := 0%nat)), map_size_empty_iff, map_empty. intros k. apply map_lookup_filter_None. right. intros t Hk [Hq _].
  destruct (Hm _ _ Hk) as [-> _]. by apply (Hno t).
Qed.

Definition dropped (a q : Z) v : View :=
  let k := queue_tablePK a q in
  set_rl (delete k (v_rl v)) (set_qst (delete k (v_qst v))
    (set_cnt (delete k (v_cnt v)) (set_purge (delete k (v_purge v)) v))).

Lemma Inv_dropped v a q :
  Inv v -> is_u64 a -> is_u64 q ->
  (forall t, has (v_table v) t -> ~ in_queue a q t) -> Inv (dropped a q v).
Proof.
  intros [[H1 [I1 I2 I3 I4 I5 I6] H3 H4] Hu] Ha Hq Hno. split; [|].
  - split; try done.
    + split; try done. by eapply threads_ok_fields; [..|exact I2].
    + intros a' q' st Ha' Hq' Hst. unfold counter_of. cbn.
      destruct (decide (queue_tablePK a' q' = queue_tablePK a q)) as [E|E].
      * apply queue_tablePK_inj in E as [-> ->]; [|done..]. rewrite lookup_delete_eq, count_none by done.
        by destruct Hst as [->|[->| ->]].
      * rewrite lookup_delete_ne by done. by apply H3.
    + intros t Ht. cbn in Ht. specialize (H4 t Ht). unfold seq_of in *. cbn.
      rewrite lookup_delete_ne; [done|]. intros E.
      destruct (rows_wf _ I1 t Ht) as [(?&?&?) _]. apply queue_tablePK_inj in E as [? ?]; [|done..].
      by apply (Hno t).
  - intros k st. cbn. intros [_ Hk]%lookup_delete_Some. by eauto.
Qed.

(** Exactly the rows [gone] are removed. *)
Definition removes v (gone : list Task.t) v' : Prop :=
  forall u, has (v_table v') u <-> has (v_table v) u /\ u ∉ gone.

Lemma removes_nil v : removes v [] v.
Proof. intros u. set_solver. Qed.

Lemma removes_trans v1 v2 v3 g1 g2 :
  removes v1 g1 v2 -> removes v2 g2 v3 -> removes v1 (g1 ++ g2) v3.
Proof. intros H1 H2 u. rewrite (H2 u), (H1 u), not_elem_of_app. tauto. Qed.

Definition rec_queue (r : PurgeQueueGarbageCollectionRecord.t) (t : Task.t) : Prop :=
  let q := PurgeQueueGarbageCollectionRecord.QueueId r in
  in_queue (QueueId.AccountId q) (QueueId.QueueId q) t.

Definition rec_key (r : PurgeQueueGarbageCollectionRecord.t) : bytes :=
  let q := PurgeQueueGarbageCollectionRecord.QueueId r in
  queue_tablePK (QueueId.AccountId q) (QueueId.QueueId q).

Definition wf_rec (r : PurgeQueueGarbageCollectionRecord.t) : Prop :=
  wf_queue (PurgeQueueGarbageCollectionRecord.QueueId r).

(** A queue with no row left. *)
Definition drained v (r : PurgeQueueGarbageCollectionRecord.t) : Prop :=
  forall t, has (v_table v) t -> ~ rec_queue r t.

Lemma wpv_purge_record page_size budget r fuel : forall v visited,
  Inv v -> wf_rec r -> 0 < page_size -> 0 <= visited < budget ->
  (Z.to_nat (budget - visited) <= fuel)%nat ->
  wpv (purge_record fuel page_size budget r visited) v (fun res v' => Inv v' /\
    exists gone, res.1 = visited + Z.of_nat (length gone) /\ res.1 <= budget /\
      Forall (rec_queue r) gone /\ removes v gone v' /\
      if res.2 then res.1 = budget /\ v_purge v' = v_purge v
      else res.1 < budget /\ drained v' r /\ v_purge v' = delete (rec_key r) (v_purge v)).
Proof.
  induction fuel as [|fuel IH]; intros v visited Hinv [Ha Hq] Hps Hv Hfuel; [lia|]. cbn.
  vstep. apply wpv_tasks_List_all; [apply Hinv|done..|].
  intros page rest next prev (Hpage & Hnd & Hlen) Hnext. vstep. cbn [ltr_Tasks].
  apply NoDup_app in Hnd as (Hnd & Hdisj & _). pose proof Hinv as [Hg _].
  eapply wpv_mono; [apply (wpv_purge_page budget no_off (seq_of v)); [done| |done|lia]|].
  { apply Forall_forall. intros t Ht. apply Hpage. set_solver. }
  intros [vis stop] v1 (Hg1 & Hm1 & gone & rest' & -> & Ev & Hstop & Hrm). cbn in Ev, Hstop |- *.
  pose proof (Inv_meta _ _ Hm1 Hg1 Hinv) as Hinv1.
  assert (Hgone : Forall (rec_queue r) gone).
  { apply Forall_forall. intros t Ht. apply Hpage. set_solver. }
  destruct stop.
  - apply wpv_ret. split; [done|]. exists gone. cbn.
    destruct Hm1 as (_ & _ & Em). split_and!; [lia|lia|done..].
  - destruct Hstop as [-> Hlt]. rewrite app_nil_r in *.
    destruct next as [tk|].
    + assert (rest <> []) by (intros E; by apply Hnext in E).
      assert (gone <> []) by (intros ->; destruct rest; cbn in *; [done|lia]).
      assert (0 < length gone)%nat by (destruct gone; cbn; [done|lia]).
      eapply wpv_mono; [apply (IH v1 vis); [done|done|done|lia..]|].
      intros [vis2 stop2] v2 (Hinv2 & gone2 & E2 & Hb & Hf2 & Hrm2 & Hend). cbn in *.
      split; [done|]. exists (gone ++ gone2). rewrite length_app. split; [lia|].
      split; [done|]. split; [by apply Forall_app|]. split; [by eapply removes_trans|].
      destruct Hm1 as (_ & _ & <-). done.
    + assert (rest = []) as -> by by apply Hnext.
      assert (Hdr : drained v1 r).
      { intros t [Ht Hni]%Hrm Hqt. apply Hni. rewrite app_nil_r in Hpage. by apply Hpage. }
      vsteps. split; [by apply (Inv_dropped v1)|]. exists gone. cbn.
      destruct Hm1 as (_ & _ & <-). split_and!; [lia|lia|done..].
Qed.

Definition wf_purge v : Prop :=
  forall k r, v_purge v !! k = Some r -> k = rec_key r /\ wf_rec r.

(** What a pass over the records [rs] does: it removes at most [budget] rows, all of
    queues in [rs]; a marker goes only once its queue is empty; and unless the budget
    is used up every queue of [rs] is drained and unmarked. *)
Record purged v (rs : list PurgeQueueGarbageCollectionRecord.t) (budget : Z) v' : Prop := {
  pg_rows : exists gone, Z.of_nat (length gone) <= budget /\
    Forall (fun t => exists r, r ∈ rs /\ rec_queue r t) gone /\ removes v gone v' /\
    (Z.of_nat (length gone) = budget \/
       forall r, r ∈ rs -> drained v' r /\ v_purge v' !! rec_key r = None);
  pg_marks k : v_purge v' !! k = v_purge v !! k \/
    v_purge v' !! k = None /\ exists r, r ∈ rs /\ k = rec_key r /\ drained v' r;
}.

Lemma wpv_purge_records page_size budget rs : forall v visited,
  Inv v -> Forall wf_rec rs -> 0 < page_size -> 0 <= visited < budget ->
  wpv (purge_records page_size budget rs visited) v (fun _ v' => Inv v' /\
    purged v rs (budget - visited) v').
Proof.
  induction rs as [|r rs IH]; intros v visited Hinv Hrs Hps Hv; cbn [purge_records].
  - apply wpv_ret. split; [done|]. split; [|by left]. exists []. cbn.
    split_and!; [lia|done|apply removes_nil|right; set_solver].
  - apply Forall_cons in Hrs as [Hr Hrs]. vstep.
    eapply wpv_mono; [apply (wpv_purge_record page_size budget r); try done; lia|].
    intros [vis stop] v1 (Hinv1 & gone & Ev & Hb & Hf & Hrm & Hend). cbn in *.
    assert (Hf' : Forall (fun t => exists r', r' ∈ r :: rs /\ rec_queue r' t) gone).
    { eapply Forall_impl; [exact Hf|]. intros t Ht. exists r. set_solver. }
    destruct stop.
    + destruct Hend as [-> Em]. apply wpv_ret. split; [done|].
      split; [|intros k; left; by rewrite Em]. exists gone. split_and!; [lia|done|done|left; lia].
    + destruct Hend as (Hlt & Hdr & Em). eapply wpv_mono; [apply (IH v1 vis); try done; lia|].
      intros [] v2 [Hinv2 [(gone2 & Hb2 & Hf2 & Hrm2 & Hor) Hmk]].
      assert (Hdr2 : drained v2 r) by (intros t [Ht _]%Hrm2; by apply Hdr).
      split; [done|]. split.
      * exists (gone ++ gone2). rewrite length_app. split_and!; [lia| |by eapply removes_trans|].
        -- apply Forall_app. split; [done|]. eapply Forall_impl; [exact Hf2|].
           intros t (r' & ? & ?). exists r'. set_solver.
        -- destruct Hor as [?|Hall]; [left; lia|right]. intros r' [->|Hr']%elem_of_cons; [|by auto].
           split; [done|]. destruct (Hmk (rec_key r)) as [->|[? _]]; [|done].
           by rewrite Em, lookup_delete_eq.
      * intros k. destruct (Hmk k) as [E|(E & r' & Hr' & Ek & Hd)]; [|right; split; [done|exists r'; set_solver]].
        rewrite E, Em. destruct (decide (k = rec_key r)) as [->|Hne].
        -- right. rewrite lookup_delete_eq. split; [done|]. exists r. set_solver.
        -- left. by apply lookup_delete_ne.
Qed.

Lemma wpv_purgeGCRecords_List v limit (Q : list PurgeQueueGarbageCollectionRecord.t -> View -> Prop) :
  0 < limit ->
  (forall rs, Z.of_nat (length rs) <= limit -> Forall (fun r => exists k, v_purge v !! k = Some r) rs ->
     (Z.of_nat (length rs) < limit -> forall k r, v_purge v !! k = Some r -> r ∈ rs) -> Q rs v) ->
  wpv (purgeGCRecords_List limit) v Q.
Proof.
  intros Hlim HQ s <-. apply wp_gets.
  destruct (bt_first_rows (purgeGCRecords s) limit Hlim) as (H1 & H2 & H3). by apply HQ.
Qed.

Lemma op_RunPurgeQueueGarbageCollection v req :
  let budget := or_default (RunPurgeQueueGarbageCollectionRequest.MaxVisitedTasks req)
                  defaultPurgeGCMaxVisitedTasks in
  let limit := or_default (RunPurgeQueueGarbageCollectionRequest.GcRecordsPageSize req)
                 defaultPurgeGCRecordsPageSize in
  Inv v -> wf_purge v ->
  wpv (RunPurgeQueueGarbageCollection req) v (fun res v' => res = Payload tt /\ Inv v' /\ wf_purge v' /\
    exists rs, Forall (fun r => exists k, v_purge v !! k = Some r) rs /\
      (Z.of_nat (length rs) < limit -> forall k r, v_purge v !! k = Some r -> r ∈ rs) /\
      purged v rs budget v').
Proof.
  assert (Hpos : forall n d, 0 < d -> 0 < or_default n d).
  { intros n d Hd. unfold or_default. destruct (Z.leb_spec n 0); lia. }
  intros budget limit Hinv Hwf. unfold RunPurgeQueueGarbageCollection. fold budget. fold limit.
  vstep. apply wpv_purgeGCRecords_List; [by apply Hpos|]. intros rs _ Hrs Hall. vstep.
  eapply wpv_mono; [apply (wpv_purge_records _ budget rs v 0)|].
  - done.
  - eapply Forall_impl; [exact Hrs|]. intros r [k Hk]. by apply (Hwf k).
  - by apply Hpos.
  - split; [done|]. by apply Hpos.
  - intros [] v' [Hinv' Hp]. apply wpv_ret. rewrite Z.sub_0_r in Hp. split_and!; [done|done| |by exists rs].
    intros k r Hk. destruct (pg_marks _ _ _ _ Hp k) as [E|[E _]]; [|congruence].
    apply Hwf. congruence.
Qed.

Lemma op_PurgeQueue v queue :
  Inv v -> wf_purge v -> wf_queue queue ->
  wpv (PurgeQueue queue) v (fun res v' => res = Payload tt /\ Inv v' /\ wf_purge v' /\
    v_table v' = v_table v /\ ~ not_purged v' (QueueId.AccountId queue) (QueueId.QueueId queue)).
Proof.
  intros [[H1 [I1 I2 I3 I4 I5 I6] H3 H4] Hu] Hwf Hq. unfold PurgeQueue. vsteps. split_and!; [done| | |done|].
  - split; [|done]. split; try done. split; try done. by eapply threads_ok_fields; [..|exact I2].
  - intros k r. cbn. intros [[<- <-]|[_ ?]]%lookup_insert_Some; [done|by apply Hwf].
  - unfold not_purged. cbn. by rewrite lookup_insert_eq.
Qed.
End gc.
