(* ===== verification/TasksList.v ===== *)
(** * Listing tasks

    [ListTasks] pages through a queue, or through the index of one state.  A walk that
    follows the next-page tokens sees every listed row exactly once, in key order. *)

From S2P Require Export TasksGC.

Section listing.
Context {U : Utils} {UO : UtilsOk U} {H : Honey} {HO : HoneyOk H}.
Implicit Types (t u : Task.t) (v : View).

(** The rows [ListTasks] shows for a state; the index behind ENQUEUED holds the head
    of each thread only. *)
Definition listable v (a q : Z) (st : TaskState) t : Prop :=
  has (v_table v) t /\ in_queue a q t /\
  match st with
  | TASK_STATE_INVALID => True
  | TASK_STATE_ENQUEUED => queued (v_thr v) t
  | TASK_STATE_IN_PROGRESS => in_progress t
  | TASK_STATE_DEAD => dead t
  | TASK_STATE_OTHER _ => False
  end.

Definition known_state (st : TaskState) : Prop :=
  match st with TASK_STATE_OTHER _ => False | _ => True end.

(** The bytes a listing is ordered by. *)
Definition rank (st : TaskState) t : bytes :=
  match st with
  | TASK_STATE_ENQUEUED => queueIndexItem (Task.ScheduledAt t) (task_n t)
  | TASK_STATE_IN_PROGRESS => inProgressIndexItem (Task.VisibleAt t) (task_n t)
  | TASK_STATE_DEAD => deadTasksIndexItem (Task.LastFailedAt t) (task_n t)
  | _ => task_key (Task.Id t)
  end.

Definition listing v (a q : Z) (st : TaskState) (l : list Task.t) : Prop :=
  StronglySorted blt (rank st <$> l) /\ (forall t, t ∈ l <-> listable v a q st t).

(** Positions between two rows of [all], as [tasksTable.List] pages see them. *)
Definition pages_from (s : Txn) (a q : Z) (st : TaskState) (all : list Task.t)
    (pos : option CorePaginationToken.t -> list Task.t -> list Task.t -> Prop) : Prop :=
  pos None [] all /\
  forall tok sk suf limit, 0 < limit -> pos tok sk suf ->
    exists page rest next prev,
      tasks_List a q st tok limit s = Ok (mkListTasksResult page next prev, s) /\
      suf = page ++ rest /\ length page = Nat.min (Z.to_nat limit) (length suf) /\
      match next with
      | None => rest = []
      | Some _ => rest <> [] /\ pos next (sk ++ page) rest
      end.

Lemma is_reverse_forward tok : forward tok -> is_reverse tok = false.
Proof. by destruct tok. Qed.

Lemma tasks_List_table s a q :
  wf_table (v_table (view s)) -> is_u64 a -> is_u64 q ->
  exists all pos, listing (view s) a q TASK_STATE_INVALID all /\
    pages_from s a q TASK_STATE_INVALID all pos.
Proof.
  intros Hm Ha Hq. set (T := table (tasks s)).
  set (L := filter (fun e => tablePK a q `prefix_of` e.1) (bt_EachEntry T)).
  assert (Hin : forall k t, (k, t) ∈ L <->
    k = task_key (Task.Id t) /\ listable (view s) a q TASK_STATE_INVALID t).
  { intros k t. unfold L. rewrite list_elem_of_filter, bt_EachEntry_spec. cbn.
    change (bt_den T) with (v_table (view s)). unfold listable, has. split.
    - intros [Hp Hk]. destruct (Hm _ _ Hk) as [-> Hw]. split; [done|]. split; [done|].
      split; [|done]. by apply task_key_prefix in Hp; [|..|apply wf_Id].
    - intros (-> & Hk & Hqt & _). split; [|done]. destruct (Hm _ _ Hk) as [_ Hw].
      by apply task_key_prefix; [..|apply wf_Id|]. }
  assert (Efst : fst <$> L = (rank TASK_STATE_INVALID <$> (snd <$> L))).
  { rewrite <-list_fmap_compose. apply list_fmap_ext. intros i [k t] Hi. cbn.
    by apply list_elem_of_lookup_2, Hin in Hi as [-> _]. }
  assert (Hsort : StronglySorted blt (fst <$> L)).
  { apply StronglySorted_fmap_filter, bt_EachEntry_sorted. }
  exists (snd <$> L), (fun tok sk suf => exists ck cs, sk = snd <$> ck /\ suf = snd <$> cs /\
    positioned fst pt_after L (CoreToMonstera tok) ck cs). split; [|split].
  - split; [by rewrite <-Efst|]. intros t. rewrite list_elem_of_fmap. split.
    + by intros ([k t'] & -> & [_ ?]%Hin).
    + intros Ht. exists (task_key (Task.Id t), t). split; [done|]. by apply Hin.
  - by exists [], L.
  - intros tok ? ? limit Hlim (ck & cs & -> & -> & Hpos). pose proof Hpos as (_ & Hf & _).
    destruct (bt_ListPaginated_spec T (tablePK a q) (CoreToMonstera tok) limit Hlim Hf)
      as (sk' & pg & rs & Hp & Ei).
    destruct (page_step _ _ _ _ Hsort _ _ _ _ _ _ _ Hpos Hp) as (-> & Hlen & Hnext).
    exists (snd <$> pg), (snd <$> rs). eexists _, _. split.
    { unfold tasks_List. cbn. unfold mbind, M_bind, gets. fold T.
      rewrite is_reverse_forward, Ei by done. reflexivity. }
    rewrite fmap_app, length_app, !length_fmap. rewrite length_app in Hlen.
    split; [done|]. split; [done|]. destruct (ListPaginatedResult.NextPaginationToken _) as [tk|] eqn:En;
      cbn [MonsteraToCore]; [|by subst rs].
    destruct Hnext as [Hne Hnp]. split; [by destruct rs|]. exists (ck ++ pg), rs.
    rewrite fmap_app. split; [done|]. split; [done|].
    by change (Some _) with (MonsteraToCore (Some tk)); rewrite CoreToMonstera_MonsteraToCore.
Qed.

(** The rows behind the items of an index. *)
Lemma fetch_all m P time a q items :
  Forall (fun x => exists t, fetched m P time a q x t) items ->
  exists ts, Forall2 (fetched m P time a q) items ts.
Proof.
  induction 1 as [|x items [t Ht] _ [ts IH]]; [by exists []|]. exists (t :: ts). by constructor.
Qed.

Lemma wpv_run_fetch s P time a q items ts :
  wf_table (v_table (view s)) -> Forall2 (fetched (v_table (view s)) P time a q) items ts ->
  for_map items (fun x => tasks_Get (TaskId.mk a q (extractTaskIdFromIndexItem x))) s = Ok (ts, s).
Proof.
  intros Hm. set (f x := tasks_Get _). induction 1 as [|x t items ts Hx _ IH]; [done|].
  assert (Hf : f x s = Ok (t, s)).
  { subst f. cbn beta. rewrite (fetched_id _ _ _ _ _ _ _ Hm Hx). destruct Hx as (Hh & _).
    unfold tasks_Get, tasks_lookup, mbind, M_bind, gets. rewrite bt_Get_spec.
    unfold has in Hh. change (v_table (view s)) with (bt_den (table (tasks s))) in Hh.
    by rewrite Hh. }
  cbn [for_map]. unfold mbind, M_bind. by rewrite Hf, IH.
Qed.

Lemma tasks_List_index (s : Txn) (a q : Z) (st : TaskState) (ix : Txn -> OneToManySortedIndex) (vix : View -> gset bytes)
    (P : Task.t -> Prop) (time : Task.t -> Z) :
  (forall s, omi_den (ix s) = vix (view s)) ->
  (forall tok limit, tasks_List a q st tok limit =
     listFromIndex a q ix (CoreToMonstera tok) limit) ->
  (forall t, rank st t = queueIndexItem (time t) (task_n t)) ->
  (forall t, listable (view s) a q st t <-> has (v_table (view s)) t /\ P t /\ in_queue a q t) ->
  image (has (v_table (view s))) P (fun t => task_pk t ++ queueIndexItem (time t) (task_n t))
    (vix (view s)) ->
  wf_table (v_table (view s)) -> is_u64 a -> is_u64 q ->
  exists all pos, listing (view s) a q st all /\ pages_from s a q st all pos.
Proof.
  intros Hix Hlist Hrank Hlb Himg Hm Ha Hq. set (v := view s) in *.
  set (L := omi_ListAll (ix s) (tablePK a q)).
  assert (Hin : forall x, x ∈ L <-> exists t, fetched (v_table v) P time a q x t).
  { intros x. unfold L. rewrite omi_ListAll_spec, Hix. by apply index_item_fetched. }
  destruct (fetch_all (v_table v) P time a q L) as [all Hall].
  { apply Forall_forall. intros x. apply Hin. }
  assert (Erank : rank st <$> all = L).
  { rewrite (list_fmap_ext _ (fun t => queueIndexItem (time t) (task_n t))) by (intros; apply Hrank).
    by eapply scanned_items. }
  assert (Hsort : StronglySorted blt (id <$> L)) by (rewrite list_fmap_id; apply omi_ListAll_sorted).
  exists all, (fun tok sk suf => exists ck cs, Forall2 (fetched (v_table v) P time a q) ck sk /\
    Forall2 (fetched (v_table v) P time a q) cs suf /\
    positioned id omi_after L (CoreToMonstera tok) ck cs). split; [|split].
  - split; [rewrite Erank; apply omi_ListAll_sorted|]. intros t. rewrite Hlb. split.
    + intros Ht. apply list_elem_of_lookup in Ht as [i Hi].
      by destruct (Forall2_lookup_r _ _ _ _ _ Hall Hi) as (x & _ & ? & ? & ? & _).
    + intros (Ht & HP & Hqt). assert (Hx : rank st t ∈ L).
      { apply Hin. exists t. rewrite Hrank. done. }
      apply list_elem_of_lookup in Hx as [i Hi].
      destruct (Forall2_lookup_l _ _ _ _ _ Hall Hi) as (u & Hu & Hf).
      replace t with u; [by eapply list_elem_of_lookup_2|].
      apply (rows_fun _ (rows_has _ Hm)); [apply Hf|done|].
      rewrite <-(fetched_id _ _ _ _ _ _ _ Hm Hf). eapply (fetched_id _ P time); [done|].
      by rewrite Hrank.
  - exists [], L. split; [constructor|]. done.
  - intros tok sk suf limit Hlim (ck & cs & Hck & Hcs & Hpos). pose proof Hpos as (_ & Hf & _).
    destruct (omi_ListPaginated_spec (ix s) (tablePK a q) (CoreToMonstera tok) limit Hlim Hf)
      as (sk' & rs & Hp). set (r := omi_ListPaginated _ _ _ _) in *.
    destruct (page_step _ _ _ _ Hsort _ _ _ _ _ _ _ Hpos Hp) as (-> & Hlen & Hnext).
    pose proof (Forall2_length _ _ _ Hcs) as El.
    apply Forall2_app_inv_l in Hcs as (pg & rest & Hpg & Hrest & ->).
    pose proof (wpv_run_fetch s P time a q _ pg Hm Hpg) as Efetch.
    exists pg, rest. eexists _, _. split.
    { rewrite Hlist. unfold listFromIndex. cbn. unfold mbind, M_bind, gets. fold r.
      rewrite is_reverse_forward, Efetch by done. reflexivity. }
    split; [done|]. split; [rewrite <-El, <-Hlen; symmetry; by eapply Forall2_length|].
    destruct (ListPaginatedResult.NextPaginationToken r) as [tk|] eqn:En;
      cbn [MonsteraToCore]; [|subst rs; by inversion Hrest].
    destruct Hnext as [Hne Hnp]. split; [by destruct Hrest|].
    exists (ck ++ ListPaginatedResult.Items r), rs. split; [by apply Forall2_app|]. split; [done|].
    by change (Some _) with (MonsteraToCore (Some tk)); rewrite CoreToMonstera_MonsteraToCore.
Qed.

Lemma tasks_List_pages s a q st :
  Inv (view s) -> is_u64 a -> is_u64 q -> known_state st ->
  exists all pos, listing (view s) a q st all /\ pages_from s a q st all pos.
Proof.
  intros [[Hm Hix _ _] _] Ha Hq Hst. destruct st; try done.
  - by apply tasks_List_table.
  - apply (tasks_List_index s a q _ (fun s => queueIndex (tasks s)) v_queue
      (queued (v_thr (view s))) Task.ScheduledAt); try done.
    + intros t. unfold listable. tauto.
    + exact (to_queue _ _ (ix_threads _ _ Hix)).
  - apply (tasks_List_index s a q _ (fun s => inProgressIndex (tasks s)) v_inp
      in_progress Task.VisibleAt); try done.
    + intros t. unfold listable. tauto.
    + exact (ix_inp _ _ Hix).
  - apply (tasks_List_index s a q _ (fun s => deadTasksIndex (tasks s)) v_dead
      dead Task.LastFailedAt); try done.
    + intros t. unfold listable. tauto.
    + exact (ix_dead _ _ Hix).
Qed.
(** ** Any token *)

Lemma wpv_listFromIndex v (a q : Z) (st : TaskState) (ix : Txn -> OneToManySortedIndex) (vix : View -> gset bytes)
    (P : Task.t -> Prop) (time : Task.t -> Z) tok limit :
  (forall s, omi_den (ix s) = vix (view s)) ->
  (forall t, has (v_table v) t -> P t -> in_queue a q t -> listable v a q st t) ->
  image (has (v_table v)) P (fun t => task_pk t ++ queueIndexItem (time t) (task_n t)) (vix v) ->
  wf_table (v_table v) -> is_u64 a -> is_u64 q ->
  wpv (listFromIndex a q ix tok limit) v (fun r v' => v' = v /\
    Forall (listable v a q st) (ltr_Tasks r)).
Proof.
  intros Hix Hlb Himg Hm Ha Hq. unfold listFromIndex. vstep.
  intros s <-. apply wp_gets. cbv zeta. set (r := omi_ListPaginated _ _ _ _).
  assert (Hf : Forall (fun x => exists t, fetched (v_table (view s)) P time a q x t)
    (if is_reverse tok then reverse (ListPaginatedResult.Items r) else ListPaginatedResult.Items r)).
  { apply Forall_forall. intros x Hx.
    assert (Hx' : x ∈ ListPaginatedResult.Items r) by (destruct (is_reverse tok); [by apply elem_of_reverse|done]).
    apply omi_ListPaginated_elem, omi_ListAll_spec in Hx'. rewrite Hix in Hx'.
    eapply index_item_fetched in Hx'; done. }
  revert Hf. set (items := if is_reverse tok then _ else _). intros Hf.
  apply wpv_bind. eapply wpv_mono; [by apply (wpv_fetch P time)|]. intros ts ? [-> Hts]. apply wpv_ret.
  split; [done|]. cbn. apply Forall_forall. intros t Ht. apply list_elem_of_lookup in Ht as [i Hi].
  destruct (Forall2_lookup_r _ _ _ _ _ Hts Hi) as (x & _ & ? & ? & ? & _). by apply Hlb.
Qed.

Lemma wpv_tasks_List v a q st tok limit :
  Inv v -> is_u64 a -> is_u64 q -> known_state st ->
  wpv (tasks_List a q st tok limit) v (fun r v' => v' = v /\
    Forall (listable v a q st) (ltr_Tasks r)).
Proof.
  intros [[Hm Hix _ _] _] Ha Hq Hst. destruct st; try done; cbn [tasks_List].
  - intros s <-. apply wp_bind, wp_gets, wp_ret. split; [done|]. cbn. apply Forall_forall.
    intros t Ht. set (r := bt_ListPaginated _ _ _ _) in Ht.
    assert (Ht' : t ∈ ListPaginatedResult.Items r) by (destruct (is_reverse _); [by apply elem_of_reverse|done]).
    apply bt_ListPaginated_elem in Ht' as (k & Hk%bt_EachEntry_spec & Hp).
    change (bt_den _) with (v_table (view s)) in Hk. destruct (Hm _ _ Hk) as [-> Hw].
    split; [done|]. split; [|done]. apply task_key_prefix in Hp; [done..|by apply wf_Id].
  - eapply (wpv_listFromIndex v a q _ _ v_queue (queued (v_thr v)) Task.ScheduledAt); try done.
    exact (to_queue _ _ (ix_threads _ _ Hix)).
  - eapply (wpv_listFromIndex v a q _ _ v_inp in_progress Task.VisibleAt); try done.
    exact (ix_inp _ _ Hix).
  - eapply (wpv_listFromIndex v a q _ _ v_dead dead Task.LastFailedAt); try done.
    exact (ix_dead _ _ Hix).
Qed.
End listing.
