(* ===== verification/TasksSystem.v ===== *)
(** * The tasks core as a transition system

    A tasks core starts empty ([NewCore]) and serves one call at a time, each in its own
    store transaction ([rpc]): [step] runs one call, [reachable] is what a sequence of
    calls leads to.  [admissible] lists what a call may assume: the widths of its Go
    types, plus the conditions [TasksFindings] shows to be necessary. *)

From S2P Require Export TasksList.

Section system.
Context {U : Utils} {H : Honey}.

Inductive Call : Type :=
  | CallGetTask (id : TaskId.t) (now : Z)
  | CallGetStatistics (queue : QueueId.t) (now : Z)
  | CallListTasks (req : ListTasksRequest.t)
  | CallEnqueue (req : EnqueueRequest.t) (now : Z)
  | CallDequeue (req : DequeueRequest.t) (now : Z)
  | CallReportStatus (req : ReportStatusRequest.t) (now : Z)
  | CallDeleteTasks (req : DeleteTasksRequest.t)
  | CallRestartTasks (req : RestartTasksRequest.t) (now : Z)
  | CallPurgeQueue (queue : QueueId.t)
  | CallRunPurgeQueueGarbageCollection (req : RunPurgeQueueGarbageCollectionRequest.t)
  | CallRunTasksGarbageCollection (req : RunTasksGarbageCollectionRequest.t) (now : Z).

(** The call with its response dropped. *)
Definition exec (c : Call) : M Txn unit :=
  match c with
  | CallGetTask id now => GetTask id now ;; mret tt
  | CallGetStatistics queue now => GetStatistics queue now ;; mret tt
  | CallListTasks req => ListTasks req ;; mret tt
  | CallEnqueue req now => Enqueue req now ;; mret tt
  | CallDequeue req now => Dequeue req now ;; mret tt
  | CallReportStatus req now => ReportStatus req now ;; mret tt
  | CallDeleteTasks req => DeleteTasks req ;; mret tt
  | CallRestartTasks req now => RestartTasks req now ;; mret tt
  | CallPurgeQueue queue => PurgeQueue queue ;; mret tt
  | CallRunPurgeQueueGarbageCollection req => RunPurgeQueueGarbageCollection req ;; mret tt
  | CallRunTasksGarbageCollection req now => RunTasksGarbageCollection req now ;; mret tt
  end.

(** Rescheduling an existing task is limited to tasks outside any thread. *)
Definition admissible_enqueue (req : EnqueueRequest.t) (now : Z) (v : View) : Prop :=
  let a := QueueId.AccountId (EnqueueRequest.QueueId req) in
  let q := QueueId.QueueId (EnqueueRequest.QueueId req) in
  let entries := EnqueueRequest.Entries req in
  wf_queue (EnqueueRequest.QueueId req) /\ is_i64 now /\ Forall wf_entry entries /\
  seq_of v a q + Z.of_nat (length entries) < two64 /\
  unthreaded_entries (rescheduled entries) entries /\
  unthreaded_rows a q (rescheduled entries) v.

(** The rate limit has a refill interval, no running task would be retried at the very
    time it was scheduled for, and no threaded task of the queue has expired. *)
Definition admissible_dequeue (req : DequeueRequest.t) (now : Z) (v : View) : Prop :=
  let a := QueueId.AccountId (DequeueRequest.QueueId req) in
  let q := QueueId.QueueId (DequeueRequest.QueueId req) in
  let settings := DequeueRequest.DequeuingSettings req in
  wf_queue (DequeueRequest.QueueId req) /\ is_i64 now /\
  (forall ds, settings = Some ds -> is_i64 (DequeuingSettings.MaxInProgressTasks ds)) /\
  (forall r, rate_limiting settings = Some r -> is_Some (refill_ns r)) /\
  (forall t, has (v_table v) t -> in_queue a q t -> in_progress t -> retry_safe now t) /\
  no_expired_thread a q now v.

Definition admissible (c : Call) (v : View) : Prop :=
  match c with
  | CallEnqueue req now => admissible_enqueue req now v
  | CallDequeue req now => admissible_dequeue req now v
  | CallReportStatus req now => is_i64 now /\ all_retry_safe now v /\
      Forall (fun e => wf_id (ReportStatusRequestEntry.TaskId e)) (ReportStatusRequest.Entries req)
  | CallDeleteTasks req =>
      wf_queue (DeleteTasksRequest.QueueId req) /\ Forall is_u64 (DeleteTasksRequest.TaskIds req)
  | CallRestartTasks req now => wf_queue (RestartTasksRequest.QueueId req) /\ is_i64 now /\
      Forall (fun e => is_u64 (RestartTasksRequestEntry.TaskId e) /\
                       is_i64 (RestartTasksRequestEntry.ScheduledAt e) /\
                       is_i64 (RestartTasksRequestEntry.ExpiresAt e))
        (RestartTasksRequest.Entries req)
  | CallPurgeQueue queue => wf_queue queue
  | CallListTasks req =>
      wf_queue (ListTasksRequest.QueueId req) /\ known_state (ListTasksRequest.State req)
  | _ => True
  end.

Context {HO : HoneyOk H}.

Inductive step : Txn -> Call -> Txn -> Prop :=
  | step_call s c : admissible c (view s) -> step s c (rpc (exec c) s).2.

Inductive reachable : Txn -> Prop :=
  | reachable_new : reachable NewCore
  | reachable_step s c s' : reachable s -> step s c s' -> reachable s'.

(** ** Preservation *)

Context {UO : UtilsOk U}.

Definition Good (v : View) : Prop := Inv v /\ wf_purge v.

(** A [wpv] triple seen from a transaction. *)
Lemma wpv_run {A} (m : M Txn A) s Q :
  wpv m (view s) Q -> exists a s', m s = Ok (a, s') /\ Q a (view s').
Proof. intros Hm. by apply wp_ok, Hm. Qed.

Lemma wpv_wp {A} (m : M Txn A) s (Q : A -> View -> Prop) :
  wpv m (view s) Q -> wp m s (fun a s' => Q a (view s')).
Proof. intros Hm. by apply Hm. Qed.

Lemma wpv_drop {A} (m : M Txn A) v (Q : View -> Prop) :
  wpv m v (fun _ v' => Q v') -> wpv (m ;; mret tt) v (fun _ v' => Q v').
Proof. intros Hm. vstep. eapply wpv_mono; [exact Hm|]. intros a v' HQ. by apply wpv_ret. Qed.

Lemma pure_GetTask id now : pure_on (GetTask id now).
Proof. apply pure_on_bind; [apply pure_on_gets|]. intros; apply pure_on_ret. Qed.

Lemma pure_GetStatistics queue now : pure_on (GetStatistics queue now).
Proof.
  unfold GetStatistics, counters_Get, queueState_Get, getAgeOfOldestEnqueuedTask.
  repeat (apply pure_on_bind; [apply pure_on_gets || apply pure_on_ret|intros ?] ||
          apply pure_on_ret || (apply pure_on_bind; [|intros ?])).
Qed.

Lemma wpv_pure {A} (m : M Txn A) v (Q : View -> Prop) :
  pure_on m -> Q v -> wpv m v (fun _ v' => Q v').
Proof. intros Hm HQ s <-. destruct (Hm s) as [a Ea]. apply wp_ok. by exists a, s. Qed.

(** The three handlers that look for a purge marker stop at it. *)
Lemma checkQueueNotPurged_marked s a q :
  ~ not_purged (view s) a q -> checkQueueNotPurged a q s = Ok (Some (queueIdPurgedError a q), s).
Proof.
  intros Hp. unfold checkQueueNotPurged, purgeGCRecords_Exists, mbind, M_bind, gets. rewrite bt_Get_spec.
  unfold not_purged in Hp. cbn in Hp. destruct (bt_den (purgeGCRecords s) !! _); [|done]. reflexivity.
Qed.

Lemma marked_calls s queue ereq dreq lreq now :
  let err := queueIdPurgedError (QueueId.AccountId queue) (QueueId.QueueId queue) in
  ~ not_purged (view s) (QueueId.AccountId queue) (QueueId.QueueId queue) ->
  EnqueueRequest.QueueId ereq = queue -> DequeueRequest.QueueId dreq = queue ->
  ListTasksRequest.QueueId lreq = queue ->
  Enqueue ereq now s = Ok (ApplicationError err, s) /\
  Dequeue dreq now s = Ok (ApplicationError err, s) /\
  ListTasks lreq s = Ok (ApplicationError err, s).
Proof.
  intros err Hp E1 E2 E3. unfold Enqueue, Dequeue, ListTasks. rewrite E1, E2, E3.
  unfold mbind, M_bind. by rewrite (checkQueueNotPurged_marked _ _ _ Hp).
Qed.

(** A handler that finds a purge marker answers with it and writes nothing. *)
Lemma wpv_purged_Enqueue v req now :
  let queue := EnqueueRequest.QueueId req in
  ~ not_purged v (QueueId.AccountId queue) (QueueId.QueueId queue) ->
  wpv (Enqueue req now) v (fun r v' => v' = v /\
    r = ApplicationError (queueIdPurgedError (QueueId.AccountId queue) (QueueId.QueueId queue))).
Proof.
  intros queue Hp. unfold Enqueue. vstep. apply wpv_checkQueueNotPurged.
  rewrite decide_False by done. by apply wpv_ret.
Qed.

Lemma wpv_purged_Dequeue v req now :
  let queue := DequeueRequest.QueueId req in
  ~ not_purged v (QueueId.AccountId queue) (QueueId.QueueId queue) ->
  wpv (Dequeue req now) v (fun r v' => v' = v /\
    r = ApplicationError (queueIdPurgedError (QueueId.AccountId queue) (QueueId.QueueId queue))).
Proof.
  intros queue Hp. unfold Dequeue. vstep. apply wpv_checkQueueNotPurged.
  rewrite decide_False by done. by apply wpv_ret.
Qed.

Lemma op_ListTasks v req :
  let queue := ListTasksRequest.QueueId req in
  let a := QueueId.AccountId queue in let q := QueueId.QueueId queue in
  Inv v -> wf_queue queue -> known_state (ListTasksRequest.State req) ->
  wpv (ListTasks req) v (fun r v' => v' = v /\
    match r with
    | ApplicationError e => e = queueIdPurgedError a q /\ ~ not_purged v a q
    | Payload l => not_purged v a q /\ Forall (listable v a q (ListTasksRequest.State req)) (ltr_Tasks l)
    end).
Proof.
  intros queue a q Hinv [Ha Hq] Hst. unfold ListTasks. vstep. apply wpv_checkQueueNotPurged.
  case_decide; [|by apply wpv_ret]. vstep. eapply wpv_mono; [by apply wpv_tasks_List|].
  intros l ? [-> Hl]. by apply wpv_ret.
Qed.

Lemma wf_purge_same v v' : v_purge v' = v_purge v -> wf_purge v -> wf_purge v'.
Proof. intros E Hw k r. rewrite E. apply Hw. Qed.

Lemma Good_exec c v : Good v -> admissible c v -> wpv (exec c) v (fun _ v' => Good v').
Proof.
  intros [Hinv Hwf] Hadm. destruct c; cbn [exec admissible] in *; apply wpv_drop.
  - by apply wpv_pure; [apply pure_GetTask|].
  - by apply wpv_pure; [apply pure_GetStatistics|].
  - destruct Hadm. eapply wpv_mono; [by apply op_ListTasks|]. by intros r v' [-> _].
  - destruct Hadm as (H1 & H2 & H3 & H4 & H5 & H6).
    destruct (decide (v_purge v !! queue_tablePK (QueueId.AccountId (EnqueueRequest.QueueId req))
                (QueueId.QueueId (EnqueueRequest.QueueId req)) = None)).
    + eapply wpv_mono; [by apply op_Enqueue|]. intros r v' (? & E & _).
      split; [done|by apply (wf_purge_same v)].
    + eapply wpv_mono; [by apply wpv_purged_Enqueue|]. by intros r v' [-> _].
  - destruct Hadm as (H1 & H2 & H3 & H4 & H5 & H6).
    destruct (decide (v_purge v !! queue_tablePK (QueueId.AccountId (DequeueRequest.QueueId req))
                (QueueId.QueueId (DequeueRequest.QueueId req)) = None)).
    + eapply wpv_mono; [by apply op_Dequeue|]. intros r v' (? & E & _).
      split; [done|by apply (wf_purge_same v)].
    + eapply wpv_mono; [by apply wpv_purged_Dequeue|]. by intros r v' [-> _].
  - destruct Hadm as (H1 & H2 & H3). eapply wpv_mono; [by apply op_ReportStatus|].
    intros r v' (? & Hm & _). split; [done|]. apply (wf_purge_same v); [apply Hm|done].
  - destruct Hadm as (H1 & H2). eapply wpv_mono; [by apply op_DeleteTasks|].
    intros r v' (_ & ? & Hm & _). split; [done|]. apply (wf_purge_same v); [apply Hm|done].
  - destruct Hadm as (H1 & H2 & H3). eapply wpv_mono; [by apply op_RestartTasks|].
    intros r v' (? & Hm & _). split; [done|]. apply (wf_purge_same v); [apply Hm|done].
  - eapply wpv_mono; [by apply op_PurgeQueue|]. by intros r v' (_ & ? & ? & _).
  - eapply wpv_mono; [by apply op_RunPurgeQueueGarbageCollection|]. by intros r v' (_ & ? & ? & _).
  - eapply wpv_mono; [by apply op_RunTasksGarbageCollection|].
    intros r v' (_ & ? & Hm & _). split; [done|]. apply (wf_purge_same v); [apply Hm|done].
Qed.

Lemma Good_new : Good (view NewCore).
Proof. rewrite view_NewCore. split; [apply Inv_empty|]. intros k r Hk. cbn in Hk. by rewrite lookup_empty in Hk. Qed.

Lemma Good_reachable s : reachable s -> Good (view s).
Proof.
  induction 1 as [|s c s' _ IH Hstep]; [apply Good_new|]. destruct Hstep as [s c Hadm].
  destruct (wpv_run _ _ _ (Good_exec _ _ IH Hadm)) as (a & s2 & E & Hg).
  unfold rpc. by rewrite E.
Qed.

(** Every row of a concrete store, one by one. *)
Lemma has_Forall (m : gmap bytes Task.t) (P : Task.t -> Prop) :
  Forall P (snd <$> map_to_list m) -> forall t, has m t -> P t.
Proof.
  intros Hall t Ht. rewrite Forall_fmap, Forall_forall in Hall.
  apply (Hall (task_key (Task.Id t), t)). by apply elem_of_map_to_list.
Qed.
End system.
