(* ===== verification/TasksExamples.v ===== *)
(** * A concrete run of the tasks core

    The reference store and byte helpers run the model; the states below are reached by
    admissible calls from an empty core and serve as inputs of the witnesses. *)

From S2P Require Export TasksSystem.

#[export] Existing Instance utils_ref.
#[export] Existing Instance honey_ref.

Module Run.
Definition queue : QueueId.t := QueueId.mk 7 3.
Definition now0 : Z := 1000 * time_Second.
Definition now1 : Z := 1001 * time_Second.
Definition now2 : Z := 1002 * time_Second.
Definition far : Z := 100000 * time_Second.

Definition entry (p k : string) (at_ : Z) (rs : list Z) (th : string) : EnqueueRequestEntry.t :=
  EnqueueRequestEntry.mk (str p) at_ far (str k) (Some (RetryStrategy.mk rs)) [] (str th).

(** Two tasks of one thread and one free task. *)
Definition enqueue_req : EnqueueRequest.t := EnqueueRequest.mk queue
  [entry "a" "k1" now0 [10; 20] "th"; entry "b" "" now0 [] "th"; entry "c" "k2" now0 [] ""].

Definition settings : DequeuingSettings.t := DequeuingSettings.mk 10
  (Some (TokenBucketRateLimiting.mk 5 1 INTERVAL_UNIT_SECONDS)) false.

Definition dlq : DeadLetterQueueConfig.t := DeadLetterQueueConfig.mk true 2 3600.

Definition dequeue_req : DequeueRequest.t :=
  DequeueRequest.mk queue (Some settings) 10 (Some dlq) 30.

Definition task_id (n : Z) : TaskId.t := TaskId.mk 7 3 n.

(** The free task fails for good. *)
Definition report_req : ReportStatusRequest.t := ReportStatusRequest.mk
  [ReportStatusRequestEntry.mk (task_id 3) STATUS_FAILED 1 30] (Some dlq).

Definition s1 : Txn := (rpc (exec (CallEnqueue enqueue_req now0)) NewCore).2.
Definition s2 : Txn := (rpc (exec (CallDequeue dequeue_req now1)) s1).2.
Definition s3 : Txn := (rpc (exec (CallReportStatus report_req now2)) s2).2.
Definition s4 : Txn := (rpc (exec (CallPurgeQueue queue)) s3).2.

(** The row of a task, as [GetTask] reads it. *)
Definition the_task (s : Txn) (n : Z) : Task.t :=
  default (Task.mk (task_id n) [] 0 0 0 [] TASK_STATE_INVALID 0 0 0 None [])
    (v_table (view s) !! task_key (task_id n)).

(** A test for [retry_safe]. *)
Definition retry_safe_b (now : Z) (t : Task.t) : bool :=
  match Task.RetryStrategy t with
  | None => true
  | Some rs => bool_decide (Forall (fun iv => after_seconds now iv <> Task.ScheduledAt t)
                              (RetryStrategy.RetryIntervalsInSeconds rs))
  end.

Lemma retry_safe_b_ok now t : retry_safe_b now t = true -> retry_safe now t.
Proof.
  intros E _ iv (rs & Ers & Hiv). unfold retry_safe_b in E. rewrite Ers in E.
  apply bool_decide_eq_true, Forall_forall with (x := iv) in E; [done|].
  by eapply list_elem_of_lookup_2.
Qed.

(** Evaluates a property of every row of a concrete store. *)
Lemma rows_check (s : Txn) (f : Task.t -> bool) (P : Task.t -> Prop) :
  (forall t, f t = true -> P t) ->
  forallb f (snd <$> map_to_list (v_table (view s))) = true ->
  forall t, has (v_table (view s)) t -> P t.
Proof.
  intros Hf Hall. apply has_Forall. apply Forall_forall. intros t Ht. apply Hf.
  apply (proj1 (forallb_forall _ _) Hall). by apply list_elem_of_In.
Qed.

Lemma wf_queue_run : wf_queue queue.
Proof. split; by apply (bool_decide_unpack _). Qed.

Lemma not_rescheduled : forall k, ~ rescheduled (EnqueueRequest.Entries enqueue_req) k.
Proof.
  intros k (e & He & _ & Hov). cbn in He. repeat setoid_rewrite elem_of_cons in He.
  rewrite elem_of_nil in He. destruct_or?; subst; by apply not_elem_of_nil in Hov.
Qed.

Lemma enqueue_admissible : admissible (CallEnqueue enqueue_req now0) (view NewCore).
Proof.
  unfold admissible, admissible_enqueue. cbv zeta.
  split; [apply wf_queue_run|]. split; [by apply (bool_decide_unpack _)|].
  split; [repeat constructor; by apply (bool_decide_unpack _)|]. split; [done|]. split.
  - intros e _ Hr. by apply not_rescheduled in Hr.
  - intros t _ _ Hr. by apply not_rescheduled in Hr.
Qed.

Lemma reachable_s1 : reachable s1.
Proof. eapply reachable_step; [apply reachable_new|]. apply step_call, enqueue_admissible. Qed.

Definition safe_row (now : Z) (t : Task.t) : bool :=
  retry_safe_b now t && negb (Task.ExpiresAt t <? now).

Lemma safe_row_ok now t : safe_row now t = true -> retry_safe now t /\ ~ expired_at now t.
Proof.
  intros [H1 H2]%andb_true_iff. split; [by apply retry_safe_b_ok|]. unfold expired_at. lia.
Qed.

Lemma dequeue_admissible : admissible (CallDequeue dequeue_req now1) (view s1).
Proof.
  assert (Hrows := rows_check s1 _ _ (safe_row_ok now1) ltac:(vm_compute; reflexivity)).
  unfold admissible, admissible_dequeue. cbv zeta.
  split; [apply wf_queue_run|]. split; [by apply (bool_decide_unpack _)|].
  split; [intros ds [= <-]; by apply (bool_decide_unpack _)|].
  split; [intros r [= <-]; vm_compute; eauto|]. split.
  - intros t Ht _ _. by apply Hrows.
  - intros t Ht _ _ _. by apply Hrows.
Qed.

Lemma reachable_s2 : reachable s2.
Proof. eapply reachable_step; [apply reachable_s1|]. apply step_call, dequeue_admissible. Qed.

Lemma s2_rows t : has (v_table (view s2)) t -> retry_safe now2 t /\ ~ expired_at now2 t.
Proof. by apply (rows_check s2 (safe_row now2) _ (safe_row_ok now2)); vm_compute. Qed.

Lemma report_admissible : admissible (CallReportStatus report_req now2) (view s2).
Proof.
  split; [by apply (bool_decide_unpack _)|]. split; [|repeat constructor; by apply (bool_decide_unpack _)].
  intros t Ht _. by apply s2_rows.
Qed.

Lemma reachable_s3 : reachable s3.
Proof. eapply reachable_step; [apply reachable_s2|]. apply step_call, report_admissible. Qed.

Lemma reachable_s4 : reachable s4.
Proof.
  eapply reachable_step; [apply reachable_s3|]. apply step_call. apply wf_queue_run.
Qed.
End Run.
