(* ===== verification/TasksProps.v ===== *)
(** * Properties of the tasks core

    What the tasks core guarantees, as statements about its reachable stores and its
    handlers.  Each theorem with hypotheses is followed by a witness that applies it to
    the concrete run of [TasksExamples].

    "Reachable" is always [TasksSystem.reachable]: reached from the empty store by
    [admissible] calls.  A call is admissible when its arguments have the widths of their Go
    types, the queue has ids left, a rate limit has a refill interval, and the call is none of
    the three kinds below, for each of which [TasksFindings] runs a store out of the
    guarantees:
    - an [Enqueue] that overwrites the scheduled time of a task in a thread
      ([rescheduled_head_breaks_thread_order]);
    - a [Dequeue] of a queue in which a live task in a thread has expired
      ([expired_head_blocks_thread]);
    - a [Dequeue] or [ReportStatus] while a running task in a thread has a retry interval that,
      counted from now, ends exactly at its scheduled time ([same_time_retry_is_lost]).
    [Restore] is not one of the calls; [SnapshotProps] is about it. *)

From S2P Require Export TasksExamples.

Section safety.
Context {U : Utils} {UO : UtilsOk U} {H : Honey} {HO : HoneyOk H}.

(** A row of the task table. *)
Definition row (s : Txn) (t : Task.t) : Prop := has (v_table (view s)) t.

(** C1: a store reached from the empty one by admissible calls keeps the core's invariant:
    each index is the exact image of the rows in the states it covers, the thread rows name
    the heads, the gauges count rows, ids stay below the sequence, and purge markers are well
    formed.  Not every call is admissible: besides Go's integer widths, ids left in the
    sequence and a rate limit with a refill interval, it excludes an [Enqueue] that overwrites
    the scheduled time of a task in a thread, a [Dequeue] of a queue with an expired live task
    in a thread, and a [Dequeue] or [ReportStatus] while a running task in a thread could be
    retried at the very time it was scheduled for.  The code accepts these three, and
    [TasksFindings] shows for each a run that breaks what the invariant promises; [Restore] is
    not a call. *)
Theorem reachable_invariant s : reachable s -> Inv (view s) /\ wf_purge (view s).
Proof. apply Good_reachable. Qed.

(** C2: an admissible call on a reachable store returns: no handler fails with a missing
    row, a nil dereference, a division by zero or an exhausted loop bound. *)
Theorem reachable_call_returns s c :
  reachable s -> admissible c (view s) -> exists s', exec c s = Ok (tt, s').
Proof.
  intros Hr Hadm. destruct (wpv_run _ _ _ (Good_exec c _ (Good_reachable s Hr) Hadm))
    as ([] & s' & E & _). by exists s'.
Qed.

(** C4: at most one task of a thread is in progress at a time, on a store reached from the
    empty one by admissible calls, that is as long as no [Enqueue] overwrote the scheduled
    time of a task in a thread, no [Dequeue] met an expired live task in a thread, and no
    [Dequeue] or [ReportStatus] met a running task in a thread whose retry would fall on its
    scheduled time.  The code accepts those calls and the guarantee of docs/threads.md is
    then lost: see [rescheduled_head_breaks_thread_order]. *)
Theorem thread_runs_one_task s t u :
  reachable s -> row s t -> row s u -> threaded t ->
  TaskId.AccountId (Task.Id t) = TaskId.AccountId (Task.Id u) ->
  TaskId.QueueId (Task.Id t) = TaskId.QueueId (Task.Id u) ->
  Task.ThreadId t = Task.ThreadId u ->
  Task.State t = TASK_STATE_IN_PROGRESS -> Task.State u = TASK_STATE_IN_PROGRESS -> t = u.
Proof.
  intros [[[_ [_ [_ Hk _] _ _ _ _] _ _] _] _]%Good_reachable Ht Hu Hth E1 E2 E3 Hpt Hpu.
  specialize (Hk (threadkey t)).
  assert (Hmt : member t) by (split; [done|congruence]).
  assert (Hmu : member u) by (split; [unfold threaded in *; congruence|congruence]).
  assert (Ek : threadkey u = threadkey t) by (unfold threadkey; congruence).
  destruct (v_thr (view s) !! threadkey t) as [r|]; [|by destruct (Hk t)].
  destruct Hk as (h & _ & _ & _ & _ & Hone & _).
  by rewrite (Hone t), (Hone u).
Qed.

(** C5: a dedupe key is held by at most one live task of a queue, on a store reached from the
    empty one by admissible calls, that is as long as no [Enqueue] overwrote the scheduled
    time of a task in a thread, no [Dequeue] met an expired live task in a thread, and no
    [Dequeue] or [ReportStatus] met a running task in a thread whose retry would fall on its
    scheduled time.  Without that condition a stale queue-index entry can revive a dead task
    whose key was taken again ([rescheduled_head_is_revived]). *)
Theorem dedupe_key_held_once s t u :
  reachable s -> row s t -> row s u -> Task.DedupeKey t <> [] ->
  TaskId.AccountId (Task.Id t) = TaskId.AccountId (Task.Id u) ->
  TaskId.QueueId (Task.Id t) = TaskId.QueueId (Task.Id u) ->
  Task.DedupeKey t = Task.DedupeKey u ->
  Task.State t <> TASK_STATE_DEAD -> Task.State u <> TASK_STATE_DEAD -> t = u.
Proof.
  intros [[[_ [Hrows _ _ _ _ Hded] _ _] _] _]%Good_reachable Ht Hu Hk E1 E2 E3 Hdt Hdu.
  apply (dedupe_unique _ _ t u Hrows Hded); try done; [by split; congruence|].
  unfold task_dedupePK. congruence.
Qed.

End safety.

Lemma reachable_invariant_witness : Inv (view Run.s3) /\ wf_purge (view Run.s3).
Proof. apply reachable_invariant. apply Run.reachable_s3. Defined.

Lemma reachable_call_returns_witness :
  exists s', exec (CallDequeue Run.dequeue_req Run.now1) Run.s1 = Ok (tt, s').
Proof. apply reachable_call_returns; [apply Run.reachable_s1|apply Run.dequeue_admissible]. Defined.

Lemma thread_runs_one_task_witness :
  Task.State (Run.the_task Run.s2 1) = TASK_STATE_IN_PROGRESS /\
  forall t, t = Run.the_task Run.s2 1 -> t = Run.the_task Run.s2 1.
Proof.
  split; [by vm_compute|]. intros t ->.
  apply (thread_runs_one_task Run.s2); [apply Run.reachable_s2|by vm_compute..].
Defined.

Lemma dedupe_key_held_once_witness : Run.the_task Run.s2 1 = Run.the_task Run.s2 1.
Proof.
  apply (dedupe_key_held_once Run.s2); [apply Run.reachable_s2|by vm_compute..].
Defined.


Section operations.
Context {U : Utils} {UO : UtilsOk U} {H : Honey} {HO : HoneyOk H}.

(** The number of rows of a queue in a state. *)
Definition tasks_in (s : Txn) (queue : QueueId.t) (st : TaskState) : Z :=
  count (v_table (view s)) (QueueId.AccountId queue) (QueueId.QueueId queue) st.

Definition sequence (s : Txn) (queue : QueueId.t) : Z :=
  seq_of (view s) (QueueId.AccountId queue) (QueueId.QueueId queue).

Definition unpurged (s : Txn) (queue : QueueId.t) : Prop :=
  not_purged (view s) (QueueId.AccountId queue) (QueueId.QueueId queue).

Lemma reachable_Inv s : reachable s -> Inv (view s).
Proof. apply Good_reachable. Qed.

(** C3: an admissible [Enqueue] to a queue that is not purged, on a store reached by admissible
    calls, refines the abstract queue, a table of rows in which a dedupe key belongs to the
    live row carrying it: entry by entry it inserts a fresh row, leaves or overwrites the key's
    holder, and returns exactly the rows the abstract queue returns.  Admissible means that no
    entry overwrites the scheduled time of a task in a thread (or of a key another entry of the
    request gives a thread) and that there are ids left; and that on the way to the store no
    [Enqueue] did so, no [Dequeue] met an expired live task in a thread and no [Dequeue] or
    [ReportStatus] a running task in a thread whose retry would fall on its scheduled time.
    After such an expired head the code's [Enqueue] to the thread fails with a missing row
    instead ([expired_head_blocks_thread]). *)
Theorem Enqueue_refines_spec s req now :
  let queue := EnqueueRequest.QueueId req in
  reachable s -> admissible (CallEnqueue req now) (view s) -> unpurged s queue ->
  ⟪ s ⟫ Enqueue req now ⟪ r, s' ⟫
    exists ts, r = Payload ts /\
      spec_entries (QueueId.AccountId queue) (QueueId.QueueId queue) now
        (EnqueueRequest.Entries req) (v_table (view s)) (sequence s queue)
      = (ts, v_table (view s'), sequence s' queue).
Proof.
  intros queue Hr%reachable_Inv (H1 & H2 & H3 & H4 & H5 & H6) Hp.
  eapply wp_mono; [apply wpv_wp; by apply op_Enqueue|].
  intros r s' (_ & _ & (ts & -> & _ & _ & Hsp) & _). by exists ts.
Qed.

(** The upper half of an index range bounds the time of an item. *)
Lemma due_time lo now t n :
  0 <= now < two63 -> 0 <= t < two63 -> in_range lo (be64 now) (be64 t ++ be64 n) -> t <= now.
Proof.
  intros Hn Ht [_ Hhi].
  assert (Hlo : in_range (be64 0) (be64 t) (be64 t ++ be64 n))
    by (apply index_item_in_range; rewrite two63_val in *; lia).
  apply (index_item_in_range 0 now t n); [by rewrite two63_val|done..|]. by split; [apply Hlo|].
Qed.

(** C6: every task an admissible [Dequeue] of an unpurged queue hands out, at a time from 1970
    on and on a store reached by admissible calls, is a row of the queue, now in progress with
    a fresh visibility deadline, counted as attempted, not expired, and due when its scheduled
    time is not negative; and no task is handed out twice.  Admissible means that no live task
    of the queue's threads has expired and no running one could be retried exactly at its
    scheduled time, and, for the calls before, also that none overwrote the scheduled time of a
    task in a thread: such a call leaves a stale index entry through which the code hands out
    a task before its new time ([rescheduled_head_runs_early_and_again]). *)
Theorem Dequeue_hands_out_due_tasks s req now :
  let queue := DequeueRequest.QueueId req in
  reachable s -> admissible (CallDequeue req now) (view s) -> unpurged s queue -> 0 <= now ->
  ⟪ s ⟫ Dequeue req now ⟪ r, s' ⟫
    exists ts, r = Payload ts /\ NoDup (Task.Id <$> ts) /\
      Forall (fun t => row s' t /\
        in_queue (QueueId.AccountId queue) (QueueId.QueueId queue) t /\
        Task.State t = TASK_STATE_IN_PROGRESS /\ 1 <= Task.Attempts t /\
        Task.VisibleAt t = after_seconds now (DequeueRequest.KeepaliveTimeoutInSeconds req) /\
        now <= Task.ExpiresAt t /\ (0 <= Task.ScheduledAt t -> Task.ScheduledAt t <= now)) ts.
Proof.
  intros queue Hr%reachable_Inv (H1 & H2 & H3 & H4 & H5 & H6) Hp H0.
  eapply wp_mono; [apply wpv_wp; by apply op_Dequeue|].
  intros r s' (Hinv' & _ & ts & tts & v1 & -> & _ & _ & _ & Hpost & _).
  destruct Hpost as [_ _ Hord Hdue _ _]. destruct Hinv' as [Hg' _]. exists ts. split; [done|].
  split.
  - apply (StronglySorted_NoDup blt) in Hord. apply NoDup_fmap_1 in Hord.
    apply NoDup_fmap_2_strong; [|done]. rewrite Forall_forall in Hdue.
    intros t u [Ht _]%Hdue [Hu _]%Hdue E. unfold has in *. rewrite E in Ht. congruence.
  - eapply Forall_impl; [exact Hdue|]. intros t' [Ht' (t & (Ht & Hq & Hqt & Hrange) & Hne & ->)].
    pose proof (has_wf _ _ _ _ Hg' Ht') as Hw'.
    destruct (started_fields now (DequeueRequest.KeepaliveTimeoutInSeconds req) t)
      as (EI & _ & ES & _ & EE & Est).
    destruct (wf_Attempts _ Hw') as (_ & _ & Ha). destruct (wf_ScheduledAt _ Hw') as [_ Hs].
    rewrite queueIndexItem_eq in Hrange. unfold expired_at in Hne.
    split_and!; try done.
    + unfold in_queue in *. by rewrite EI.
    + by apply Ha.
    + by destruct t.
    + rewrite EE. lia.
    + rewrite ES in *. intros Hs0. destruct H2 as [_ H2]. by eapply due_time.
Qed.


(** C8: on a store reached by admissible calls, and when no live task in a thread of the queue
    has expired, the scan behind [Dequeue] is first-in first-out and leaves nothing due
    behind: it returns tasks in the order of (scheduled time, id), and a due, unexpired task
    at or past the cursor is returned unless the limit, the in-progress cap or the visit
    cap stopped the scan.  The conditions matter: overwriting the scheduled time of a task in a
    thread (not an admissible call) leaves an entry at the old time, the scan removes an
    expired head without promoting its siblings, and a sibling promoted before the cursor is
    not found ([promoted_sibling_is_skipped]). *)
Theorem dequeue_scan_ordered_and_complete s a q now limit settings ka :
  reachable s -> is_u64 a -> is_u64 q ->
  (forall ds, settings = Some ds -> is_i64 (DequeuingSettings.MaxInProgressTasks ds)) ->
  no_expired_thread a q now (view s) ->
  ⟪ s ⟫ dequeueTasksBeforeTime a q now limit settings ka ⟪ ts, s' ⟫
    StronglySorted blt (item_of <$> ts) /\
    forall t, takeable a q now (cursor a q (view s)) (view s) t -> ~ expired_at now t ->
      started now ka t ∈ ts \/ saturated a q now limit settings (view s) ts (view s').
Proof.
  intros Hr%reachable_Inv Ha Hq Hds Hne.
  eapply wp_mono; [apply wpv_wp; by apply wpv_dequeueTasksBeforeTime|].
  by intros ts s' (_ & _ & [_ _ P3 _ _ P6]).
Qed.

(** C9: a lease that ran out is taken away: on a store reached by admissible calls, every
    in-progress task of the queue whose visibility deadline lies between the cursor and [now]
    is in progress no more after the call, unless [maxVisitedTasksForDequeuing] such tasks
    were handled; live tasks outside that batch are untouched.  (The theorem asks that no
    running task in a thread of the queue could be retried exactly at its scheduled time.) *)
Theorem timed_out_tasks_are_failed s a q now dlqc :
  reachable s -> is_u64 a -> is_u64 q -> is_i64 now ->
  (forall t, row s t -> in_queue a q t -> in_progress t -> retry_safe now t) ->
  ⟪ s ⟫ dequeueInProgressTasksBeforeTime a q now dlqc ⟪ r, s' ⟫
    exists batch, nlen batch <= maxVisitedTasksForDequeuing /\
      Forall (timed_out a q now (view s)) batch /\
      (nlen batch < maxVisitedTasksForDequeuing ->
         forall t u, timed_out a q now (view s) t -> row s' u -> Task.Id u = Task.Id t ->
           Task.State u <> TASK_STATE_IN_PROGRESS) /\
      (forall u, row s u -> ~ dead u -> Forall (fun t => Task.Id u <> Task.Id t) batch -> row s' u).
Proof.
  intros Hr%reachable_Inv Ha Hq Hn Hsafe.
  eapply wp_mono; [apply wpv_wp; by apply wpv_dequeueInProgress|].
  intros r s' (_ & _ & _ & ts & (_ & Hts & Hlen & Hall) & Hkeep & _ & Hnp). exists ts.
  split_and!; [done|done| |].
  - intros Hlt t u Ht Hu E. by apply (Hnp u t); [|apply Hall|].
  - intros u Hu Hd Hf. by apply Hkeep.
Qed.

(** C11: on a store reached by admissible calls, a report is judged by the row it names: unknown,
    not in progress, of another attempt, without a known status, or accepted; a report that is not accepted changes
    nothing, an accepted one renews, removes or fails exactly that row (a failure may evict
    dead rows of its queue).  The store must hold no running task in a thread that could be
    retried, from now, exactly at its scheduled time: such a failure loses the task's queue
    entry ([same_time_retry_is_lost]). *)
Theorem report_verdict s now status attempt ka dlqc i :
  let e := ReportStatusRequestEntry.mk i status attempt ka in
  reachable s -> wf_id i -> is_i64 now -> all_retry_safe now (view s) ->
  ⟪ s ⟫ reportStatus i now status attempt ka dlqc ⟪ r, s' ⟫
    r = verdict (view s) e /\ (r <> RESULT_OK -> view s' = view s) /\
    (r = RESULT_OK -> exists t, row s t /\ Task.Id t = i /\ Task.Attempts t = attempt /\
       Task.State t = TASK_STATE_IN_PROGRESS /\ reported now ka status (view s) t (view s')).
Proof.
  intros e Hr%reachable_Inv Hi Hn Hs.
  eapply wp_mono; [apply wpv_wp; by apply op_reportStatus|].
  intros r s' (Er & _ & _ & _ & Hno & Hyes). split_and!; [done|done|].
  intros Eok. destruct (Hyes Eok) as (t & Ht & Eid & Hrep). exists t. subst e. unfold verdict in Er. cbn in Er.
  unfold row. pose proof Ht as Ht'. unfold has in Ht'. rewrite Eid in Ht'. cbn in Ht'. rewrite Ht' in Er.
  destruct (decide (in_progress t)) as [Hp|]; [|congruence].
  destruct (decide (Task.Attempts t = attempt)); [done|congruence].
Qed.

(** C12: on a store reached by admissible calls, a failed task has one of four fates: expired
    tasks are dropped, a task with a retry left goes back to the queue after the interval of
    its attempt, a task without one goes to the dead-letter queue when it is enabled and is
    dropped otherwise; and the store keeps its invariant, so that the indexes cover a task
    that goes back.  This is for a task that is not in a thread, or none of whose
    retry intervals, counted from now, ends exactly at its scheduled time: a task in a thread
    that is retried at its old scheduled time gets no queue entry and is never dequeued again
    ([same_time_retry_is_lost]). *)
Theorem failure_fate s now dlqc t :
  reachable s -> row s t -> Task.State t = TASK_STATE_IN_PROGRESS -> is_i64 now ->
  retry_safe now t ->
  ⟪ s ⟫ handleTaskFailure t now dlqc ⟪ r, s' ⟫
    Inv_gen (view s') no_off (seq_of (view s)) /\ fated now (fate now dlqc t) t (view s) (view s').
Proof.
  intros [Hg _]%reachable_Inv Ht Hp Hn Hs.
  eapply wp_mono; [apply wpv_wp; by apply op_fated|]. by intros r s' Hf.
Qed.

(** C13: on a store reached by admissible calls, a bounded dead-letter queue never exceeds its size: after one more death it
    holds [min (n + 1) MaxSize] tasks. *)
Theorem dead_letter_queue_bounded s now dlq t :
  let queue := QueueId.mk (TaskId.AccountId (Task.Id t)) (TaskId.QueueId (Task.Id t)) in
  reachable s -> row s t -> Task.State t = TASK_STATE_IN_PROGRESS -> is_i64 now ->
  DeadLetterQueueConfig.Enable dlq = true -> 0 < DeadLetterQueueConfig.MaxSize dlq < two63 ->
  tasks_in s queue TASK_STATE_DEAD + 1 < two63 ->
  ⟪ s ⟫ failTaskToDead t now (Some dlq) ⟪ r, s' ⟫
    tasks_in s' queue TASK_STATE_DEAD =
      Z.min (tasks_in s queue TASK_STATE_DEAD + 1) (DeadLetterQueueConfig.MaxSize dlq).
Proof.
  intros queue [Hg _]%reachable_Inv Ht Hp Hn He Hpos Hlt.
  eapply wp_mono; [apply wpv_wp; by apply (op_failTaskToDead _ (seq_of (view s)))|].
  intros r s' (_ & _ & _ & _ & _ & Hc). unfold tasks_in in *. cbn in *. rewrite Hc. unfold dlq_size.
  set (c := count _ _ _ _) in *. assert (0 <= c) by (unfold c, count; lia).
  replace (0 <? DeadLetterQueueConfig.MaxSize dlq) with true by lia.
  rewrite (i64_id (c + 1)) by (unfold is_i64; rewrite two63_val in *; lia).
  rewrite i64_id by (unfold is_i64; rewrite two63_val in *; lia). lia.
Qed.

(** making room in a dead-letter queue evicts its oldest failures. *)
Theorem eviction_takes_the_oldest s a q maxSize deadCount :
  reachable s -> is_u64 a -> is_u64 q ->
  ⟪ s ⟫ evictExcessDeadTasks a q maxSize deadCount ⟪ r, s' ⟫
    (forall u, row s u -> Task.State u <> TASK_STATE_DEAD -> row s' u) /\
    (forall u w, row s u -> ~ row s' u -> row s' w -> counted a q TASK_STATE_DEAD w ->
       0 <= Task.LastFailedAt u < two63 -> 0 <= Task.LastFailedAt w < two63 ->
       Task.LastFailedAt u <= Task.LastFailedAt w).
Proof.
  intros [Hg _]%reachable_Inv Ha Hq.
  eapply wp_mono; [apply wpv_wp; by apply (op_evict _ no_off (seq_of (view s)))|].
  intros r s' (Hg' & _ & _ & Hkeep & Hold & _). split.
  - intros u Hu Hd. apply Hkeep; [done|]. by intros [_ ?].
  - intros u w Hu Hnu Hw Hcw H1 H2. specialize (Hold u w Hu Hnu Hw Hcw). unfold dead_item in Hold.
    rewrite !deadTasksIndexItem_eq in Hold. apply index_item_order in Hold; [lia|done..| |].
    + by apply wf_Id, (has_wf _ _ _ _ Hg).
    + by apply wf_Id, (has_wf _ _ _ _ Hg').
Qed.
End operations.

Section maintenance.
Context {U : Utils} {UO : UtilsOk U} {H : Honey} {HO : HoneyOk H}.

(** [RestartTasks] restarts an entry exactly when it names an unexpired dead task whose
    dedupe key is free; then the row is enqueued again with a fresh attempt budget, and
    otherwise nothing changes. *)
Theorem restart_entry_verdict s a q now e :
  let n := RestartTasksRequestEntry.TaskId e in
  reachable s -> is_u64 a -> is_u64 q -> is_u64 n -> is_i64 now ->
  is_i64 (RestartTasksRequestEntry.ScheduledAt e) ->
  is_i64 (RestartTasksRequestEntry.ExpiresAt e) ->
  ⟪ s ⟫ restart_entry a q now e ⟪ r, s' ⟫
    RestartTasksResponseEntry.Result r = restart_verdict (view s) a q now n /\
    (RestartTasksResponseEntry.Result r <> RESTART_RESTARTED -> view s' = view s) /\
    (RestartTasksResponseEntry.Result r = RESTART_RESTARTED -> exists t,
       row s t /\ Task.Id t = TaskId.mk a q n /\
       let t1 := restarted now (RestartTasksRequestEntry.ScheduledAt e)
                   (RestartTasksRequestEntry.ExpiresAt e) t in
       RestartTasksResponseEntry.Task r = Some t1 /\
       v_table (view s') = <[task_key (Task.Id t) := t1]> (v_table (view s))).
Proof.
  intros n Hr%reachable_Inv Ha Hq Hn Hnow Hx He.
  eapply wp_mono; [apply wpv_wp; by apply op_restart_entry|].
  intros r s' (_ & Hv & _ & _ & Hno & Hyes). split; [done|]. split; [done|].
  intros Hres. destruct (Hyes Hres) as (t & Ht & Ei & Ht1 & Et). exists t.
  rewrite Ei. by split_and!.
Qed.

(** [DeleteTasks] removes exactly the named tasks of its queue, whatever their state. *)
Theorem DeleteTasks_removes_exactly s req :
  let queue := DeleteTasksRequest.QueueId req in
  reachable s -> wf_queue queue -> Forall is_u64 (DeleteTasksRequest.TaskIds req) ->
  ⟪ s ⟫ DeleteTasks req ⟪ r, s' ⟫
    r = Payload tt /\
    forall t, row s' t <-> row s t /\
      ~ (in_queue (QueueId.AccountId queue) (QueueId.QueueId queue) t /\
         TaskId.TaskId (Task.Id t) ∈ DeleteTasksRequest.TaskIds req).
Proof.
  intros queue Hr%reachable_Inv Hq Hids.
  eapply wp_mono; [apply wpv_wp; by apply op_DeleteTasks|]. by intros r s' (-> & _ & _ & Hrows).
Qed.


(** C15: on a store reached by admissible calls, purge collection removes only tasks of purged queues, at most its budget of them,
    and drops a purge marker only once the marked queue is empty; with budget to spare
    and all markers listed, every purged queue ends up empty and unmarked. *)
Theorem purge_collection s req :
  let budget := or_default (RunPurgeQueueGarbageCollectionRequest.MaxVisitedTasks req)
                  defaultPurgeGCMaxVisitedTasks in
  let limit := or_default (RunPurgeQueueGarbageCollectionRequest.GcRecordsPageSize req)
                 defaultPurgeGCRecordsPageSize in
  reachable s ->
  ⟪ s ⟫ RunPurgeQueueGarbageCollection req ⟪ r, s' ⟫
    r = Payload tt /\ exists rs,
      Forall (fun m => exists k, v_purge (view s) !! k = Some m) rs /\
      (nlen rs < limit -> forall k m, v_purge (view s) !! k = Some m -> m ∈ rs) /\
      purged (view s) rs budget (view s').
Proof.
  intros budget limit [Hinv Hwf]%Good_reachable.
  eapply wp_mono; [apply wpv_wp; by apply op_RunPurgeQueueGarbageCollection|].
  by intros r s' (-> & _ & _ & Hrs).
Qed.

(** C16: on a store reached by admissible calls, after [PurgeQueue] a queue id is closed: its tasks stay until they are collected,
    but [Enqueue], [Dequeue] and [ListTasks] answer with the purged-queue error and
    write nothing. *)
Theorem purged_queue_is_closed s queue ereq dreq lreq now :
  let err := queueIdPurgedError (QueueId.AccountId queue) (QueueId.QueueId queue) in
  reachable s -> wf_queue queue ->
  EnqueueRequest.QueueId ereq = queue -> DequeueRequest.QueueId dreq = queue ->
  ListTasksRequest.QueueId lreq = queue ->
  ⟪ s ⟫ PurgeQueue queue ⟪ r, s' ⟫
    v_table (view s') = v_table (view s) /\
    Enqueue ereq now s' = Ok (ApplicationError err, s') /\
    Dequeue dreq now s' = Ok (ApplicationError err, s') /\
    ListTasks lreq s' = Ok (ApplicationError err, s').
Proof.
  intros err [Hinv Hwf]%Good_reachable Hq E1 E2 E3.
  eapply wp_mono; [apply wpv_wp; by apply op_PurgeQueue|].
  intros r s' (_ & _ & _ & Et & Hp).
  split; [done|]. by apply (marked_calls s' queue).
Qed.

(** A client that follows the next-page tokens from the start. *)
Fixpoint list_pages (fuel : nat) (queue : QueueId.t) (st : TaskState) (limit : Z)
    (tok : option CorePaginationToken.t) : M Txn (list Task.t) :=
  match fuel with
  | O => fail ErrOutOfFuel
  | S fuel =>
      r ← ListTasks (ListTasksRequest.mk queue st tok limit);
      match r with
      | ApplicationError _ => mret []
      | Payload page =>
          match ltr_NextPaginationToken page with
          | None => mret (ltr_Tasks page)
          | Some tok =>
              rest ← list_pages fuel queue st limit (Some tok);
              mret (ltr_Tasks page ++ rest)
          end
      end
  end.

Lemma ListTasks_unpurged s queue st tok limit :
  unpurged s queue ->
  ListTasks (ListTasksRequest.mk queue st tok limit) s =
    (l ← tasks_List (QueueId.AccountId queue) (QueueId.QueueId queue) st tok
           (GetLimitWithDefaults limit); mret (Payload l)) s.
Proof.
  intros Hp. unfold ListTasks, checkQueueNotPurged, purgeGCRecords_Exists, mbind, M_bind, gets, mret, M_ret.
  cbn. rewrite bt_Get_spec. unfold unpurged, not_purged in Hp. cbn in Hp. by rewrite Hp.
Qed.

Lemma list_pages_walk s queue st limit all pos :
  unpurged s queue ->
  pages_from s (QueueId.AccountId queue) (QueueId.QueueId queue) st all pos ->
  forall fuel tok sk suf, (length suf < fuel)%nat -> pos tok sk suf ->
    list_pages fuel queue st limit tok s = Ok (suf, s).
Proof.
  intros Hp [_ Hpages]. induction fuel as [|fuel IH]; intros tok sk suf Hlt Hpos; [lia|].
  destruct (Hpages tok sk suf (GetLimitWithDefaults limit)) as
    (page & rest & next & prev & El & -> & Hlen & Hnext); [apply GetLimitWithDefaults_bounds|done|].
  cbn [list_pages]. unfold mbind at 1, M_bind at 1. rewrite ListTasks_unpurged by done.
  unfold mbind at 1, M_bind at 1. rewrite El. cbn. destruct next as [tk|]; cbn.
  - destruct Hnext as [Hne Hpos']. pose proof (GetLimitWithDefaults_bounds limit).
    rewrite length_app in *. assert (0 < length rest)%nat by (destruct rest; cbn; [done|lia]).
    unfold mbind, M_bind. by rewrite (IH _ (sk ++ page) rest) by (done || lia).
  - subst rest. by rewrite app_nil_r.
Qed.

(** C17: on a store reached by admissible calls, paging through [ListTasks] from the start ends, and shows every listed row of
    the queue exactly once, in key order, whatever the page size. *)
Theorem ListTasks_walk_is_exact s queue st limit :
  reachable s -> wf_queue queue -> known_state st -> unpurged s queue ->
  exists fuel all, list_pages fuel queue st limit None s = Ok (all, s) /\
    StronglySorted blt (rank st <$> all) /\
    forall t, t ∈ all <->
      listable (view s) (QueueId.AccountId queue) (QueueId.QueueId queue) st t.
Proof.
  intros Hr%reachable_Inv [Ha Hq] Hst Hp.
  destruct (tasks_List_pages s _ _ st Hr Ha Hq Hst) as (all & pos & [Hsort Hall] & Hpages).
  exists (S (length all)), all. split; [|done].
  eapply list_pages_walk; [done|exact Hpages|lia|apply Hpages].
Qed.

(** [GetTask] shows a row unless it is missing or has expired while not running,
    and never changes the store. *)
Theorem GetTask_visibility s id now :
  GetTask id now s = Ok (
    match v_table (view s) !! task_key id with
    | Some t => if decide (Task.State t = TASK_STATE_IN_PROGRESS \/ now <= Task.ExpiresAt t)
                then Payload t else ApplicationError (taskNotFoundError id)
    | None => ApplicationError (taskNotFoundError id)
    end, s).
Proof.
  unfold GetTask, tasks_lookup, mbind, M_bind, gets, mret, M_ret. rewrite bt_Get_spec. cbn.
  do 3 f_equal. destruct (bt_den (table (tasks s)) !! task_key id) as [t|]; [|done].
  case_decide as Hd; case_bool_decide as Hs; cbn; try done;
    destruct (Z.ltb_spec (Task.ExpiresAt t) now); try done; exfalso; intuition lia.
Qed.

(** The gauges of [GetStatistics] are the exact numbers of rows of the queue in each
    state (as 64-bit integers). *)
Theorem GetStatistics_counts_rows s queue now :
  reachable s -> wf_queue queue ->
  ⟪ s ⟫ GetStatistics queue now ⟪ r, s' ⟫
    s' = s /\ exists st, r = Payload st /\
      GetStatisticsResponse.EnqueuedTasksCount st = i64 (tasks_in s queue TASK_STATE_ENQUEUED) /\
      GetStatisticsResponse.InProgressTasksCount st = i64 (tasks_in s queue TASK_STATE_IN_PROGRESS) /\
      GetStatisticsResponse.DeadTasksCount st = i64 (tasks_in s queue TASK_STATE_DEAD).
Proof.
  intros [Hg _]%reachable_Inv [Ha Hq].
  assert (Hc : forall st, gauged st ->
    gauge (counter_of (view s) (QueueId.AccountId queue) (QueueId.QueueId queue)) st = i64 (tasks_in s queue st)).
  { intros st Hst. rewrite (ig_counts _ _ _ Hg _ _ st Ha Hq Hst). unfold no_off, tasks_in. by rewrite Z.add_0_r. }
  unfold GetStatistics. repeat (apply wp_bind, wp_gets).
  split; [done|]. eexists. split; [reflexivity|]. cbn. rewrite bt_Get_spec.
  unfold gauged in Hc. split_and!.
  - apply (Hc TASK_STATE_ENQUEUED). auto.
  - apply (Hc TASK_STATE_IN_PROGRESS). auto.
  - apply (Hc TASK_STATE_DEAD). auto.
Qed.

(** The age [GetStatistics] reports is that of the oldest task ready to be
    dequeued, and 0 when there is none. *)
Theorem oldest_task_age s a q now :
  reachable s -> is_u64 a -> is_u64 q ->
  ⟪ s ⟫ getAgeOfOldestEnqueuedTask a q now ⟪ age, s' ⟫
    s' = s /\
    ((exists t, takeable a q now 0 (view s) t /\ age = i64 (now - Task.ScheduledAt t) /\
        forall u, takeable a q now 0 (view s) u -> ble (item_of t) (item_of u)) \/
     age = 0 /\ forall u, ~ takeable a q now 0 (view s) u).
Proof.
  intros [Hg _]%reachable_Inv Ha Hq. unfold getAgeOfOldestEnqueuedTask.
  apply wp_bind, wp_gets, wp_ret. split; [done|]. rewrite omi_ListInRange_spec, !itemPrefix_eq.
  set (l := filter _ _).
  assert (Hl : forall x, x ∈ l <-> exists t, takeable a q now 0 (view s) t /\ x = item_of t).
  { intros x. unfold l. rewrite list_elem_of_filter, omi_ListAll_spec.
    change (omi_den _) with (v_queue (view s)).
    rewrite index_item_fetched; [|apply Hg|done|done|exact (to_queue _ _ (ix_threads _ _ (ig_ix _ _ _ Hg)))].
    split.
    - intros [? (t & ? & ? & ? & ->)]. by exists t.
    - intros (t & (? & ? & ? & ?) & ->). split; [done|]. by exists t. }
  assert (Hsort : StronglySorted blt l) by apply StronglySorted_filter, omi_ListAll_sorted.
  destruct l as [|x l].
  - right. split; [done|]. intros u Hu. apply (not_elem_of_nil (item_of u)), Hl. by exists u.
  - left. destruct (proj1 (Hl x)) as (t & Ht & ->); [by left|]. exists t. split; [done|]. split.
    + unfold item_of. rewrite queueIndexItem_eq, extractTime_item; [done|].
      apply wf_ScheduledAt, (has_wf _ _ _ _ Hg), Ht.
    + intros u Hu. destruct (StronglySorted_head _ _ _ Hsort (item_of u)) as [->|?]; [|by left|by right].
      apply Hl. by exists u.
Qed.
End maintenance.

Section keys.
Context {U : Utils} {UO : UtilsOk U} {H : Honey} {HO : HoneyOk H}.

(** The task key determines the task id, and a scan under a queue's partition key
    meets the keys of that queue's tasks only. *)
Theorem task_keys_separate_queues a q i j :
  is_u64 a -> is_u64 q -> wf_id i -> wf_id j ->
  (task_key i = task_key j <-> i = j) /\
  (tablePK a q `prefix_of` task_key i <-> TaskId.AccountId i = a /\ TaskId.QueueId i = q).
Proof.
  intros Ha Hq Hi Hj. split; [|by apply task_key_prefix].
  split; [by apply task_key_inj|by intros ->].
Qed.

(** The length prefix keeps threads apart: a scan under one thread's index key
    meets no entry of another thread, even when one thread id is a prefix of another. *)
Theorem thread_scan_is_exact a q th a' q' th' scheduledAt n :
  is_u64 a -> is_u64 q -> is_u64 a' -> is_u64 q' ->
  Z.of_nat (length th) < 2 ^ 32 -> Z.of_nat (length th') < 2 ^ 32 ->
  threadIndexPK a q th `prefix_of` threadIndexPK a' q' th' ++ threadedTasksIndexItem scheduledAt n <->
  a = a' /\ q = q' /\ th = th'.
Proof.
  intros Ha Hq Ha' Hq' Hl Hl'. split.
  - by apply threadIndexPK_prefix_free.
  - intros (-> & -> & ->). by apply prefix_app_r.
Qed.

(** The byte order of queue-index items is the order of (scheduled time, id), and a
    range scan between two times meets exactly the items whose time lies between them. *)
Theorem queue_index_orders_by_time t n t' n' lo hi :
  0 <= t < two63 -> 0 <= t' < two63 -> is_u64 n -> is_u64 n' ->
  0 <= lo < two63 -> 0 <= hi < two63 ->
  (blt (queueIndexItem t n) (queueIndexItem t' n') <-> t < t' \/ t = t' /\ n < n') /\
  (in_range (itemPrefix lo) (itemPrefix hi) (queueIndexItem t n) <-> lo <= t <= hi).
Proof.
  intros. rewrite !queueIndexItem_eq, !itemPrefix_eq.
  split; [by apply index_item_order|by apply index_item_in_range].
Qed.

(** The ids and times packed into index items come back unchanged. *)
Theorem index_items_roundtrip t i :
  is_i64 t -> wf_id i ->
  extractTaskIdFromIndexItem (queueIndexItem t (TaskId.TaskId i)) = TaskId.TaskId i /\
  extractTimeFromIndexItem (queueIndexItem t (TaskId.TaskId i)) = t /\
  expiration_ref (expiration_item t i) = mkRef i t.
Proof.
  intros Ht Hi. rewrite queueIndexItem_eq. split_and!.
  - apply extractTaskId_item, Hi.
  - by apply extractTime_item.
  - by apply expiration_ref_item.
Qed.

(** The rate limiter refills no faster than its rate and never beyond its capacity:
    the bucket a call takes its tokens from holds between the stored tokens and
    [max MaxTokens stored], and gained at most one token per elapsed interval. *)
Theorem rate_limiter_refill s a q now r ri st :
  refill_ns r = Some ri -> 0 < ri ->
  v_rl (view s) !! queue_tablePK a q = Some st ->
  0 <= RateLimiterState.Tokens st -> 0 <= TokenBucketRateLimiting.MaxTokens r < two63 ->
  0 <= now - RateLimiterState.LastRefilledAt st ->
  now - RateLimiterState.LastRefilledAt st + RateLimiterState.Tokens st < two63 ->
  ⟪ s ⟫ take_tokens a q now r ⟪ st', s' ⟫
    view s' = view s /\
    RateLimiterState.Tokens st <= RateLimiterState.Tokens st'
      <= Z.max (TokenBucketRateLimiting.MaxTokens r) (RateLimiterState.Tokens st) /\
    RateLimiterState.Tokens st'
      <= RateLimiterState.Tokens st + (now - RateLimiterState.LastRefilledAt st) / ri.
Proof.
  intros Hri Hpos Hst Ht Hmax Hel Hov.
  eapply wp_mono; [apply wpv_wp; by apply wpv_take_tokens|].
  intros st' s' [E ->]. split; [done|]. rewrite Hst. by apply refilled_bounds.
Qed.

(** no table of the tasks core can reach into another: their one-byte prefixes are
    pairwise distinct, so no key of one table starts with the prefix of another. *)
Theorem table_prefixes_disjoint p p' k :
  p ∈ tasks_prefixes -> p' ∈ tasks_prefixes -> p' `prefix_of` p ++ k -> p = p'.
Proof.
  intros Hp Hp'. unfold tasks_prefixes in *.
  repeat setoid_rewrite elem_of_cons in Hp. repeat setoid_rewrite elem_of_cons in Hp'.
  rewrite elem_of_nil in Hp, Hp'. intros [x E].
  destruct_or?; try done; subst; by injection E.
Qed.

(** A page holds between 1 and 250 rows whatever the client asks for, and the token a
    client sends back is the one the store issued. *)
Theorem pagination_contract n tok :
  1 <= GetLimitWithDefaults n <= 250 /\ CoreToMonstera (MonsteraToCore tok) = tok.
Proof.
  pose proof (GetLimitWithDefaults_bounds n). unfold MaxPaginationLimit in *.
  split; [lia|apply CoreToMonstera_MonsteraToCore].
Qed.
End keys.

(** ** Witnesses *)

Lemma Enqueue_refines_spec_witness :
  ⟪ NewCore ⟫ Enqueue Run.enqueue_req Run.now0 ⟪ r, s' ⟫
    exists ts, r = Payload ts /\ length ts = 3%nat /\ sequence s' Run.queue = 3.
Proof.
  eapply wp_mono; [apply (Enqueue_refines_spec NewCore Run.enqueue_req Run.now0);
    [apply reachable_new|apply Run.enqueue_admissible|by_eval]|].
  intros r s' (ts & -> & E). exists ts. split; [done|].
  change (EnqueueRequest.QueueId Run.enqueue_req) with Run.queue in E.
  split; [apply (f_equal (fun x => length x.1.1)) in E|apply (f_equal snd) in E];
    cbn [fst snd] in E; rewrite <-E; by vm_compute.
Defined.

Lemma Dequeue_hands_out_due_tasks_witness :
  ⟪ Run.s1 ⟫ Dequeue Run.dequeue_req Run.now1 ⟪ r, s' ⟫
    exists ts, r = Payload ts /\ NoDup (Task.Id <$> ts).
Proof.
  eapply wp_mono; [apply (Dequeue_hands_out_due_tasks Run.s1 Run.dequeue_req Run.now1);
    [apply Run.reachable_s1|apply Run.dequeue_admissible|by_eval|by_eval]|].
  intros r s' (ts & -> & Hnd & _). by exists ts.
Defined.


Lemma dequeue_scan_ordered_and_complete_witness :
  ⟪ Run.s1 ⟫ dequeueTasksBeforeTime 7 3 Run.now1 10 None 30 ⟪ ts, s' ⟫
    StronglySorted blt (item_of <$> ts).
Proof.
  eapply wp_mono; [apply (dequeue_scan_ordered_and_complete Run.s1 7 3 Run.now1 10 None 30);
    [apply Run.reachable_s1|by_eval|by_eval|done|apply Run.dequeue_admissible]|].
  by intros ts s' [Hs _].
Defined.

Lemma timed_out_tasks_are_failed_witness :
  ⟪ Run.s2 ⟫ dequeueInProgressTasksBeforeTime 7 3 Run.now2 (Some Run.dlq) ⟪ r, s' ⟫
    exists batch, nlen batch <= 100 /\ Forall (timed_out 7 3 Run.now2 (view Run.s2)) batch.
Proof.
  eapply wp_mono; [apply (timed_out_tasks_are_failed Run.s2 7 3 Run.now2 (Some Run.dlq));
    [apply Run.reachable_s2|by_eval|by_eval|by_eval|]|].
  - intros t Ht _ _. by apply Run.s2_rows.
  - intros r s' (batch & H1 & H2 & _). by exists batch.
Defined.

Lemma report_verdict_witness :
  ⟪ Run.s2 ⟫ reportStatus (Run.task_id 3) Run.now2 STATUS_FAILED 1 30 (Some Run.dlq) ⟪ r, s' ⟫
    r = RESULT_OK.
Proof.
  eapply wp_mono; [apply (report_verdict Run.s2 Run.now2 STATUS_FAILED 1 30 (Some Run.dlq) (Run.task_id 3));
    [apply Run.reachable_s2|repeat split; by_eval|by_eval|intros t Ht _; by apply Run.s2_rows]|].
  intros r s' [-> _]. by vm_compute.
Defined.

Lemma failure_fate_witness :
  ⟪ Run.s2 ⟫ handleTaskFailure (Run.the_task Run.s2 3) Run.now2 (Some Run.dlq) ⟪ r, s' ⟫
    fated Run.now2 (FateDead Run.dlq) (Run.the_task Run.s2 3) (view Run.s2) (view s').
Proof.
  assert (Hrow : row Run.s2 (Run.the_task Run.s2 3)) by by_eval.
  eapply wp_mono; [apply (failure_fate Run.s2 Run.now2 (Some Run.dlq) (Run.the_task Run.s2 3));
    [apply Run.reachable_s2|exact Hrow|by_eval|by_eval|exact (proj1 (Run.s2_rows _ Hrow))]|].
  intros r s' [_ Hf].
  replace (fate Run.now2 (Some Run.dlq) (Run.the_task Run.s2 3)) with (FateDead Run.dlq) in Hf
    by by_eval. exact Hf.
Defined.

Lemma dead_letter_queue_bounded_witness :
  ⟪ Run.s2 ⟫ failTaskToDead (Run.the_task Run.s2 3) Run.now2 (Some Run.dlq) ⟪ r, s' ⟫
    tasks_in s' Run.queue TASK_STATE_DEAD = 1.
Proof.
  eapply wp_mono; [apply (dead_letter_queue_bounded Run.s2 Run.now2 Run.dlq (Run.the_task Run.s2 3));
    [apply Run.reachable_s2|by_eval|by_eval|by_eval|by_eval|split; by_eval|by_eval]|].
  intros r s' E. replace (tasks_in Run.s2 _ TASK_STATE_DEAD) with 0 in E by by_eval. exact E.
Defined.

Lemma eviction_takes_the_oldest_witness :
  ⟪ Run.s3 ⟫ evictExcessDeadTasks 7 3 1 2 ⟪ r, s' ⟫ row s' (Run.the_task Run.s3 1).
Proof.
  eapply wp_mono; [apply (eviction_takes_the_oldest Run.s3 7 3 1 2);
    [apply Run.reachable_s3|by_eval|by_eval]|].
  intros r s' [Hkeep _]. apply Hkeep; by vm_compute.
Defined.

Lemma restart_entry_verdict_witness :
  ⟪ Run.s3 ⟫ restart_entry 7 3 Run.now2 (RestartTasksRequestEntry.mk 3 Run.now2 Run.far) ⟪ r, s' ⟫
    RestartTasksResponseEntry.Result r = RESTART_RESTARTED.
Proof.
  eapply wp_mono; [apply (restart_entry_verdict Run.s3 7 3 Run.now2
      (RestartTasksRequestEntry.mk 3 Run.now2 Run.far));
    [apply Run.reachable_s3|by_eval..]|].
  intros r s' [-> _]. by vm_compute.
Defined.

Lemma DeleteTasks_removes_exactly_witness :
  ⟪ Run.s2 ⟫ DeleteTasks (DeleteTasksRequest.mk Run.queue [1; 99]) ⟪ r, s' ⟫
    row s' (Run.the_task Run.s2 3) /\ ~ row s' (Run.the_task Run.s2 1).
Proof.
  eapply wp_mono; [apply (DeleteTasks_removes_exactly Run.s2 (DeleteTasksRequest.mk Run.queue [1; 99]));
    [apply Run.reachable_s2|apply Run.wf_queue_run|apply Forall_cons; split; [by_eval|];
     apply Forall_cons; split; [by_eval|constructor]]|].
  intros r s' [_ Hrows]. rewrite !Hrows. split.
  - split; [by vm_compute|]. intros [_ Hin].
    replace (TaskId.TaskId (Task.Id (Run.the_task Run.s2 3))) with 3 in Hin by by_eval.
    cbn in Hin. rewrite !elem_of_cons, elem_of_nil in Hin. lia.
  - intros [_ Hn]. apply Hn. split; [by vm_compute|by left].
Defined.


Lemma purge_collection_witness :
  ⟪ Run.s4 ⟫ RunPurgeQueueGarbageCollection (RunPurgeQueueGarbageCollectionRequest.mk 0 0 0) ⟪ r, s' ⟫
    r = Payload tt /\ exists rs, purged (view Run.s4) rs 1000 (view s').
Proof.
  eapply wp_mono; [apply (purge_collection Run.s4 (RunPurgeQueueGarbageCollectionRequest.mk 0 0 0));
    apply Run.reachable_s4|].
  intros r s' (-> & rs & _ & _ & Hp). split; [done|]. by exists rs.
Defined.

Lemma purged_queue_is_closed_witness :
  ⟪ Run.s3 ⟫ PurgeQueue Run.queue ⟪ r, s' ⟫
    Enqueue Run.enqueue_req Run.now2 s' = Ok (ApplicationError (queueIdPurgedError 7 3), s').
Proof.
  eapply wp_mono; [apply (purged_queue_is_closed Run.s3 Run.queue Run.enqueue_req Run.dequeue_req
      (ListTasksRequest.mk Run.queue TASK_STATE_INVALID None 0) Run.now2);
    [apply Run.reachable_s3|apply Run.wf_queue_run|reflexivity..]|].
  by intros r s' (_ & E & _).
Defined.

Lemma ListTasks_walk_is_exact_witness :
  exists fuel all, list_pages fuel Run.queue TASK_STATE_IN_PROGRESS 1 None Run.s2 = Ok (all, Run.s2) /\
    Run.the_task Run.s2 3 ∈ all.
Proof.
  destruct (ListTasks_walk_is_exact Run.s2 Run.queue TASK_STATE_IN_PROGRESS 1)
    as (fuel & all & E & _ & Hall);
    [apply Run.reachable_s2|apply Run.wf_queue_run|exact I|by_eval|].
  exists fuel, all. split; [exact E|]. apply Hall. split; [by_eval|]. split; [split; by_eval|by_eval].
Defined.

Lemma GetStatistics_counts_rows_witness :
  ⟪ Run.s2 ⟫ GetStatistics Run.queue Run.now2 ⟪ r, s' ⟫
    exists st, r = Payload st /\ GetStatisticsResponse.InProgressTasksCount st = 2.
Proof.
  eapply wp_mono; [apply (GetStatistics_counts_rows Run.s2 Run.queue Run.now2);
    [apply Run.reachable_s2|apply Run.wf_queue_run]|].
  intros r s' (_ & st & -> & _ & E & _). exists st. split; [done|]. rewrite E. by_eval.
Defined.

Lemma oldest_task_age_witness :
  ⟪ Run.s1 ⟫ getAgeOfOldestEnqueuedTask 7 3 Run.now1 ⟪ age, s' ⟫ s' = Run.s1.
Proof.
  eapply wp_mono; [apply (oldest_task_age Run.s1 7 3 Run.now1);
    [apply Run.reachable_s1|by_eval|by_eval]|].
  by intros age s' [-> _].
Defined.

Lemma task_keys_separate_queues_witness :
  task_key (Run.task_id 1) <> task_key (Run.task_id 256) /\
  ~ tablePK 7 4 `prefix_of` task_key (Run.task_id 1).
Proof.
  destruct (task_keys_separate_queues 7 4 (Run.task_id 1) (Run.task_id 256)) as [H1 H2];
    [by_eval|by_eval|repeat split; by_eval|repeat split; by_eval|].
  rewrite H1, H2. split; [done|]. by intros [_ ?].
Defined.

Lemma thread_scan_is_exact_witness :
  ~ threadIndexPK 7 3 (str "th") `prefix_of` threadIndexPK 7 3 (str "th2") ++ threadedTasksIndexItem 5 1.
Proof.
  rewrite (thread_scan_is_exact 7 3 (str "th") 7 3 (str "th2") 5 1);
    [by intros (_ & _ & ?)|by_eval..].
Defined.

Lemma queue_index_orders_by_time_witness :
  blt (queueIndexItem 255 9) (queueIndexItem 256 1) /\
  in_range (itemPrefix 0) (itemPrefix 255) (queueIndexItem 255 9).
Proof.
  destruct (queue_index_orders_by_time 255 9 256 1 0 255) as [H1 H2];
    [split; by_eval|split; by_eval|by_eval|by_eval|split; by_eval|split; by_eval|].
  rewrite H1, H2. lia.
Defined.

Lemma index_items_roundtrip_witness :
  extractTimeFromIndexItem (queueIndexItem (-5) 9) = -5.
Proof.
  apply (index_items_roundtrip (-5) (Run.task_id 9)); [by_eval|repeat split; by_eval].
Defined.

Lemma rate_limiter_refill_witness :
  ⟪ Run.s2 ⟫ take_tokens 7 3 Run.now2 (TokenBucketRateLimiting.mk 5 1 INTERVAL_UNIT_SECONDS) ⟪ st', s' ⟫
    3 <= RateLimiterState.Tokens st' <= 5.
Proof.
  eapply wp_mono; [apply (rate_limiter_refill Run.s2 7 3 Run.now2
      (TokenBucketRateLimiting.mk 5 1 INTERVAL_UNIT_SECONDS) 200000000 (RateLimiterState.mk 3 Run.now1));
    [by_eval|by_eval|by_eval|by_eval|split; by_eval|by_eval|by_eval]|].
  by intros st' s' (_ & ? & _).
Defined.

Lemma table_prefixes_disjoint_witness : [0] = tablePrefixTasks.
Proof.
  apply (table_prefixes_disjoint [0] tablePrefixTasks [1; 2]);
    [by left|by left|by exists [1; 2]].
Defined.
