(* ===== verification/TasksFindings.v ===== *)
(** * Where the tasks core departs from its intent

    Each theorem evaluates the model on a short run of calls.  The side conditions of
    [admissible] in [TasksSystem] are exactly what excludes these runs. *)

From S2P Require Export TasksExamples.

Module Findings.
Definition queue : QueueId.t := QueueId.mk 1 1.
Definition at_ (sec : Z) : Z := sec * time_Second.

Definition task (k : string) (scheduledAt expiresAt : Z) (retries : list Z) (th : string)
    (over : list OverwriteOnDuplicate) : EnqueueRequestEntry.t :=
  EnqueueRequestEntry.mk (str k) scheduledAt expiresAt (str k)
    (Some (RetryStrategy.mk retries)) over (str th).

Definition enqueue (now : Z) (es : list EnqueueRequestEntry.t) (s : Txn)
    : Res (Response (list Task.t)) * Txn :=
  rpc (Enqueue (EnqueueRequest.mk queue es) now) s.

Definition dequeue (now : Z) (s : Txn) : Res (Response (list Task.t)) * Txn :=
  rpc (Dequeue (DequeueRequest.mk queue None 10 None 30) now) s.

Definition report (now n : Z) (st : Status) (attempt : Z) (s : Txn) :=
  rpc (ReportStatus (ReportStatusRequest.mk
    [ReportStatusRequestEntry.mk (TaskId.mk 1 1 n) st attempt 30] None) now) s.

(** The ids a dequeue returned. *)
Definition ids (r : Res (Response (list Task.t))) : option (list Z) :=
  match r with
  | Ok (Payload ts) => Some ((fun t => TaskId.TaskId (Task.Id t)) <$> ts)
  | _ => None
  end.

Definition never : Z := at_ 1000000.

(** *** A rescheduled head

    [reconcileThreadHead] removes the old queue-index entry under the head's new time
    instead of the time it was indexed under. *)
Definition two_in_thread : Txn :=
  (enqueue (at_ 10) [task "a" (at_ 10) never [] "t" []; task "b" (at_ 20) never [] "t" []] NewCore).2.
Definition head_moved : Txn :=
  (enqueue (at_ 11) [task "a" (at_ 30) never [] "t" [OVERWRITE_ON_DUPLICATE_SCHEDULED_AT]]
     two_in_thread).2.

(** after the head of a thread is rescheduled behind its sibling, its old index
    entry stays: the next dequeue runs both tasks of the thread at once. *)
Theorem rescheduled_head_breaks_thread_order :
  ids (dequeue (at_ 40) head_moved).1 = Some [1; 2].
Proof. vm_compute. reflexivity. Qed.

(** The state and attempts of a task. *)
Definition shape (n : Z) (s : Txn) : option (TaskState * Z) :=
  (fun t => (Task.State t, Task.Attempts t)) <$> v_table (view s) !! task_key (TaskId.mk 1 1 n).

(** the old entry also hands the task out before its new time of 30, and again while it is
    running: a task without retries is started three times. *)
Definition taken_once : Txn := (dequeue (at_ 12) head_moved).2.
Definition taken_twice : Txn := (dequeue (at_ 13) taken_once).2.
Example rescheduled_head_runs_early_and_again :
  ids (dequeue (at_ 12) head_moved).1 = Some [1] /\ ids (dequeue (at_ 13) taken_once).1 = Some [1] /\
  shape 1 (dequeue (at_ 14) taken_twice).2 = Some (TASK_STATE_IN_PROGRESS, 3).
Proof. vm_compute. done. Qed.

(** and when the task has failed and its key was given to another one, it comes back from the
    dead: two live tasks hold the key. *)
Definition failed_and_replaced : Txn :=
  let dlq := DeadLetterQueueConfig.mk true 100 1000 in
  let s := (rpc (ReportStatus (ReportStatusRequest.mk
    [ReportStatusRequestEntry.mk (TaskId.mk 1 1 1) STATUS_FAILED 1 30] (Some dlq)) (at_ 13)) taken_once).2 in
  (enqueue (at_ 14) [task "a" (at_ 14) never [] "" []] s).2.
Example rescheduled_head_is_revived :
  shape 1 failed_and_replaced = Some (TASK_STATE_DEAD, 1) /\
  ids (dequeue (at_ 15) failed_and_replaced).1 = Some [1; 3] /\
  let s := (dequeue (at_ 15) failed_and_replaced).2 in
  shape 1 s = Some (TASK_STATE_IN_PROGRESS, 2) /\ shape 3 s = Some (TASK_STATE_IN_PROGRESS, 1).
Proof. vm_compute. done. Qed.

(** *** An expired head

    [dequeueTasksBeforeTime] deletes expired rows without detaching them. *)
Definition expired_head : Txn :=
  (dequeue (at_ 30)
     (enqueue (at_ 10) [task "a" (at_ 10) (at_ 20) [] "t" []] NewCore).2).2.

(** once a dequeue dropped an expired thread head, enqueueing into that thread
    fails with a not-found error. *)
Theorem expired_head_blocks_thread :
  (enqueue (at_ 31) [task "b" (at_ 31) never [] "t" []] expired_head).1 = Fail ErrNotFound.
Proof. vm_compute. reflexivity. Qed.

(** *** A promotion behind the cursor

    The scan cursor moves to [now] when it finds nothing; the promoted sibling is
    indexed under its older time. *)
Definition promoted_behind_cursor : Txn :=
  let s := (enqueue (at_ 10) [task "a" (at_ 10) never [] "t" []; task "b" (at_ 10) never [] "t" []] NewCore).2 in
  let s := (dequeue (at_ 11) s).2 in
  let s := (dequeue (at_ 12) s).2 in
  (report (at_ 13) 1 STATUS_SUCCEEDED 1 s).2.

(** the sibling promoted after its head completed is indexed before the scan cursor
    and is never handed out. *)
Theorem promoted_sibling_is_skipped :
  ids (dequeue (at_ 14) promoted_behind_cursor).1 = Some [] /\
  ids (dequeue (at_ 500000) (dequeue (at_ 14) promoted_behind_cursor).2).1 = Some [] /\
  Task.State <$> v_table (view promoted_behind_cursor) !! task_key (TaskId.mk 1 1 2)
    = Some TASK_STATE_ENQUEUED.
Proof. vm_compute. done. Qed.

(** *** A retry at the scheduled time

    A threaded task retried at exactly the time its thread row holds is taken for
    unchanged and not indexed again. *)
Definition retried_at_same_time : Txn :=
  let s := (enqueue (at_ 10) [task "a" (at_ 10) never [0; 0] "t" []] NewCore).2 in
  let s := (dequeue (at_ 10) s).2 in
  (report (at_ 10) 1 STATUS_FAILED 1 s).2.

(** a threaded task whose retry falls on its scheduled time is enqueued but in no
    index, and is never handed out again. *)
Theorem same_time_retry_is_lost :
  Task.State <$> v_table (view retried_at_same_time) !! task_key (TaskId.mk 1 1 1)
    = Some TASK_STATE_ENQUEUED /\
  v_queue (view retried_at_same_time) = ∅ /\
  ids (dequeue (at_ 500000) retried_at_same_time).1 = Some [].
Proof. vm_compute. done. Qed.

(** a rate limit with more tokens than nanoseconds per interval has a refill
    interval of zero, and the first [Dequeue] that has to refill panics. *)
Theorem fast_rate_limit_panics :
  let r := TokenBucketRateLimiting.mk (2 * time_Second) 1 INTERVAL_UNIT_SECONDS in
  let req := DequeueRequest.mk queue (Some (DequeuingSettings.mk 0 (Some r) false)) 10 None 30 in
  (rpc (Dequeue req (at_ 12))
     (rpc (Dequeue req (at_ 11)) (enqueue (at_ 10) [task "a" (at_ 10) never [] "" []] NewCore).2).2).1
  = Fail (ErrPanic DivideByZero).
Proof. vm_compute. reflexivity. Qed.
End Findings.
