(* ===== verification/Ids.v ===== *)
(** * External ids ([pkg/ids/ids.go])

    The ids clients see: a prefix that names the kind and the base-62 text of the
    big-endian bytes.  [encoding/base62] of [yellowstone-common] is not part of the
    repository: [Base62] names the two functions the code calls and [Base62Ok] what it
    relies on; [base62_ref] is a concrete codec with these laws. *)

From S2P Require Export Corepb.

(** ** [encoding/base62] *)

Definition is_alnum (c : Z) : bool :=
  ((48 <=? c) && (c <=? 57)) || ((65 <=? c) && (c <=? 90)) || ((97 <=? c) && (c <=? 122)).

Class Base62 : Type := {
  base62_Encode : bytes -> bytes;
  base62_DecodeString : bytes -> option bytes;
}.

(** Decoding inverts encoding, and the text of a non-empty slice is a non-empty string over
    the alphabet the ids' regular expressions admit. *)
Class Base62Ok (B : Base62) : Prop := {
  base62_roundtrip b : Forall is_byte b -> base62_DecodeString (base62_Encode b) = Some b;
  base62_alphabet b : Forall is_byte b -> b <> [] ->
    base62_Encode b <> [] /\ forallb is_alnum (base62_Encode b) = true;
  base62_bytes s b : base62_DecodeString s = Some b -> Forall is_byte b;
}.

(** ** The codec *)

(** [[0-9a-zA-Z]+] after a literal prefix, anchored at both ends. *)
Definition match_id (prefix s : bytes) : bool :=
  bool_decide (prefix `prefix_of` s) &&
  bool_decide (drop (length prefix) s <> []) && forallb is_alnum (drop (length prefix) s).

(** [strings.TrimPrefix] *)
Definition TrimPrefix (s prefix : bytes) : bytes :=
  if bool_decide (prefix `prefix_of` s) then drop (length prefix) s else s.

(** [b[lo:hi]] *)
Definition slice (lo hi : nat) (b : bytes) : bytes := take (hi - lo) (drop lo b).

Definition tsk_ : bytes := str "tsk_".
Definition que_ : bytes := str "que_".
Definition schdl_ : bytes := str "schdl_".

Definition taskIdRegex : bytes -> bool := match_id tsk_.
Definition queueIdRegex : bytes -> bool := match_id que_.
Definition scheduleIdRegex : bytes -> bool := match_id schdl_.

Section codec.
Context {B : Base62}.

(** [None] is [ErrInvalidId]. *)
Definition DecodeTaskId (s : bytes) : option Z :=
  if negb (taskIdRegex s) then None
  else match base62_DecodeString (TrimPrefix s tsk_) with
       | None => None
       | Some b =>
           if negb (length b =? 8)%nat then None
           else Some (BigEndian_Uint64 (slice 0 8 b))
       end.

Definition EncodeTaskId (id : Z) : bytes :=
  tsk_ ++ base62_Encode (BigEndian_PutUint64 id).

Definition DecodeQueueId (s : bytes) : option QueueId.t :=
  if negb (queueIdRegex s) then None
  else match base62_DecodeString (TrimPrefix s que_) with
       | None => None
       | Some b =>
           if negb (length b =? 8 + 8)%nat then None
           else Some (QueueId.mk (BigEndian_Uint64 (slice 0 8 b))
                                 (BigEndian_Uint64 (slice 8 (8 + 8) b)))
       end.

Definition EncodeQueueId (id : QueueId.t) : bytes :=
  que_ ++ base62_Encode (BigEndian_PutUint64 (QueueId.AccountId id) ++
                         BigEndian_PutUint64 (QueueId.QueueId id)).

Definition DecodeScheduleId (s : bytes) : option ScheduleId.t :=
  if negb (scheduleIdRegex s) then None
  else match base62_DecodeString (TrimPrefix s schdl_) with
       | None => None
       | Some b =>
           if negb (length b =? 8 + 8 + 8)%nat then None
           else Some (ScheduleId.mk (BigEndian_Uint64 (slice 0 8 b))
                                    (BigEndian_Uint64 (slice 8 (8 + 8) b))
                                    (BigEndian_Uint64 (slice (8 + 8) (8 + 8 + 8) b)))
       end.

Definition EncodeScheduleId (id : ScheduleId.t) : bytes :=
  schdl_ ++ base62_Encode (BigEndian_PutUint64 (ScheduleId.AccountId id) ++
                           BigEndian_PutUint64 (ScheduleId.QueueId id) ++
                           BigEndian_PutUint64 (ScheduleId.ScheduleId id)).

(** ** Lemmas *)

Lemma be_bytes_is_byte n z : Forall is_byte (be_bytes n z).
Proof.
  induction n as [|n IH]; cbn [be_bytes]; constructor; [|done].
  apply Z.mod_pos_bound. lia.
Qed.

Lemma be_value_bound l : Forall is_byte l -> 0 <= be_value l < 256 ^ Z.of_nat (length l).
Proof.
  induction l as [|b l IH]; intros Hl; [cbn; lia|].
  apply Forall_cons in Hl as [[Hb1 Hb2] Hl]. specialize (IH Hl).
  unfold be_value. cbn [fold_left length]. rewrite be_value_acc.
  rewrite Nat2Z.inj_succ, Z.pow_succ_r by lia. nia.
Qed.

Lemma is_u64_slice lo b :
  Forall is_byte b -> (lo + 8 <= length b)%nat -> is_u64 (BigEndian_Uint64 (slice lo (lo + 8) b)).
Proof.
  intros Hb Hl. unfold BigEndian_Uint64, slice.
  assert (length (take (lo + 8 - lo) (drop lo b)) = 8%nat) as El
    by (rewrite length_take, length_drop; lia).
  pose proof (be_value_bound _ (Forall_take _ (lo + 8 - lo) _ (Forall_drop _ lo _ Hb))) as Hv.
  rewrite El in Hv. exact Hv.
Qed.

Lemma TrimPrefix_app p s : TrimPrefix (p ++ s) p = s.
Proof. unfold TrimPrefix. rewrite bool_decide_true by by exists s. by rewrite drop_app_length. Qed.

Lemma match_id_app p s : match_id p (p ++ s) = bool_decide (s <> []) && forallb is_alnum s.
Proof. unfold match_id. rewrite bool_decide_true by by exists s. by rewrite drop_app_length. Qed.

Lemma match_id_prefix p s : match_id p s = true -> exists t, s = p ++ t.
Proof.
  unfold match_id. intros [[Hp _]%andb_true_iff _]%andb_true_iff.
  apply bool_decide_eq_true in Hp as [t ->]. by exists t.
Qed.

Context {BO : Base62Ok B}.

Lemma match_id_Encode p b : Forall is_byte b -> b <> [] -> match_id p (p ++ base62_Encode b) = true.
Proof.
  intros Hb Hn. destruct (base62_alphabet b Hb Hn) as [H1 H2].
  rewrite match_id_app, H2, bool_decide_true by done. done.
Qed.

Lemma slice_8_8 a b : slice 8 (8 + 8) (be64 a ++ b) = take 8 b.
Proof. unfold slice. by rewrite drop_app_length' by by rewrite length_be64. Qed.
Lemma slice_0_8 a b : slice 0 8 (be64 a ++ b) = be64 a.
Proof. unfold slice. rewrite Nat.sub_0_r, drop_0. by rewrite take_app_length' by by rewrite length_be64. Qed.
Lemma slice_16_8 a b c : slice (8 + 8) (8 + 8 + 8) (be64 a ++ be64 b ++ c) = take 8 c.
Proof.
  unfold slice. change (8 + 8 + 8 - (8 + 8))%nat with 8%nat.
  rewrite (app_assoc (be64 a)), drop_app_length'; [done|]. by rewrite length_app, !length_be64.
Qed.
Lemma take_be64 a : take 8 (be64 a) = be64 a.
Proof. by rewrite take_ge by by rewrite length_be64. Qed.
Lemma take_be64_app a b : take 8 (be64 a ++ b) = be64 a.
Proof. by rewrite take_app_length' by by rewrite length_be64. Qed.

Lemma Decode_Encode_TaskId n : is_u64 n -> DecodeTaskId (EncodeTaskId n) = Some n.
Proof.
  intros Hn. unfold DecodeTaskId, EncodeTaskId, taskIdRegex.
  change (BigEndian_PutUint64 n) with (be64 n). pose proof (be_bytes_is_byte 8 n : Forall is_byte (be64 n)) as Hb.
  rewrite match_id_Encode, TrimPrefix_app, base62_roundtrip, length_be64 by done. cbn [negb Nat.eqb].
  unfold slice. rewrite Nat.sub_0_r, drop_0, take_be64. unfold BigEndian_Uint64.
  by rewrite be64_value, u64_id.
Qed.

Lemma Decode_Encode_QueueId id :
  is_u64 (QueueId.AccountId id) -> is_u64 (QueueId.QueueId id) ->
  DecodeQueueId (EncodeQueueId id) = Some id.
Proof.
  destruct id as [a q]. cbn [QueueId.AccountId QueueId.QueueId]. intros Ha Hq.
  unfold DecodeQueueId, EncodeQueueId, queueIdRegex. cbn [QueueId.AccountId QueueId.QueueId].
  change BigEndian_PutUint64 with be64. assert (Forall is_byte (be64 a ++ be64 q)) as Hb
    by (apply Forall_app; split; apply be_bytes_is_byte).
  rewrite match_id_Encode, TrimPrefix_app, base62_roundtrip, length_app, !length_be64 by done.
  cbn [negb Nat.eqb Nat.add]. change 16%nat with (8 + 8)%nat.
  rewrite slice_0_8, slice_8_8, take_be64. unfold BigEndian_Uint64.
  by rewrite !be64_value, !u64_id.
Qed.

Lemma Decode_Encode_ScheduleId id :
  is_u64 (ScheduleId.AccountId id) -> is_u64 (ScheduleId.QueueId id) ->
  is_u64 (ScheduleId.ScheduleId id) -> DecodeScheduleId (EncodeScheduleId id) = Some id.
Proof.
  destruct id as [a q n]. cbn [ScheduleId.AccountId ScheduleId.QueueId ScheduleId.ScheduleId]. intros Ha Hq Hn.
  unfold DecodeScheduleId, EncodeScheduleId, scheduleIdRegex.
  cbn [ScheduleId.AccountId ScheduleId.QueueId ScheduleId.ScheduleId].
  change BigEndian_PutUint64 with be64.
  assert (Forall is_byte (be64 a ++ be64 q ++ be64 n)) as Hb
    by (apply Forall_app; split; [|apply Forall_app; split]; apply be_bytes_is_byte).
  rewrite match_id_Encode, TrimPrefix_app, base62_roundtrip, !length_app, !length_be64 by done.
  cbn [negb Nat.eqb Nat.add]. change 24%nat with (8 + 8 + 8)%nat. change 16%nat with (8 + 8)%nat.
  rewrite slice_0_8, slice_8_8, slice_16_8, take_be64_app, take_be64. unfold BigEndian_Uint64.
  by rewrite !be64_value, !u64_id.
Qed.

(** Whatever is decoded has the width of its Go type. *)
Lemma DecodeTaskId_width s n : DecodeTaskId s = Some n -> is_u64 n.
Proof.
  unfold DecodeTaskId. destruct (negb _); [done|].
  destruct (base62_DecodeString _) as [b|] eqn:E; [|done].
  destruct (Nat.eqb_spec (length b) 8) as [Hl|]; [|done]. intros [= <-].
  apply (is_u64_slice 0); [by eapply base62_bytes|]. lia.
Qed.

Lemma DecodeTaskId_prefix s n : DecodeTaskId s = Some n -> tsk_ `prefix_of` s.
Proof.
  unfold DecodeTaskId, taskIdRegex. destruct (match_id tsk_ s) eqn:E; [|done].
  intros _. destruct (match_id_prefix _ _ E) as [t ->]. by exists t.
Qed.
End codec.

(** ** A codec with these laws: two alphanumeric digits per byte *)

Definition nibble_char (n : Z) : Z := if n <? 10 then 48 + n else 87 + n.
Definition char_nibble (c : Z) : option Z :=
  if (48 <=? c) && (c <=? 57) then Some (c - 48)
  else if (97 <=? c) && (c <=? 102) then Some (c - 87) else None.

Fixpoint nibbles_Encode (b : bytes) : bytes :=
  match b with
  | [] => []
  | x :: b => nibble_char (x / 16) :: nibble_char (x mod 16) :: nibbles_Encode b
  end.

Fixpoint nibbles_Decode (s : bytes) : option bytes :=
  match s with
  | [] => Some []
  | [_] => None
  | c :: d :: s =>
      match char_nibble c, char_nibble d, nibbles_Decode s with
      | Some h, Some l, Some b => Some (16 * h + l :: b)
      | _, _, _ => None
      end
  end.

Definition base62_ref : Base62 := {|
  base62_Encode := nibbles_Encode;
  base62_DecodeString := nibbles_Decode;
|}.

Lemma char_nibble_char n : 0 <= n < 16 -> char_nibble (nibble_char n) = Some n.
Proof.
  intros Hn. unfold char_nibble, nibble_char. destruct (Z.ltb_spec n 10).
  - replace ((48 <=? 48 + n) && (48 + n <=? 57)) with true by lia. f_equal. lia.
  - replace ((48 <=? 87 + n) && (87 + n <=? 57)) with false by lia.
    replace ((97 <=? 87 + n) && (87 + n <=? 102)) with true by lia. f_equal. lia.
Qed.

Lemma nibble_char_alnum n : 0 <= n < 16 -> is_alnum (nibble_char n) = true.
Proof. intros Hn. unfold is_alnum, nibble_char. destruct (Z.ltb_spec n 10); lia. Qed.

Lemma char_nibble_range c n : char_nibble c = Some n -> 0 <= n < 16.
Proof.
  unfold char_nibble. destruct ((48 <=? c) && (c <=? 57)) eqn:E1; [intros [= <-]; lia|].
  destruct ((97 <=? c) && (c <=? 102)) eqn:E2; [intros [= <-]; lia|done].
Qed.

Lemma is_byte_nibbles x : is_byte x -> 0 <= x / 16 < 16 /\ 0 <= x mod 16 < 16.
Proof.
  intros [H1 H2]. split; [|by apply Z.mod_pos_bound].
  split; [by apply Z.div_pos|]. by apply Z.div_lt_upper_bound.
Qed.

Lemma nibbles_roundtrip b : Forall is_byte b -> nibbles_Decode (nibbles_Encode b) = Some b.
Proof.
  induction 1 as [|x b Hx _ IH]; [done|]. cbn [nibbles_Encode nibbles_Decode].
  destruct (is_byte_nibbles x Hx). rewrite !char_nibble_char, IH by done.
  rewrite <-Z.div_mod by done. done.
Qed.

Lemma nibbles_alphabet b :
  Forall is_byte b -> forallb is_alnum (nibbles_Encode b) = true.
Proof.
  induction 1 as [|x b Hx _ IH]; [done|]. cbn [nibbles_Encode forallb].
  destruct (is_byte_nibbles x Hx). by rewrite !nibble_char_alnum, IH.
Qed.

Lemma nibbles_bytes n : forall s b, (length s <= n)%nat -> nibbles_Decode s = Some b -> Forall is_byte b.
Proof.
  induction n as [|n IH]; intros [|c [|d s]] b Hl; cbn [nibbles_Decode length] in *; try lia; try done;
    try by intros [= <-].
  destruct (char_nibble c) eqn:Ec, (char_nibble d) eqn:Ed, (nibbles_Decode s) eqn:Es; try done.
  intros [= <-]. apply char_nibble_range in Ec, Ed. constructor; [unfold is_byte; lia|].
  apply (IH s); [lia|done].
Qed.

#[export] Instance base62_ref_ok : Base62Ok base62_ref.
Proof.
  split.
  - apply nibbles_roundtrip.
  - intros b Hb Hn. split; [by destruct b|by apply nibbles_alphabet].
  - intros s b. by apply (nibbles_bytes (length s)).
Qed.
