(* ===== verification/GoStd.v ===== *)
(** * Pieces of Go and of its standard library

    [error] is a nil-able message.  [e ?> k] is the statement
    [if err := e; err != nil { return err }] followed by [k]; [reject b msg] is
    [if b { return msg }].  Then what the command line and the load generator use of
    [strings], [fmt], [time], [math/rand] and of [float64] arithmetic. *)

From stdpp Require Export pretty.
From Stdlib Require Import SpecFloat.
From S2P Require Export Bytes.

(** ** Errors *)

Definition error : Type := option string.

Definition andThen (e k : error) : error :=
  match e with Some msg => Some msg | None => k end.
Notation "e ?> k" := (andThen e k) (at level 100, right associativity) : moab_scope.

Definition reject (b : bool) (msg : string) : error := if b then Some msg else None.

(** [fmt.Errorf(prefix + "%w", err)] *)
Definition wrap (prefix : string) (e : error) : error := (fun msg => prefix +:+ msg) <$> e.

(** [for i, x := range l { if err := f(i, x); err != nil { return err } }] *)
Fixpoint range_check_from {A} (i : nat) (l : list A) (f : nat -> A -> error) : error :=
  match l with
  | [] => None
  | x :: l => f i x ?> range_check_from (S i) l f
  end.
Definition range_check {A} (l : list A) (f : nat -> A -> error) : error := range_check_from 0 l f.

Lemma andThen_None e k : (e ?> k) = None <-> e = None /\ k = None.
Proof. destruct e; naive_solver. Qed.

Lemma reject_None b msg : reject b msg = None <-> b = false.
Proof. destruct b; naive_solver. Qed.

Lemma wrap_None prefix e : wrap prefix e = None <-> e = None.
Proof. destruct e; naive_solver. Qed.

Lemma range_check_from_None {A} (l : list A) f i :
  range_check_from i l f = None <-> forall j x, l !! j = Some x -> f (i + j)%nat x = None.
Proof.
  revert i; induction l as [|x l IH]; intros i; cbn [range_check_from].
  - naive_solver.
  - rewrite andThen_None, IH. split.
    + intros [H1 H2] [|j] y Hj; cbn in Hj; [simplify_eq; by rewrite Nat.add_0_r|].
      rewrite Nat.add_succ_r. by apply H2.
    + intros Hall. split; [by rewrite <-(Nat.add_0_r i); apply (Hall 0%nat)|].
      intros j y Hj. specialize (Hall (S j) y Hj). by rewrite Nat.add_succ_r in Hall.
Qed.

Lemma range_check_None {A} (l : list A) f :
  range_check l f = None <-> forall i x, l !! i = Some x -> f i x = None.
Proof. apply range_check_from_None. Qed.

(** When the verdict does not depend on the position. *)
Lemma range_check_Forall {A} (l : list A) f (P : A -> Prop) :
  (forall i x, f i x = None <-> P x) -> range_check l f = None <-> Forall P l.
Proof.
  intros Hf. rewrite range_check_None, Forall_lookup.
  split; intros Hall i x Hx.
  - apply (Hf i x), Hall, Hx.
  - apply Hf. by apply (Hall i x).
Qed.

#[export] Hint Rewrite andThen_None reject_None wrap_None : go_errors.

(** [len(s)] *)
Definition len {A} (l : list A) : Z := Z.of_nat (length l).

(** Splits "no error" into the conditions of its checks. *)
Ltac no_error :=
  repeat (progress autorewrite with go_errors in * || rewrite !orb_false_iff in * ||
          match goal with H : _ /\ _ |- _ => destruct H end).

(** ** strings *)

(** The UTF-8 encodings of the runes [unicode.IsSpace] accepts. *)
Definition spaces : list bytes :=
  ((fun c => [c]) <$> [9; 10; 11; 12; 13; 32]) ++
  [[194; 133]; [194; 160]; [225; 154; 128]] ++
  ((fun c => [226; 128; c]) <$> [128; 129; 130; 131; 132; 133; 134; 135; 136; 137; 138; 168; 169; 175]) ++
  [[226; 129; 159]; [227; 128; 128]].

(** [l] without the prefix [p]. *)
Fixpoint cut_prefix (p l : bytes) : option bytes :=
  match p, l with
  | [], _ => Some l
  | x :: p, y :: l => if x =? y then cut_prefix p l else None
  | _ :: _, [] => None
  end.

Definition cut_any (ps : list bytes) (l : bytes) : option bytes :=
  head (omap (fun p => cut_prefix p l) ps).

(** Every round cuts a byte or stops. *)
Fixpoint trim_left (ps : list bytes) (fuel : nat) (l : bytes) : bytes :=
  match fuel with
  | O => l
  | S fuel => match cut_any ps l with Some l => trim_left ps fuel l | None => l end
  end.

Definition TrimLeftSpace (s : bytes) : bytes := trim_left spaces (length s) s.
Definition TrimRightSpace (s : bytes) : bytes :=
  reverse (trim_left (reverse <$> spaces) (length s) (reverse s)).
Definition TrimSpace (s : bytes) : bytes := TrimRightSpace (TrimLeftSpace s).

(** [strings.Split] at a separator of one byte. *)
Fixpoint Split (s : bytes) (sep : Z) : list bytes :=
  match s with
  | [] => [[]]
  | c :: s =>
      if c =? sep then [] :: Split s sep
      else match Split s sep with [] => [[c]] | w :: ws => (c :: w) :: ws end
  end.

(** [strings.ToLower].  The letters A to Z have a lower case among the ASCII letters, and of
    the other runes only U+0130 (i) and U+212A (k); runes whose lower case is not ASCII are
    left as they are, which no comparison with an ASCII word can tell. *)
Fixpoint ToLower (s : bytes) : bytes :=
  match s with
  | 196 :: 176 :: s => 105 :: ToLower s
  | 226 :: 132 :: 170 :: s => 107 :: ToLower s
  | c :: s => (if (65 <=? c) && (c <=? 90) then c + 32 else c) :: ToLower s
  | [] => []
  end.

(** ** fmt *)

Fixpoint zeros (n : nat) : string := match n with O => "" | S n => "0" +:+ zeros n end.

(** [%0<width>d] *)
Definition pad (width : nat) (z : Z) : string :=
  let digits := pretty (Z.abs_N z) in
  let sign := if z <? 0 then "-" else "" in
  sign +:+ zeros (width - String.length sign - String.length digits) +:+ digits.

(** ** float64 *)

Definition float64 : Type := spec_float.
Definition float64_of (z : Z) : float64 := binary_normalize 53 1024 z 0 false.
Definition fadd : float64 -> float64 -> float64 := SFadd 53 1024.
Definition fmul : float64 -> float64 -> float64 := SFmul 53 1024.
Definition fdiv : float64 -> float64 -> float64 := SFdiv 53 1024.

(** Truncation towards zero. *)
Definition ftrunc (x : float64) : option Z :=
  match x with
  | S754_zero _ => Some 0
  | S754_finite s m e =>
      let a := if 0 <=? e then Zpos m * 2 ^ e else Zpos m / 2 ^ (- e) in
      Some (if s then - a else a)
  | _ => None
  end.

(** [int64(x)] and [uint64(x)]; a value out of range gives what amd64 gives. *)
Definition int64_of (x : float64) : Z :=
  match ftrunc x with
  | Some z => if bool_decide (is_i64 z) then z else - two63
  | None => - two63
  end.
Definition uint64_of (x : float64) : Z :=
  match ftrunc x with
  | Some z => if bool_decide (is_u64 z) then z else two63
  | None => two63
  end.

(** [%.1f]: the tenth nearest to the exact value, ties to even. *)
Definition show_tenths (x : float64) : string :=
  let tenths (m : positive) (e : Z) : Z :=
    if 0 <=? e then 10 * Zpos m * 2 ^ e
    else
      let d := 2 ^ (- e) in
      let q := 10 * Zpos m / d in
      match (2 * (10 * Zpos m mod d) ?= d) with
      | Lt => q
      | Gt => q + 1
      | Eq => if Z.even q then q else q + 1
      end in
  let show (s : bool) (t : Z) :=
    (if s then "-" else "") +:+ pretty (t / 10) +:+ "." +:+ pretty (t mod 10) in
  match x with
  | S754_zero s => show s 0
  | S754_finite s m e => show s (tenths m e)
  | S754_infinity s => if s then "-Inf" else "+Inf"
  | S754_nan => "NaN"
  end.

(** ** time *)

Definition time_Millisecond : Z := 1000000.

(** [t.Sub(u)] saturates. *)
Definition time_Sub (t u : Z) : Z := Z.max (- two63) (Z.min (two63 - 1) (t - u)).

(** [Duration.Seconds] *)
Definition Duration_Seconds (d : Z) : float64 :=
  fadd (float64_of (Z.quot d time_Second))
    (fdiv (float64_of (Z.rem d time_Second)) (float64_of 1000000000)).

(** [fmtFrac]: the decimals of [v], [prec] of them, without the trailing zeros and the
    point when none is left. *)
Fixpoint frac (v : Z) (prec : nat) (print : bool) (acc : string) : string :=
  match prec with
  | O => if print then "." +:+ acc else acc
  | S prec =>
      let digit := v mod 10 in
      let print := print || negb (digit =? 0) in
      frac (v / 10) prec print (if print then pretty digit +:+ acc else acc)
  end.

(** [Duration.String] *)
Definition Duration_String (d : Z) : string :=
  let u := Z.abs d in
  let sign := if d <? 0 then "-" else "" in
  if u =? 0 then "0s"
  else if u <? 1000 then sign +:+ pretty u +:+ "ns"
  else if u <? time_Millisecond then sign +:+ pretty (u / 1000) +:+ frac u 3 false "" +:+ "µs"
  else if u <? time_Second then sign +:+ pretty (u / time_Millisecond) +:+ frac u 6 false "" +:+ "ms"
  else
    let s := u / time_Second in
    let m := s / 60 in
    let h := m / 60 in
    sign +:+
    (if 0 <? m then (if 0 <? h then pretty h +:+ "h" else "") +:+ pretty (m mod 60) +:+ "m" else "") +:+
    pretty (s mod 60) +:+ frac u 9 false "" +:+ "s".

(** ** math/rand

    A generator is the sequence of its draws; a proof about all sequences covers every
    seed. *)
Record Rng := mkRng { rng_draws : nat -> Z; rng_next : nat }.

(** [rng.Intn(n)] *)
Definition Intn (n : Z) : M Rng Z := fun rng =>
  if n <=? 0 then Fail (ErrPanic NonPositiveArgument)
  else Ok (rng_draws rng (rng_next rng) mod n, mkRng (rng_draws rng) (S (rng_next rng))).

Lemma wp_Intn n rng (Q : Z -> Rng -> Prop) :
  0 < n -> (forall k rng', 0 <= k < n -> Q k rng') -> wp (Intn n) rng Q.
Proof.
  intros Hn HQ. unfold wp, Intn. destruct (n <=? 0) eqn:E; [lia|]. apply HQ, Z.mod_pos_bound. lia.
Qed.

(** ** Trimming removes white space only, and all of it *)

Lemma cut_prefix_Some p l r : cut_prefix p l = Some r <-> l = p ++ r.
Proof.
  revert l; induction p as [|x p IH]; intros l; cbn; [naive_solver|].
  destruct l as [|y l]; [naive_solver|]. destruct (x =? y) eqn:E.
  - apply Z.eqb_eq in E as ->. rewrite IH. naive_solver.
  - apply Z.eqb_neq in E. naive_solver.
Qed.

Lemma cut_any_Some ps l r : cut_any ps l = Some r -> exists p, p ∈ ps /\ l = p ++ r.
Proof.
  unfold cut_any. intros Hr%head_Some_elem_of. apply list_elem_of_omap in Hr as (p & Hp & E).
  exists p. split; [done|]. by apply cut_prefix_Some.
Qed.

Lemma cut_any_None ps l : cut_any ps l = None -> forall p r, p ∈ ps -> l <> p ++ r.
Proof.
  unfold cut_any. intros HN p r Hp ->. apply head_None in HN.
  assert (r ∈ omap (fun p' => cut_prefix p' (p ++ r)) ps) as Hin.
  { apply list_elem_of_omap. exists p. split; [done|]. by apply cut_prefix_Some. }
  rewrite HN in Hin. by apply elem_of_nil in Hin.
Qed.

Lemma trim_left_spec ps fuel l :
  (length l <= fuel)%nat -> Forall (fun p => p <> []) ps ->
  exists cs, l = cs ++ trim_left ps fuel l /\
    (exists ws, Forall (fun w => w ∈ ps) ws /\ cs = concat ws) /\
    forall p r, p ∈ ps -> trim_left ps fuel l <> p ++ r.
Proof.
  intros Hl Hps. revert l Hl; induction fuel as [|fuel IH]; intros l Hl; cbn [trim_left].
  - destruct l; [|cbn in Hl; lia]. exists []. split; [done|]. split; [by exists []|].
    intros p r Hp E. rewrite Forall_forall in Hps. apply (Hps p Hp). by destruct p.
  - destruct (cut_any ps l) as [l'|] eqn:E.
    + apply cut_any_Some in E as (p & Hp & ->). rewrite length_app in Hl.
      assert (p <> []) as Hne by (rewrite Forall_forall in Hps; by apply Hps).
      destruct (IH l') as (cs & E & (ws & Hws & ->) & Hn); [destruct p; cbn in *; [done|lia]|].
      exists (p ++ concat ws). split; [by rewrite E at 1; rewrite app_assoc|]. split; [|done].
      exists (p :: ws). split; [by constructor|done].
    + exists []. split; [done|]. split; [by exists []|]. by apply cut_any_None.
Qed.
