(* ===== verification/CoreValidators.v ===== *)
(** * Validation of core requests ([pkg/corepb/validators.go])

    The [Validate] method of every core request.  The messages of [Wire] are the requests as
    they arrive: an id is a pointer that may be nil.  [X_of] reads the request a core handler
    sees once the pointers it dereferences are set. *)

From S2P Require Export GoStd QueuesCore TasksCore.

(** [gronx.New().IsValid] *)
Class Gronx : Type := { IsValid : bytes -> bool }.

(** ** Requests with their id pointers *)
Module Wire.
Module CreateQueueRequest.
Record t := mk {
  QueueId : option QueueId.t;
  Name : bytes;
  Description : bytes;
  KeepaliveTimeoutInSeconds : Z;
  RetryStrategy : option RetryStrategy.t;
  DequeuingSettings : option DequeuingSettings.t;
  DeadLetterQueueConfig : option DeadLetterQueueConfig.t;
  ExpiresInSeconds : Z;
  MaxNumberOfQueues : Z;
}.
End CreateQueueRequest.
Module DeleteTasksRequest.
Record t := mk { QueueId : option QueueId.t; TaskIds : list Z }.
End DeleteTasksRequest.
Module DequeueRequest.
Record t := mk {
  QueueId : option QueueId.t;
  DequeuingSettings : option DequeuingSettings.t;
  DequeueLimit : Z;
  DeadLetterQueueConfig : option DeadLetterQueueConfig.t;
  KeepaliveTimeoutInSeconds : Z;
}.
End DequeueRequest.
Module EnqueueRequest.
Record t := mk { QueueId : option QueueId.t; Entries : list EnqueueRequestEntry.t }.
End EnqueueRequest.
(** [GetQueueRequest], [GetStatisticsRequest] and [PurgeQueueRequest] hold just the id. *)
Module QueueIdRequest.
Record t := mk { QueueId : option QueueId.t }.
End QueueIdRequest.
Module GetTaskRequest.
Record t := mk { TaskId : option TaskId.t }.
End GetTaskRequest.
Module ListSchedulesRequest.
Record t := mk {
  QueueId : option QueueId.t; PaginationToken : option CorePaginationToken.t; Limit : Z }.
End ListSchedulesRequest.
Module ListTasksRequest.
Record t := mk {
  QueueId : option QueueId.t;
  State : TaskState;
  PaginationToken : option CorePaginationToken.t;
  Limit : Z;
}.
End ListTasksRequest.
Module ReportSchedulesStatusRequest.
Record t := mk { ScheduleId : option ScheduleId.t; NextScheduledAt : Z; LastEnqueuedFor : Z }.
End ReportSchedulesStatusRequest.
Module ReportStatusRequestEntry.
Record t := mk {
  TaskId : option TaskId.t; Status : Status; Attempt : Z; KeepaliveTimeoutInSeconds : Z }.
End ReportStatusRequestEntry.
Module ReportStatusRequest.
Record t := mk {
  QueueId : option QueueId.t;
  Entries : list ReportStatusRequestEntry.t;
  DeadLetterQueueConfig : option DeadLetterQueueConfig.t;
}.
End ReportStatusRequest.
Module RestartTasksRequest.
Record t := mk { QueueId : option QueueId.t; Entries : list RestartTasksRequestEntry.t }.
End RestartTasksRequest.
End Wire.

(** ** Bounds *)

Definition maxKeepaliveTimeoutInSeconds : Z := 60.
Definition minKeepaliveTimeoutInSeconds : Z := 5.
Definition maxExpiresTimeoutInSeconds : Z := 14 * 86400.
Definition minExpiresTimeoutInSeconds : Z := 60.
Definition maxDLQRetentionPeriod : Z := 14 * 86400.
Definition maxPayloadSize : Z := 64 * 1024.
Definition maxNumberOfRetryIntervalsInSeconds : Z := 21.
Definition maxRetryIntervalInSeconds : Z := 60 * 15.
Definition maxNumberOfTaskIds : Z := 50.
Definition maxNumberOfEnqueueRequestEntries : Z := 50.
Definition maxNumberOfReportStatusEntries : Z := 50.

(** ** Field validators *)

Definition validateQueueId (id : option QueueId.t) : error :=
  match id with
  | None => Some "QueueId must be set"
  | Some id => reject (QueueId.QueueId id =? 0) "QueueId.QueueId must be positive"
  end.

Definition validateTaskId (id : option TaskId.t) : error :=
  match id with
  | None => Some "TaskId must be set"
  | Some id =>
      reject (TaskId.QueueId id =? 0) "TaskId.QueueId must be positive" ?>
      reject (TaskId.TaskId id =? 0) "TaskId.TaskId must be positive"
  end.

Definition validateScheduleId (id : option ScheduleId.t) : error :=
  match id with
  | None => Some "ScheduleId must be set"
  | Some id =>
      reject (ScheduleId.QueueId id =? 0) "ScheduleId.QueueId must be positive" ?>
      reject (ScheduleId.ScheduleId id =? 0) "ScheduleId.ScheduleId must be positive"
  end.

Definition validateExpiresInSeconds (value : Z) : error :=
  reject ((value <? minExpiresTimeoutInSeconds) || (value >? maxExpiresTimeoutInSeconds))
    ("ExpiresInSeconds must be between " +:+ pretty minExpiresTimeoutInSeconds +:+ " and " +:+
     pretty maxExpiresTimeoutInSeconds +:+ " seconds").

Definition validateKeepaliveTimeoutInSeconds (value : Z) : error :=
  reject ((value <? minKeepaliveTimeoutInSeconds) || (value >? maxKeepaliveTimeoutInSeconds))
    ("KeepaliveTimeoutInSeconds must be between " +:+ pretty minKeepaliveTimeoutInSeconds +:+
     " and " +:+ pretty maxKeepaliveTimeoutInSeconds +:+ " seconds").

Definition validateRetryStrategy (value : option RetryStrategy.t) : error :=
  match value with
  | None => None
  | Some value =>
      let intervals := RetryStrategy.RetryIntervalsInSeconds value in
      reject (len intervals >? maxNumberOfRetryIntervalsInSeconds)
        ("RetryStrategy.RetryIntervalsInSeconds exceeds max length (" +:+
         pretty maxNumberOfRetryIntervalsInSeconds +:+ ")") ?>
      range_check intervals (fun i interval =>
        reject ((interval <? 0) || (interval >? maxRetryIntervalInSeconds))
          ("RetryStrategy.RetryIntervalsInSeconds[" +:+ pretty i +:+
           "] must be between 0 and " +:+ pretty maxRetryIntervalInSeconds +:+ " seconds"))
  end.

(** The units [getRefillInterval] knows. *)
Definition known_unit (u : IntervalUnit) : bool :=
  match u with
  | INTERVAL_UNIT_SECONDS | INTERVAL_UNIT_MINUTES | INTERVAL_UNIT_HOURS => true
  | _ => false
  end.

Definition validateDequeuingSettings (value : option DequeuingSettings.t) : error :=
  match value with
  | None => None
  | Some value =>
      reject (DequeuingSettings.MaxInProgressTasks value <? 0)
        "DequeuingSettings.MaxInProgressTasks must be non-negative" ?>
      match DequeuingSettings.RateLimiting value with
      | None => None
      | Some r =>
          reject (TokenBucketRateLimiting.Interval r <? 0)
            "DequeuingSettings.RateLimiting.Interval must be non-negative" ?>
          reject (TokenBucketRateLimiting.MaxTokens r <? 0)
            "DequeuingSettings.RateLimiting.MaxTokens must be non-negative" ?>
          reject (negb (known_unit (TokenBucketRateLimiting.Unit r)))
            "DequeuingSettings.RateLimiting.IntervalUnit: unrecognized value"
      end
  end.

Definition validateDeadLetterQueueConfig (value : option DeadLetterQueueConfig.t) : error :=
  match value with
  | None => None
  | Some value =>
      let retention := DeadLetterQueueConfig.RetentionPeriodInSeconds value in
      reject (DeadLetterQueueConfig.MaxSize value <? 0)
        "DeadLetterQueueConfig.MaxSize must be non-negative" ?>
      reject ((retention <? minExpiresTimeoutInSeconds) || (retention >? maxDLQRetentionPeriod))
        ("DeadLetterQueueConfig.RetentionPeriodInSeconds must be between " +:+
         pretty minExpiresTimeoutInSeconds +:+ " and " +:+ pretty maxDLQRetentionPeriod +:+
         " seconds")
  end.

(** ** [Validate] *)

Definition CreateQueueRequest_Validate (r : Wire.CreateQueueRequest.t) : error :=
  validateQueueId (Wire.CreateQueueRequest.QueueId r) ?>
  validateExpiresInSeconds (Wire.CreateQueueRequest.ExpiresInSeconds r) ?>
  validateKeepaliveTimeoutInSeconds (Wire.CreateQueueRequest.KeepaliveTimeoutInSeconds r) ?>
  validateRetryStrategy (Wire.CreateQueueRequest.RetryStrategy r) ?>
  validateDequeuingSettings (Wire.CreateQueueRequest.DequeuingSettings r) ?>
  validateDeadLetterQueueConfig (Wire.CreateQueueRequest.DeadLetterQueueConfig r) ?>
  None.

Definition UpdateQueueRequest_Validate (r : UpdateQueueRequest.t) : error :=
  validateExpiresInSeconds (UpdateQueueRequest.ExpiresInSeconds r) ?>
  validateKeepaliveTimeoutInSeconds (UpdateQueueRequest.KeepaliveTimeoutInSeconds r) ?>
  validateRetryStrategy (UpdateQueueRequest.RetryStrategy r) ?>
  validateDequeuingSettings (UpdateQueueRequest.DequeuingSettings r) ?>
  validateDeadLetterQueueConfig (UpdateQueueRequest.DeadLetterQueueConfig r) ?>
  None.

Definition DeleteQueueRequest_Validate (_ : QueueNameRequest.t) : error := None.
Definition GetQueueByNameRequest_Validate (_ : QueueNameRequest.t) : error := None.
Definition GetQueueRequest_Validate (r : Wire.QueueIdRequest.t) : error :=
  validateQueueId (Wire.QueueIdRequest.QueueId r).
Definition ListQueuesRequest_Validate (_ : ListQueuesRequest.t) : error := None.
Definition SwapQueueIdRequest_Validate (_ : SwapQueueIdRequest.t) : error := None.
Definition DeleteScheduleRequest_Validate (_ : ScheduleNameRequest.t) : error := None.
Definition GetScheduleRequest_Validate (_ : ScheduleNameRequest.t) : error := None.
Definition DequeSchedulesRequest_Validate (_ : Z) : error := None.
Definition RunQueuesGarbageCollectionRequest_Validate
  (_ : RunQueuesGarbageCollectionRequest.t) : error := None.
Definition RunTasksGarbageCollectionRequest_Validate
  (_ : RunTasksGarbageCollectionRequest.t) : error := None.
Definition RunPurgeQueueGarbageCollectionRequest_Validate
  (_ : RunPurgeQueueGarbageCollectionRequest.t) : error := None.

Definition ListSchedulesRequest_Validate (r : Wire.ListSchedulesRequest.t) : error :=
  validateQueueId (Wire.ListSchedulesRequest.QueueId r).

Definition ReportSchedulesStatusRequest_Validate (r : Wire.ReportSchedulesStatusRequest.t)
    : error :=
  validateScheduleId (Wire.ReportSchedulesStatusRequest.ScheduleId r) ?>
  reject (Wire.ReportSchedulesStatusRequest.NextScheduledAt r <? 0)
    "NextScheduledAt must be non-negative" ?>
  reject (Wire.ReportSchedulesStatusRequest.LastEnqueuedFor r <? 0)
    "LastEnqueuedFor must be non-negative".

(** The quoted value ([%q]) is left out of the two messages that show one. *)
Section cron_fields.
Context {G : Gronx} {C : CronLib}.

Definition CreateScheduleRequest_Validate (r : CreateScheduleRequest.t) : error :=
  reject (negb (IsValid (CreateScheduleRequest.Cron r))) "invalid cron expression" ?>
  reject (bool_decide (LoadLocation (CreateScheduleRequest.Timezone r) = None))
    "invalid timezone" ?>
  (if negb (CreateScheduleRequest.ExpiresInSeconds r =? 0)
   then validateExpiresInSeconds (CreateScheduleRequest.ExpiresInSeconds r) else None) ?>
  validateRetryStrategy (CreateScheduleRequest.RetryStrategy r) ?>
  reject (len (CreateScheduleRequest.Payload r) >? maxPayloadSize)
    ("Payload exceeds max size (" +:+ pretty maxPayloadSize +:+ " bytes)").

Definition UpdateScheduleRequest_Validate (r : UpdateScheduleRequest.t) : error :=
  reject (negb (IsValid (UpdateScheduleRequest.Cron r))) "invalid cron expression" ?>
  reject (bool_decide (LoadLocation (UpdateScheduleRequest.Timezone r) = None))
    "invalid timezone" ?>
  (if negb (UpdateScheduleRequest.ExpiresInSeconds r =? 0)
   then validateExpiresInSeconds (UpdateScheduleRequest.ExpiresInSeconds r) else None) ?>
  validateRetryStrategy (UpdateScheduleRequest.RetryStrategy r) ?>
  reject (len (UpdateScheduleRequest.Payload r) >? maxPayloadSize)
    ("Payload exceeds max size (" +:+ pretty maxPayloadSize +:+ " bytes)").
End cron_fields.

Definition DeleteTasksRequest_Validate (r : Wire.DeleteTasksRequest.t) : error :=
  validateQueueId (Wire.DeleteTasksRequest.QueueId r) ?>
  reject (len (Wire.DeleteTasksRequest.TaskIds r) >? maxNumberOfTaskIds)
    ("TaskIds exceeds max length (" +:+ pretty maxNumberOfTaskIds +:+ ")").

Definition DequeueRequest_Validate (r : Wire.DequeueRequest.t) : error :=
  validateQueueId (Wire.DequeueRequest.QueueId r) ?>
  validateDequeuingSettings (Wire.DequeueRequest.DequeuingSettings r) ?>
  validateDeadLetterQueueConfig (Wire.DequeueRequest.DeadLetterQueueConfig r) ?>
  (if negb (Wire.DequeueRequest.KeepaliveTimeoutInSeconds r =? 0)
   then validateKeepaliveTimeoutInSeconds (Wire.DequeueRequest.KeepaliveTimeoutInSeconds r)
   else None).

(** [Entries[i].] before the message of an entry. *)
Definition in_entry (i : nat) : string := "Entries[" +:+ pretty i +:+ "].".

Definition EnqueueRequest_Validate (r : Wire.EnqueueRequest.t) : error :=
  validateQueueId (Wire.EnqueueRequest.QueueId r) ?>
  reject (len (Wire.EnqueueRequest.Entries r) >? maxNumberOfEnqueueRequestEntries)
    ("Entries exceeds max number of entries (" +:+ pretty maxNumberOfEnqueueRequestEntries +:+
     ")") ?>
  range_check (Wire.EnqueueRequest.Entries r) (fun i e =>
    reject (EnqueueRequestEntry.ScheduledAt e <? 0)
      (in_entry i +:+ "ScheduledAt must be non-negative") ?>
    reject (EnqueueRequestEntry.ExpiresAt e <? 0)
      (in_entry i +:+ "ExpiresAt must be non-negative") ?>
    wrap (in_entry i) (validateRetryStrategy (EnqueueRequestEntry.RetryStrategy e)) ?>
    reject (len (EnqueueRequestEntry.Payload e) >? maxPayloadSize)
      (in_entry i +:+ "Payload exceeds max payload size (" +:+ pretty maxPayloadSize +:+
       " bytes)")).

Definition GetStatisticsRequest_Validate (r : Wire.QueueIdRequest.t) : error :=
  validateQueueId (Wire.QueueIdRequest.QueueId r).
Definition PurgeQueueRequest_Validate (r : Wire.QueueIdRequest.t) : error :=
  validateQueueId (Wire.QueueIdRequest.QueueId r).
Definition GetTaskRequest_Validate (r : Wire.GetTaskRequest.t) : error :=
  validateTaskId (Wire.GetTaskRequest.TaskId r).
Definition ListTasksRequest_Validate (r : Wire.ListTasksRequest.t) : error :=
  validateQueueId (Wire.ListTasksRequest.QueueId r).

Definition ReportStatusRequest_Validate (r : Wire.ReportStatusRequest.t) : error :=
  reject (len (Wire.ReportStatusRequest.Entries r) >? maxNumberOfReportStatusEntries)
    ("Entries exceeds max number of entries (" +:+ pretty maxNumberOfReportStatusEntries +:+
     ")") ?>
  range_check (Wire.ReportStatusRequest.Entries r) (fun i e =>
    wrap (in_entry i) (validateTaskId (Wire.ReportStatusRequestEntry.TaskId e)) ?>
    (if negb (Wire.ReportStatusRequestEntry.KeepaliveTimeoutInSeconds e =? 0)
     then wrap (in_entry i) (validateKeepaliveTimeoutInSeconds
                               (Wire.ReportStatusRequestEntry.KeepaliveTimeoutInSeconds e))
     else None)) ?>
  validateDeadLetterQueueConfig (Wire.ReportStatusRequest.DeadLetterQueueConfig r) ?>
  None.

Definition RestartTasksRequest_Validate (r : Wire.RestartTasksRequest.t) : error :=
  validateQueueId (Wire.RestartTasksRequest.QueueId r) ?>
  reject (len (Wire.RestartTasksRequest.Entries r) >? maxNumberOfTaskIds)
    ("Entries exceeds max length (" +:+ pretty maxNumberOfTaskIds +:+ ")") ?>
  range_check (Wire.RestartTasksRequest.Entries r) (fun i e =>
    reject (RestartTasksRequestEntry.ScheduledAt e <? 0)
      (in_entry i +:+ "ScheduledAt must be non-negative") ?>
    reject (RestartTasksRequestEntry.ExpiresAt e <? 0)
      (in_entry i +:+ "ExpiresAt must be non-negative")).

(** ** What a handler reads *)

Definition CreateQueueRequest_of (r : Wire.CreateQueueRequest.t) : option CreateQueueRequest.t :=
  id ← Wire.CreateQueueRequest.QueueId r;
  Some (CreateQueueRequest.mk id (Wire.CreateQueueRequest.Name r)
    (Wire.CreateQueueRequest.Description r) (Wire.CreateQueueRequest.KeepaliveTimeoutInSeconds r)
    (Wire.CreateQueueRequest.RetryStrategy r) (Wire.CreateQueueRequest.DequeuingSettings r)
    (Wire.CreateQueueRequest.DeadLetterQueueConfig r) (Wire.CreateQueueRequest.ExpiresInSeconds r)
    (Wire.CreateQueueRequest.MaxNumberOfQueues r)).
Definition DeleteTasksRequest_of (r : Wire.DeleteTasksRequest.t) : option DeleteTasksRequest.t :=
  id ← Wire.DeleteTasksRequest.QueueId r;
  Some (DeleteTasksRequest.mk id (Wire.DeleteTasksRequest.TaskIds r)).
Definition DequeueRequest_of (r : Wire.DequeueRequest.t) : option DequeueRequest.t :=
  id ← Wire.DequeueRequest.QueueId r;
  Some (DequeueRequest.mk id (Wire.DequeueRequest.DequeuingSettings r)
    (Wire.DequeueRequest.DequeueLimit r) (Wire.DequeueRequest.DeadLetterQueueConfig r)
    (Wire.DequeueRequest.KeepaliveTimeoutInSeconds r)).
Definition EnqueueRequest_of (r : Wire.EnqueueRequest.t) : option EnqueueRequest.t :=
  id ← Wire.EnqueueRequest.QueueId r;
  Some (EnqueueRequest.mk id (Wire.EnqueueRequest.Entries r)).
Definition ListSchedulesRequest_of (r : Wire.ListSchedulesRequest.t) : option ListSchedulesRequest.t :=
  id ← Wire.ListSchedulesRequest.QueueId r;
  Some (ListSchedulesRequest.mk id (Wire.ListSchedulesRequest.PaginationToken r)
    (Wire.ListSchedulesRequest.Limit r)).
Definition ListTasksRequest_of (r : Wire.ListTasksRequest.t) : option ListTasksRequest.t :=
  id ← Wire.ListTasksRequest.QueueId r;
  Some (ListTasksRequest.mk id (Wire.ListTasksRequest.State r)
    (Wire.ListTasksRequest.PaginationToken r) (Wire.ListTasksRequest.Limit r)).
Definition ReportSchedulesStatusRequest_of (r : Wire.ReportSchedulesStatusRequest.t)
    : option ReportSchedulesStatusRequest.t :=
  id ← Wire.ReportSchedulesStatusRequest.ScheduleId r;
  Some (ReportSchedulesStatusRequest.mk id (Wire.ReportSchedulesStatusRequest.NextScheduledAt r)
    (Wire.ReportSchedulesStatusRequest.LastEnqueuedFor r)).
Definition ReportStatusRequestEntry_of (e : Wire.ReportStatusRequestEntry.t)
    : option ReportStatusRequestEntry.t :=
  id ← Wire.ReportStatusRequestEntry.TaskId e;
  Some (ReportStatusRequestEntry.mk id (Wire.ReportStatusRequestEntry.Status e)
    (Wire.ReportStatusRequestEntry.Attempt e)
    (Wire.ReportStatusRequestEntry.KeepaliveTimeoutInSeconds e)).
Definition ReportStatusRequest_of (r : Wire.ReportStatusRequest.t) : option ReportStatusRequest.t :=
  entries ← mapM ReportStatusRequestEntry_of (Wire.ReportStatusRequest.Entries r);
  Some (ReportStatusRequest.mk entries (Wire.ReportStatusRequest.DeadLetterQueueConfig r)).
Definition RestartTasksRequest_of (r : Wire.RestartTasksRequest.t) : option RestartTasksRequest.t :=
  id ← Wire.RestartTasksRequest.QueueId r;
  Some (RestartTasksRequest.mk id (Wire.RestartTasksRequest.Entries r)).
