(* ===== verification/Sharding.v ===== *)
(** * Sharding ([pkg/sharding], [pkg/corepb/sharding.go])

    Which shard a request goes to.  [utils.GetShardKey] and the key space of
    [monstera/cluster] are not part of the repository: [Keyspace] names them.  A
    [ShardKey] method that reads a field of a nil id panics ([None]). *)

From S2P Require Export CoreValidators.

Class Keyspace : Type := {
  GetShardKey : bytes -> Z;
  KeyspacePerApplication : Z;
  (** [fmt.Sprintf("%s_%x_%x", app, ShortenBounds(lower, upper))] *)
  ShardId : bytes -> Z -> Z -> bytes;
}.

(** Keys are below the size of the key space, "2^32", and the shards of a division of the key
    space into [n] equal ranges have distinct ids. *)
Class KeyspaceOk (K : Keyspace) : Prop := {
  KeyspacePerApplication_val : KeyspacePerApplication = 2 ^ 32;
  GetShardKey_range b : 0 <= GetShardKey b < KeyspacePerApplication;
  ShardId_distinct app size n i j :
    size * n = KeyspacePerApplication -> 0 <= i < n -> 0 <= j < n ->
    ShardId app (i * size) ((i + 1) * size - 1) = ShardId app (j * size) ((j + 1) * size - 1) -> i = j;
}.

Section sharding.
Context {U : Utils} {K : Keyspace}.

Definition ByAccount (accountId : Z) : Z := GetShardKey (ConcatBytes [AUint64 accountId]).
Definition ByAccountAndQueue (accountId queueId : Z) : Z :=
  GetShardKey (ConcatBytes [AUint64 accountId; AUint64 queueId]).

Definition by_queue (id : option QueueId.t) : option Z :=
  (fun id => ByAccountAndQueue (QueueId.AccountId id) (QueueId.QueueId id)) <$> id.
Definition by_account_of (id : option QueueId.t) : option Z :=
  (fun id => ByAccount (QueueId.AccountId id)) <$> id.

Definition CreateQueueRequest_ShardKey (r : Wire.CreateQueueRequest.t) : option Z :=
  by_account_of (Wire.CreateQueueRequest.QueueId r).
Definition CreateScheduleRequest_ShardKey (r : CreateScheduleRequest.t) : option Z :=
  Some (ByAccount (CreateScheduleRequest.AccountId r)).
Definition DeleteQueueRequest_ShardKey (r : QueueNameRequest.t) : option Z :=
  Some (ByAccount (QueueNameRequest.AccountId r)).
Definition DeleteScheduleRequest_ShardKey (r : ScheduleNameRequest.t) : option Z :=
  Some (ByAccount (ScheduleNameRequest.AccountId r)).
Definition DeleteTasksRequest_ShardKey (r : Wire.DeleteTasksRequest.t) : option Z :=
  by_queue (Wire.DeleteTasksRequest.QueueId r).
Definition DequeueRequest_ShardKey (r : Wire.DequeueRequest.t) : option Z :=
  by_queue (Wire.DequeueRequest.QueueId r).
Definition EnqueueRequest_ShardKey (r : Wire.EnqueueRequest.t) : option Z :=
  by_queue (Wire.EnqueueRequest.QueueId r).
Definition GetQueueRequest_ShardKey (r : Wire.QueueIdRequest.t) : option Z :=
  by_account_of (Wire.QueueIdRequest.QueueId r).
Definition GetQueueByNameRequest_ShardKey (r : QueueNameRequest.t) : option Z :=
  Some (ByAccount (QueueNameRequest.AccountId r)).
Definition GetScheduleRequest_ShardKey (r : ScheduleNameRequest.t) : option Z :=
  Some (ByAccount (ScheduleNameRequest.AccountId r)).
Definition GetStatisticsRequest_ShardKey (r : Wire.QueueIdRequest.t) : option Z :=
  by_queue (Wire.QueueIdRequest.QueueId r).
Definition GetTaskRequest_ShardKey (r : Wire.GetTaskRequest.t) : option Z :=
  (fun id => ByAccountAndQueue (TaskId.AccountId id) (TaskId.QueueId id)) <$>
    Wire.GetTaskRequest.TaskId r.
Definition ListQueuesRequest_ShardKey (r : ListQueuesRequest.t) : option Z :=
  Some (ByAccount (ListQueuesRequest.AccountId r)).
Definition ListSchedulesRequest_ShardKey (r : Wire.ListSchedulesRequest.t) : option Z :=
  by_account_of (Wire.ListSchedulesRequest.QueueId r).
Definition ListTasksRequest_ShardKey (r : Wire.ListTasksRequest.t) : option Z :=
  by_queue (Wire.ListTasksRequest.QueueId r).
Definition PurgeQueueRequest_ShardKey (r : Wire.QueueIdRequest.t) : option Z :=
  by_queue (Wire.QueueIdRequest.QueueId r).
Definition ReportStatusRequest_ShardKey (r : Wire.ReportStatusRequest.t) : option Z :=
  by_queue (Wire.ReportStatusRequest.QueueId r).
Definition RestartTasksRequest_ShardKey (r : Wire.RestartTasksRequest.t) : option Z :=
  by_queue (Wire.RestartTasksRequest.QueueId r).
Definition SwapQueueIdRequest_ShardKey (r : SwapQueueIdRequest.t) : option Z :=
  Some (ByAccount (SwapQueueIdRequest.AccountId r)).
Definition UpdateQueueRequest_ShardKey (r : UpdateQueueRequest.t) : option Z :=
  Some (ByAccount (UpdateQueueRequest.AccountId r)).
Definition UpdateScheduleRequest_ShardKey (r : UpdateScheduleRequest.t) : option Z :=
  Some (ByAccount (UpdateScheduleRequest.AccountId r)).
End sharding.

(** A key space with these laws: the low 32 bits of the key. *)
Definition keyspace_ref : Keyspace := {|
  GetShardKey b := be_value b mod 2 ^ 32;
  KeyspacePerApplication := 2 ^ 32;
  ShardId app l u := be64 l ++ be64 u ++ app;
|}.

#[export] Instance keyspace_ref_ok : KeyspaceOk keyspace_ref.
Proof.
  split; cbn [GetShardKey KeyspacePerApplication ShardId keyspace_ref].
  - done.
  - intros b. by apply Z.mod_pos_bound.
  - intros app size n i j Hn Hi Hj E.
    apply app_eq_same_length in E as [E _]; [|by rewrite !length_be64].
    assert (2 ^ 32 < two64) by done. assert (0 < size) by nia.
    apply be64_inj_u64 in E; [nia|unfold is_u64; nia..].
Qed.
