(* ===== verification/Stub.v ===== *)
(** * The single-node client ([pkg/coreapis/api.go], [pkg/coreapis/stubs.go])

    [MoabClientApi] is the interface the gateway and the workers call.
    [MoabNonclusteredStub] implements it in one process: it keeps the cores of every
    shard, finds the one that owns a key by binary search, and runs the call under the
    shard's lock.  [World] is what a handler of the gateway runs on: the stub, the clock
    ([time.Now]), the random numbers ([rand.Uint64]) and a client-side state [L] (the
    gateway's cache). *)

From S2P Require Export Sharding.

(** ** Errors a client sees *)

Inductive ErrorCode : Set :=
  | INVALID | OK | NotFound | AlreadyExists | ResourceExhausted | InvalidRequest | IDCollision.

#[export] Instance ErrorCode_eq_dec : EqDecision ErrorCode.
Proof. solve_decision. Defined.

(** The application errors of the two cores ([*mrpc.Error]), and that of a request that is
    not valid. *)
Inductive mrpcError : Set :=
  | QueuesError (e : QAppError)
  | TasksError (e : AppError)
  | ValidationError (msg : string).

Definition queues_Code (e : QAppError) : ErrorCode :=
  match e with
  | queueNotFoundError _ | queueIdNotFoundError _
  | scheduleNotFoundError _ _ | scheduleIdNotFoundError _ => NotFound
  | queueNameExistsError _ | scheduleNameExistsError _ _ => AlreadyExists
  | maxQueuesReachedError _ | maxSchedulesReachedError _ => ResourceExhausted
  | queueIdCollisionError _ | scheduleIdCollisionError _ => IDCollision
  | versionMismatchError _ _ _ | scheduleVersionMismatchError _ _ _ _ => InvalidRequest
  end.

Definition tasks_Code (e : AppError) : ErrorCode :=
  match e with
  | taskNotFoundError _ | queueIdPurgedError _ _ => NotFound
  end.

Definition Code (e : mrpcError) : ErrorCode :=
  match e with
  | QueuesError e => queues_Code e
  | TasksError e => tasks_Code e
  | ValidationError _ => InvalidRequest
  end.

Inductive CallError : Set :=
  | AppErr (e : mrpcError)
  | CoreErr (e : Err)
  | NoShardFound
  | ApplicationNotFound
  | ClientErr (msg : bytes)   (** an error of the Monstera client *)
  | MarshalErr | UnmarshalErr.

Definition CallResult (A : Type) : Type := CallError + A.

(** ** The interface *)

Class MoabClientApi (W : Type) : Type := {
  api_GetQueue : Wire.QueueIdRequest.t -> M W (CallResult Queue.t);
  api_GetQueueByName : QueueNameRequest.t -> M W (CallResult Queue.t);
  api_ListQueues : ListQueuesRequest.t -> M W (CallResult listQueuesResult);
  api_GetSchedule : ScheduleNameRequest.t -> M W (CallResult Schedule.t);
  api_DequeSchedules : Z -> bytes -> M W (CallResult (list (Schedule.t * Queue.t)));
  api_ListSchedules : Wire.ListSchedulesRequest.t -> M W (CallResult listSchedulesResult);
  api_CreateQueue : Wire.CreateQueueRequest.t -> M W (CallResult Queue.t);
  api_UpdateQueue : UpdateQueueRequest.t -> M W (CallResult Queue.t);
  api_DeleteQueue : QueueNameRequest.t -> M W (CallResult QueueId.t);
  api_CreateSchedule : CreateScheduleRequest.t -> M W (CallResult Schedule.t);
  api_UpdateSchedule : UpdateScheduleRequest.t -> M W (CallResult Schedule.t);
  api_DeleteSchedule : ScheduleNameRequest.t -> M W (CallResult unit);
  api_ReportSchedulesStatus :
    Wire.ReportSchedulesStatusRequest.t -> bytes -> M W (CallResult unit);
  api_RunQueuesGarbageCollection :
    RunQueuesGarbageCollectionRequest.t -> bytes -> M W (CallResult unit);
  api_SwapQueueId : SwapQueueIdRequest.t -> M W (CallResult (Queue.t * QueueId.t));
  (** A call made with [mrpc.WithResponseMeta] also returns [meta.Now]. *)
  api_GetTask : Wire.GetTaskRequest.t -> M W (CallResult (Task.t * Z));
  api_GetStatistics : Wire.QueueIdRequest.t -> M W (CallResult (GetStatisticsResponse.t * Z));
  api_ListTasks : Wire.ListTasksRequest.t -> M W (CallResult (listTasksResult * Z));
  api_Enqueue : Wire.EnqueueRequest.t -> M W (CallResult (list Task.t * Z));
  api_Dequeue : Wire.DequeueRequest.t -> M W (CallResult (list Task.t * Z));
  api_ReportStatus :
    Wire.ReportStatusRequest.t -> M W (CallResult (list ReportStatusResponseEntry.t));
  api_DeleteTasks : Wire.DeleteTasksRequest.t -> M W (CallResult unit);
  api_RestartTasks :
    Wire.RestartTasksRequest.t -> M W (CallResult (list RestartTasksResponseEntry.t * Z));
  api_PurgeQueue : Wire.QueueIdRequest.t -> M W (CallResult unit);
  api_RunTasksGarbageCollection :
    RunTasksGarbageCollectionRequest.t -> bytes -> M W (CallResult unit);
  api_RunPurgeQueueGarbageCollection :
    RunPurgeQueueGarbageCollectionRequest.t -> bytes -> M W (CallResult unit);
  api_ListShards : bytes -> M W (CallResult (list bytes));
}.

(** ** [sort.Search] *)

(** The loop of the library's binary search; [j - i] bounds its iterations. *)
Fixpoint search_loop (fuel : nat) (f : nat -> bool) (i j : nat) : nat :=
  match fuel with
  | O => i
  | S fuel =>
      if (i <? j)%nat then
        let h := Nat.div2 (i + j) in
        if negb (f h) then search_loop fuel f (S h) j else search_loop fuel f i h
      else i
  end.

Definition sort_Search (n : nat) (f : nat -> bool) : nat := search_loop n f 0 n.

(** For a monotone predicate it returns the first index where it holds. *)
Lemma search_loop_spec fuel f i j :
  (i <= j)%nat -> (j - i <= fuel)%nat ->
  (forall a b, (a <= b)%nat -> f a = true -> f b = true) ->
  let k := search_loop fuel f i j in
  (i <= k <= j)%nat /\ (forall x, (i <= x < k)%nat -> f x = false) /\
  ((k < j)%nat -> f k = true).
Proof.
  intros Hij Hf Hm. revert i j Hij Hf.
  induction fuel as [|fuel IH]; intros i j Hij Hf; cbn [search_loop].
  - repeat split; try lia; intros; lia.
  - destruct (Nat.ltb_spec i j) as [Hlt|Hge]; [|repeat split; try lia; intros; lia].
    pose proof (Nat.div2_div (i + j)) as Eh. set (h := Nat.div2 (i + j)) in *.
    pose proof (Nat.div_mod (i + j) 2 ltac:(lia)). pose proof (Nat.mod_upper_bound (i + j) 2 ltac:(lia)).
    assert (i <= h < j)%nat as Hh by lia.
    destruct (f h) eqn:Efh; cbn [negb].
    + destruct (IH i h) as (H1 & H2 & H3); [lia..|]. repeat split; try lia; [done|].
      intros Hk. destruct (decide (search_loop fuel f i h = h)) as [->|]; [done|]. apply H3. lia.
    + destruct (IH (S h) j) as (H1 & H2 & H3); [lia..|]. repeat split; try lia; [|done].
      intros x Hx. destruct (decide (S h <= x)%nat); [apply H2; lia|].
      destruct (f x) eqn:Ex; [|done]. rewrite (Hm x h) in Efh; [done|lia|done].
Qed.

(** ** The stub *)

Record Adapter (S : Type) := mkAdapter {
  core : S;
  shard_id : bytes;
  lowerBound : Z;
  upperBound : Z;
}.
Arguments mkAdapter {S} _ _ _ _.
Arguments core {S} _.
Arguments shard_id {S} _.
Arguments lowerBound {S} _.
Arguments upperBound {S} _.

Definition set_core {S} (s : S) (ad : Adapter S) : Adapter S :=
  mkAdapter s (shard_id ad) (lowerBound ad) (upperBound ad).

(** The adapter's position. *)
Definition findAdapter {S} (adapters : list (Adapter S)) (shardKey : Z) : option nat :=
  let i := sort_Search (length adapters) (fun i =>
    match adapters !! i with
    | Some ad => lowerBound ad >? shardKey
    | None => true
    end) in
  if (0 <? i)%nat then
    match adapters !! (i - 1)%nat with
    | Some candidate =>
        if shardKey <=? upperBound candidate then Some (i - 1)%nat else None
    | None => None
    end
  else None.

Definition findById {S} (adapters : list (Adapter S)) (shardId : bytes) : option nat :=
  fst <$> list_find (fun ad => shard_id ad = shardId) adapters.

(** [for i := 0; i < shardsPerApp; i++ { ... }] *)
Definition new_adapters {S} {K : Keyspace} (app : bytes) (core0 : S) (shardsPerApp : Z) : list (Adapter S) :=
  let shardSize := KeyspacePerApplication / shardsPerApp in
  (fun i : nat =>
     let lower := Z.of_nat i * shardSize in
     let upper := (Z.of_nat i + 1) * shardSize - 1 in
     mkAdapter core0 (ShardId app lower upper) lower upper) <$> seq 0 (Z.to_nat shardsPerApp).

Definition MoabQueues : bytes := str "MoabQueues".
Definition MoabTasks : bytes := str "MoabTasks".

Section stub.
Context {U : Utils} {H : Honey} {C : CronLib} {K : Keyspace}.
Context {L : Type}.

Record World := mkWorld {
  moabQueuesCores : list (Adapter QTxn);
  moabTasksCores : list (Adapter Txn);
  clock : nat -> Z;
  clock_reads : nat;
  rand : nat -> Z;
  rand_draws : nat;
  local : L;
}.

Definition set_queues q w :=
  mkWorld q (moabTasksCores w) (clock w) (clock_reads w) (rand w) (rand_draws w) (local w).
Definition set_tasks t w :=
  mkWorld (moabQueuesCores w) t (clock w) (clock_reads w) (rand w) (rand_draws w) (local w).
Definition set_local l w :=
  mkWorld (moabQueuesCores w) (moabTasksCores w) (clock w) (clock_reads w) (rand w)
    (rand_draws w) l.

(** The stub of a new process; [None] is the panic on a bad number of shards. *)
Definition NewMoabNonclusteredStub (shardsPerApp : Z) (clock rand : nat -> Z) (local : L)
    : option World :=
  if (shardsPerApp <? 1) || (shardsPerApp >? KeyspacePerApplication) ||
     negb (Z.land shardsPerApp (shardsPerApp - 1) =? 0)
  then None
  else Some (mkWorld (new_adapters MoabQueues QNewCore shardsPerApp)
               (new_adapters MoabTasks NewCore shardsPerApp) clock 0 rand 0 local).

#[local] Notation T := (M World).

(** [time.Now().UnixNano()] *)
Definition time_Now : T Z := fun w =>
  Ok (clock w (clock_reads w),
      mkWorld (moabQueuesCores w) (moabTasksCores w) (clock w) (S (clock_reads w))
        (rand w) (rand_draws w) (local w)).

(** [rand.Uint64()] *)
Definition rand_Uint64 : T Z := fun w =>
  Ok (rand w (rand_draws w),
      mkWorld (moabQueuesCores w) (moabTasksCores w) (clock w) (clock_reads w)
        (rand w) (S (rand_draws w)) (local w)).

(** A call to a core under its shard's lock.  An application error is the client's error
    ([nilifyIfEmpty]: no core error has the codes [INVALID] or [OK]); a Go error of the core
    is passed on; a panic takes the process down. *)
Definition run_core {S A B} (adapters : list (Adapter S)) (i : option nat) (m : M S A)
    (answer : A -> CallResult B) : Res (CallResult B * list (Adapter S)) :=
  match i with
  | None => Ok (inl NoShardFound, adapters)
  | Some i =>
      match adapters !! i with
      | None => Ok (inl NoShardFound, adapters)
      | Some ad =>
          match rpc m (core ad) with
          | (Ok a, s) => Ok (answer a, <[i := set_core s ad]> adapters)
          | (Fail (ErrPanic p), _) => Fail (ErrPanic p)
          | (Fail e, _) => Ok (inl (CoreErr e), adapters)
          end
      end
  end.

Definition queues_answer {A} (r : QResponse A) : CallResult A :=
  match r with QError e => inl (AppErr (QueuesError e)) | QPayload a => inr a end.
Definition tasks_answer {A} (r : Response A) : CallResult A :=
  match r with ApplicationError e => inl (AppErr (TasksError e)) | Payload a => inr a end.

Definition at_queues {A} (i : list (Adapter QTxn) -> option nat) (m : M QTxn (QResponse A))
    : T (CallResult A) := fun w =>
  match run_core (moabQueuesCores w) (i (moabQueuesCores w)) m queues_answer with
  | Ok (r, q) => Ok (r, set_queues q w)
  | Fail e => Fail e
  end.

Definition at_tasks {A} (i : list (Adapter Txn) -> option nat) (m : M Txn (Response A))
    : T (CallResult A) := fun w =>
  match run_core (moabTasksCores w) (i (moabTasksCores w)) m tasks_answer with
  | Ok (r, t) => Ok (r, set_tasks t w)
  | Fail e => Fail e
  end.

(** A sharded method: read the clock, find the shard of the key, call its core. *)
Definition on_queues {A} (key : option Z) (m : Z -> M QTxn (QResponse A)) : T (CallResult A) :=
  now ← time_Now;
  shardKey ← deref key;
  at_queues (fun l => findAdapter l shardKey) (m now).
Definition on_tasks {A} (key : option Z) (m : Z -> M Txn (Response A)) : T (CallResult A) :=
  now ← time_Now;
  shardKey ← deref key;
  at_tasks (fun l => findAdapter l shardKey) (m now).

(** The same with [settings.ResponseMeta]. *)
Definition on_tasks_meta {A} (key : option Z) (m : Z -> M Txn (Response A))
    : T (CallResult (A * Z)) :=
  now ← time_Now;
  shardKey ← deref key;
  r ← at_tasks (fun l => findAdapter l shardKey) (m now);
  mret (match r with inl e => inl e | inr a => inr (a, now) end).

(** *** [MoabNonclusteredStub] *)

Definition Stub_GetQueue (req : Wire.QueueIdRequest.t) : T (CallResult Queue.t) :=
  on_queues (GetQueueRequest_ShardKey req) (fun _ =>
    id ← deref (Wire.QueueIdRequest.QueueId req); GetQueue id).
Definition Stub_GetQueueByName (req : QueueNameRequest.t) : T (CallResult Queue.t) :=
  on_queues (GetQueueByNameRequest_ShardKey req) (fun _ => GetQueueByName req).
Definition Stub_ListQueues (req : ListQueuesRequest.t) : T (CallResult listQueuesResult) :=
  on_queues (ListQueuesRequest_ShardKey req) (fun _ => ListQueues req).
Definition Stub_GetSchedule (req : ScheduleNameRequest.t) : T (CallResult Schedule.t) :=
  on_queues (GetScheduleRequest_ShardKey req) (fun _ => GetSchedule req).
Definition Stub_ListSchedules (req : Wire.ListSchedulesRequest.t)
    : T (CallResult listSchedulesResult) :=
  on_queues (ListSchedulesRequest_ShardKey req) (fun _ =>
    req ← deref (ListSchedulesRequest_of req); ListSchedules req).
Definition Stub_CreateQueue (req : Wire.CreateQueueRequest.t) : T (CallResult Queue.t) :=
  on_queues (CreateQueueRequest_ShardKey req) (fun now =>
    req ← deref (CreateQueueRequest_of req); CreateQueue req now).
Definition Stub_UpdateQueue (req : UpdateQueueRequest.t) : T (CallResult Queue.t) :=
  on_queues (UpdateQueueRequest_ShardKey req) (fun now => UpdateQueue req now).
Definition Stub_DeleteQueue (req : QueueNameRequest.t) : T (CallResult QueueId.t) :=
  on_queues (DeleteQueueRequest_ShardKey req) (fun _ => DeleteQueue req).
Definition Stub_CreateSchedule (req : CreateScheduleRequest.t) : T (CallResult Schedule.t) :=
  on_queues (CreateScheduleRequest_ShardKey req) (fun now => CreateSchedule req now).
Definition Stub_UpdateSchedule (req : UpdateScheduleRequest.t) : T (CallResult Schedule.t) :=
  on_queues (UpdateScheduleRequest_ShardKey req) (fun now => UpdateSchedule req now).
Definition Stub_DeleteSchedule (req : ScheduleNameRequest.t) : T (CallResult unit) :=
  on_queues (DeleteScheduleRequest_ShardKey req) (fun _ => DeleteSchedule req).
Definition Stub_SwapQueueId (req : SwapQueueIdRequest.t) : T (CallResult (Queue.t * QueueId.t)) :=
  on_queues (SwapQueueIdRequest_ShardKey req) (fun now => SwapQueueId req now).

(** Unsharded methods name their shard. *)
Definition Stub_DequeSchedules (dueBefore : Z) (shardId : bytes)
    : T (CallResult (list (Schedule.t * Queue.t))) :=
  time_Now ;; at_queues (fun l => findById l shardId) (DequeSchedules dueBefore).
Definition Stub_ReportSchedulesStatus (req : Wire.ReportSchedulesStatusRequest.t)
    (shardId : bytes) : T (CallResult unit) :=
  now ← time_Now;
  at_queues (fun l => findById l shardId)
    (req ← deref (ReportSchedulesStatusRequest_of req); ReportSchedulesStatus req now).
Definition Stub_RunQueuesGarbageCollection (req : RunQueuesGarbageCollectionRequest.t)
    (shardId : bytes) : T (CallResult unit) :=
  time_Now ;; at_queues (fun l => findById l shardId) (RunQueuesGarbageCollection req).

Definition Stub_GetTask (req : Wire.GetTaskRequest.t) : T (CallResult (Task.t * Z)) :=
  on_tasks_meta (GetTaskRequest_ShardKey req) (fun now =>
    id ← deref (Wire.GetTaskRequest.TaskId req); GetTask id now).
Definition Stub_GetStatistics (req : Wire.QueueIdRequest.t)
    : T (CallResult (GetStatisticsResponse.t * Z)) :=
  on_tasks_meta (GetStatisticsRequest_ShardKey req) (fun now =>
    id ← deref (Wire.QueueIdRequest.QueueId req); GetStatistics id now).
Definition Stub_ListTasks (req : Wire.ListTasksRequest.t) : T (CallResult (listTasksResult * Z)) :=
  on_tasks_meta (ListTasksRequest_ShardKey req) (fun _ =>
    req ← deref (ListTasksRequest_of req); ListTasks req).
Definition Stub_Enqueue (req : Wire.EnqueueRequest.t) : T (CallResult (list Task.t * Z)) :=
  on_tasks_meta (EnqueueRequest_ShardKey req) (fun now =>
    req ← deref (EnqueueRequest_of req); Enqueue req now).
Definition Stub_Dequeue (req : Wire.DequeueRequest.t) : T (CallResult (list Task.t * Z)) :=
  on_tasks_meta (DequeueRequest_ShardKey req) (fun now =>
    req ← deref (DequeueRequest_of req); Dequeue req now).
Definition Stub_ReportStatus (req : Wire.ReportStatusRequest.t)
    : T (CallResult (list ReportStatusResponseEntry.t)) :=
  on_tasks (ReportStatusRequest_ShardKey req) (fun now =>
    req ← deref (ReportStatusRequest_of req); ReportStatus req now).
Definition Stub_DeleteTasks (req : Wire.DeleteTasksRequest.t) : T (CallResult unit) :=
  on_tasks (DeleteTasksRequest_ShardKey req) (fun _ =>
    req ← deref (DeleteTasksRequest_of req); DeleteTasks req).
Definition Stub_RestartTasks (req : Wire.RestartTasksRequest.t)
    : T (CallResult (list RestartTasksResponseEntry.t * Z)) :=
  on_tasks_meta (RestartTasksRequest_ShardKey req) (fun now =>
    req ← deref (RestartTasksRequest_of req); RestartTasks req now).
Definition Stub_PurgeQueue (req : Wire.QueueIdRequest.t) : T (CallResult unit) :=
  on_tasks (PurgeQueueRequest_ShardKey req) (fun _ =>
    id ← deref (Wire.QueueIdRequest.QueueId req); PurgeQueue id).
Definition Stub_RunTasksGarbageCollection (req : RunTasksGarbageCollectionRequest.t)
    (shardId : bytes) : T (CallResult unit) :=
  now ← time_Now; at_tasks (fun l => findById l shardId) (RunTasksGarbageCollection req now).
Definition Stub_RunPurgeQueueGarbageCollection (req : RunPurgeQueueGarbageCollectionRequest.t)
    (shardId : bytes) : T (CallResult unit) :=
  time_Now ;; at_tasks (fun l => findById l shardId) (RunPurgeQueueGarbageCollection req).

Definition Stub_ListShards (applicationName : bytes) : T (CallResult (list bytes)) :=
  if decide (applicationName = MoabQueues) then gets (fun w => inr (shard_id <$> moabQueuesCores w))
  else if decide (applicationName = MoabTasks) then gets (fun w => inr (shard_id <$> moabTasksCores w))
  else mret (inl ApplicationNotFound).

#[export] Instance MoabNonclusteredStub : MoabClientApi World := {|
  api_GetQueue := Stub_GetQueue;
  api_GetQueueByName := Stub_GetQueueByName;
  api_ListQueues := Stub_ListQueues;
  api_GetSchedule := Stub_GetSchedule;
  api_DequeSchedules := Stub_DequeSchedules;
  api_ListSchedules := Stub_ListSchedules;
  api_CreateQueue := Stub_CreateQueue;
  api_UpdateQueue := Stub_UpdateQueue;
  api_DeleteQueue := Stub_DeleteQueue;
  api_CreateSchedule := Stub_CreateSchedule;
  api_UpdateSchedule := Stub_UpdateSchedule;
  api_DeleteSchedule := Stub_DeleteSchedule;
  api_ReportSchedulesStatus := Stub_ReportSchedulesStatus;
  api_RunQueuesGarbageCollection := Stub_RunQueuesGarbageCollection;
  api_SwapQueueId := Stub_SwapQueueId;
  api_GetTask := Stub_GetTask;
  api_GetStatistics := Stub_GetStatistics;
  api_ListTasks := Stub_ListTasks;
  api_Enqueue := Stub_Enqueue;
  api_Dequeue := Stub_Dequeue;
  api_ReportStatus := Stub_ReportStatus;
  api_DeleteTasks := Stub_DeleteTasks;
  api_RestartTasks := Stub_RestartTasks;
  api_PurgeQueue := Stub_PurgeQueue;
  api_RunTasksGarbageCollection := Stub_RunTasksGarbageCollection;
  api_RunPurgeQueueGarbageCollection := Stub_RunPurgeQueueGarbageCollection;
  api_ListShards := Stub_ListShards;
|}.
End stub.
