(* ===== verification/CommandLine.v ===== *)
(** * The command line ([cmd/moab/commands])

    [discovery.go] and [logging.go]: how the flags choose the way nodes are discovered and
    the level of the logs.  The node discoveries are constructors of Monstera, of which only
    the arguments matter here.

    [node.go], [single_node.go], [gateway.go] and [worker.go]: the four commands as programs of
    a small language of process steps, the main goroutine and the one that waits for a signal,
    interleaved with signals and with the calls that can fail.  What a started part does while
    it runs is the subject of the other files; here only the order in which the parts are
    started and stopped matters. *)

From S2P Require Export GoStd Stub.

(** ** discovery.go *)

Record monsteraNodesFlags := mkNodesFlags { static : bytes; file : bytes; srv : bytes }.

Inductive NodeDiscovery : Type :=
  | NewStaticNodeDiscovery (addrs : list bytes)
  | NewFileNodeDiscovery (path : bytes)
  | NewSRVNodeDiscovery (name : bytes).

Definition is_set (s : bytes) : bool := bool_decide (s <> []).

(** The loop over the parts of [f.static]. *)
Definition static_addrs (s : bytes) : list bytes :=
  filter (fun a => a <> []) (TrimSpace <$> Split s 44).

Definition buildNodeDiscovery (f : monsteraNodesFlags) : string + NodeDiscovery :=
  let set := length (filter (fun s => s <> []) [static f; file f; srv f]) in
  if negb (set =? 1)%nat
  then inl "exactly one of --monstera-nodes, --monstera-nodes-file, --monstera-nodes-srv must be set"
  else if is_set (static f) then inr (NewStaticNodeDiscovery (static_addrs (static f)))
  else if is_set (file f) then inr (NewFileNodeDiscovery (file f))
  else inr (NewSRVNodeDiscovery (srv f)).

(** ** logging.go *)

Inductive Level : Set := LevelDebug | LevelInfo | LevelWarn | LevelError.

Definition parseLogLevel (s : bytes) : bytes + Level :=
  let w := ToLower (TrimSpace s) in
  if bool_decide (w = str "debug") then inr LevelDebug
  else if bool_decide (w = str "info" \/ w = []) then inr LevelInfo
  else if bool_decide (w = str "warn" \/ w = str "warning") then inr LevelWarn
  else if bool_decide (w = str "error") then inr LevelError
  else inl s.

Record logFlags := mkLogFlags { level : bytes }.
Record nodeCoreLogFlags := mkCoreLogFlags {
  core_level : bytes; leaderOnly : bool; includeReplay : bool }.

(** [addLogFlags] and [addNodeCoreLogFlags] without arguments. *)
Definition logFlags_default : logFlags := mkLogFlags (str "info").
Definition nodeCoreLogFlags_default : nodeCoreLogFlags := mkCoreLogFlags (str "info") true false.

Record CoreLogPolicy := mkPolicy { MinLevel : Level; LeaderOnly : bool; IncludeReplay : bool }.

(** [None] when the process exits with status 1; else the level of the handler. *)
Definition setupLogger (f : logFlags) : option Level :=
  match parseLogLevel (level f) with inl _ => None | inr l => Some l end.

(** The policy and the level of the handler. *)
Definition setupCoreLogging (f : nodeCoreLogFlags) : option (CoreLogPolicy * Level) :=
  match parseLogLevel (core_level f) with
  | inl _ => None
  | inr l => Some (mkPolicy l (leaderOnly f) (includeReplay f), l)
  end.

(** ** Processes *)

Inductive Part : Set :=
  | Listener | MetricsServer | BadgerStore | MonsteraNode | MonsteraServer | AdminClient | MonsteraClient
  | CoresStub | CronWorker | TasksGCWorker | QueuesGCWorker | GrpcServer | ApiServer.

(** What a gateway puts in front of its handlers. *)
Inductive Interceptor : Set := MonitoringMiddleware | AuthenticationMiddleware.

Inductive Effect : Set :=
  | Created (p : Part)         (** constructed, not running yet *)
  | Intercepted (l : list Interceptor)   (** the gRPC server, with its interceptors *)
  | Started (p : Part)
  | Stopped (p : Part)
  | ServeFailed (p : Part)     (** a server stopped serving by itself *)
  | Signalled.                 (** the shutdown branch was taken *)

#[export] Instance Part_eq_dec : EqDecision Part.
Proof. solve_decision. Defined.
#[export] Instance Interceptor_eq_dec : EqDecision Interceptor.
Proof. solve_decision. Defined.
#[export] Instance Effect_eq_dec : EqDecision Effect.
Proof. solve_decision. Defined.

Inductive Instr : Type :=
  | Call (e : Effect) (codes : list Z)  (** a call that returns, or ends the process with one of [codes] *)
  | Exit (code : Z)                     (** [os.Exit], or a panic *)
  | Defer (l : list Instr)
  | Factory                             (** from here on Monstera may create a core *)
  | Notify                              (** [signal.Notify] *)
  | SignalStop                          (** [signal.Stop] *)
  | Go (l : list Instr)
  | Select (l : list Instr)             (** [select { case <-c: l; case <-ctx.Done(): }] *)
  | Cancel                              (** [cancel()] *)
  | Serve (p : Part)
  | WgAdd | WgDone | WgWait.

Inductive Status : Set := Exited (code : Z) | Killed.
#[export] Instance Status_eq_dec : EqDecision Status.
Proof. solve_decision. Defined.

Record Proc := mkProc {
  pc : list Instr;               (** the main goroutine *)
  deferred : list (list Instr);
  other : list Instr;            (** the goroutine it started *)
  factory : bool;
  notified : bool;
  pending : bool;                (** a signal in the channel, which holds one *)
  cancelled : bool;
  wg : nat;
  status : option Status;
  trace : list Effect;
}.

Definition set_pc x s := mkProc x (deferred s) (other s) (factory s) (notified s) (pending s) (cancelled s) (wg s) (status s) (trace s).
Definition set_deferred x s := mkProc (pc s) x (other s) (factory s) (notified s) (pending s) (cancelled s) (wg s) (status s) (trace s).
Definition set_other x s := mkProc (pc s) (deferred s) x (factory s) (notified s) (pending s) (cancelled s) (wg s) (status s) (trace s).
Definition set_factory x s := mkProc (pc s) (deferred s) (other s) x (notified s) (pending s) (cancelled s) (wg s) (status s) (trace s).
Definition set_notified x s := mkProc (pc s) (deferred s) (other s) (factory s) x (pending s) (cancelled s) (wg s) (status s) (trace s).
Definition set_pending x s := mkProc (pc s) (deferred s) (other s) (factory s) (notified s) x (cancelled s) (wg s) (status s) (trace s).
Definition set_cancelled x s := mkProc (pc s) (deferred s) (other s) (factory s) (notified s) (pending s) x (wg s) (status s) (trace s).
Definition set_wg x s := mkProc (pc s) (deferred s) (other s) (factory s) (notified s) (pending s) (cancelled s) x (status s) (trace s).
Definition finish st s := mkProc (pc s) (deferred s) (other s) (factory s) (notified s) (pending s) (cancelled s) (wg s) (Some st) (trace s).
Definition log_effect e s := mkProc (pc s) (deferred s) (other s) (factory s) (notified s) (pending s) (cancelled s) (wg s) (status s) (trace s ++ [e]).

Definition start (l : list Instr) : Proc := mkProc l [] [] false false false false 0 None [].

Definition happened (e : Effect) (s : Proc) : bool := bool_decide (e ∈ trace s).

(** What the libraries behind the parts (Monstera and its gRPC server, the interval workers,
    the metrics server, Badger, grpc-go) do on shutdown: whether the call that stops a part
    returns, and whether [Serve] returns once the part was stopped, be it before [Serve] was
    called or while it served. *)
Class Shutdown : Type := { stop_returns : Part -> bool; serve_returns : Part -> bool }.

(** What the commands rely on. *)
Class ShutdownOk (SD : Shutdown) : Prop := {
  stop_returns_ok p : stop_returns p = true;
  serve_returns_ok p : serve_returns p = true;
}.

Definition shutdown_ref : Shutdown := {| stop_returns _ := true; serve_returns _ := true |}.
#[export] Instance shutdown_ref_ok : ShutdownOk shutdown_ref.
Proof. done. Qed.

Section semantics.
Context {SD : Shutdown}.

(** A call that ends a part may never return. *)
Definition returns (e : Effect) : bool := match e with Stopped p => stop_returns p | _ => true end.

(** What an instruction can do: the instructions to go on with, and the new state.  A blocked
    instruction can do nothing. *)
Definition instr (i : Instr) (s : Proc) : list (list Instr * Proc) :=
  match i with
  | Call e codes => (if returns e then [([], log_effect e s)] else []) ++
                    ((fun c => ([], finish (Exited c) s)) <$> codes)
  | Exit c => [([], finish (Exited c) s)]
  | Defer l => [([], set_deferred (l :: deferred s) s)]
  | Factory => [([], set_factory true s)]
  | Notify => [([], set_notified true s)]
  | SignalStop => [([], set_notified false s)]
  | Go l => [([], set_other l s)]
  | Select l => (if pending s then [(l, log_effect Signalled (set_pending false s))] else []) ++
                (if cancelled s then [([], s)] else [])
  | Cancel => [([], set_cancelled true s)]
  | Serve p => if happened (Stopped p) s && serve_returns p then [([], s)] else []
  | WgAdd => [([], set_wg (S (wg s)) s)]
  | WgDone => [([], set_wg (pred (wg s)) s)]
  | WgWait => if decide (wg s = 0%nat) then [([], s)] else []
  end.

(** The moves of the main goroutine; at its end the deferred calls run, last one first, and
    the process exits with whatever the other goroutine has left to do. *)
Definition main_moves (s : Proc) : list Proc :=
  match pc s with
  | i :: rest => (fun '(l, s') => set_pc (l ++ rest) s') <$> instr i s
  | [] => match deferred s with
          | l :: ds => [set_pc l (set_deferred ds s)]
          | [] => [finish (Exited 0) s]
          end
  end.

Definition other_moves (s : Proc) : list Proc :=
  match other s with
  | i :: rest => (fun '(l, s') => set_other (l ++ rest) s') <$> instr i s
  | [] => []
  end.

(** A core created by Monstera may find no prefix, which ends the process. *)
Definition factory_moves (s : Proc) : list Proc := if factory s then [finish (Exited 1) s] else [].

(** A server can fail while it serves. *)
Definition failure_moves (s : Proc) : list Proc :=
  match pc s with
  | Serve p :: rest => if happened (Stopped p) s then [] else [set_pc rest (log_effect (ServeFailed p) s)]
  | _ => []
  end.

(** A signal goes to the channel once one is registered, and kills the process before. *)
Definition signal_moves (s : Proc) : list Proc :=
  if notified s then (if pending s then [] else [set_pending true s]) else [finish Killed s].

Definition environment (s : Proc) : list Proc := factory_moves s ++ failure_moves s ++ signal_moves s.

Definition progress (s : Proc) : list Proc :=
  match status s with Some _ => [] | None => main_moves s ++ other_moves s end.
Definition moves (s : Proc) : list Proc :=
  match status s with Some _ => [] | None => progress s ++ environment s end.

(** [k] moves lead from [s] to [s']. *)
Inductive runs : nat -> Proc -> Proc -> Prop :=
  | runs_refl s : runs 0 s s
  | runs_step k s s1 s' : s1 ∈ moves s -> runs k s1 s' -> runs (S k) s s'.

(** Only the environment can make the process move. *)
Definition stuck (s : Proc) : Prop := length (progress s) = 0%nat /\ status s = None.
#[export] Instance stuck_dec s : Decision (stuck s).
Proof. unfold stuck. apply _. Defined.

(** A path given by the index of each move. *)
Fixpoint follow (path : list nat) (s : Proc) : option Proc :=
  match path with
  | [] => Some s
  | i :: path => match moves s !! i with Some s' => follow path s' | None => None end
  end.

Lemma follow_runs path s s' : follow path s = Some s' -> runs (length path) s s'.
Proof.
  revert s. induction path as [|i path IH]; intros s; cbn; [intros [= ->]; constructor|].
  destruct (moves s !! i) as [s1|] eqn:E; [|done]. intros Hf.
  econstructor; [by eapply list_elem_of_lookup_2|by apply IH].
Qed.

End semantics.

(** ** The commands *)

Section commands.
Context {U : Utils} {H : Honey} {C : CronLib} {K : Keyspace}.

(** A check of the flags that ends the process. *)
Definition exit_unless {A} (o : option A) : list Instr := match o with Some _ => [] | None => [Exit 1] end.
Definition exit_on_error {A B} (o : A + B) : list Instr := match o with inr _ => [] | inl _ => [Exit 1] end.

(** [Execute]: the process exits with status 1 when the command line is wrong. *)
Definition Execute {E A} (rootCmd_Execute : E + A) : list Instr := exit_on_error rootCmd_Execute.

(** *** node.go *)

Record NodeCmdCfg := mkNodeCmdCfg {
  node_prometheusListenAddr : bytes; node_dataDir : bytes; node_monsteraListenAddr : bytes;
  node_log : logFlags; node_coreLog : nodeCoreLogFlags }.

Definition nodeCmdCfg : NodeCmdCfg :=
  mkNodeCmdCfg (str ":2112") (str "./data") (str ":9000") logFlags_default nodeCoreLogFlags_default.

Definition nodeCmd (cfg : NodeCmdCfg) : list Instr :=
  exit_unless (setupLogger (node_log cfg)) ++
  [ Call (Started MetricsServer) [];
    Call (Started BadgerStore) [1] ] ++
  exit_unless (setupCoreLogging (node_coreLog cfg)) ++
  [ Factory;
    Call (Created MonsteraNode) [1];
    Call (Started MonsteraNode) [];
    Call (Created MonsteraServer) [];
    WgAdd;
    Notify;
    Go [ Select [ Cancel; Call (Stopped MonsteraNode) []; Call (Stopped MonsteraServer) [];
                  Call (Stopped BadgerStore) []; Call (Stopped MetricsServer) [] ];
         WgDone ];
    Defer [SignalStop; Cancel];
    Serve MonsteraServer;
    WgWait ].

(** *** single_node.go *)

Record SingleNodeCmdCfg := mkSingleNodeCmdCfg {
  single_gatewayListenAddr : bytes; single_prometheusListenAddr : bytes; single_authKeysPath : bytes;
  single_shardsCount : Z; single_dataDir : bytes; single_log : logFlags }.

Definition singleNodeCmdCfg : SingleNodeCmdCfg :=
  mkSingleNodeCmdCfg (str ":8000") (str ":2112") [] 64 (str "./data") logFlags_default.

(** [NewMoabNonclusteredStub] panics on some numbers of shards; else it creates two cores per
    shard, each of which may find no prefix. *)
Definition new_stub (n : Z) : list Instr :=
  match NewMoabNonclusteredStub n (fun _ => 0) (fun _ => 0) tt with
  | Some _ => [Call (Started CoresStub) [1]]
  | None => [Exit 2]
  end.

Definition unaryInterceptors (authKeysPath : bytes) : list Interceptor :=
  [MonitoringMiddleware] ++ (if is_set authKeysPath then [AuthenticationMiddleware] else []).

Definition singleNodeCmd (cfg : SingleNodeCmdCfg) : list Instr :=
  exit_unless (setupLogger (single_log cfg)) ++
  [ Call (Started Listener) [1];
    Call (Started MetricsServer) [];
    Call (Started BadgerStore) [1] ] ++
  new_stub (single_shardsCount cfg) ++
  [ Call (Started CronWorker) []; Call (Started TasksGCWorker) []; Call (Started QueuesGCWorker) [];
    Call (Intercepted (unaryInterceptors (single_authKeysPath cfg))) [];
    Notify;
    Go [ Select [ Cancel; Call (Stopped CronWorker) []; Call (Stopped TasksGCWorker) [];
                  Call (Stopped QueuesGCWorker) []; Call (Stopped GrpcServer) [];
                  Call (Stopped MetricsServer) [] ] ];
    Defer [SignalStop; Cancel];
    Call (Started ApiServer) [];
    Defer [Call (Stopped ApiServer) []];
    Serve GrpcServer ].

(** *** gateway.go *)

Record GatewayCmdCfg := mkGatewayCmdCfg {
  gateway_gatewayListenAddr : bytes; gateway_prometheusListenAddr : bytes; gateway_nodes : monsteraNodesFlags;
  gateway_authKeysPath : bytes; gateway_log : logFlags }.

Definition gatewayCmdCfg (nodes : monsteraNodesFlags) : GatewayCmdCfg :=
  mkGatewayCmdCfg (str ":8000") (str ":2112") nodes [] logFlags_default.

Definition gatewayCmd (cfg : GatewayCmdCfg) : list Instr :=
  exit_unless (setupLogger (gateway_log cfg)) ++
  [ Call (Started Listener) [1];
    Call (Started MetricsServer) [] ] ++
  exit_on_error (buildNodeDiscovery (gateway_nodes cfg)) ++
  [ Call (Started AdminClient) [];
    Call (Started MonsteraClient) [1];
    Call (Intercepted (unaryInterceptors (gateway_authKeysPath cfg))) [];
    Notify;
    Go [ Select [ Cancel; Call (Stopped GrpcServer) []; Call (Stopped MonsteraClient) [];
                  Call (Stopped AdminClient) []; Call (Stopped MetricsServer) [] ] ];
    Defer [SignalStop; Cancel];
    Call (Started ApiServer) [];
    Defer [Call (Stopped ApiServer) []];
    Serve GrpcServer ].

(** *** worker.go *)

Record WorkerCmdCfg := mkWorkerCmdCfg {
  worker_prometheusListenAddr : bytes; worker_nodes : monsteraNodesFlags; worker_log : logFlags }.

Definition workerCmdCfg (nodes : monsteraNodesFlags) : WorkerCmdCfg :=
  mkWorkerCmdCfg (str ":2112") nodes logFlags_default.

Definition workerCmd (cfg : WorkerCmdCfg) : list Instr :=
  exit_unless (setupLogger (worker_log cfg)) ++
  [ Call (Started MetricsServer) [] ] ++
  exit_on_error (buildNodeDiscovery (worker_nodes cfg)) ++
  [ Call (Started AdminClient) [];
    Call (Started MonsteraClient) [1];
    Defer [Call (Stopped MonsteraClient) []];
    Defer [Call (Stopped AdminClient) []];
    Call (Started CronWorker) []; Call (Started TasksGCWorker) []; Call (Started QueuesGCWorker) [];
    WgAdd;
    Notify;
    Go [ Select [ Cancel; Call (Stopped MetricsServer) []; Call (Stopped CronWorker) [];
                  Call (Stopped TasksGCWorker) []; Call (Stopped QueuesGCWorker) [] ];
         WgDone ];
    Defer [SignalStop; Cancel];
    WgWait ].

End commands.

(** ** Properties *)

Lemma spaces_nonempty : Forall (fun p => p <> []) spaces.
Proof. vm_compute. repeat constructor; discriminate. Qed.

(** No white space is left in front. *)
Lemma TrimLeftSpace_spec s p r : p ∈ spaces -> TrimLeftSpace s <> p ++ r.
Proof.
  destruct (trim_left_spec spaces (length s) s) as (cs & _ & _ & Hn); [done|apply spaces_nonempty|].
  apply Hn.
Qed.

(** Nor at the end. *)
Lemma TrimSpace_right s p r : p ∈ spaces -> TrimSpace s <> r ++ p.
Proof.
  intros Hp E. unfold TrimSpace, TrimRightSpace in E. set (t := TrimLeftSpace s) in *.
  destruct (trim_left_spec (reverse <$> spaces) (length t) (reverse t)) as (cs & _ & _ & Hn).
  - by rewrite length_reverse.
  - apply Forall_fmap. eapply Forall_impl; [apply spaces_nonempty|]. intros q Hq Hr. apply Hq.
    cbn in Hr. apply (f_equal reverse) in Hr. by rewrite reverse_involutive in Hr.
  - apply (Hn (reverse p) (reverse r)); [by apply list_elem_of_fmap_2|].
    apply (f_equal reverse) in E. by rewrite reverse_involutive, reverse_app in E.
Qed.

(** Joining the parts with the separator gives the string back. *)
Fixpoint Join (ws : list bytes) (sep : Z) : bytes :=
  match ws with [] => [] | [w] => w | w :: ws => w ++ sep :: Join ws sep end.

Lemma Split_nonempty s sep : Split s sep <> [].
Proof. destruct s as [|c s]; cbn; [done|]. destruct (c =? sep); [done|]. by destruct (Split s sep). Qed.

Lemma Join_Split s sep : Join (Split s sep) sep = s.
Proof.
  induction s as [|c s IH]; [done|]. cbn. pose proof (Split_nonempty s sep) as Hne.
  destruct (c =? sep) eqn:Ec.
  - apply Z.eqb_eq in Ec as ->. destruct (Split s sep); [done|]. cbn in *. by rewrite IH.
  - destruct (Split s sep) as [|w [|w' ws]]; [done|by rewrite <-IH|]. cbn in *. by rewrite IH.
Qed.

Lemma Split_no_sep s sep : Forall (fun w => sep ∉ w) (Split s sep).
Proof.
  induction s as [|c s IH]; cbn; [by constructor; [apply not_elem_of_nil|]|].
  destruct (c =? sep) eqn:Ec; [by constructor; [apply not_elem_of_nil|]|]. apply Z.eqb_neq in Ec.
  destruct (Split s sep) as [|w ws]; [constructor; [set_solver|done]|].
  apply Forall_cons in IH as [Hw Hws]. constructor; [set_solver|done].
Qed.

(** [buildNodeDiscovery] succeeds exactly when one flag is set and then uses that flag; the
    addresses of a list are its parts between commas, in order, without white space at their
    end and without the empty ones. *)
Lemma buildNodeDiscovery_spec f :
  match buildNodeDiscovery f with
  | inr (NewStaticNodeDiscovery addrs) =>
      static f <> [] /\ file f = [] /\ srv f = [] /\
      addrs = filter (fun a => a <> []) (TrimSpace <$> Split (static f) 44) /\
      Forall (fun a => a <> [] /\ forall p r, p ∈ spaces -> a <> r ++ p) addrs
  | inr (NewFileNodeDiscovery path) => static f = [] /\ path = file f /\ path <> [] /\ srv f = []
  | inr (NewSRVNodeDiscovery name) => static f = [] /\ file f = [] /\ name = srv f /\ name <> []
  | inl _ => ~ exists a, a <> [] /\
      (f = mkNodesFlags a [] [] \/ f = mkNodesFlags [] a [] \/ f = mkNodesFlags [] [] a)
  end.
Proof.
  destruct f as [[|a s] [|b t] [|c u]]; unfold buildNodeDiscovery; cbn; try naive_solver.
  split_and!; [done|done|done|done|]. apply Forall_forall. intros x Hx.
  apply list_elem_of_filter in Hx as [Hne Hx]. split; [done|].
  apply list_elem_of_fmap in Hx as (w & -> & _). intros p r Hp. by apply TrimSpace_right.
Qed.

(** The words of each level, in any case and with white space around them. *)
Example levels :
  parseLogLevel (str " WARN ") = inr LevelWarn /\ parseLogLevel (str "Debug") = inr LevelDebug /\
  parseLogLevel [] = inr LevelInfo /\ parseLogLevel (str "verbose") = inl (str "verbose") /\
  setupLogger logFlags_default = Some LevelInfo /\
  setupCoreLogging nodeCoreLogFlags_default = Some (mkPolicy LevelInfo true false, LevelInfo).
Proof. vm_compute. done. Qed.

(** A list of nothing but separators and white space passes: there is no node to ask. *)
Example empty_address_list :
  buildNodeDiscovery (mkNodesFlags (str " , ") [] []) = inr (NewStaticNodeDiscovery []).
Proof. vm_compute. reflexivity. Qed.

(** ** Executions *)

(** Under the laws the processes move as with the reference libraries, whose moves compute. *)
Section lawful.
Context {SD : Shutdown} {SDO : ShutdownOk SD}.

Lemma instr_ref i s : instr i s = instr (SD := shutdown_ref) i s.
Proof.
  destruct i as [e codes| | | | | | | | |p| | |]; try done; cbn [instr].
  - destruct e; try done. cbn [returns]. by rewrite stop_returns_ok.
  - by rewrite serve_returns_ok.
Qed.

Lemma progress_ref s : progress s = progress (SD := shutdown_ref) s.
Proof.
  unfold progress, main_moves, other_moves. destruct (status s); [done|].
  f_equal; [destruct (pc s)|destruct (other s)]; by rewrite ?instr_ref.
Qed.

Lemma runs_ref k s s' : runs k s s' -> runs (SD := shutdown_ref) k s s'.
Proof.
  induction 1 as [|k s s1 s' Hs _ IH]; [constructor|]. econstructor; [|exact IH].
  unfold moves in *. by rewrite progress_ref in Hs.
Qed.

Lemma stuck_ref s : stuck s <-> stuck (SD := shutdown_ref) s.
Proof. unfold stuck. by rewrite progress_ref. Qed.
End lawful.

(** *** Exploration

    From here to the end of the section the libraries are the reference ones. *)

Section exploration.
#[local] Existing Instance shutdown_ref.

(** Equality of states, to visit each one once. *)
Fixpoint instr_eqb (i j : Instr) : bool :=
  let fix eqb (l m : list Instr) : bool :=
    match l, m with
    | [], [] => true
    | x :: l, y :: m => instr_eqb x y && eqb l m
    | _, _ => false
    end in
  match i, j with
  | Call e c, Call e' c' => bool_decide (e = e') && bool_decide (c = c')
  | Exit c, Exit c' => c =? c'
  | Defer l, Defer m | Go l, Go m | Select l, Select m => eqb l m
  | Serve p, Serve q => bool_decide (p = q)
  | Factory, Factory | Notify, Notify | SignalStop, SignalStop | Cancel, Cancel
  | WgAdd, WgAdd | WgDone, WgDone | WgWait, WgWait => true
  | _, _ => false
  end.

Fixpoint list_eqb {A} (eqb : A -> A -> bool) (l m : list A) : bool :=
  match l, m with
  | [], [] => true
  | x :: l, y :: m => eqb x y && list_eqb eqb l m
  | _, _ => false
  end.

Definition proc_eqb (s s' : Proc) : bool :=
  if negb (Bool.eqb (factory s) (factory s')) then false
  else if negb (Bool.eqb (notified s) (notified s')) then false
  else if negb (Bool.eqb (pending s) (pending s')) then false
  else if negb (Bool.eqb (cancelled s) (cancelled s')) then false
  else if negb (wg s =? wg s')%nat then false
  else if negb (bool_decide (status s = status s')) then false
  else if negb (bool_decide (trace s = trace s')) then false
  else if negb (list_eqb instr_eqb (pc s) (pc s')) then false
  else if negb (list_eqb instr_eqb (other s) (other s')) then false
  else list_eqb (list_eqb instr_eqb) (deferred s) (deferred s').

Lemma list_eqb_eq {A} (eqb : A -> A -> bool) :
  (forall x y, eqb x y = true -> x = y) -> forall l m, list_eqb eqb l m = true -> l = m.
Proof.
  intros He. induction l as [|x l IH]; intros [|y m]; cbn; try done.
  intros [Hx Hl]%andb_true_iff. f_equal; auto.
Qed.

Lemma instr_eqb_eq : forall i j, instr_eqb i j = true -> i = j.
Proof.
  fix IH 1. intros i j.
  assert (Hl : forall l m, (fix eqb (l m : list Instr) : bool :=
    match l, m with [], [] => true | x :: l, y :: m => instr_eqb x y && eqb l m | _, _ => false end) l m = true -> l = m).
  { fix IHl 1. intros [|x l] [|y m]; try done. intros [Hx Hm]%andb_true_iff. f_equal; [by apply IH|by apply IHl]. }
  destruct i, j; cbn; try done; rewrite ?andb_true_iff, ?bool_decide_eq_true, ?Z.eqb_eq; intros Hc;
    destruct_and?; f_equal; auto.
Qed.

Lemma proc_eqb_eq s s' : proc_eqb s s' = true -> s = s'.
Proof.
  unfold proc_eqb. repeat (case_match; [done|]). rewrite negb_false_iff in *. intros Hd.
  rewrite ?bool_decide_eq_true, ?eqb_true_iff, ?Nat.eqb_eq in *.
  destruct s, s'; cbn in *; f_equal; try done; eapply list_eqb_eq; try done; eauto using instr_eqb_eq.
  apply list_eqb_eq, instr_eqb_eq.
Qed.

Fixpoint visited (s : Proc) (l : list Proc) : bool :=
  match l with [] => false | x :: l => if proc_eqb s x then true else visited s l end.

Lemma visited_elem s l : visited s l = true -> s ∈ l.
Proof.
  induction l as [|x l IH]; cbn; [done|]. destruct (proc_eqb s x) eqn:E; [apply proc_eqb_eq in E as ->|]; constructor; auto.
Qed.

Fixpoint nub (l : list Proc) : list Proc :=
  match l with
  | [] => []
  | s :: l => let l' := nub l in if visited s l' then l' else s :: l'
  end.

Lemma elem_of_nub s l : s ∈ l -> s ∈ nub l.
Proof.
  induction l as [|x l IH]; cbn; [done|]. destruct (visited _ _) eqn:E.
  - apply visited_elem in E. intros [->|Hs]%elem_of_cons; auto.
  - intros [->|Hs]%elem_of_cons; constructor; auto.
Qed.

(** [P] holds in every state of every execution from [l], and none has more than [fuel]
    moves: the states after each number of moves, in turn. *)
Fixpoint check (fuel : nat) (P : Proc -> Prop) `{!forall s, Decision (P s)} (l : list Proc) : bool :=
  forallb (fun s => bool_decide (P s)) l &&
  match fuel with
  | O => match l ≫= moves with [] => true | _ => false end
  | S fuel => check fuel P (nub (l ≫= moves))
  end.

Lemma check_sound P `{!forall s, Decision (P s)} fuel l s :
  check fuel P l = true -> s ∈ l -> forall k s', runs k s s' -> (k <= fuel)%nat /\ P s'.
Proof.
  revert l s. induction fuel as [|fuel IH]; intros l s [Hs Hm]%andb_true_iff Hin k s' Hr;
    rewrite forallb_forall in Hs; pose proof (Hs s (proj1 (list_elem_of_In _ _) Hin)) as HP%bool_decide_eq_true;
    (destruct Hr as [|k s s1 s' H1 Hr]; [split; [lia|done]|]);
    assert (H2 : s1 ∈ l ≫= moves) by (apply list_elem_of_bind; eauto).
  - destruct (l ≫= moves); [by apply elem_of_nil in H2|done].
  - destruct (IH _ s1 Hm (elem_of_nub _ _ H2) k s' Hr). split; [lia|done].
Qed.

(** [l] happened, in this order. *)
Fixpoint in_order (l tr : list Effect) : bool :=
  match l, tr with
  | [], _ => true
  | _, [] => false
  | e :: l', x :: tr => if decide (e = x) then in_order l' tr else in_order l tr
  end.

Lemma in_order_sublist l tr : in_order l tr = true -> l `sublist_of` tr.
Proof.
  revert l. induction tr as [|x tr IH]; intros [|e l]; cbn; try done.
  - intros _. apply sublist_nil_l.
  - case_decide as E; [subst; intros Hl; by apply sublist_skip, IH|]. intros Hl. by apply sublist_cons, IH.
Qed.

Definition exited (s : Proc) (code : Z) : Prop := status s = Some (Exited code).
(** A signal arrived, and was or will be handled. *)
Definition shutting_down (s : Proc) : bool := pending s || happened Signalled s.

#[export] Instance exited_dec s c : Decision (exited s c).
Proof. unfold exited. apply _. Defined.

(** [effects] happened in this order before a normal exit; and only a process that nobody
    asked to stop waits. *)
Definition shuts_down (effects : list Effect) (s : Proc) : Prop :=
  (exited s 0 -> in_order effects (trace s) = true) /\ (stuck s -> shutting_down s = false).
#[export] Instance shuts_down_dec effects s : Decision (shuts_down effects s).
Proof. unfold shuts_down. apply _. Defined.

Definition node_effects : list Effect :=
  [ Started BadgerStore; Started MonsteraNode; Signalled; Stopped MonsteraNode; Stopped MonsteraServer;
    Stopped BadgerStore; Stopped MetricsServer ].

Definition worker_effects : list Effect :=
  [ Started MonsteraClient; Started CronWorker; Started TasksGCWorker; Started QueuesGCWorker; Signalled;
    Stopped MetricsServer; Stopped CronWorker; Stopped TasksGCWorker; Stopped QueuesGCWorker;
    Stopped AdminClient; Stopped MonsteraClient ].

(** A server that answers API calls: it exits normally only after the server failed or was
    stopped, with its cache closed. *)
Definition serves (effects : list Effect) (s : Proc) : Prop :=
  shuts_down (effects ++ [Started ApiServer; Stopped ApiServer]) s /\
  (exited s 0 -> happened (Stopped GrpcServer) s || happened (ServeFailed GrpcServer) s = true).
#[export] Instance serves_dec effects s : Decision (serves effects s).
Proof. unfold serves. apply _. Defined.

Definition gateway_effects : list Effect := [Started Listener; Started MonsteraClient].
Definition single_node_effects : list Effect :=
  [Started Listener; Started BadgerStore; Started CoresStub; Started CronWorker; Started TasksGCWorker; Started QueuesGCWorker].

Section command_checks.
Context {U : Utils} {H : Honey} {C : CronLib} {K : Keyspace}.

Lemma node_check cfg : check 40 (shuts_down node_effects) [start (nodeCmd cfg)] = true.
Proof.
  unfold nodeCmd. destruct (setupLogger (node_log cfg)); [|vm_compute; reflexivity].
  destruct (setupCoreLogging (node_coreLog cfg)); vm_cast_no_check (eq_refl true).
Qed.

Lemma worker_check cfg : check 40 (shuts_down worker_effects) [start (workerCmd cfg)] = true.
Proof.
  unfold workerCmd. destruct (setupLogger (worker_log cfg)); [|vm_compute; reflexivity].
  destruct (buildNodeDiscovery (worker_nodes cfg)); vm_cast_no_check (eq_refl true).
Qed.

Lemma gateway_check cfg : check 40 (serves gateway_effects) [start (gatewayCmd cfg)] = true.
Proof.
  unfold gatewayCmd. destruct (setupLogger (gateway_log cfg)); [|vm_compute; reflexivity].
  unfold unaryInterceptors. destruct (is_set (gateway_authKeysPath cfg));
    destruct (buildNodeDiscovery (gateway_nodes cfg)); vm_cast_no_check (eq_refl true).
Qed.

Lemma single_node_check cfg :
  check 40 (fun s => serves single_node_effects s /\ happened (Stopped BadgerStore) s = false)
    [start (singleNodeCmd cfg)] = true.
Proof.
  unfold singleNodeCmd, new_stub. destruct (setupLogger (single_log cfg)); [|vm_compute; reflexivity].
  unfold unaryInterceptors. destruct (is_set (single_authKeysPath cfg));
    destruct (NewMoabNonclusteredStub _ _ _ _); vm_cast_no_check (eq_refl true).
Qed.
End command_checks.
End exploration.

Section command_proofs.
Context {U : Utils} {H : Honey} {C : CronLib} {K : Keyspace} {SD : Shutdown} {SDO : ShutdownOk SD}.

(** What every execution of a command satisfies: it ends, [effects] happened in this order
    when it ends normally, and it waits only while nobody asked it to stop. *)
Definition orderly (cmd : list Instr) (effects : list Effect) : Prop :=
  forall k s, runs k (start cmd) s ->
    (k <= 40)%nat /\ (exited s 0 -> effects `sublist_of` trace s) /\ (stuck s -> shutting_down s = false).

Lemma check_orderly cmd effects : check 40 (shuts_down effects) [start cmd] = true -> orderly cmd effects.
Proof.
  intros Hc k s Hr%runs_ref. destruct (check_sound _ _ _ (start cmd) Hc (list_elem_of_here _ _) k s Hr) as [Hk [H1 H2]].
  split_and!; [done| |by rewrite stuck_ref]. intros He. by apply in_order_sublist, H1.
Qed.

(** C38: the processes of a cluster, a node and a background worker, under every interleaving
    of their goroutines with signals and failures, when the libraries' calls to stop a part
    return and [Serve] returns once its server was stopped ([ShutdownOk]): a process has a bounded number of steps
    left; when it exits normally it was told to, and everything it had started was stopped, in
    the order of the code (the node, its server, the store and the metrics; the metrics, the
    workers and then the clients they use); and once a signal has arrived no goroutine waits
    for another forever. *)
Theorem shutdown_is_orderly ncfg wcfg :
  orderly (nodeCmd ncfg) node_effects /\ orderly (workerCmd wcfg) worker_effects.
Proof. split; apply check_orderly; [apply node_check|apply worker_check]. Qed.

(** A gateway and a single node exit normally only when their server failed or was stopped,
    with the API server closed; once a signal has arrived they exit. *)
Theorem servers_shut_down gcfg scfg k s :
  runs k (start (gatewayCmd gcfg)) s \/ runs k (start (singleNodeCmd scfg)) s ->
  (k <= 40)%nat /\ (stuck s -> shutting_down s = false) /\
  (exited s 0 -> Stopped ApiServer ∈ trace s /\
     (happened (Stopped GrpcServer) s || happened (ServeFailed GrpcServer) s = true)).
Proof.
  assert (Hs : forall effects s, serves effects s -> (stuck s -> shutting_down s = false) /\
    (exited s 0 -> Stopped ApiServer ∈ trace s /\
       (happened (Stopped GrpcServer) s || happened (ServeFailed GrpcServer) s = true))).
  { intros effects s' [[H1 H2] H3]. split; [by rewrite stuck_ref|]. intros He. split; [|by apply H3].
    eapply sublist_subseteq; [by apply in_order_sublist, H1|]. rewrite elem_of_app. right. right. by left. }
  intros [Hr%runs_ref|Hr%runs_ref].
  - destruct (check_sound _ _ _ _ (gateway_check gcfg) (list_elem_of_here _ _) k s Hr) as [Hk HP]. split; [done|].
    by apply (Hs gateway_effects).
  - destruct (check_sound _ _ _ _ (single_node_check scfg) (list_elem_of_here _ _) k s Hr) as [Hk [HP _]].
    split; [done|]. by apply (Hs single_node_effects).
Qed.

(** No execution of a single node closes the store that it opens, unlike a node. *)
Theorem single_node_leaves_store_open cfg k s :
  runs k (start (singleNodeCmd cfg)) s -> happened (Stopped BadgerStore) s = false.
Proof. intros Hr%runs_ref. by destruct (check_sound _ _ _ _ (single_node_check cfg) (list_elem_of_here _ _) k s Hr) as [_ [_ ?]]. Qed.
End command_proofs.

(** *** Executions *)

Lemma shutdown_is_orderly_witness :
  orderly (SD := shutdown_ref) (nodeCmd nodeCmdCfg) node_effects /\
  orderly (SD := shutdown_ref) (workerCmd (workerCmdCfg (mkNodesFlags (str "a:1") [] []))) worker_effects.
Proof. apply (shutdown_is_orderly (SD := shutdown_ref)). Defined.

Module CommandRuns.
#[local] Existing Instance shutdown_ref.

Definition zeros (n : nat) : list nat := replicate n 0%nat.

Definition node_exit : list nat := zeros 10 ++ [1; 1]%nat ++ zeros 12.
Example node_exits : match follow node_exit (start (nodeCmd nodeCmdCfg)) with
  | Some s => exited s 0 /\ node_effects `sublist_of` trace s | None => False end.
Proof. vm_compute. split; [done|]. by repeat constructor. Qed.

(** The laws are needed: with a server that does not notice that it was stopped, a node that
    was told to stop waits forever. *)
Definition deaf_server : Shutdown := {| stop_returns _ := true; serve_returns _ := false |}.
Example deaf_server_hangs : match follow (SD := deaf_server) (zeros 10 ++ [2] ++ zeros 7)%nat (start (nodeCmd nodeCmdCfg)) with
  | Some s => stuck (SD := deaf_server) s /\ Signalled ∈ trace s | None => False end.
Proof. vm_compute. split; [done|]. by repeat constructor. Qed.

(** A node whose server fails, say because its address is in use, waits: [ctx] is cancelled
    only by the signal branch and by the deferred call behind the wait itself. *)
Theorem node_waits_after_server_failure : exists k s,
  runs k (start (nodeCmd nodeCmdCfg)) s /\ ServeFailed MonsteraServer ∈ trace s /\ stuck s /\ pending s = false.
Proof.
  destruct (follow (zeros 10 ++ [1%nat]) (start (nodeCmd nodeCmdCfg))) as [s|] eqn:E; [|by vm_compute in E].
  exists 11%nat, s. split; [exact (follow_runs _ _ _ E)|]. vm_compute in E. injection E as <-.
  split; [by apply (bool_decide_unpack _)|]. by split.
Qed.

(** A gateway that is told to stop may exit before its goroutine has stopped the Monstera
    client, the admin client and the metrics: nothing waits for it. *)
Definition one_node : monsteraNodesFlags := mkNodesFlags (str "a:1") [] [].
Theorem gateway_exits_before_cleanup : exists k s,
  runs k (start (gatewayCmd (gatewayCmdCfg one_node))) s /\ exited s 0 /\ Signalled ∈ trace s /\
  Stopped MonsteraClient ∉ trace s /\ Stopped AdminClient ∉ trace s /\ Stopped MetricsServer ∉ trace s.
Proof.
  destruct (follow (zeros 10 ++ [1%nat] ++ zeros 10) (start (gatewayCmd (gatewayCmdCfg one_node))))
    as [s|] eqn:E; [|by vm_compute in E].
  exists 21%nat, s. split; [exact (follow_runs _ _ _ E)|]. vm_compute in E. injection E as <-.
  split; [done|]. split_and!; by apply (bool_decide_unpack _).
Qed.

(** A gateway whose server failed exits with status 0. *)
Theorem gateway_hides_server_failure : exists k s,
  runs k (start (gatewayCmd (gatewayCmdCfg one_node))) s /\ exited s 0 /\ ServeFailed GrpcServer ∈ trace s.
Proof.
  destruct (follow (zeros 17) (start (gatewayCmd (gatewayCmdCfg one_node)))) as [s|] eqn:E; [|by vm_compute in E].
  exists 17%nat, s. split; [exact (follow_runs _ _ _ E)|]. vm_compute in E. injection E as <-.
  split; [done|]. by apply (bool_decide_unpack _).
Qed.
End CommandRuns.
