(* ===== verification/Front.v ===== *)
(** * Messages of the public API and their conversion ([pkg/server/v0/pbconv.go])

    [moabpb] has the messages of the public API ([github.com/evrblk/evrblk-go/moab/v0]) with
    the fields the gateway reads or writes.  The converters follow [pbconv.go]; protobuf
    encoding and base64 are not part of the repository ([TokenCodec]).  At the end, the gRPC
    codec of [vtproto.go]. *)

From S2P Require Export Ids Stub.

Module moabpb.
Inductive TaskState : Set :=
  | TASK_STATE_INVALID | TASK_STATE_ENQUEUED | TASK_STATE_IN_PROGRESS | TASK_STATE_DEAD
  | TASK_STATE_OTHER (v : Z).
Inductive IntervalUnit : Set :=
  | INTERVAL_UNIT_INVALID | INTERVAL_UNIT_SECONDS | INTERVAL_UNIT_MINUTES | INTERVAL_UNIT_HOURS
  | INTERVAL_UNIT_OTHER (v : Z).
Inductive OverwriteOnDuplicate : Set :=
  | OVERWRITE_ON_DUPLICATE_INVALID | OVERWRITE_ON_DUPLICATE_PAYLOAD
  | OVERWRITE_ON_DUPLICATE_SCHEDULED_AT | OVERWRITE_ON_DUPLICATE_EXPIRES_AT
  | OVERWRITE_ON_DUPLICATE_OTHER (v : Z).
Inductive Status : Set :=
  | STATUS_INVALID | STATUS_SUCCEEDED | STATUS_IN_PROGRESS | STATUS_FAILED | STATUS_OTHER (v : Z).
Inductive ReportResult : Set :=
  | RESULT_INVALID | RESULT_OK | RESULT_NOT_FOUND | RESULT_NOT_IN_PROGRESS | RESULT_STALE_ATTEMPT.
Inductive RestartResult : Set :=
  | RESTART_INVALID | RESTART_RESTARTED | RESTART_NOT_FOUND | RESTART_NOT_DEAD
  | RESTART_DEDUPE_CONFLICT.

Module RetryStrategy.
Record t := mk { RetryIntervalsInSeconds : list Z }.
End RetryStrategy.
Module TokenBucketRateLimiting.
Record t := mk { MaxTokens : Z; Interval : Z; Unit : IntervalUnit }.
End TokenBucketRateLimiting.
Module DequeuingSettings.
Record t := mk {
  MaxInProgressTasks : Z;
  RateLimiting : option TokenBucketRateLimiting.t;
  DequeuingPaused : bool;
}.
End DequeuingSettings.
Module DeadLetterQueueConfig.
Record t := mk { Enable : bool; MaxSize : Z; RetentionPeriodInSeconds : Z }.
End DeadLetterQueueConfig.

Module Queue.
Record t := mk {
  Name : bytes;
  Description : bytes;
  CreatedAt : Z;
  UpdatedAt : Z;
  Version : Z;
  KeepaliveTimeoutInSeconds : Z;
  ExpiresInSeconds : Z;
  RetryStrategy : option RetryStrategy.t;
  DequeuingSettings : option DequeuingSettings.t;
  DeadLetterQueueConfig : option DeadLetterQueueConfig.t;
}.
End Queue.
Module QueueStats.
Record t := mk {
  EnqueuedTasksCount : Z;
  InProgressTasksCount : Z;
  DeadTasksCount : Z;
  ProcessedTasksCount : Z;
  ExpiredTasksCount : Z;
  AgeOfOldestEnqueuedTask : Z;
}.
End QueueStats.
Module Task.
Record t := mk {
  Id : bytes;
  Payload : bytes;
  CreatedAt : Z;
  ScheduledAt : Z;
  ExpiresAt : Z;
  Attempts : Z;
  DedupeKey : bytes;
  ThreadId : bytes;
  State : TaskState;
  VisibleAt : Z;
}.
End Task.
Module Schedule.
Record t := mk {
  Name : bytes;
  Description : bytes;
  QueueName : bytes;
  CreatedAt : Z;
  UpdatedAt : Z;
  Cron : bytes;
  Version : Z;
  Payload : bytes;
  DedupeKey : bytes;
  ExpiresInSeconds : Z;
  RetryStrategy : option RetryStrategy.t;
  Timezone : bytes;
}.
End Schedule.

Module CreateQueueRequest.
Record t := mk {
  Name : bytes;
  Description : bytes;
  KeepaliveTimeoutInSeconds : Z;
  RetryStrategy : option RetryStrategy.t;
  DequeuingSettings : option DequeuingSettings.t;
  DeadLetterQueueConfig : option DeadLetterQueueConfig.t;
  ExpiresInSeconds : Z;
}.
End CreateQueueRequest.
Module UpdateQueueRequest.
Record t := mk {
  QueueName : bytes;
  Description : bytes;
  KeepaliveTimeoutInSeconds : Z;
  RetryStrategy : option RetryStrategy.t;
  DequeuingSettings : option DequeuingSettings.t;
  DeadLetterQueueConfig : option DeadLetterQueueConfig.t;
  ExpiresInSeconds : Z;
  ExpectedVersion : Z;
}.
End UpdateQueueRequest.
(** [GetQueueRequest], [DeleteQueueRequest] and [PurgeQueueRequest] hold a name. *)
Module QueueNameRequest.
Record t := mk { QueueName : bytes }.
End QueueNameRequest.
Module ListQueuesRequest.
Record t := mk { PaginationToken : bytes; Limit : Z }.
End ListQueuesRequest.
Module CreateScheduleRequest.
Record t := mk {
  QueueName : bytes;
  Name : bytes;
  Description : bytes;
  Cron : bytes;
  Payload : bytes;
  DedupeKey : bytes;
  ExpiresInSeconds : Z;
  RetryStrategy : option RetryStrategy.t;
  Timezone : bytes;
}.
End CreateScheduleRequest.
Module UpdateScheduleRequest.
Record t := mk {
  QueueName : bytes;
  ScheduleName : bytes;
  Description : bytes;
  Cron : bytes;
  Payload : bytes;
  DedupeKey : bytes;
  ExpiresInSeconds : Z;
  RetryStrategy : option RetryStrategy.t;
  Timezone : bytes;
  ExpectedVersion : Z;
}.
End UpdateScheduleRequest.
(** [GetScheduleRequest] and [DeleteScheduleRequest]. *)
Module ScheduleNameRequest.
Record t := mk { QueueName : bytes; ScheduleName : bytes }.
End ScheduleNameRequest.
Module ListSchedulesRequest.
Record t := mk { QueueName : bytes; PaginationToken : bytes; Limit : Z }.
End ListSchedulesRequest.
Module EnqueueRequestEntry.
Record t := mk {
  Payload : bytes;
  ScheduledAt : Z;
  ExpiresAt : Z;
  DedupeKey : bytes;
  ThreadId : bytes;
  RetryStrategy : option RetryStrategy.t;
  OverwriteOnDuplicate : list OverwriteOnDuplicate;
}.
End EnqueueRequestEntry.
Module EnqueueRequest.
Record t := mk { QueueName : bytes; Entries : list EnqueueRequestEntry.t }.
End EnqueueRequest.
Module DequeueRequest.
Record t := mk { QueueName : bytes; BatchSize : Z; KeepaliveTimeoutInSeconds : Z }.
End DequeueRequest.
Module ReportStatusRequestEntry.
Record t := mk { TaskId : bytes; Status : Status; Attempt : Z; KeepaliveTimeoutInSeconds : Z }.
End ReportStatusRequestEntry.
Module ReportStatusRequest.
Record t := mk { QueueName : bytes; Entries : list ReportStatusRequestEntry.t }.
End ReportStatusRequest.
Module ReportStatusResponseEntry.
Record t := mk { TaskId : bytes; Result : ReportResult }.
End ReportStatusResponseEntry.
Module DeleteTasksRequest.
Record t := mk { QueueName : bytes; TaskIds : list bytes }.
End DeleteTasksRequest.
Module RestartTasksRequestEntry.
Record t := mk { TaskId : bytes; ScheduledAt : Z; ExpiresAt : Z }.
End RestartTasksRequestEntry.
Module RestartTasksRequest.
Record t := mk { QueueName : bytes; Entries : list RestartTasksRequestEntry.t }.
End RestartTasksRequest.
Module RestartTasksResponseEntry.
Record t := mk { TaskId : bytes; Result : RestartResult; Task : option Task.t }.
End RestartTasksResponseEntry.
Module GetTaskRequest.
Record t := mk { QueueName : bytes; TaskId : bytes }.
End GetTaskRequest.
Module ListTasksRequest.
Record t := mk { QueueName : bytes; State : TaskState; PaginationToken : bytes; Limit : Z }.
End ListTasksRequest.
End moabpb.

(** ** [pbconv.go] *)

Definition retryStrategyToFront (s : option RetryStrategy.t) : option moabpb.RetryStrategy.t :=
  (fun s => moabpb.RetryStrategy.mk (RetryStrategy.RetryIntervalsInSeconds s)) <$> s.

Definition retryStrategyToCore (s : option moabpb.RetryStrategy.t) : option RetryStrategy.t :=
  (fun s => RetryStrategy.mk (moabpb.RetryStrategy.RetryIntervalsInSeconds s)) <$> s.

Definition intervalUnitToFront (u : IntervalUnit) : moabpb.IntervalUnit :=
  match u with
  | INTERVAL_UNIT_SECONDS => moabpb.INTERVAL_UNIT_SECONDS
  | INTERVAL_UNIT_MINUTES => moabpb.INTERVAL_UNIT_MINUTES
  | INTERVAL_UNIT_HOURS => moabpb.INTERVAL_UNIT_HOURS
  | _ => moabpb.INTERVAL_UNIT_INVALID
  end.

Definition intervalUnitToCore (u : moabpb.IntervalUnit) : IntervalUnit :=
  match u with
  | moabpb.INTERVAL_UNIT_SECONDS => INTERVAL_UNIT_SECONDS
  | moabpb.INTERVAL_UNIT_MINUTES => INTERVAL_UNIT_MINUTES
  | moabpb.INTERVAL_UNIT_HOURS => INTERVAL_UNIT_HOURS
  | _ => INTERVAL_UNIT_INVALID
  end.

Definition rateLimitingToFront (r : option TokenBucketRateLimiting.t)
    : option moabpb.TokenBucketRateLimiting.t :=
  (fun r => moabpb.TokenBucketRateLimiting.mk (TokenBucketRateLimiting.MaxTokens r)
    (TokenBucketRateLimiting.Interval r) (intervalUnitToFront (TokenBucketRateLimiting.Unit r))) <$> r.

Definition rateLimitingToCore (r : option moabpb.TokenBucketRateLimiting.t)
    : option TokenBucketRateLimiting.t :=
  (fun r => TokenBucketRateLimiting.mk (moabpb.TokenBucketRateLimiting.MaxTokens r)
    (moabpb.TokenBucketRateLimiting.Interval r)
    (intervalUnitToCore (moabpb.TokenBucketRateLimiting.Unit r))) <$> r.

Definition dequeuingSettingsToFront (s : option DequeuingSettings.t)
    : option moabpb.DequeuingSettings.t :=
  (fun s => moabpb.DequeuingSettings.mk (DequeuingSettings.MaxInProgressTasks s)
    (rateLimitingToFront (DequeuingSettings.RateLimiting s)) (DequeuingSettings.DequeuingPaused s)) <$> s.

Definition dequeuingSettingsToCore (s : option moabpb.DequeuingSettings.t)
    : option DequeuingSettings.t :=
  (fun s => DequeuingSettings.mk (moabpb.DequeuingSettings.MaxInProgressTasks s)
    (rateLimitingToCore (moabpb.DequeuingSettings.RateLimiting s))
    (moabpb.DequeuingSettings.DequeuingPaused s)) <$> s.

Definition deadLetterQueueConfigToFront (c : option DeadLetterQueueConfig.t)
    : option moabpb.DeadLetterQueueConfig.t :=
  (fun c => moabpb.DeadLetterQueueConfig.mk (DeadLetterQueueConfig.Enable c)
    (DeadLetterQueueConfig.MaxSize c) (DeadLetterQueueConfig.RetentionPeriodInSeconds c)) <$> c.

Definition deadLetterQueueConfigToCore (c : option moabpb.DeadLetterQueueConfig.t)
    : option DeadLetterQueueConfig.t :=
  (fun c => DeadLetterQueueConfig.mk (moabpb.DeadLetterQueueConfig.Enable c)
    (moabpb.DeadLetterQueueConfig.MaxSize c)
    (moabpb.DeadLetterQueueConfig.RetentionPeriodInSeconds c)) <$> c.

(** Queues and tasks that come back from a core are never nil. *)
Definition queueToFront (q : Queue.t) : moabpb.Queue.t :=
  moabpb.Queue.mk (Queue.Name q) (Queue.Description q) (Queue.CreatedAt q) (Queue.UpdatedAt q)
    (Queue.Version q) (Queue.KeepaliveTimeoutInSeconds q) (Queue.ExpiresInSeconds q)
    (retryStrategyToFront (Queue.RetryStrategy q))
    (dequeuingSettingsToFront (Queue.DequeuingSettings q))
    (deadLetterQueueConfigToFront (Queue.DeadLetterQueueConfig q)).

Definition queuesToFront (l : list Queue.t) : list moabpb.Queue.t := queueToFront <$> l.

Definition overwriteToCore (o : moabpb.OverwriteOnDuplicate) : OverwriteOnDuplicate :=
  match o with
  | moabpb.OVERWRITE_ON_DUPLICATE_SCHEDULED_AT => OVERWRITE_ON_DUPLICATE_SCHEDULED_AT
  | moabpb.OVERWRITE_ON_DUPLICATE_PAYLOAD => OVERWRITE_ON_DUPLICATE_PAYLOAD
  | moabpb.OVERWRITE_ON_DUPLICATE_EXPIRES_AT => OVERWRITE_ON_DUPLICATE_EXPIRES_AT
  | _ => OVERWRITE_ON_DUPLICATE_INVALID
  end.
Definition overwriteOnDuplicateToCore (l : list moabpb.OverwriteOnDuplicate)
    : list OverwriteOnDuplicate := overwriteToCore <$> l.

Definition queueStatsToFront (r : GetStatisticsResponse.t) : moabpb.QueueStats.t :=
  moabpb.QueueStats.mk (GetStatisticsResponse.EnqueuedTasksCount r)
    (GetStatisticsResponse.InProgressTasksCount r) (GetStatisticsResponse.DeadTasksCount r)
    (GetStatisticsResponse.ProcessedTasksCount r) (GetStatisticsResponse.ExpiredTasksCount r)
    (GetStatisticsResponse.AgeOfOldestEnqueuedTask r).

Definition taskStateToFront (s : TaskState) : moabpb.TaskState :=
  match s with
  | TASK_STATE_ENQUEUED => moabpb.TASK_STATE_ENQUEUED
  | TASK_STATE_IN_PROGRESS => moabpb.TASK_STATE_IN_PROGRESS
  | TASK_STATE_DEAD => moabpb.TASK_STATE_DEAD
  | _ => moabpb.TASK_STATE_INVALID
  end.

Definition taskStateFilterToCore (s : moabpb.TaskState) : TaskState :=
  match s with
  | moabpb.TASK_STATE_ENQUEUED => TASK_STATE_ENQUEUED
  | moabpb.TASK_STATE_IN_PROGRESS => TASK_STATE_IN_PROGRESS
  | moabpb.TASK_STATE_DEAD => TASK_STATE_DEAD
  | _ => TASK_STATE_INVALID
  end.

Definition restartResultToFront (r : RestartResult) : moabpb.RestartResult :=
  match r with
  | RESTART_RESTARTED => moabpb.RESTART_RESTARTED
  | RESTART_NOT_FOUND => moabpb.RESTART_NOT_FOUND
  | RESTART_NOT_DEAD => moabpb.RESTART_NOT_DEAD
  | RESTART_DEDUPE_CONFLICT => moabpb.RESTART_DEDUPE_CONFLICT
  | _ => moabpb.RESTART_INVALID
  end.

(** [None] is the error "unrecognized value". *)
Definition reportedStatusToCore (s : moabpb.Status) : option Status :=
  match s with
  | moabpb.STATUS_FAILED => Some STATUS_FAILED
  | moabpb.STATUS_IN_PROGRESS => Some STATUS_IN_PROGRESS
  | moabpb.STATUS_SUCCEEDED => Some STATUS_SUCCEEDED
  | _ => None
  end.

Definition reportStatusResultToFront (r : ReportResult) : moabpb.ReportResult :=
  match r with
  | RESULT_OK => moabpb.RESULT_OK
  | RESULT_NOT_FOUND => moabpb.RESULT_NOT_FOUND
  | RESULT_NOT_IN_PROGRESS => moabpb.RESULT_NOT_IN_PROGRESS
  | RESULT_STALE_ATTEMPT => moabpb.RESULT_STALE_ATTEMPT
  | _ => moabpb.RESULT_INVALID
  end.

Definition scheduleToFront (queueName : bytes) (s : Schedule.t) : moabpb.Schedule.t :=
  moabpb.Schedule.mk (Schedule.Name s) (Schedule.Description s) queueName (Schedule.CreatedAt s)
    (Schedule.UpdatedAt s) (Schedule.Cron s) (Schedule.Version s) (Schedule.Payload s)
    (Schedule.DedupeKey s) (Schedule.ExpiresInSeconds s)
    (retryStrategyToFront (Schedule.RetryStrategy s)) (Schedule.Timezone s).

Definition schedulesToFront (l : list Schedule.t) (queueName : bytes) : list moabpb.Schedule.t :=
  scheduleToFront queueName <$> l.

Section with_ids.
Context {B : Base62}.

Definition taskToFront (t : Task.t) : moabpb.Task.t :=
  moabpb.Task.mk (EncodeTaskId (TaskId.TaskId (Task.Id t))) (Task.Payload t) (Task.CreatedAt t)
    (Task.ScheduledAt t) (Task.ExpiresAt t) (Task.Attempts t) (Task.DedupeKey t) (Task.ThreadId t)
    (taskStateToFront (Task.State t)) (Task.VisibleAt t).

Definition tasksToFront (l : list Task.t) : list moabpb.Task.t := taskToFront <$> l.

Definition restartTasksResponseEntriesToFront (l : list RestartTasksResponseEntry.t)
    : list moabpb.RestartTasksResponseEntry.t :=
  (fun e => moabpb.RestartTasksResponseEntry.mk
     (EncodeTaskId (RestartTasksResponseEntry.TaskId e))
     (restartResultToFront (RestartTasksResponseEntry.Result e))
     (taskToFront <$> RestartTasksResponseEntry.Task e)) <$> l.

Definition reportStatusResponseEntriesToFront (l : list ReportStatusResponseEntry.t)
    : list moabpb.ReportStatusResponseEntry.t :=
  (fun e => moabpb.ReportStatusResponseEntry.mk
     (EncodeTaskId (TaskId.TaskId (ReportStatusResponseEntry.TaskId e)))
     (reportStatusResultToFront (ReportStatusResponseEntry.Result e))) <$> l.
End with_ids.

(** ** Pagination tokens

    [base64.StdEncoding] and the protobuf encoding of a token. *)
Class TokenCodec : Type := {
  base64_Encode : bytes -> bytes;
  base64_Decode : bytes -> option bytes;
  token_Marshal : CorePaginationToken.t -> option bytes;
  token_Unmarshal : bytes -> option CorePaginationToken.t;
}.

(** Decoding inverts encoding, and a marshalled token is not empty: one with a key has at
    least that field. *)
Class TokenCodecOk (TC : TokenCodec) : Prop := {
  base64_roundtrip b : base64_Decode (base64_Encode b) = Some b;
  base64_nonempty b : b <> [] -> base64_Encode b <> [];
  token_marshals tok : exists b, token_Marshal tok = Some b;
  token_roundtrip tok b : token_Marshal tok = Some b -> token_Unmarshal b = Some tok;
  token_nonempty tok b :
    CorePaginationToken.Value tok <> [] -> token_Marshal tok = Some b -> b <> [];
}.

Section tokens.
Context {TC : TokenCodec}.

(** [None] is an error. *)
Definition paginationTokenToFront (paginationToken : option CorePaginationToken.t)
    : option bytes :=
  match paginationToken with
  | None => Some []
  | Some tok => base64_Encode <$> token_Marshal tok
  end.

Definition paginationTokenToCore (paginationTokenBase64 : bytes)
    : option (option CorePaginationToken.t) :=
  if decide (paginationTokenBase64 = []) then Some None
  else b ← base64_Decode paginationTokenBase64; Some <$> token_Unmarshal b.

Context {TCO : TokenCodecOk TC}.

(** A token the gateway hands out comes back as the token the core issued. *)
Lemma paginationToken_roundtrip tok s :
  (forall t, tok = Some t -> CorePaginationToken.Value t <> []) ->
  paginationTokenToFront tok = Some s -> paginationTokenToCore s = Some tok.
Proof.
  destruct tok as [t|]; cbn; [|by intros _ [= <-]].
  intros Hne. destruct (token_Marshal t) as [b|] eqn:E; [|done]. intros [= <-].
  unfold paginationTokenToCore. rewrite decide_False.
  - rewrite base64_roundtrip. cbn. by rewrite (token_roundtrip t b E).
  - apply base64_nonempty. apply (token_nonempty t); [by apply Hne|done].
Qed.
End tokens.

(** ** [vtproto.go]

    A value that gRPC hands to the codec may have the generated methods, be a message of the
    first or of the second protobuf interface, or none of these; the tests and the protobuf
    runtime are named by [ProtoRuntime].  [inl] is an error; decoding a value returns it as it
    is afterwards. *)

Class ProtoRuntime : Type := {
  any : Type;
  type_name : any -> bytes;                     (** [%T] *)
  MessageV1 : Type;
  MessageV2 : Type;
  is_vtproto : any -> option ((bytes + bytes) * (bytes -> bytes + any));  (** [MarshalVT], [UnmarshalVT] *)
  is_MessageV1 : any -> option MessageV1;
  is_MessageV2 : any -> option MessageV2;
  MessageV2Of : MessageV1 -> MessageV2;
  proto_Marshal : MessageV2 -> bytes + bytes;
  proto_Unmarshal : bytes -> MessageV2 -> bytes + any;
}.

Section codec.
Context {R : ProtoRuntime}.

Definition codecName : bytes := str "proto".

Definition messageV2Of (v : any) : option MessageV2 :=
  match is_MessageV1 v with
  | Some m => Some (MessageV2Of m)
  | None => is_MessageV2 v
  end.

Definition codec_Marshal (v : any) : bytes + bytes :=
  match is_vtproto v with
  | Some vt => vt.1
  | None =>
      match messageV2Of v with
      | None => inl (str "failed to marshal, message is " ++ type_name v ++ str ", want proto.Message")
      | Some m => proto_Marshal m
      end
  end.

Definition codec_Unmarshal (data : bytes) (v : any) : bytes + any :=
  match is_vtproto v with
  | Some vt => vt.2 data
  | None =>
      match messageV2Of v with
      | None => inl (str "failed to unmarshal, message is " ++ type_name v ++ str ", want proto.Message")
      | Some m => proto_Unmarshal data m
      end
  end.

Definition codec_Name : bytes := codecName.

(** A value that is any kind of message. *)
Definition is_message (v : any) : Prop :=
  is_Some (is_vtproto v) \/ is_Some (is_MessageV1 v) \/ is_Some (is_MessageV2 v).

(** The codec turns no message away: it fails by itself only on a value that is none, and
    what the runtime reads back for the messages of the process it reads back too. *)
Lemma codec_serves_every_message (same : any -> any -> Prop) :
  (forall v v0, same v v0 -> is_message v ->
     match is_vtproto v, is_vtproto v0 with
     | Some x, Some x0 => forall b, x.1 = inr b -> x0.2 b = inr v
     | None, None => forall m, messageV2Of v = Some m ->
         exists m0, messageV2Of v0 = Some m0 /\ forall b, proto_Marshal m = inr b -> proto_Unmarshal b m0 = inr v
     | _, _ => False
     end) ->
  forall v v0 b, same v v0 -> is_message v -> codec_Marshal v = inr b -> codec_Unmarshal b v0 = inr v.
Proof.
  intros Hrt v v0 b Hs Hm. specialize (Hrt v v0 Hs Hm). unfold codec_Marshal, codec_Unmarshal.
  destruct (is_vtproto v) as [x|] eqn:Ex, (is_vtproto v0) as [x0|]; [by apply Hrt|done|done|].
  destruct (messageV2Of v) as [m|] eqn:Em; [|done]. destruct (Hrt m eq_refl) as (m0 & -> & Hb). apply Hb.
Qed.
End codec.
