(* ===== verification/FrontValidators.v ===== *)
(** * Validation of API requests ([pkg/server/v0/validators.go])

    The checks the gateway makes before it looks at a request.  The bounds are declared
    again here, as in the source. *)

From S2P Require Export Front.

Definition maxNameLength : Z := 128.
Definition maxDescriptionLength : Z := 1024.
Definition maxPaginationTokenLength : Z := 1024.
Definition maxDedupeKeyLength : Z := 256.
Definition maxKeepaliveTimeoutInSeconds : Z := 60.
Definition minKeepaliveTimeoutInSeconds : Z := 5.
Definition maxExpiresTimeoutInSeconds : Z := 14 * 86400.
Definition minExpiresTimeoutInSeconds : Z := 60.
Definition maxPayloadSize : Z := 64 * 1024.
Definition maxNumberOfRetryIntervalsInSeconds : Z := 21.
Definition maxRetryIntervalInSeconds : Z := 60 * 15.
Definition maxNumberOfTaskIds : Z := 50.
Definition maxNumberOfEnqueueRequestEntries : Z := 50.
Definition maxNumberOfReportStatusEntries : Z := 50.
Definition maxDLQRetentionPeriod : Z := 14 * 86400.

(** [^[-_0-9a-zA-Z]*$] *)
Definition nameRegex (s : bytes) : bool :=
  forallb (fun c => is_alnum c || (c =? 45) || (c =? 95)) s.

Definition invalid (fieldName details : string) : error :=
  if String.eqb details "" then Some ("invalid " +:+ fieldName)
  else Some ("invalid " +:+ fieldName +:+ ": " +:+ details).

(** [if b { return invalid(fieldName, details) }] *)
Definition invalid_if (b : bool) (fieldName details : string) : error :=
  if b then invalid fieldName details else None.

(** Bytes in a message ([%s]). *)
Definition show (b : bytes) : string :=
  String.string_of_list_ascii ((fun c => Ascii.ascii_of_N (Z.to_N c)) <$> b).

(** [name[i]] *)
Definition indexed (name : string) (i : nat) : string := name +:+ "[" +:+ pretty i +:+ "]".

Lemma invalid_if_None b f d : invalid_if b f d = None <-> b = false.
Proof. unfold invalid_if, invalid. destruct b; [|done]. by destruct (String.eqb d ""). Qed.
#[export] Hint Rewrite invalid_if_None : go_errors.

(** ** Field validators *)

Definition validateString (value : bytes) (minLength maxLength : Z) (regex : bytes -> bool)
    (pattern fieldName : string) : error :=
  invalid_if ((len value >? maxLength) || (len value <? minLength)) fieldName
    ("length must be between " +:+ pretty minLength +:+ " and " +:+ pretty maxLength +:+
     " characters") ?>
  invalid_if (negb (regex value)) fieldName ("must match regex pattern " +:+ pattern).

Definition validateQueueName (value : bytes) (fieldName : string) : error :=
  validateString value 1 maxNameLength nameRegex "^[-_0-9a-zA-Z]*$" fieldName.
Definition validateScheduleName (value : bytes) (fieldName : string) : error :=
  validateString value 1 maxNameLength nameRegex "^[-_0-9a-zA-Z]*$" fieldName.

Definition validateDescription (value : bytes) (fieldName : string) : error :=
  invalid_if (len value >? maxDescriptionLength) fieldName
    ("exceeds max length (" +:+ pretty maxDescriptionLength +:+ ")").

Definition validateKeepaliveTimeoutInSeconds (value : Z) (fieldName : string) : error :=
  invalid_if ((value <? minKeepaliveTimeoutInSeconds) || (value >? maxKeepaliveTimeoutInSeconds))
    fieldName ("must be between " +:+ pretty minKeepaliveTimeoutInSeconds +:+ " and " +:+
               pretty maxKeepaliveTimeoutInSeconds +:+ " seconds").

Definition validateExpiresInSeconds (value : Z) (fieldName : string) : error :=
  invalid_if ((value <? minExpiresTimeoutInSeconds) || (value >? maxExpiresTimeoutInSeconds))
    fieldName ("must be between " +:+ pretty minExpiresTimeoutInSeconds +:+ " and " +:+
               pretty maxExpiresTimeoutInSeconds +:+ " seconds").

Definition validateRetryStrategy (value : option moabpb.RetryStrategy.t) (fieldName : string)
    : error :=
  match value with
  | None => None
  | Some value =>
      let intervals := moabpb.RetryStrategy.RetryIntervalsInSeconds value in
      let field := fieldName +:+ ".RetryIntervalsInSeconds" in
      invalid_if (len intervals >? maxNumberOfRetryIntervalsInSeconds) field
        ("exceeds max length (" +:+ pretty maxNumberOfRetryIntervalsInSeconds +:+ ")") ?>
      range_check intervals (fun i interval =>
        invalid_if ((interval <? 0) || (interval >? maxRetryIntervalInSeconds)) (indexed field i)
          ("must be between 0 and " +:+ pretty maxRetryIntervalInSeconds +:+ " seconds"))
  end.

(** The units the switch accepts. *)
Definition recognized_unit (u : moabpb.IntervalUnit) : bool :=
  match u with
  | moabpb.INTERVAL_UNIT_SECONDS | moabpb.INTERVAL_UNIT_MINUTES | moabpb.INTERVAL_UNIT_HOURS => true
  | _ => false
  end.

Definition validateDequeuingSettings (value : option moabpb.DequeuingSettings.t)
    (fieldName : string) : error :=
  match value with
  | None => None
  | Some value =>
      invalid_if (moabpb.DequeuingSettings.MaxInProgressTasks value <? 0)
        (fieldName +:+ ".MaxInProgressTasks") "max in progress tasks must be non-negative" ?>
      match moabpb.DequeuingSettings.RateLimiting value with
      | None => None
      | Some r =>
          invalid_if (moabpb.TokenBucketRateLimiting.Interval r <? 0)
            (fieldName +:+ ".RateLimiting.Interval")
            "rate limiting interval must be non-negative" ?>
          invalid_if (moabpb.TokenBucketRateLimiting.MaxTokens r <? 0)
            (fieldName +:+ ".RateLimiting.MaxTokens")
            "rate limiting max tokens must be non-negative" ?>
          invalid_if (negb (recognized_unit (moabpb.TokenBucketRateLimiting.Unit r)))
            (fieldName +:+ ".RateLimiting.IntervalUnit") "unrecognized value"
      end
  end.

Definition validateDeadLetterQueueConfig (value : option moabpb.DeadLetterQueueConfig.t)
    (fieldName : string) : error :=
  match value with
  | None => None
  | Some value =>
      let retention := moabpb.DeadLetterQueueConfig.RetentionPeriodInSeconds value in
      invalid_if (moabpb.DeadLetterQueueConfig.MaxSize value <? 0) (fieldName +:+ ".MaxSize")
        "max size must be non-negative" ?>
      invalid_if ((retention <? minExpiresTimeoutInSeconds) || (retention >? maxDLQRetentionPeriod))
        (fieldName +:+ ".RetentionPeriodInSeconds")
        ("retention period must be between " +:+ pretty minExpiresTimeoutInSeconds +:+ " and " +:+
         pretty maxDLQRetentionPeriod +:+ " seconds")
  end.

Definition validateLimit (value : Z) (fieldName : string) : error :=
  invalid_if ((value <? 0) || (value >? MaxPaginationLimit)) fieldName
    ("must be between 0 and " +:+ pretty MaxPaginationLimit).

Section validators.
Context {B : Base62} {G : Gronx} {C : CronLib} {TC : TokenCodec}.

Definition validateTimezone (value : bytes) (fieldName : string) : error :=
  invalid_if (bool_decide (value = [])) fieldName "must not be empty" ?>
  invalid_if (bool_decide (LoadLocation value = None)) fieldName "invalid timezone".

Definition validateCron (value : bytes) (fieldName : string) : error :=
  invalid_if (negb (IsValid value)) fieldName "invalid cron expression".

Definition validatePaginationToken (value : bytes) (fieldName : string) : error :=
  invalid_if (len value >? maxPaginationTokenLength) fieldName
    ("exceeds max length (" +:+ pretty maxPaginationTokenLength +:+ ")") ?>
  invalid_if (bool_decide (base64_Decode value = None)) fieldName "must be a valid base64 string".

Definition validateTaskId (value : bytes) (fieldName : string) : error :=
  invalid_if (bool_decide (DecodeTaskId value = None)) fieldName "invalid task id".

(** The loop of [validateTaskIds]; [taskIds] is the set of ids seen so far. *)
Fixpoint check_task_ids (taskIds : gset bytes) (i : nat) (value : list bytes) (fieldName : string)
    : error :=
  match value with
  | [] => None
  | id :: value =>
      invalid_if (bool_decide (id ∈ taskIds)) fieldName
        ("task ids must be unique, " +:+ show id +:+ " is duplicated") ?>
      validateTaskId id (indexed fieldName i) ?>
      check_task_ids ({[id]} ∪ taskIds) (S i) value fieldName
  end.

Definition validateTaskIds (value : list bytes) (fieldName : string) : error :=
  invalid_if ((len value <? 1) || (len value >? maxNumberOfTaskIds)) fieldName
    ("task ids must be between 1 and " +:+ pretty maxNumberOfTaskIds) ?>
  check_task_ids ∅ 0 value fieldName.

(** ** Requests *)

(** The values the switch accepts. *)
Definition recognized_overwrite (o : moabpb.OverwriteOnDuplicate) : bool :=
  match o with
  | moabpb.OVERWRITE_ON_DUPLICATE_EXPIRES_AT | moabpb.OVERWRITE_ON_DUPLICATE_PAYLOAD
  | moabpb.OVERWRITE_ON_DUPLICATE_SCHEDULED_AT => true
  | _ => false
  end.

(** The body of the loop over the entries. *)
Definition validateEnqueueEntry (i : nat) (e : moabpb.EnqueueRequestEntry.t) : error :=
  let field := indexed "EnqueueRequest.Entries" i in
  invalid_if (len (moabpb.EnqueueRequestEntry.DedupeKey e) >? maxDedupeKeyLength)
    (field +:+ ".DedupeKey") ("exceeds max length (" +:+ pretty maxDedupeKeyLength +:+ ")") ?>
  validateRetryStrategy (moabpb.EnqueueRequestEntry.RetryStrategy e) (field +:+ ".RetryStrategy") ?>
  invalid_if (moabpb.EnqueueRequestEntry.ExpiresAt e <? 0) (field +:+ ".ExpiresAt")
    "must be non-negative" ?>
  invalid_if (moabpb.EnqueueRequestEntry.ScheduledAt e <? 0) (field +:+ ".ScheduledAt")
    "must be non-negative" ?>
  invalid_if (len (moabpb.EnqueueRequestEntry.Payload e) >? maxPayloadSize) (field +:+ ".Payload")
    ("exceeds max payload size (" +:+ pretty maxPayloadSize +:+ " bytes)") ?>
  invalid_if ((len (moabpb.EnqueueRequestEntry.OverwriteOnDuplicate e) >? 0) &&
              (len (moabpb.EnqueueRequestEntry.DedupeKey e) =? 0))
    (field +:+ ".OverwriteOnDuplicate")
    "OverwriteOnDuplicate can be set only when DedupeKey is set" ?>
  range_check (moabpb.EnqueueRequestEntry.OverwriteOnDuplicate e) (fun j o =>
    invalid_if (negb (recognized_overwrite o)) (indexed (field +:+ ".OverwriteOnDuplicate") j)
      "unrecognized value").

Definition ValidateEnqueueRequest (req : moabpb.EnqueueRequest.t) : error :=
  let entries := moabpb.EnqueueRequest.Entries req in
  validateQueueName (moabpb.EnqueueRequest.QueueName req) "EnqueueRequest.QueueName" ?>
  invalid_if (len entries =? 0) "EnqueueRequest.Entries" "must not be empty" ?>
  invalid_if (len entries >? maxNumberOfEnqueueRequestEntries) "EnqueueRequest.Entries"
    ("exceeds max number of entries (" +:+ pretty maxNumberOfEnqueueRequestEntries +:+ ")") ?>
  range_check entries validateEnqueueEntry.

Definition ValidateDequeueRequest (req : moabpb.DequeueRequest.t) : error :=
  validateQueueName (moabpb.DequeueRequest.QueueName req) "DequeueRequest.QueueName" ?>
  invalid_if (moabpb.DequeueRequest.BatchSize req <=? 0) "DequeueRequest.BatchSize"
    "must be greater than 0" ?>
  (if negb (moabpb.DequeueRequest.KeepaliveTimeoutInSeconds req =? 0)
   then validateKeepaliveTimeoutInSeconds (moabpb.DequeueRequest.KeepaliveTimeoutInSeconds req)
          "DequeueRequest.KeepaliveTimeoutInSeconds"
   else None).

Definition ValidatePurgeQueueRequest (req : moabpb.QueueNameRequest.t) : error :=
  validateQueueName (moabpb.QueueNameRequest.QueueName req) "PurgeQueueRequest.QueueName".

Definition ValidateGetTaskRequest (req : moabpb.GetTaskRequest.t) : error :=
  validateQueueName (moabpb.GetTaskRequest.QueueName req) "GetTaskRequest.QueueName" ?>
  invalid_if (bool_decide (DecodeTaskId (moabpb.GetTaskRequest.TaskId req) = None))
    "GetTaskRequest.TaskId" "".

(** The states the switch accepts. *)
Definition recognized_state (s : moabpb.TaskState) : bool :=
  match s with moabpb.TASK_STATE_OTHER _ => false | _ => true end.

Definition ValidateListTasksRequest (req : moabpb.ListTasksRequest.t) : error :=
  validateQueueName (moabpb.ListTasksRequest.QueueName req) "ListTasksRequest.QueueName" ?>
  invalid_if (negb (recognized_state (moabpb.ListTasksRequest.State req)))
    "ListTasksRequest.State" "unrecognized value" ?>
  validatePaginationToken (moabpb.ListTasksRequest.PaginationToken req)
    "ListTasksRequest.PaginationToken" ?>
  validateLimit (moabpb.ListTasksRequest.Limit req) "ListTasksRequest.Limit".

(** The statuses the switch accepts. *)
Definition recognized_status (s : moabpb.Status) : bool :=
  match s with
  | moabpb.STATUS_SUCCEEDED | moabpb.STATUS_IN_PROGRESS | moabpb.STATUS_FAILED => true
  | _ => false
  end.

Definition ValidateReportStatusRequest (req : moabpb.ReportStatusRequest.t) : error :=
  let entries := moabpb.ReportStatusRequest.Entries req in
  validateQueueName (moabpb.ReportStatusRequest.QueueName req) "ReportStatusRequest.QueueName" ?>
  invalid_if (len entries =? 0) "ReportStatusRequest.Entries" "must not be empty" ?>
  invalid_if (len entries >? maxNumberOfReportStatusEntries) "ReportStatusRequest.Entries"
    ("exceeds max number of entries (" +:+ pretty maxNumberOfReportStatusEntries +:+ ")") ?>
  range_check entries (fun i e =>
    let field := indexed "ReportStatusRequest.Entries" i in
    validateTaskId (moabpb.ReportStatusRequestEntry.TaskId e) (field +:+ ".TaskId") ?>
    invalid_if (moabpb.ReportStatusRequestEntry.Attempt e <=? 0) (field +:+ ".Attempt")
      "must be greater than 0" ?>
    invalid_if (negb (recognized_status (moabpb.ReportStatusRequestEntry.Status e)))
      "ReportStatusRequest.Status" "unrecognized value" ?>
    (if negb (moabpb.ReportStatusRequestEntry.KeepaliveTimeoutInSeconds e =? 0)
     then validateKeepaliveTimeoutInSeconds
            (moabpb.ReportStatusRequestEntry.KeepaliveTimeoutInSeconds e)
            (field +:+ ".KeepaliveTimeoutInSeconds")
     else None)).

Definition ValidateDeleteTasksRequest (req : moabpb.DeleteTasksRequest.t) : error :=
  validateQueueName (moabpb.DeleteTasksRequest.QueueName req) "DeleteTasksRequest.QueueName" ?>
  validateTaskIds (moabpb.DeleteTasksRequest.TaskIds req) "DeleteTasksRequest.TaskIds".

(** The loop over the entries; [seen] is the set of ids so far. *)
Fixpoint check_restart_entries (seen : gset bytes) (i : nat)
    (entries : list moabpb.RestartTasksRequestEntry.t) : error :=
  match entries with
  | [] => None
  | e :: entries =>
      let fieldName := indexed "RestartTasksRequest.Entries" i in
      let taskId := moabpb.RestartTasksRequestEntry.TaskId e in
      invalid_if (bool_decide (taskId ∈ seen)) (fieldName +:+ ".TaskId")
        ("task ids must be unique, " +:+ show taskId +:+ " is duplicated") ?>
      validateTaskId taskId (fieldName +:+ ".TaskId") ?>
      invalid_if (moabpb.RestartTasksRequestEntry.ScheduledAt e <? 0)
        (fieldName +:+ ".ScheduledAt") "must be non-negative" ?>
      invalid_if (moabpb.RestartTasksRequestEntry.ExpiresAt e <? 0)
        (fieldName +:+ ".ExpiresAt") "must be non-negative" ?>
      check_restart_entries ({[taskId]} ∪ seen) (S i) entries
  end.

Definition ValidateRestartTasksRequest (req : moabpb.RestartTasksRequest.t) : error :=
  let entries := moabpb.RestartTasksRequest.Entries req in
  validateQueueName (moabpb.RestartTasksRequest.QueueName req) "RestartTasksRequest.QueueName" ?>
  invalid_if ((len entries <? 1) || (len entries >? maxNumberOfTaskIds))
    "RestartTasksRequest.Entries" ("must be between 1 and " +:+ pretty maxNumberOfTaskIds) ?>
  check_restart_entries ∅ 0 entries.

Definition ValidateListQueuesRequest (req : moabpb.ListQueuesRequest.t) : error :=
  validatePaginationToken (moabpb.ListQueuesRequest.PaginationToken req)
    "ListQueuesRequest.PaginationToken" ?>
  validateLimit (moabpb.ListQueuesRequest.Limit req) "ListQueuesRequest.Limit".

Definition ValidateGetQueueRequest (req : moabpb.QueueNameRequest.t) : error :=
  validateQueueName (moabpb.QueueNameRequest.QueueName req) "GetQueueRequest.QueueName".

Definition ValidateCreateQueueRequest (req : moabpb.CreateQueueRequest.t) : error :=
  validateQueueName (moabpb.CreateQueueRequest.Name req) "CreateQueueRequest.Name" ?>
  validateDescription (moabpb.CreateQueueRequest.Description req) "CreateQueueRequest.Description" ?>
  validateDequeuingSettings (moabpb.CreateQueueRequest.DequeuingSettings req)
    "CreateQueueRequest.DequeuingSettings" ?>
  validateDeadLetterQueueConfig (moabpb.CreateQueueRequest.DeadLetterQueueConfig req)
    "CreateQueueRequest.DeadLetterQueueConfig" ?>
  validateRetryStrategy (moabpb.CreateQueueRequest.RetryStrategy req)
    "CreateQueueRequest.RetryStrategy" ?>
  validateKeepaliveTimeoutInSeconds (moabpb.CreateQueueRequest.KeepaliveTimeoutInSeconds req)
    "CreateQueueRequest.KeepaliveTimeoutInSeconds" ?>
  validateExpiresInSeconds (moabpb.CreateQueueRequest.ExpiresInSeconds req)
    "CreateQueueRequest.ExpiresInSeconds".

Definition ValidateUpdateQueueRequest (req : moabpb.UpdateQueueRequest.t) : error :=
  validateQueueName (moabpb.UpdateQueueRequest.QueueName req) "UpdateQueueRequest.QueueName" ?>
  validateDescription (moabpb.UpdateQueueRequest.Description req) "UpdateQueueRequest.Description" ?>
  validateRetryStrategy (moabpb.UpdateQueueRequest.RetryStrategy req)
    "UpdateQueueRequest.RetryStrategy" ?>
  validateDequeuingSettings (moabpb.UpdateQueueRequest.DequeuingSettings req)
    "UpdateQueueRequest.DequeuingSettings" ?>
  validateDeadLetterQueueConfig (moabpb.UpdateQueueRequest.DeadLetterQueueConfig req)
    "UpdateQueueRequest.DeadLetterQueueConfig" ?>
  validateExpiresInSeconds (moabpb.UpdateQueueRequest.ExpiresInSeconds req)
    "UpdateQueueRequest.ExpiresInSeconds" ?>
  validateKeepaliveTimeoutInSeconds (moabpb.UpdateQueueRequest.KeepaliveTimeoutInSeconds req)
    "UpdateQueueRequest.KeepaliveTimeoutInSeconds" ?>
  invalid_if (moabpb.UpdateQueueRequest.ExpectedVersion req <=? 0)
    "UpdateQueueRequest.ExpectedVersion" "must be greater than 0".

Definition ValidateDeleteQueueRequest (req : moabpb.QueueNameRequest.t) : error :=
  validateQueueName (moabpb.QueueNameRequest.QueueName req) "DeleteQueueRequest.QueueName".

Definition ValidateGetScheduleRequest (req : moabpb.ScheduleNameRequest.t) : error :=
  validateQueueName (moabpb.ScheduleNameRequest.QueueName req) "GetScheduleRequest.QueueName" ?>
  validateScheduleName (moabpb.ScheduleNameRequest.ScheduleName req)
    "GetScheduleRequest.ScheduleName".

Definition ValidateListSchedulesRequest (req : moabpb.ListSchedulesRequest.t) : error :=
  validateQueueName (moabpb.ListSchedulesRequest.QueueName req) "ListSchedulesRequest.QueueName" ?>
  validatePaginationToken (moabpb.ListSchedulesRequest.PaginationToken req)
    "ListSchedulesRequest.PaginationToken" ?>
  validateLimit (moabpb.ListSchedulesRequest.Limit req) "ListSchedulesRequest.Limit".

Definition ValidateCreateScheduleRequest (req : moabpb.CreateScheduleRequest.t) : error :=
  validateQueueName (moabpb.CreateScheduleRequest.QueueName req)
    "CreateScheduleRequest.QueueName" ?>
  validateScheduleName (moabpb.CreateScheduleRequest.Name req) "CreateScheduleRequest.Name" ?>
  validateDescription (moabpb.CreateScheduleRequest.Description req)
    "CreateScheduleRequest.Description" ?>
  validateCron (moabpb.CreateScheduleRequest.Cron req) "CreateScheduleRequest.Cron" ?>
  invalid_if (len (moabpb.CreateScheduleRequest.DedupeKey req) >? maxDedupeKeyLength)
    "CreateScheduleRequest.DedupeKey"
    ("exceeds max length (" +:+ pretty maxDedupeKeyLength +:+ ")") ?>
  invalid_if (len (moabpb.CreateScheduleRequest.Payload req) >? maxPayloadSize)
    "CreateScheduleRequest.Payload"
    ("exceeds max size (" +:+ pretty maxPayloadSize +:+ " bytes)") ?>
  (if negb (moabpb.CreateScheduleRequest.ExpiresInSeconds req =? 0)
   then validateExpiresInSeconds (moabpb.CreateScheduleRequest.ExpiresInSeconds req)
          "CreateScheduleRequest.ExpiresInSeconds"
   else None) ?>
  validateRetryStrategy (moabpb.CreateScheduleRequest.RetryStrategy req)
    "CreateScheduleRequest.RetryStrategy" ?>
  validateTimezone (moabpb.CreateScheduleRequest.Timezone req) "CreateScheduleRequest.Timezone".

Definition ValidateUpdateScheduleRequest (req : moabpb.UpdateScheduleRequest.t) : error :=
  validateQueueName (moabpb.UpdateScheduleRequest.QueueName req)
    "UpdateScheduleRequest.QueueName" ?>
  validateScheduleName (moabpb.UpdateScheduleRequest.ScheduleName req)
    "UpdateScheduleRequest.ScheduleName" ?>
  validateDescription (moabpb.UpdateScheduleRequest.Description req)
    "UpdateScheduleRequest.Description" ?>
  (if negb (moabpb.UpdateScheduleRequest.ExpiresInSeconds req =? 0)
   then validateExpiresInSeconds (moabpb.UpdateScheduleRequest.ExpiresInSeconds req)
          "UpdateScheduleRequest.ExpiresInSeconds"
   else None) ?>
  validateRetryStrategy (moabpb.UpdateScheduleRequest.RetryStrategy req)
    "UpdateScheduleRequest.RetryStrategy" ?>
  invalid_if (len (moabpb.UpdateScheduleRequest.Payload req) >? maxPayloadSize)
    "UpdateScheduleRequest.Payload"
    ("exceeds max size (" +:+ pretty maxPayloadSize +:+ " bytes)") ?>
  validateCron (moabpb.UpdateScheduleRequest.Cron req) "UpdateScheduleRequest.Cron" ?>
  invalid_if (len (moabpb.UpdateScheduleRequest.DedupeKey req) >? maxDedupeKeyLength)
    "UpdateScheduleRequest.DedupeKey"
    ("exceeds max length (" +:+ pretty maxDedupeKeyLength +:+ ")") ?>
  validateTimezone (moabpb.UpdateScheduleRequest.Timezone req) "UpdateScheduleRequest.Timezone" ?>
  invalid_if (moabpb.UpdateScheduleRequest.ExpectedVersion req <=? 0)
    "UpdateScheduleRequest.ExpectedVersion" "must be greater than 0".

Definition ValidateDeleteScheduleRequest (req : moabpb.ScheduleNameRequest.t) : error :=
  validateQueueName (moabpb.ScheduleNameRequest.QueueName req) "DeleteScheduleRequest.QueueName" ?>
  validateScheduleName (moabpb.ScheduleNameRequest.ScheduleName req)
    "DeleteScheduleRequest.ScheduleName".
End validators.
