(* ===== verification/LoadGenerator.v ===== *)
(** * The load generator ([tools/dev/load-generator])

    [config.go], [producer.go], [consumer.go], [pacer.go], [queues.go], [stats.go] and the
    wiring of [main.go].  The client of the API ([evrblk-go/moab/v0]) and its errors
    ([evrblk]) are not part of the repository: the class [MoabApi] is what the generator calls
    of the one, [Evrblk] what it reads off the other.  Metrics, logs and the consumer's own
    loop ([MoabConsumer]) are not modelled. *)

From stdpp Require Import strings.
From S2P Require Export GoStd FrontValidators.

(** ** config.go *)

Module Config.
Record t := mk {
  Endpoint : bytes;
  Producers : Z;
  Consumers : Z;
  Queues : Z;
  Duration : Z;
  EnqueueRate : Z;
  PayloadSizeMin : Z;
  PayloadSizeMax : Z;
  BatchSizeMin : Z;
  BatchSizeMax : Z;
  DedupeKeyPct : Z;
  DedupeKeysPerQueue : Z;
  ThreadIdPct : Z;
  ThreadsPerQueue : Z;
  HandlerLatencyMsMin : Z;
  HandlerLatencyMsMax : Z;
  QueueNamePrefix : bytes;
  QueueKeepaliveTimeout : Z;
  QueueExpiresInSeconds : Z;
  QueueSetupConcurrency : Z;
  PrometheusListenAddr : bytes;
  LogInterval : Z;
  Cleanup : bool;
}.
End Config.

Module lg.
Definition maxPayloadSize : Z := 64 * 1024.
Definition maxEnqueueBatchSize : Z := 50.
Definition minQueueKeepaliveTimeout : Z := 5.
Definition maxQueueKeepaliveTimeout : Z := 60.
Definition minQueueExpiresInSeconds : Z := 60.
Definition maxQueueExpiresInSeconds : Z := 14 * 86400.
End lg.

(** The values of the flags when the command line sets none. *)
Definition flag_defaults : Config.t :=
  Config.mk (str "localhost:8000") 100 100 200 (60 * time_Second) 0 64 1024 1 10 10 1000 10 20 0 50
    (str "load-test-queue") 15 86400 32 (str ":2114") (5 * time_Second) true.

(** A flag of the command line with its value read. *)
Inductive Flag : Type :=
  | F_endpoint (v : bytes)
  | F_producers (v : Z)
  | F_consumers (v : Z)
  | F_queues (v : Z)
  | F_duration (v : Z)
  | F_enqueue_rate (v : Z)
  | F_payload_size_min (v : Z)
  | F_payload_size_max (v : Z)
  | F_batch_size_min (v : Z)
  | F_batch_size_max (v : Z)
  | F_dedupe_key_pct (v : Z)
  | F_dedupe_keys_per_queue (v : Z)
  | F_thread_id_pct (v : Z)
  | F_threads_per_queue (v : Z)
  | F_handler_latency_ms_min (v : Z)
  | F_handler_latency_ms_max (v : Z)
  | F_queue_name_prefix (v : bytes)
  | F_queue_keepalive_timeout (v : Z)
  | F_queue_expires_in_seconds (v : Z)
  | F_queue_setup_concurrency (v : Z)
  | F_prometheus_listen_addr (v : bytes)
  | F_log_interval (v : Z)
  | F_cleanup (v : bool).

Definition set_flag (c : Config.t) (f : Flag) : Config.t :=
  let 'Config.mk ep pr co qu du er pmin pmax bmin bmax dp dk tp tq hmin hmax np ka ex sc pa li cl := c in
  match f with
  | F_endpoint v => Config.mk v pr co qu du er pmin pmax bmin bmax dp dk tp tq hmin hmax np ka ex sc pa li cl
  | F_producers v => Config.mk ep v co qu du er pmin pmax bmin bmax dp dk tp tq hmin hmax np ka ex sc pa li cl
  | F_consumers v => Config.mk ep pr v qu du er pmin pmax bmin bmax dp dk tp tq hmin hmax np ka ex sc pa li cl
  | F_queues v => Config.mk ep pr co v du er pmin pmax bmin bmax dp dk tp tq hmin hmax np ka ex sc pa li cl
  | F_duration v => Config.mk ep pr co qu v er pmin pmax bmin bmax dp dk tp tq hmin hmax np ka ex sc pa li cl
  | F_enqueue_rate v => Config.mk ep pr co qu du v pmin pmax bmin bmax dp dk tp tq hmin hmax np ka ex sc pa li cl
  | F_payload_size_min v => Config.mk ep pr co qu du er v pmax bmin bmax dp dk tp tq hmin hmax np ka ex sc pa li cl
  | F_payload_size_max v => Config.mk ep pr co qu du er pmin v bmin bmax dp dk tp tq hmin hmax np ka ex sc pa li cl
  | F_batch_size_min v => Config.mk ep pr co qu du er pmin pmax v bmax dp dk tp tq hmin hmax np ka ex sc pa li cl
  | F_batch_size_max v => Config.mk ep pr co qu du er pmin pmax bmin v dp dk tp tq hmin hmax np ka ex sc pa li cl
  | F_dedupe_key_pct v => Config.mk ep pr co qu du er pmin pmax bmin bmax v dk tp tq hmin hmax np ka ex sc pa li cl
  | F_dedupe_keys_per_queue v => Config.mk ep pr co qu du er pmin pmax bmin bmax dp v tp tq hmin hmax np ka ex sc pa li cl
  | F_thread_id_pct v => Config.mk ep pr co qu du er pmin pmax bmin bmax dp dk v tq hmin hmax np ka ex sc pa li cl
  | F_threads_per_queue v => Config.mk ep pr co qu du er pmin pmax bmin bmax dp dk tp v hmin hmax np ka ex sc pa li cl
  | F_handler_latency_ms_min v => Config.mk ep pr co qu du er pmin pmax bmin bmax dp dk tp tq v hmax np ka ex sc pa li cl
  | F_handler_latency_ms_max v => Config.mk ep pr co qu du er pmin pmax bmin bmax dp dk tp tq hmin v np ka ex sc pa li cl
  | F_queue_name_prefix v => Config.mk ep pr co qu du er pmin pmax bmin bmax dp dk tp tq hmin hmax v ka ex sc pa li cl
  | F_queue_keepalive_timeout v => Config.mk ep pr co qu du er pmin pmax bmin bmax dp dk tp tq hmin hmax np v ex sc pa li cl
  | F_queue_expires_in_seconds v => Config.mk ep pr co qu du er pmin pmax bmin bmax dp dk tp tq hmin hmax np ka v sc pa li cl
  | F_queue_setup_concurrency v => Config.mk ep pr co qu du er pmin pmax bmin bmax dp dk tp tq hmin hmax np ka ex v pa li cl
  | F_prometheus_listen_addr v => Config.mk ep pr co qu du er pmin pmax bmin bmax dp dk tp tq hmin hmax np ka ex sc v li cl
  | F_log_interval v => Config.mk ep pr co qu du er pmin pmax bmin bmax dp dk tp tq hmin hmax np ka ex sc pa v cl
  | F_cleanup v => Config.mk ep pr co qu du er pmin pmax bmin bmax dp dk tp tq hmin hmax np ka ex sc pa li v
  end.

(** The flags in the order of the command line. *)
Definition parseFlags (args : list Flag) : Config.t := foldl set_flag flag_defaults args.

Definition Validate (c : Config.t) : error :=
  reject (Config.Producers c <? 0)
    ("producers cannot be negative, got " +:+ pretty (Config.Producers c)) ?>
  reject (Config.Consumers c <? 0)
    ("consumers cannot be negative, got " +:+ pretty (Config.Consumers c)) ?>
  reject ((Config.Producers c =? 0) && (Config.Consumers c =? 0))
    "at least one of producers or consumers must be positive" ?>
  reject (Config.Queues c <=? 0) ("queues must be positive, got " +:+ pretty (Config.Queues c)) ?>
  reject (Config.Duration c <? 0)
    ("duration cannot be negative, got " +:+ Duration_String (Config.Duration c)) ?>
  reject (Config.EnqueueRate c <? 0)
    ("enqueue-rate cannot be negative, got " +:+ pretty (Config.EnqueueRate c)) ?>
  reject (Config.PayloadSizeMin c <? 0)
    ("payload-size-min cannot be negative, got " +:+ pretty (Config.PayloadSizeMin c)) ?>
  reject (Config.PayloadSizeMax c <? Config.PayloadSizeMin c)
    ("payload-size-max (" +:+ pretty (Config.PayloadSizeMax c) +:+
     ") cannot be smaller than payload-size-min (" +:+ pretty (Config.PayloadSizeMin c) +:+ ")") ?>
  reject (Config.PayloadSizeMax c >? lg.maxPayloadSize)
    ("payload-size-max (" +:+ pretty (Config.PayloadSizeMax c) +:+
     ") exceeds Moab's max payload size (" +:+ pretty lg.maxPayloadSize +:+ ")") ?>
  reject (Config.BatchSizeMin c <=? 0)
    ("batch-size-min must be positive, got " +:+ pretty (Config.BatchSizeMin c)) ?>
  reject (Config.BatchSizeMax c <? Config.BatchSizeMin c)
    ("batch-size-max (" +:+ pretty (Config.BatchSizeMax c) +:+
     ") cannot be smaller than batch-size-min (" +:+ pretty (Config.BatchSizeMin c) +:+ ")") ?>
  reject (Config.BatchSizeMax c >? lg.maxEnqueueBatchSize)
    ("batch-size-max (" +:+ pretty (Config.BatchSizeMax c) +:+
     ") exceeds Moab's max entries per Enqueue call (" +:+ pretty lg.maxEnqueueBatchSize +:+ ")") ?>
  range_check [("dedupe-key-pct", Config.DedupeKeyPct c); ("thread-id-pct", Config.ThreadIdPct c)]
    (fun _ '(name, val) =>
       reject ((val <? 0) || (val >? 100))
         (name +:+ " must be between 0 and 100, got " +:+ pretty val)) ?>
  reject (Config.DedupeKeysPerQueue c <=? 0)
    ("dedupe-keys-per-queue must be positive, got " +:+ pretty (Config.DedupeKeysPerQueue c)) ?>
  reject (Config.ThreadsPerQueue c <=? 0)
    ("threads-per-queue must be positive, got " +:+ pretty (Config.ThreadsPerQueue c)) ?>
  reject (Config.HandlerLatencyMsMin c <? 0)
    ("handler-latency-ms-min cannot be negative, got " +:+ pretty (Config.HandlerLatencyMsMin c)) ?>
  reject (Config.HandlerLatencyMsMax c <? Config.HandlerLatencyMsMin c)
    ("handler-latency-ms-max (" +:+ pretty (Config.HandlerLatencyMsMax c) +:+
     ") cannot be smaller than handler-latency-ms-min (" +:+ pretty (Config.HandlerLatencyMsMin c) +:+ ")") ?>
  reject (bool_decide (Config.QueueNamePrefix c = [])) "queue-name-prefix cannot be empty" ?>
  reject ((Config.QueueKeepaliveTimeout c <? lg.minQueueKeepaliveTimeout) ||
          (Config.QueueKeepaliveTimeout c >? lg.maxQueueKeepaliveTimeout))
    ("queue-keepalive-timeout must be between " +:+ pretty lg.minQueueKeepaliveTimeout +:+ " and " +:+
     pretty lg.maxQueueKeepaliveTimeout +:+ ", got " +:+ pretty (Config.QueueKeepaliveTimeout c)) ?>
  reject ((Config.QueueExpiresInSeconds c <? lg.minQueueExpiresInSeconds) ||
          (Config.QueueExpiresInSeconds c >? lg.maxQueueExpiresInSeconds))
    ("queue-expires-in-seconds must be between " +:+ pretty lg.minQueueExpiresInSeconds +:+ " and " +:+
     pretty lg.maxQueueExpiresInSeconds +:+ ", got " +:+ pretty (Config.QueueExpiresInSeconds c)) ?>
  reject (Config.QueueSetupConcurrency c <=? 0)
    ("queue-setup-concurrency must be positive, got " +:+ pretty (Config.QueueSetupConcurrency c)).

(** ** stats.go *)

Module Stats.
Record t := mk {
  startTime : Z;
  enqueueRequests : Z;
  enqueueErrors : Z;
  tasksEnqueued : Z;
  tasksHandled : Z;
  handlerErrors : Z;
  lastWindowTasksEnqueued : Z;
  lastWindowTasksHandled : Z;
  lastWindowTime : Z;
}.
End Stats.

Definition NewStatsCollector (now : Z) : Stats.t := Stats.mk now 0 0 0 0 0 0 0 now.

Definition RecordEnqueue (tasksEnqueued : Z) (success : bool) (s : Stats.t) : Stats.t :=
  Stats.mk (Stats.startTime s) (u64 (Stats.enqueueRequests s + 1))
    (if negb success then u64 (Stats.enqueueErrors s + 1) else Stats.enqueueErrors s)
    (u64 (Stats.tasksEnqueued s + u64 tasksEnqueued))
    (Stats.tasksHandled s) (Stats.handlerErrors s)
    (Stats.lastWindowTasksEnqueued s) (Stats.lastWindowTasksHandled s) (Stats.lastWindowTime s).

Definition RecordHandled (success : bool) (s : Stats.t) : Stats.t :=
  Stats.mk (Stats.startTime s) (Stats.enqueueRequests s) (Stats.enqueueErrors s) (Stats.tasksEnqueued s)
    (u64 (Stats.tasksHandled s + 1))
    (if negb success then u64 (Stats.handlerErrors s + 1) else Stats.handlerErrors s)
    (Stats.lastWindowTasksEnqueued s) (Stats.lastWindowTasksHandled s) (Stats.lastWindowTime s).

Definition formatDuration (d : Z) : string :=
  let totalSeconds := int64_of (Duration_Seconds d) in
  let hours := Z.quot totalSeconds 3600 in
  let minutes := Z.quot (Z.rem totalSeconds 3600) 60 in
  let seconds := Z.rem totalSeconds 60 in
  pad 2 hours +:+ ":" +:+ pad 2 minutes +:+ ":" +:+ pad 2 seconds.

Definition formatNumber (n : Z) : string :=
  if n <? 1000 then pretty n
  else if n <? 1000000 then pretty (n / 1000) +:+ "," +:+ pad 3 (n mod 1000)
  else pretty (n / 1000000) +:+ "," +:+ pad 3 (n mod 1000000 / 1000) +:+ "," +:+ pad 3 (n mod 1000).

(** The share of [total] that is not in [errors], in percent. *)
Definition success_rate (total errors : Z) : float64 :=
  if total >? 0
  then fmul (fdiv (float64_of (u64 (total - errors))) (float64_of total)) (float64_of 100)
  else float64_of 100.

(** [PrintStats] at the times [t1] (of [time.Since]) and [now]: what it prints, and the
    collector afterwards. *)
Definition PrintStats (t1 now : Z) (s : Stats.t) : string * Stats.t :=
  let elapsed := time_Sub t1 (Stats.startTime s) in
  let enqueueSuccessRate := success_rate (Stats.enqueueRequests s) (Stats.enqueueErrors s) in
  let handlerSuccessRate := success_rate (Stats.tasksHandled s) (Stats.handlerErrors s) in
  let windowSeconds := Duration_Seconds (time_Sub now (Stats.lastWindowTime s)) in
  let rate (count last : Z) :=
    if SpecFloat.SFltb (float64_of 0) windowSeconds
    then fdiv (float64_of (u64 (count - last))) windowSeconds else float64_of 0 in
  let enqueueRPS := rate (Stats.tasksEnqueued s) (Stats.lastWindowTasksEnqueued s) in
  let consumeRPS := rate (Stats.tasksHandled s) (Stats.lastWindowTasksHandled s) in
  ("[" +:+ formatDuration elapsed +:+ "] Enqueued: " +:+
     formatNumber (Stats.tasksEnqueued s) +:+ " tasks (" +:+
     formatNumber (Stats.enqueueRequests s) +:+ " reqs, " +:+
     formatNumber (Stats.enqueueErrors s) +:+ " errors, " +:+
     formatNumber (uint64_of enqueueRPS) +:+ " tasks/sec) | Handled: " +:+
     formatNumber (Stats.tasksHandled s) +:+ " tasks (" +:+
     formatNumber (Stats.handlerErrors s) +:+ " errors, " +:+
     formatNumber (uint64_of consumeRPS) +:+ " tasks/sec) | Success: enqueue=" +:+
     show_tenths enqueueSuccessRate +:+ "% handler=" +:+ show_tenths handlerSuccessRate +:+ "%",
   Stats.mk (Stats.startTime s) (Stats.enqueueRequests s) (Stats.enqueueErrors s)
     (Stats.tasksEnqueued s) (Stats.tasksHandled s) (Stats.handlerErrors s)
     (Stats.tasksEnqueued s) (Stats.tasksHandled s) now).

(** ** pacer.go *)

(** [pacer_last] is [None] while it is the zero time. *)
Record Pacer := mkPacer { pacer_interval : Z; pacer_last : option Z }.

Definition newPacer (ratePerSecond : float64) : option Pacer :=
  if SpecFloat.SFleb ratePerSecond (float64_of 0) then None
  else Some (mkPacer (int64_of (fdiv (float64_of time_Second) ratePerSecond)) None).

(** What one iteration of a producer observes: whether the context is done when it starts,
    the two readings of the pacer's clock, whether the context ends its sleep, and whether
    the context is done when the call is back. *)
Record Tick := mkTick {
  tk_done : bool; tk_now : Z; tk_cancelled : bool; tk_after : Z; tk_done_after : bool }.

(** How long [wait] sleeps; a sleep that is not positive is none. *)
Definition pacer_sleep (p : Pacer) (now : Z) : Z :=
  match pacer_last p with
  | None => 0
  | Some l => i64 (pacer_interval p - time_Sub now l)
  end.

(** [false] is [ctx.Err()]. *)
Definition wait (p : Pacer) (t : Tick) : bool * Pacer :=
  if (pacer_sleep p (tk_now t) >? 0) && tk_cancelled t then (false, p)
  else (true, mkPacer (pacer_interval p) (Some (tk_after t))).

(** ** The client *)

Module evrblk.
Inductive Code : Set :=
  | InternalFailure | Timeout | InvalidRequest | Unauthenticated | PermissionDenied | NotFound
  | ResourceExhausted | Unavailable | AlreadyExists | OtherCode (v : Z).
End evrblk.

Class Evrblk : Type := {
  ClientError : Type;
  CodeOf : ClientError -> evrblk.Code;
  IsNotFound : ClientError -> bool;
  IsAlreadyExists : ClientError -> bool;
}.

(** The calls of the API the generator makes, each under a deadline of its own. *)
Class MoabApi {E : Evrblk} (W : Type) : Type := {
  client_GetQueue : moabpb.QueueNameRequest.t ->
    M W (ClientError + (moabpb.Queue.t * moabpb.QueueStats.t * Z));
  client_CreateQueue : moabpb.CreateQueueRequest.t -> M W (ClientError + moabpb.Queue.t);
  client_DeleteQueue : moabpb.QueueNameRequest.t -> M W (ClientError + unit);
  client_Enqueue : moabpb.EnqueueRequest.t -> M W (ClientError + (list moabpb.Task.t * Z));
}.

Definition getErrorType {E : Evrblk} (err : ClientError) : string :=
  match CodeOf err with
  | evrblk.InternalFailure => "internal_failure"
  | evrblk.Timeout => "timeout"
  | evrblk.InvalidRequest => "invalid_request"
  | evrblk.Unauthenticated => "unauthenticated"
  | evrblk.PermissionDenied => "permission_denied"
  | evrblk.NotFound => "not_found"
  | evrblk.ResourceExhausted => "resource_exhausted"
  | evrblk.Unavailable => "unavailable"
  | evrblk.AlreadyExists => "already_exists"
  | _ => "unknown"
  end.

(** ** producer.go *)

Definition randBetween (a b : Z) : M Rng Z :=
  if a >=? b then mret a
  else n ← Intn (i64 (b - a + 1)); mret (i64 (a + n)).

Definition payloadAlphabet : bytes :=
  str "abcdefghijklmnopqrstuvwxyzABCDEFGHIJKLMNOPQRSTUVWXYZ0123456789".

(** [l[i]] *)
Definition index {S A} (l : list A) (i : Z) : M S A :=
  match (if i <? 0 then None else l !! Z.to_nat i) with
  | Some x => mret x
  | None => fail (ErrPanic IndexOutOfRange)
  end.

Definition randomPayload (size : Z) : M Rng bytes :=
  if size <? 0 then fail (ErrPanic NegativeSize)
  else for_map (seq 0 (Z.to_nat size)) (fun _ => i ← Intn (len payloadAlphabet); index payloadAlphabet i).

(** [fmt.Sprintf("<what>-%d-%d", queueIdx, n)] *)
Definition pool_key (what : string) (queueIdx n : Z) : bytes :=
  str (what +:+ "-" +:+ pretty queueIdx +:+ "-" +:+ pretty n).

(** With the given chance in percent, one of the [size] keys of the queue's pool. *)
Definition maybe_key (what : string) (queueIdx pct size : Z) : M Rng bytes :=
  roll ← Intn 100;
  if roll <? pct then n ← Intn size; mret (pool_key what queueIdx n) else mret [].

Definition buildEnqueueEntry (config : Config.t) (queueIdx : Z) : M Rng moabpb.EnqueueRequestEntry.t :=
  payloadSize ← randBetween (Config.PayloadSizeMin config) (Config.PayloadSizeMax config);
  payload ← randomPayload payloadSize;
  dedupeKey ← maybe_key "dedupe" queueIdx (Config.DedupeKeyPct config) (Config.DedupeKeysPerQueue config);
  threadId ← maybe_key "thread" queueIdx (Config.ThreadIdPct config) (Config.ThreadsPerQueue config);
  mret (moabpb.EnqueueRequestEntry.mk payload 0 0 dedupeKey threadId None []).

Definition buildEnqueueRequest (config : Config.t) (queues : list bytes) (queueIdx : Z)
    : M Rng moabpb.EnqueueRequest.t :=
  queueName ← index queues queueIdx;
  batchSize ← randBetween (Config.BatchSizeMin config) (Config.BatchSizeMax config);
  if batchSize <? 0 then fail (ErrPanic NegativeSize)
  else
    entries ← for_map (seq 0 (Z.to_nat batchSize)) (fun _ => buildEnqueueEntry config queueIdx);
    mret (moabpb.EnqueueRequest.mk queueName entries).

(** What a producer shares with the rest of the process (the client's world and the
    statistics) and what it owns. *)
Record Producer (W : Type) := mkProducer {
  p_world : W;
  p_stats : Stats.t;
  p_rng : Rng;
  p_pacer : option Pacer;
}.
Arguments mkProducer {W} _ _ _ _.
Arguments p_world {W} _.
Arguments p_stats {W} _.
Arguments p_rng {W} _.
Arguments p_pacer {W} _.

Section producer.
Context {E : Evrblk} {W : Type} {Api : MoabApi W}.
#[local] Notation T := (M (Producer W)).

(** A computation of the generator, and a call of the client. *)
Definition on_rng {A} (m : M Rng A) : T A := fun p =>
  match m (p_rng p) with
  | Ok (a, rng) => Ok (a, mkProducer (p_world p) (p_stats p) rng (p_pacer p))
  | Fail e => Fail e
  end.
Definition on_client {A} (m : M W A) : T A := fun p =>
  match m (p_world p) with
  | Ok (a, w) => Ok (a, mkProducer w (p_stats p) (p_rng p) (p_pacer p))
  | Fail e => Fail e
  end.
Definition on_stats (f : Stats.t -> Stats.t) : T unit :=
  modify (fun p => mkProducer (p_world p) (f (p_stats p)) (p_rng p) (p_pacer p)).

(** [if p.pacer != nil { p.pacer.wait(ctx) }]; [false] is an error. *)
Definition pace (t : Tick) : T bool := fun p =>
  match p_pacer p with
  | None => Ok (true, p)
  | Some pc =>
      let '(ok, pc) := wait pc t in
      Ok (ok, mkProducer (p_world p) (p_stats p) (p_rng p) (Some pc))
  end.

(** One iteration of the loop of [Run]; [false] when it returns. *)
Definition Run_iteration (config : Config.t) (queues : list bytes) (t : Tick) : T bool :=
  if tk_done t then mret false
  else
    paced ← pace t;
    if negb paced then mret false
    else
      queueIdx ← on_rng (Intn (len queues));
      request ← on_rng (buildEnqueueRequest config queues queueIdx);
      resp ← on_client (client_Enqueue request);
      if tk_done_after t then mret false
      else
        match resp with
        | inr (tasks, _) => on_stats (RecordEnqueue (len tasks) true)
        | inl _ => on_stats (RecordEnqueue 0 false)
        end ;;
        mret true.

(** [Run] as far as the ticks go; [true] when the producer is still running then. *)
Fixpoint Run (config : Config.t) (queues : list bytes) (ticks : list Tick) : T bool :=
  match ticks with
  | [] => mret true
  | t :: ticks =>
      continue ← Run_iteration config queues t;
      if (continue : bool) then Run config queues ticks else mret false
  end.
End producer.

(** ** consumer.go *)

Definition randIntBetween (a b : Z) : M Rng Z :=
  if a >=? b then mret a
  else n ← Intn (i64 (b - a + 1)); mret (i64 (a + n)).

(** The task handler: how long it sleeps, and what it does to the statistics. *)
Definition handle_task (config : Config.t) (stats : Stats.t) : M Rng (Z * Stats.t) :=
  sleep ← (if Config.HandlerLatencyMsMax config >? 0
           then ms ← randIntBetween (Config.HandlerLatencyMsMin config) (Config.HandlerLatencyMsMax config);
                mret (i64 (ms * time_Millisecond))
           else mret 0);
  mret (sleep, RecordHandled true stats).

(** What a consumer of the client library is created with and calls; [inl] ends the process
    ([log.Fatalf]).  [newMoabConsumer] is [moab.NewMoabConsumer] as a function of its
    [KeepAliveTimeout]. *)
Definition RunConsumer {E} (newMoabConsumer : Z -> E + unit) (config : Config.t)
    : E + (Stats.t -> M Rng (Z * Stats.t)) :=
  match newMoabConsumer (30 * time_Second) with
  | inl e => inl e
  | inr _ => inr (handle_task config)
  end.

(** ** queues.go

    [SetupQueues] and [CleanupQueues] start one goroutine per name, at most
    [QueueSetupConcurrency] at a time: the main loop puts a token into the channel [sem]
    before it starts one and the goroutine takes one out when it ends.  A goroutine is a
    sequence of client calls ([step_body], from the phase [start]); an error goes to the
    channel [errCh].  [pool_step 0] is a step of the main loop, [pool_step (S j)] one of the
    [j]-th running goroutine; [None] when it cannot move. *)

Inductive Phase (B Er : Type) : Type :=
  | Body (b : B)
  | Report (e : Er)
  | Release.
Arguments Body {B Er} _.
Arguments Report {B Er} _.
Arguments Release {B Er}.

Record Pool (W B Er : Type) := mkPool {
  pool_world : W;
  pool_todo : list bytes;
  pool_sem : Z;
  pool_running : list (bytes * Phase B Er);
  pool_errs : list (bytes * Er);
}.
Arguments mkPool {W B Er} _ _ _ _ _.
Arguments pool_world {W B Er} _.
Arguments pool_todo {W B Er} _.
Arguments pool_sem {W B Er} _.
Arguments pool_running {W B Er} _.
Arguments pool_errs {W B Er} _.

Section pool.
Context {W B Er : Type}.
Variable step_body : bytes -> B -> M W (B + option Er).
Variable start : B.
(** The capacities of [sem] and [errCh]. *)
Variables sem_cap err_cap : Z.

Definition pool_init (w : W) (names : list bytes) : Pool W B Er := mkPool w names 0 [] [].

(** The main loop: [sem <- struct{}{}; go func(name string) { ... }(name)]. *)
Definition pool_spawn (st : Pool W B Er) : option (Pool W B Er) :=
  match pool_todo st with
  | [] => None
  | name :: todo =>
      if pool_sem st <? sem_cap
      then Some (mkPool (pool_world st) todo (pool_sem st + 1)
                   (pool_running st ++ [(name, Body start)]) (pool_errs st))
      else None
  end.

(** A goroutine in the middle of its calls, sending its error, or ending. *)
Definition pool_move (j : nat) (st : Pool W B Er) : option (Pool W B Er) :=
  match pool_running st !! j with
  | None => None
  | Some (name, Body b) =>
      match step_body name b (pool_world st) with
      | Fail _ => None
      | Ok (r, w) =>
          let next := match r with
                      | inl b => Body b
                      | inr (Some e) => Report e
                      | inr None => Release
                      end in
          Some (mkPool w (pool_todo st) (pool_sem st) (<[j := (name, next)]> (pool_running st))
                  (pool_errs st))
      end
  | Some (name, Report e) =>
      if len (pool_errs st) <? err_cap
      then Some (mkPool (pool_world st) (pool_todo st) (pool_sem st)
                   (<[j := (name, Release)]> (pool_running st)) (pool_errs st ++ [(name, e)]))
      else None
  | Some (name, Release) =>
      if 0 <? pool_sem st
      then Some (mkPool (pool_world st) (pool_todo st) (pool_sem st - 1)
                   (delete j (pool_running st)) (pool_errs st))
      else None
  end.

Definition pool_step (i : nat) (st : Pool W B Er) : option (Pool W B Er) :=
  match i with O => pool_spawn st | S j => pool_move j st end.

(** The main loop is over and [wg.Wait()] returns. *)
Definition pool_done (st : Pool W B Er) : bool :=
  match pool_todo st, pool_running st with [], [] => true | _, _ => false end.

(** A run under a schedule; a turn of a thread that cannot move is lost. *)
Fixpoint pool_run (schedule : list nat) (st : Pool W B Er) : Pool W B Er :=
  match schedule with
  | [] => st
  | i :: schedule => pool_run schedule (default st (pool_step i st))
  end.
End pool.

Section queues.
Context {E : Evrblk} {W : Type} {Api : MoabApi W}.

(** [fmt.Sprintf("%s-%d", config.QueueNamePrefix, i)] for every queue. *)
Definition queue_names (config : Config.t) : list bytes :=
  (fun i : nat => Config.QueueNamePrefix config ++ str "-" ++ str (pretty (Z.of_nat i)))
    <$> seq 0 (Z.to_nat (Config.Queues config)).

Definition setup_request (name : bytes) (config : Config.t) : moabpb.CreateQueueRequest.t :=
  moabpb.CreateQueueRequest.mk name (str "Created by moab load generator")
    (Config.QueueKeepaliveTimeout config) None None None (Config.QueueExpiresInSeconds config).

(** The two calls of [getOrCreateQueue]. *)
Inductive SetupPhase : Set := ToGet | ToCreate.

Definition getOrCreateQueue (config : Config.t) (name : bytes) (b : SetupPhase)
    : M W (SetupPhase + option ClientError) :=
  match b with
  | ToGet =>
      r ← client_GetQueue (moabpb.QueueNameRequest.mk name);
      mret (match r with
            | inr _ => inr None
            | inl err => if negb (IsNotFound err) then inr (Some err) else inl ToCreate
            end)
  | ToCreate =>
      r ← client_CreateQueue (setup_request name config);
      mret (match r with
            | inr _ => inr None
            | inl err => if IsAlreadyExists err then inr None else inr (Some err)
            end)
  end.

Definition SetupPool : Type := Pool W SetupPhase ClientError.

Definition setup_step (config : Config.t) : nat -> SetupPool -> option SetupPool :=
  pool_step (getOrCreateQueue config) ToGet (Config.QueueSetupConcurrency config) (Config.Queues config).

(** What [SetupQueues] returns when every goroutine has ended: the names, or the first error
    of the channel. *)
Definition setup_result (config : Config.t) (st : SetupPool) : (bytes * ClientError) + list bytes :=
  match pool_errs st with
  | [] => inr (queue_names config)
  | err :: _ => inl err
  end.

(** [SetupQueues] under a schedule of its goroutines; [None] while some are running. *)
Definition SetupQueues (config : Config.t) (schedule : list nat) (w : W)
    : option (((bytes * ClientError) + list bytes) * W) :=
  let st := pool_run (getOrCreateQueue config) ToGet (Config.QueueSetupConcurrency config)
              (Config.Queues config) schedule (pool_init w (queue_names config)) in
  if pool_done st then Some (setup_result config st, pool_world st) else None.

(** The one call of a goroutine of [CleanupQueues]; errors are logged only. *)
Definition cleanup_queue (name : bytes) (b : unit) : M W (unit + option ClientError) :=
  client_DeleteQueue (moabpb.QueueNameRequest.mk name) ;; mret (inr None).

Definition CleanupQueues (config : Config.t) (names : list bytes) (schedule : list nat) (w : W)
    : option W :=
  let st := pool_run cleanup_queue tt (Config.QueueSetupConcurrency config) 0 schedule
              (pool_init w names) in
  if pool_done st then Some (pool_world st) else None.
End queues.

(** ** main.go *)

(** The statistics logger panics in [time.NewTicker] when the interval is not positive. *)
Definition start_logger (config : Config.t) : Res unit :=
  if Config.LogInterval config <=? 0 then Fail (ErrPanic NonPositiveArgument) else Ok tt.

(** [queueNames[i%len(queueNames)]] for every consumer. *)
Definition start_consumers (config : Config.t) (queueNames : list bytes) : Res (list bytes) :=
  match queueNames with
  | [] => if Config.Consumers config <=? 0 then Ok [] else Fail (ErrPanic DivideByZero)
  | name0 :: _ =>
      Ok ((fun i : nat => default name0 (queueNames !! (i mod length queueNames)%nat))
            <$> seq 0 (Z.to_nat (Config.Consumers config)))
  end.

(** The pacer every producer is given. *)
Definition producer_pacer (config : Config.t) : option Pacer :=
  newPacer (if Config.EnqueueRate config >? 0
            then fdiv (float64_of (Config.EnqueueRate config)) (float64_of (Config.Producers config))
            else float64_of 0).

(** What [main] does, in order; the messages it logs are left out. *)
Inductive MainEvent : Type :=
  | Fatal                                        (** [log.Fatalf]: no deferred call runs *)
  | Panicked (p : Panic)
  | MetricsStarted
  | ClientCreated
  | QueuesSetUp (queueNames : list bytes)
  | StatsLoggerStarted
  | ConsumerStarted (id : nat) (queueName : bytes)
  | ProducerStarted (id : nat) (pacer : option Pacer)
  | ShutdownSignal
  | DurationElapsed
  | WorkersCancelled
  | WorkersStopped                               (** [wg.Wait()] *)
  | FinalStats
  | QueuesCleanedUp (queueNames : list bytes)
  | ClientClosed
  | MetricsStopped.

Section main.
Context {ClientError : Type}.

(** The part after the queues are there: consumers first, then producers; the end of the
    duration or a signal, whichever comes first ([None] while neither has come); the deferred
    calls in reverse order. *)
Definition run_load (config : Config.t) (queueNames : list bytes) (signal : bool) : list MainEvent :=
  match start_consumers config queueNames with
  | Fail (ErrPanic p) => [Panicked p]
  | Fail _ => []
  | Ok queues =>
      imap ConsumerStarted queues ++
      ((fun i => ProducerStarted i (producer_pacer config)) <$> seq 0 (Z.to_nat (Config.Producers config))) ++
      (if signal || (Config.Duration config >? 0) then
         [if signal then ShutdownSignal else DurationElapsed; WorkersCancelled; WorkersStopped; FinalStats] ++
         (if Config.Cleanup config then [QueuesCleanedUp queueNames] else []) ++
         [ClientClosed; MetricsStopped]
       else [])
  end.

(** [newClient] is whether the client could be created, [setup] what [SetupQueues] answered,
    [signal] whether a signal comes before the duration is over.  The statistics logger is a
    goroutine: its panic is placed where it starts. *)
Definition main (config : Config.t) (newClient : bool) (setup : (bytes * ClientError) + list bytes)
    (signal : bool) : list MainEvent :=
  match Validate config with
  | Some _ => [Fatal]
  | None =>
      MetricsStarted ::
      (if newClient then
         ClientCreated ::
         match setup with
         | inl _ => [Fatal]
         | inr queueNames =>
             QueuesSetUp queueNames :: StatsLoggerStarted ::
             match start_logger config with
             | Fail (ErrPanic p) => [Panicked p]
             | _ => run_load config queueNames signal
             end
         end
       else [Fatal])
  end.
End main.
