(* ===== verification/LoadPool.v ===== *)
(** * Pools of goroutines behind a semaphore

    The machine of [LoadGenerator.Pool] under every schedule, with other clients of the API
    interfering: the semaphore bounds the goroutines, no state short of the end is stuck,
    every run ends within a number of steps known beforehand, and what one goroutine
    established still holds at the end. *)

From S2P Require Export LoadGenerator.

Section pool_proofs.
Context {W B Er : Type}.
Variable step_body : bytes -> B -> M W (B + option Er).
Variable start : B.
Variables sem_cap err_cap : Z.
#[local] Notation step := (pool_step step_body start sem_cap err_cap).
#[local] Notation P := (Pool W B Er).

(** What the world keeps, what a goroutine establishes for its name, and how many calls a
    phase still makes. *)
Variable Inv : W -> Prop.
Variable Post : bytes -> W -> Prop.
Variable size : B -> nat.
Variable names : list bytes.

(** What others may do in between: anything that keeps [Inv], as long as nothing that was
    established for a name of the pool is lost. *)
Definition env (w w' : W) : Prop := Inv w' /\ forall n, n ∈ names -> Post n w -> Post n w'.

(** [pool_exec k st st']: [k] steps of the pool, and any number of its environment. *)
Inductive pool_exec : nat -> P -> P -> Prop :=
  | exec_nil st : pool_exec 0 st st
  | exec_step k i st st' st'' :
      step i st = Some st' -> pool_exec k st' st'' -> pool_exec (S k) st st''
  | exec_env k w st st' :
      env (pool_world st) w ->
      pool_exec k (mkPool w (pool_todo st) (pool_sem st) (pool_running st) (pool_errs st)) st' ->
      pool_exec k st st'.

Hypothesis body_ok : forall name b w, name ∈ names -> Inv w ->
  ⟪ w ⟫ step_body name b ⟪ r, w' ⟫
    env w w' /\ match r with
                | inl b' => (size b' < size b)%nat
                | inr None => Post name w'
                | inr (Some _) => len names <= err_cap
                end.

Definition settled (st : P) (name : bytes) : Prop :=
  Post name (pool_world st) \/ name ∈ (pool_errs st).*1.

(** A goroutine that may still report. *)
Definition unreported (g : bytes * Phase B Er) : Prop := g.2 <> Release.
#[local] Instance unreported_dec g : Decision (unreported g).
Proof. destruct g as [n []]; cbn; [left|left|right]; unfold unreported; cbn; congruence. Defined.

Definition phase_ok (st : P) (g : bytes * Phase B Er) : Prop :=
  match g.2 with
  | Body _ => True
  | Report _ => len names <= err_cap
  | Release => settled st g.1
  end.

Record pool_inv (st : P) : Prop := {
  pi_inv : Inv (pool_world st);
  pi_sem : pool_sem st = len (pool_running st);
  pi_cap : pool_sem st <= Z.max 0 sem_cap;
  pi_names : exists ended, names ≡ₚ ended ++ (pool_running st).*1 ++ pool_todo st /\
    Forall (settled st) ended;
  pi_phases : Forall (phase_ok st) (pool_running st);
  pi_errs : (length (pool_errs st) + length (filter unreported (pool_running st)) +
             length (pool_todo st) <= length names)%nat;
}.

Lemma pool_inv_init w : Inv w -> pool_inv (pool_init w names).
Proof.
  intros Hw. split; cbn; [done|done|lia| |by constructor|lia]. exists []. split; [done|constructor].
Qed.

Lemma settled_mono (st st' : P) name :
  env (pool_world st) (pool_world st') -> pool_errs st ⊆ pool_errs st' -> name ∈ names ->
  settled st name -> settled st' name.
Proof.
  intros [_ Hp] He Hn [H|H]; [left; auto|right]. apply list_elem_of_fmap in H as (x & -> & Hx).
  apply list_elem_of_fmap. exists x. split; [done|]. by apply He.
Qed.

Lemma settled_all (st st' : P) l :
  (forall n, n ∈ names -> settled st n -> settled st' n) -> l ⊆ names ->
  Forall (settled st) l -> Forall (settled st') l.
Proof. rewrite !Forall_forall. intros Hs Hl H n Hn. auto. Qed.

Lemma phases_all (st st' : P) gs :
  (forall n, n ∈ names -> settled st n -> settled st' n) -> gs.*1 ⊆ names ->
  Forall (phase_ok st) gs -> Forall (phase_ok st') gs.
Proof.
  rewrite !Forall_forall. intros Hs Hl H g Hg. specialize (H g Hg). unfold phase_ok in *.
  destruct g.2; [done|done|]. apply Hs; [|done]. by apply Hl, list_elem_of_fmap_2.
Qed.

(** Whoever ended or runs has a name of the pool. *)
Lemma pool_names ended (st : P) : names ≡ₚ ended ++ (pool_running st).*1 ++ pool_todo st ->
  ended ⊆ names /\ (pool_running st).*1 ⊆ names.
Proof. intros E. split; intros n Hn; rewrite E; set_solver. Qed.

Lemma pool_inv_env st w :
  env (pool_world st) w -> pool_inv st ->
  pool_inv (mkPool w (pool_todo st) (pool_sem st) (pool_running st) (pool_errs st)).
Proof.
  intros He [H1 H2 H3 (ended & H4 & H4') H5 H6]. destruct (pool_names _ _ H4) as [Hn1 Hn2].
  assert (Hs : forall n, n ∈ names -> settled st n ->
    settled (mkPool w (pool_todo st) (pool_sem st) (pool_running st) (pool_errs st)) n).
  { intros n. by apply settled_mono. }
  split; cbn; [apply He|done|done| |by eapply phases_all|done].
  exists ended. split; [done|]. by eapply settled_all.
Qed.

Lemma filter_insert_le {A} (Q : A -> Prop) `{forall x, Decision (Q x)} l j x y :
  l !! j = Some y -> Q y ->
  length (filter Q (<[j := x]> l)) = (length (filter Q l) - (if decide (Q x) then 0 else 1))%nat.
Proof.
  intros Hj Hy. rewrite insert_take_drop by (by apply lookup_lt_Some in Hj).
  rewrite <-(take_drop_middle l j y Hj) at 3. rewrite !filter_app, !length_app, !filter_cons.
  rewrite (decide_True (P := Q y)) by done. destruct (decide (Q x)); cbn; lia.
Qed.

Lemma fst_insert {A C} (l : list (A * C)) j a c c' :
  l !! j = Some (a, c) -> (<[j := (a, c')]> l).*1 = l.*1.
Proof.
  intros Hj. rewrite list_fmap_insert. cbn. apply list_insert_id. by rewrite list_lookup_fmap, Hj.
Qed.

(** A goroutine moves on: its name and the number of goroutines stay. *)
Lemma pool_inv_advance st j name ph ph' w es :
  pool_inv st -> pool_running st !! j = Some (name, ph) -> ph <> Release ->
  env (pool_world st) w -> (es = [] \/ length es = 1%nat /\ ph' = Release) ->
  let st' := mkPool w (pool_todo st) (pool_sem st) (<[j := (name, ph')]> (pool_running st))
               (pool_errs st ++ es) in
  phase_ok st' (name, ph') -> pool_inv st'.
Proof.
  intros [H1 H2 H3 (ended & H4 & H4') H5 H6] Hj Hne He Hes st' Hph. destruct (pool_names _ _ H4) as [Hn1 Hn2].
  assert (Hs : forall n, n ∈ names -> settled st n -> settled st' n).
  { intros n. apply settled_mono; [done|]. cbn. set_solver. }
  split; cbn; [apply He| |done| | |].
  - rewrite H2. unfold len. by rewrite length_insert.
  - exists ended. rewrite (fst_insert _ _ _ _ _ Hj). split; [done|]. by eapply settled_all.
  - apply Forall_insert; [|done]. by eapply phases_all.
  - rewrite (filter_insert_le unreported _ _ _ _ Hj Hne), length_app.
    assert (0 < length (filter unreported (pool_running st)))%nat as Hpos.
    { apply list_elem_of_lookup_2 in Hj.
      assert ((name, ph) ∈ filter unreported (pool_running st)) as Hin by (by apply list_elem_of_filter).
      destruct (filter _ _); [by apply elem_of_nil in Hin|cbn; lia]. }
    destruct (decide (unreported (name, ph'))) as [Hu|Hu].
    + assert (length es = 0)%nat as ->; [|lia].
      destruct Hes as [->|[_ ->]]; [done|]. by destruct Hu.
    + assert (length es <= 1)%nat; [|lia]. destruct Hes as [->|[-> _]]; cbn; lia.
Qed.

Lemma pool_inv_step i st st' : pool_inv st -> step i st = Some st' -> pool_inv st'.
Proof.
  intros Hst. pose proof Hst as [H1 H2 H3 (ended & H4 & H4') H5 H6].
  destruct i as [|j]; cbn [pool_step].
  - unfold pool_spawn. destruct (pool_todo st) as [|name todo] eqn:Et; [done|].
    destruct (pool_sem st <? sem_cap) eqn:Ec; [|done]. intros [= <-].
    split; cbn; [done| |lia| | |].
    + rewrite H2. unfold len. rewrite length_app. cbn. lia.
    + exists ended. split; [|done]. rewrite H4, fmap_app. cbn. by rewrite <-!app_assoc.
    + apply Forall_app. split; [|by repeat constructor]. done.
    + rewrite filter_app, length_app, filter_cons. rewrite decide_True by done. cbn in *. lia.
  - unfold pool_move. destruct (pool_running st !! j) as [[name ph]|] eqn:Ej; [|done].
    destruct ph as [b|e|].
    + assert (Hn : name ∈ names).
      { rewrite H4. apply elem_of_app. right. apply elem_of_app. left.
        apply list_elem_of_fmap. exists (name, Body b). split; [done|]. by eapply list_elem_of_lookup_2. }
      pose proof (body_ok name b (pool_world st) Hn H1) as Hb. unfold wp in Hb.
      destruct (step_body name b (pool_world st)) as [[r w]|]; [|done]. destruct Hb as [He Hr].
      intros [= <-]. rewrite <-(app_nil_r (pool_errs st)).
      eapply pool_inv_advance; [done|done|done|done|by left|].
      destruct r as [b'|[e|]]; cbn; [done|done|]. by left.
    + destruct (len (pool_errs st) <? err_cap) eqn:Ec; [|done]. intros [= <-].
      eapply pool_inv_advance; [done|done|done|by split; [|auto]|by right|].
      right. cbn. rewrite fmap_app. set_solver.
    + destruct (0 <? pool_sem st) eqn:Ec; [|done]. intros [= <-].
      pose proof (delete_Permutation _ _ _ Ej) as Hd.
      assert (Hs : settled st name) by (rewrite Forall_lookup in H5; exact (H5 j _ Ej)).
      split; cbn; [done| |lia| | |].
      * rewrite H2. unfold len. apply Permutation_length in Hd. cbn in Hd. lia.
      * exists (ended ++ [name]). split; [|apply Forall_app; split; [done|by apply Forall_singleton]].
        apply (fmap_Permutation fst) in Hd. rewrite H4. cbn in Hd. rewrite <-app_assoc. cbn.
        apply Permutation_app_head. apply (Permutation_app_tail (pool_todo st)) in Hd. exact Hd.
      * by apply Forall_delete.
      * apply (filter_Permutation unreported), Permutation_length in Hd. rewrite filter_cons in Hd.
        rewrite decide_False in Hd by (by intros Hu). lia.
Qed.

Lemma pool_inv_exec k st st' : pool_exec k st st' -> pool_inv st -> pool_inv st'.
Proof.
  induction 1 as [| |]; [done| |]; eauto using pool_inv_step, pool_inv_env.
Qed.

(** *** No deadlock *)

Lemma pool_progress st :
  0 < sem_cap -> pool_inv st -> pool_done st = true \/ exists i st', step i st = Some st'.
Proof.
  intros Hcap [H1 H2 H3 (ended & H4 & H4') H5 H6].
  destruct (pool_running st) as [|[name ph] running] eqn:Eg.
  - destruct (pool_todo st) as [|name todo] eqn:Et; [left; unfold pool_done; by rewrite Et, Eg|].
    right. exists 0%nat. cbn. unfold pool_spawn. rewrite Et.
    rewrite (proj2 (Z.ltb_lt _ _)); [eauto|]. by rewrite H2.
  - right. exists 1%nat. cbn. unfold pool_move. rewrite Eg. cbn [lookup list_lookup].
    apply Forall_cons in H5 as [Hg _]. destruct ph as [b|e|].
    + assert (Hn : name ∈ names) by (rewrite H4; set_solver).
      pose proof (body_ok name b (pool_world st) Hn H1) as Hb. unfold wp in Hb.
      destruct (step_body name b (pool_world st)) as [[r w]|]; [eauto|done].
    + cbn in Hg. rewrite (proj2 (Z.ltb_lt _ _)); [eauto|].
      rewrite filter_cons, decide_True in H6 by done. cbn in H6. unfold len in *. lia.
    + rewrite (proj2 (Z.ltb_lt _ _)); [eauto|]. rewrite H2. unfold len. cbn. lia.
Qed.

(** *** Termination *)

Definition phase_size (g : bytes * Phase B Er) : nat :=
  match g.2 with Body b => size b + 3 | Report _ => 2 | Release => 1 end.

(** The steps a pool has left. *)
Definition pool_size (st : P) : nat :=
  (length (pool_todo st) * (size start + 4) + sum_list_with phase_size (pool_running st))%nat.

Lemma sum_insert {A} (f : A -> nat) l j x y :
  l !! j = Some y -> (sum_list_with f (<[j := x]> l) + f y = sum_list_with f l + f x)%nat.
Proof.
  revert j; induction l as [|z l IH]; intros [|j] Hj; cbn in *; [done|done|simplify_eq; lia|].
  rewrite <-!Nat.add_assoc. f_equal. exact (IH j Hj).
Qed.

Lemma pool_size_step i st st' : pool_inv st -> step i st = Some st' -> (pool_size st' < pool_size st)%nat.
Proof.
  intros [H1 H2 H3 (ended & H4 & H4') H5 H6]. unfold pool_size. destruct i as [|j]; cbn [pool_step].
  - unfold pool_spawn. destruct (pool_todo st) as [|name todo]; [done|]. destruct (_ <? _); [|done].
    intros [= <-]. cbn. rewrite sum_list_with_app. cbn. lia.
  - unfold pool_move. destruct (pool_running st !! j) as [[name ph]|] eqn:Ej; [|done].
    destruct ph as [b|e|].
    + assert (Hn : name ∈ names).
      { rewrite H4. apply elem_of_app. right. apply elem_of_app. left.
        apply list_elem_of_fmap. exists (name, Body b). split; [done|]. by eapply list_elem_of_lookup_2. }
      pose proof (body_ok name b (pool_world st) Hn H1) as Hb. unfold wp in Hb.
      destruct (step_body name b (pool_world st)) as [[r w]|]; [|done]. destruct Hb as [_ Hr].
      intros [= <-]. cbn. match goal with |- context [<[j := (name, ?p)]> _] =>
        pose proof (sum_insert phase_size _ _ (name, p) _ Ej) as Hsum end.
      destruct r as [b'|[e|]]; cbn in *; lia.
    + destruct (_ <? _); [|done]. intros [= <-]. cbn.
      pose proof (sum_insert phase_size _ _ (name, Release) _ Ej) as Hsum. cbn in Hsum. lia.
    + destruct (_ <? _); [|done]. intros [= <-]. cbn.
      pose proof (sum_list_with_Permutation_proper phase_size _ _ (delete_Permutation _ _ _ Ej)) as Hd. cbn in Hd. lia.
Qed.

Lemma pool_exec_size k st st' :
  pool_exec k st st' -> pool_inv st -> (k + pool_size st' <= pool_size st)%nat.
Proof.
  induction 1 as [|k i st st' st'' Hs He IH|k w st st' Hw He IH]; intros Hst; [lia| |].
  - pose proof (pool_size_step i st st' Hst Hs). specialize (IH (pool_inv_step i st st' Hst Hs)). lia.
  - specialize (IH (pool_inv_env st w Hw Hst)). exact IH.
Qed.

(** *** The pool as a whole *)

Lemma pool_correct k w st :
  0 < sem_cap -> Inv w -> pool_exec k (pool_init w names) st ->
  Inv (pool_world st) /\ len (pool_running st) <= sem_cap /\
  (k <= length names * (size start + 4))%nat /\
  (pool_done st = true \/ exists i st', step i st = Some st') /\
  (pool_done st = true -> forall name, name ∈ names ->
     Post name (pool_world st) \/ name ∈ (pool_errs st).*1).
Proof.
  intros Hcap Hw He. pose proof (pool_inv_init w Hw) as H0.
  pose proof (pool_inv_exec _ _ _ He H0) as Hst. pose proof (pool_exec_size _ _ _ He H0) as Hk.
  pose proof (pool_progress st Hcap Hst) as Hprog.
  destruct Hst as [H1 H2 H3 (ended & H4 & H4') H5 H6].
  split; [done|]. split; [rewrite <-H2; lia|]. split; [unfold pool_size in Hk; cbn in Hk; lia|].
  split; [exact Hprog|]. intros Hd name Hn. unfold pool_done in Hd.
  destruct (pool_todo st); [|done]. destruct (pool_running st); [|done].
  rewrite H4 in Hn. cbn in Hn. rewrite app_nil_r in Hn. rewrite Forall_forall in H4'. by apply H4'.
Qed.

(** A schedule is a run without interference. *)
Lemma pool_run_exec schedule st :
  exists k, (k <= length schedule)%nat /\
    pool_exec k st (pool_run step_body start sem_cap err_cap schedule st).
Proof.
  revert st; induction schedule as [|i schedule IH]; intros st; cbn [pool_run length].
  - exists 0%nat. split; [lia|constructor].
  - destruct (step i st) as [st'|] eqn:Es; cbn [default].
    + destruct (IH st') as (k & Hk & He). exists (S k). split; [lia|]. by econstructor.
    + destruct (IH st) as (k & Hk & He). exists k. split; [lia|done].
Qed.
End pool_proofs.
