(* ===== verification/Gateway.v ===== *)
(** * The gateway ([pkg/server/v0/handler.go], [server.go], [pkg/moab/limits.go])

    Each handler of [MoabApiServerHandler] over the client interface [MoabClientApi] and
    the process's own state [Process]: the clock, the random numbers and the queues cache.
    [MoabApiServer] validates a request and calls the handler.  The metrics of [server.go]
    are not modelled. *)

From S2P Require Export FrontValidators.

(** ** [pkg/moab/limits.go] *)
Module ServiceLimits.
Record t := mk {
  MaxNumberOfQueues : Z;
  MaxNumberOfSchedulesPerQueue : Z;
  MaxNumberOfSchedules : Z;
  EnqueuePerQueueRequestRate : Z;
  DequeuePerQueueRequestRate : Z;
  MaxEnqueueBatchSize : Z;
  MaxDequeueBatchSize : Z;
  ControlPlaneReadRequestRate : Z;
  ControlPlaneUpdateRequestRate : Z;
  DataPlaneRequestRate : Z;
  PurgeQueueRequestRate : Z;
  MaxScheduledDelayInSeconds : Z;
}.
End ServiceLimits.

Definition DefaultServiceLimits : ServiceLimits.t :=
  ServiceLimits.mk 10000 1000 1000 10000 10000 25 25 10000 1000 20000 1 (14 * 86400).

(** ** The process: clock, random numbers and the queues cache

    [yellowstone-common/cache] is not part of the repository.  [cache_Get] is the lookup of
    [GetOrLoad], [cache_Put] its store. *)
Class Process (W : Type) : Type := {
  now_UnixNano : M W Z;
  Uint64 : M W Z;
  cache_Get : bytes -> M W (option (CallResult Queue.t));
  cache_Put : bytes -> CallResult Queue.t -> M W unit;
  cache_Delete : bytes -> M W unit;
}.

(** ** Errors of the API *)
Inductive GrpcError : Type :=
  | ErrorToGRPC (e : CallError)
  | ErrorToGRPC_of (msg : string)
  | InvalidArgument (msg : string)
  | Internal (msg : string).

Definition GResult (A : Type) : Type := GrpcError + A.

Definition isIDCollision (e : CallError) : bool :=
  match e with AppErr e => bool_decide (Code e = IDCollision) | _ => false end.
Definition isNotFound (e : CallError) : bool :=
  match e with AppErr e => bool_decide (Code e = NotFound) | _ => false end.

Definition maxIDGenerationAttempts : nat := 5.

(** [if err != nil { return nil, mrpc.ErrorToGRPC(err) }] *)
Definition or_return {W A B} (m : M W (CallResult A)) (k : A -> M W (GResult B)) : M W (GResult B) :=
  r ← m;
  match r with inl e => mret (inl (ErrorToGRPC e)) | inr a => k a end.
Notation "x <-? m ; k" := (or_return m (fun x => k))
  (at level 100, m at next level, right associativity) : moab_scope.
Notation "' p <-? m ; k" := (or_return m (fun x => let p := x in k))
  (at level 100, p pattern, m at next level, right associativity) : moab_scope.

(** A loop that fills [entries[i]] and returns on the first error. *)
Fixpoint range_map_from {A B} (i : nat) (l : list A) (f : nat -> A -> GResult B) : GResult (list B) :=
  match l with
  | [] => inr []
  | x :: l =>
      match f i x with
      | inl e => inl e
      | inr y => match range_map_from (S i) l f with inl e => inl e | inr ys => inr (y :: ys) end
      end
  end.
Definition range_map {A B} (l : list A) (f : nat -> A -> GResult B) : GResult (list B) :=
  range_map_from 0 l f.

(** [None] is the error "ScheduledAt is too far in the future".  [now.Add] and the sums are
    [int64] arithmetic on nanoseconds. *)
Definition resolveScheduledAtAndExpiresAt (now requestedScheduledAt requestedExpiresAt
    queueExpiresInSeconds maxScheduledDelaySeconds : Z) : option (Z * Z) :=
  let maxScheduledAt := i64 (now + i64 (time_Second * maxScheduledDelaySeconds)) in
  if requestedScheduledAt >? maxScheduledAt then None
  else
    let scheduledAt := if requestedScheduledAt <? now then now else requestedScheduledAt in
    let ceilingExpiresAt := i64 (scheduledAt + i64 (queueExpiresInSeconds * time_Second)) in
    let expiresAt :=
      if (requestedExpiresAt =? 0) || (requestedExpiresAt >? ceilingExpiresAt)
      then ceilingExpiresAt else requestedExpiresAt in
    Some (scheduledAt, expiresAt).

Section gateway.
Context {W : Type} {Api : MoabClientApi W} {P : Process W}.
Context {B : Base62} {TC : TokenCodec}.

#[local] Notation T := (M W).

(** [fmt.Sprintf("%d/%s", accountId, queueName)] *)
Definition cacheKey (accountId : Z) (queueName : bytes) : bytes :=
  str (pretty accountId) ++ str "/" ++ queueName.

(** [queuesCache.GetOrLoad] with the loader of [getQueue]; errors other than [NotFound] are
    not cached. *)
Definition getQueue (accountId : Z) (queueName : bytes) : T (CallResult Queue.t) :=
  let key := cacheKey accountId queueName in
  hit ← cache_Get key;
  match hit with
  | Some r => mret r
  | None =>
      r ← api_GetQueueByName (QueueNameRequest.mk accountId queueName);
      match r with
      | inr _ => cache_Put key r
      | inl e => if isNotFound e then cache_Put key r else mret tt
      end ;;
      mret r
  end.

(** [None] tells the caller not to retry. *)
Definition retryWithFreshQueueIfPurged (accountId : Z) (queueName : bytes) (err : CallError)
    : T (option (CallResult Queue.t)) :=
  if negb (isNotFound err) then mret None
  else
    cache_Delete (cacheKey accountId queueName) ;;
    r ← getQueue accountId queueName;
    mret (Some r).

(** Calls [m] with the cached queue's id and, when the id turns out to be purged, once more
    with the queue looked up afresh. *)
Definition with_retry {A Bo} (accountId : Z) (queueName : bytes) (queue : Queue.t)
    (m : Queue.t -> T (CallResult A)) (k : A -> T (GResult Bo)) : T (GResult Bo) :=
  r ← m queue;
  match r with
  | inr a => k a
  | inl err =>
      fresh ← retryWithFreshQueueIfPurged accountId queueName err;
      match fresh with
      | None => mret (inl (ErrorToGRPC err))
      | Some (inl refreshErr) => mret (inl (ErrorToGRPC refreshErr))
      | Some (inr freshQueue) => a <-? m freshQueue; k a
      end
  end.

(** [for range maxIDGenerationAttempts { ... }]: a fresh random id until it does not
    collide. *)
Fixpoint with_fresh_id {A Bo} (attempts : nat) (m : Z -> T (CallResult A))
    (k : A -> T (GResult Bo)) : T (GResult Bo) :=
  match attempts with
  | O => mret (inl (Internal "failed to generate a unique id"))
  | S attempts =>
      n ← Uint64;
      r ← m n;
      match r with
      | inr a => k a
      | inl err =>
          if isIDCollision err then with_fresh_id attempts m k
          else mret (inl (ErrorToGRPC err))
      end
  end.

(** *** Queues *)

(** The core request of an API request, under the random id [n]. *)
Definition create_queue_request (req : moabpb.CreateQueueRequest.t) (accountId : Z)
    (limits : ServiceLimits.t) (n : Z) : Wire.CreateQueueRequest.t :=
  Wire.CreateQueueRequest.mk (Some (QueueId.mk accountId n))
    (moabpb.CreateQueueRequest.Name req) (moabpb.CreateQueueRequest.Description req)
    (moabpb.CreateQueueRequest.KeepaliveTimeoutInSeconds req)
    (retryStrategyToCore (moabpb.CreateQueueRequest.RetryStrategy req))
    (dequeuingSettingsToCore (moabpb.CreateQueueRequest.DequeuingSettings req))
    (deadLetterQueueConfigToCore (moabpb.CreateQueueRequest.DeadLetterQueueConfig req))
    (moabpb.CreateQueueRequest.ExpiresInSeconds req)
    (ServiceLimits.MaxNumberOfQueues limits).

Definition handler_CreateQueue (req : moabpb.CreateQueueRequest.t) (accountId : Z)
    (limits : ServiceLimits.t) : T (GResult moabpb.Queue.t) :=
  with_fresh_id maxIDGenerationAttempts
    (fun n => api_CreateQueue (create_queue_request req accountId limits n))
    (fun queue => mret (inr (queueToFront queue))).

Definition handler_GetQueue (req : moabpb.QueueNameRequest.t) (accountId : Z)
    (limits : ServiceLimits.t) : T (GResult (moabpb.Queue.t * moabpb.QueueStats.t * Z)) :=
  queue <-? api_GetQueueByName
              (QueueNameRequest.mk accountId (moabpb.QueueNameRequest.QueueName req));
  '(stats, now) <-? api_GetStatistics (Wire.QueueIdRequest.mk (Some (Queue.Id queue)));
  mret (inr (queueToFront queue, queueStatsToFront stats, now)).

Definition update_queue_request (req : moabpb.UpdateQueueRequest.t) (accountId : Z)
    : UpdateQueueRequest.t :=
  UpdateQueueRequest.mk accountId
    (moabpb.UpdateQueueRequest.QueueName req) (moabpb.UpdateQueueRequest.Description req)
    (moabpb.UpdateQueueRequest.KeepaliveTimeoutInSeconds req)
    (retryStrategyToCore (moabpb.UpdateQueueRequest.RetryStrategy req))
    (dequeuingSettingsToCore (moabpb.UpdateQueueRequest.DequeuingSettings req))
    (deadLetterQueueConfigToCore (moabpb.UpdateQueueRequest.DeadLetterQueueConfig req))
    (moabpb.UpdateQueueRequest.ExpiresInSeconds req)
    (moabpb.UpdateQueueRequest.ExpectedVersion req).

Definition handler_UpdateQueue (req : moabpb.UpdateQueueRequest.t) (accountId : Z)
    (limits : ServiceLimits.t) : T (GResult moabpb.Queue.t) :=
  queue <-? api_UpdateQueue (update_queue_request req accountId);
  mret (inr (queueToFront queue)).

Definition handler_DeleteQueue (req : moabpb.QueueNameRequest.t) (accountId : Z)
    (limits : ServiceLimits.t) : T (GResult unit) :=
  let queueName := moabpb.QueueNameRequest.QueueName req in
  queueId <-? api_DeleteQueue (QueueNameRequest.mk accountId queueName);
  cache_Delete (cacheKey accountId queueName) ;;
  _ <-? api_PurgeQueue (Wire.QueueIdRequest.mk (Some queueId));
  mret (inr tt).

Definition handler_ListQueues (req : moabpb.ListQueuesRequest.t) (accountId : Z)
    (limits : ServiceLimits.t) : T (GResult (list moabpb.Queue.t * bytes * bytes)) :=
  match paginationTokenToCore (moabpb.ListQueuesRequest.PaginationToken req) with
  | None => mret (inl (InvalidArgument "invalid pagination token"))
  | Some paginationToken =>
      resp1 <-? api_ListQueues (ListQueuesRequest.mk accountId paginationToken
                  (moabpb.ListQueuesRequest.Limit req));
      match paginationTokenToFront (lqr_NextPaginationToken resp1),
            paginationTokenToFront (lqr_PreviousPaginationToken resp1) with
      | Some next, Some previous => mret (inr (queuesToFront (lqr_Queues resp1), next, previous))
      | _, _ => mret (inl (ErrorToGRPC_of "marshal"))
      end
  end.

(** Rotates the queue onto a fresh id, forgets the cached queue and marks the old id. *)
Definition handler_PurgeQueue (req : moabpb.QueueNameRequest.t) (accountId : Z)
    (limits : ServiceLimits.t) : T (GResult unit) :=
  let queueName := moabpb.QueueNameRequest.QueueName req in
  with_fresh_id maxIDGenerationAttempts
    (fun n => api_SwapQueueId (SwapQueueIdRequest.mk accountId queueName n))
    (fun '(_, oldQueueId) =>
       cache_Delete (cacheKey accountId queueName) ;;
       _ <-? api_PurgeQueue (Wire.QueueIdRequest.mk (Some oldQueueId));
       mret (inr tt)).

(** *** Schedules *)

Definition create_schedule_request (req : moabpb.CreateScheduleRequest.t) (accountId : Z)
    (limits : ServiceLimits.t) (n : Z) : CreateScheduleRequest.t :=
  CreateScheduleRequest.mk accountId (moabpb.CreateScheduleRequest.QueueName req) n
    (moabpb.CreateScheduleRequest.Name req) (moabpb.CreateScheduleRequest.Description req)
    (moabpb.CreateScheduleRequest.Cron req) (moabpb.CreateScheduleRequest.Payload req)
    (moabpb.CreateScheduleRequest.DedupeKey req)
    (moabpb.CreateScheduleRequest.ExpiresInSeconds req)
    (retryStrategyToCore (moabpb.CreateScheduleRequest.RetryStrategy req))
    (moabpb.CreateScheduleRequest.Timezone req)
    (ServiceLimits.MaxNumberOfSchedulesPerQueue limits).

Definition handler_CreateSchedule (req : moabpb.CreateScheduleRequest.t) (accountId : Z)
    (limits : ServiceLimits.t) : T (GResult moabpb.Schedule.t) :=
  with_fresh_id maxIDGenerationAttempts
    (fun n => api_CreateSchedule (create_schedule_request req accountId limits n))
    (fun schedule =>
       mret (inr (scheduleToFront (moabpb.CreateScheduleRequest.QueueName req) schedule))).

Definition handler_GetSchedule (req : moabpb.ScheduleNameRequest.t) (accountId : Z)
    (limits : ServiceLimits.t) : T (GResult moabpb.Schedule.t) :=
  let queueName := moabpb.ScheduleNameRequest.QueueName req in
  schedule <-? api_GetSchedule (ScheduleNameRequest.mk accountId queueName
                 (moabpb.ScheduleNameRequest.ScheduleName req));
  mret (inr (scheduleToFront queueName schedule)).

Definition update_schedule_request (req : moabpb.UpdateScheduleRequest.t) (accountId : Z)
    : UpdateScheduleRequest.t :=
  UpdateScheduleRequest.mk accountId (moabpb.UpdateScheduleRequest.QueueName req)
    (moabpb.UpdateScheduleRequest.ScheduleName req) (moabpb.UpdateScheduleRequest.Description req)
    (moabpb.UpdateScheduleRequest.Cron req) (moabpb.UpdateScheduleRequest.Payload req)
    (moabpb.UpdateScheduleRequest.DedupeKey req) (moabpb.UpdateScheduleRequest.ExpiresInSeconds req)
    (retryStrategyToCore (moabpb.UpdateScheduleRequest.RetryStrategy req))
    (moabpb.UpdateScheduleRequest.Timezone req)
    (moabpb.UpdateScheduleRequest.ExpectedVersion req).

Definition handler_UpdateSchedule (req : moabpb.UpdateScheduleRequest.t) (accountId : Z)
    (limits : ServiceLimits.t) : T (GResult moabpb.Schedule.t) :=
  schedule <-? api_UpdateSchedule (update_schedule_request req accountId);
  mret (inr (scheduleToFront (moabpb.UpdateScheduleRequest.QueueName req) schedule)).

Definition handler_DeleteSchedule (req : moabpb.ScheduleNameRequest.t) (accountId : Z)
    (limits : ServiceLimits.t) : T (GResult unit) :=
  _ <-? api_DeleteSchedule (ScheduleNameRequest.mk accountId
          (moabpb.ScheduleNameRequest.QueueName req) (moabpb.ScheduleNameRequest.ScheduleName req));
  mret (inr tt).

Definition handler_ListSchedules (req : moabpb.ListSchedulesRequest.t) (accountId : Z)
    (limits : ServiceLimits.t) : T (GResult (list moabpb.Schedule.t * bytes * bytes)) :=
  let queueName := moabpb.ListSchedulesRequest.QueueName req in
  queue <-? getQueue accountId queueName;
  match paginationTokenToCore (moabpb.ListSchedulesRequest.PaginationToken req) with
  | None => mret (inl (InvalidArgument "invalid pagination token"))
  | Some paginationToken =>
      resp1 <-? api_ListSchedules (Wire.ListSchedulesRequest.mk (Some (Queue.Id queue))
                  paginationToken (moabpb.ListSchedulesRequest.Limit req));
      match paginationTokenToFront (lsr_NextPaginationToken resp1),
            paginationTokenToFront (lsr_PreviousPaginationToken resp1) with
      | Some next, Some previous =>
          mret (inr (schedulesToFront (lsr_Schedules resp1) queueName, next, previous))
      | _, _ => mret (inl (Internal "marshal"))
      end
  end.

(** *** Tasks *)

(** The core entry of one API entry. *)
Definition enqueue_entry_of (now : Z) (queue : Queue.t) (limits : ServiceLimits.t) (i : nat)
    (e : moabpb.EnqueueRequestEntry.t) : GResult EnqueueRequestEntry.t :=
  let retryStrategy :=
    match retryStrategyToCore (moabpb.EnqueueRequestEntry.RetryStrategy e) with
    | None => Queue.RetryStrategy queue
    | Some r => Some r
    end in
  match resolveScheduledAtAndExpiresAt now (moabpb.EnqueueRequestEntry.ScheduledAt e)
          (moabpb.EnqueueRequestEntry.ExpiresAt e) (Queue.ExpiresInSeconds queue)
          (ServiceLimits.MaxScheduledDelayInSeconds limits) with
  | None => inl (InvalidArgument (indexed "EnqueueRequest.Entries" i +:+
                  ".ScheduledAt is too far in the future"))
  | Some (_, expiresAt) =>
      inr (EnqueueRequestEntry.mk (moabpb.EnqueueRequestEntry.Payload e)
        (moabpb.EnqueueRequestEntry.ScheduledAt e) expiresAt
        (moabpb.EnqueueRequestEntry.DedupeKey e) retryStrategy
        (overwriteOnDuplicateToCore (moabpb.EnqueueRequestEntry.OverwriteOnDuplicate e))
        (moabpb.EnqueueRequestEntry.ThreadId e))
  end.

Definition handler_Enqueue (req : moabpb.EnqueueRequest.t) (accountId : Z)
    (limits : ServiceLimits.t) : T (GResult (list moabpb.Task.t * Z)) :=
  let queueName := moabpb.EnqueueRequest.QueueName req in
  if i32 (len (moabpb.EnqueueRequest.Entries req)) >? ServiceLimits.MaxEnqueueBatchSize limits
  then mret (inl (InvalidArgument "too many entries"))
  else
    now ← now_UnixNano;
    queue <-? getQueue accountId queueName;
    match range_map (moabpb.EnqueueRequest.Entries req) (enqueue_entry_of now queue limits) with
    | inl e => mret (inl e)
    | inr entries =>
        with_retry accountId queueName queue
          (fun queue => api_Enqueue (Wire.EnqueueRequest.mk (Some (Queue.Id queue)) entries))
          (fun '(tasks, now) => mret (inr (tasksToFront tasks, now)))
    end.

Definition paused (queue : Queue.t) : bool :=
  match Queue.DequeuingSettings queue with
  | Some s => DequeuingSettings.DequeuingPaused s
  | None => false
  end.

(** An empty response has a zero [Now]. *)
Definition handler_Dequeue (req : moabpb.DequeueRequest.t) (accountId : Z)
    (limits : ServiceLimits.t) : T (GResult (list moabpb.Task.t * Z)) :=
  let queueName := moabpb.DequeueRequest.QueueName req in
  if moabpb.DequeueRequest.BatchSize req >? ServiceLimits.MaxDequeueBatchSize limits
  then mret (inl (InvalidArgument "too many entries"))
  else
    queue <-? getQueue accountId queueName;
    if paused queue then mret (inr ([], 0))
    else
      let dequeueLimit :=
        if moabpb.DequeueRequest.BatchSize req =? 0 then 1 else moabpb.DequeueRequest.BatchSize req in
      with_retry accountId queueName queue
        (fun queue =>
           let keepaliveTimeout :=
             if moabpb.DequeueRequest.KeepaliveTimeoutInSeconds req =? 0
             then Queue.KeepaliveTimeoutInSeconds queue
             else moabpb.DequeueRequest.KeepaliveTimeoutInSeconds req in
           api_Dequeue (Wire.DequeueRequest.mk (Some (Queue.Id queue))
             (Queue.DequeuingSettings queue) dequeueLimit (Queue.DeadLetterQueueConfig queue)
             keepaliveTimeout))
        (fun '(tasks, now) => mret (inr (tasksToFront tasks, now))).

Definition report_entry_of (accountId : Z) (queue : Queue.t) (_ : nat)
    (e : moabpb.ReportStatusRequestEntry.t) : GResult Wire.ReportStatusRequestEntry.t :=
  match DecodeTaskId (moabpb.ReportStatusRequestEntry.TaskId e) with
  | None => inl (InvalidArgument "invalid TaskId")
  | Some taskId =>
      match reportedStatusToCore (moabpb.ReportStatusRequestEntry.Status e) with
      | None => inl (ErrorToGRPC_of "unrecognized value")
      | Some reportedStatus =>
          let keepaliveTimeout :=
            if moabpb.ReportStatusRequestEntry.KeepaliveTimeoutInSeconds e =? 0
            then Queue.KeepaliveTimeoutInSeconds queue
            else moabpb.ReportStatusRequestEntry.KeepaliveTimeoutInSeconds e in
          inr (Wire.ReportStatusRequestEntry.mk
            (Some (TaskId.mk accountId (QueueId.QueueId (Queue.Id queue)) taskId))
            reportedStatus (moabpb.ReportStatusRequestEntry.Attempt e) keepaliveTimeout)
      end
  end.

Definition handler_ReportStatus (req : moabpb.ReportStatusRequest.t) (accountId : Z)
    (limits : ServiceLimits.t) : T (GResult (list moabpb.ReportStatusResponseEntry.t)) :=
  queue <-? api_GetQueueByName
              (QueueNameRequest.mk accountId (moabpb.ReportStatusRequest.QueueName req));
  match range_map (moabpb.ReportStatusRequest.Entries req) (report_entry_of accountId queue) with
  | inl e => mret (inl e)
  | inr entries =>
      resp <-? api_ReportStatus (Wire.ReportStatusRequest.mk (Some (Queue.Id queue)) entries
                 (Queue.DeadLetterQueueConfig queue));
      mret (inr (reportStatusResponseEntriesToFront resp))
  end.

Definition handler_DeleteTasks (req : moabpb.DeleteTasksRequest.t) (accountId : Z)
    (limits : ServiceLimits.t) : T (GResult unit) :=
  queue <-? api_GetQueueByName
              (QueueNameRequest.mk accountId (moabpb.DeleteTasksRequest.QueueName req));
  match range_map (moabpb.DeleteTasksRequest.TaskIds req) (fun _ t =>
          match DecodeTaskId t with
          | None => inl (InvalidArgument "invalid TaskId")
          | Some taskId => inr taskId
          end) with
  | inl e => mret (inl e)
  | inr taskIds =>
      _ <-? api_DeleteTasks (Wire.DeleteTasksRequest.mk (Some (Queue.Id queue)) taskIds);
      mret (inr tt)
  end.

Definition restart_entry_of (now : Z) (queue : Queue.t) (limits : ServiceLimits.t) (i : nat)
    (e : moabpb.RestartTasksRequestEntry.t) : GResult RestartTasksRequestEntry.t :=
  match DecodeTaskId (moabpb.RestartTasksRequestEntry.TaskId e) with
  | None => inl (InvalidArgument "invalid TaskId")
  | Some taskId =>
      match resolveScheduledAtAndExpiresAt now (moabpb.RestartTasksRequestEntry.ScheduledAt e)
              (moabpb.RestartTasksRequestEntry.ExpiresAt e) (Queue.ExpiresInSeconds queue)
              (ServiceLimits.MaxScheduledDelayInSeconds limits) with
      | None => inl (InvalidArgument (indexed "RestartTasksRequest.Entries" i +:+
                      ".ScheduledAt is too far in the future"))
      | Some (_, expiresAt) =>
          inr (RestartTasksRequestEntry.mk taskId
                 (moabpb.RestartTasksRequestEntry.ScheduledAt e) expiresAt)
      end
  end.

Definition handler_RestartTasks (req : moabpb.RestartTasksRequest.t) (accountId : Z)
    (limits : ServiceLimits.t) : T (GResult (list moabpb.RestartTasksResponseEntry.t * Z)) :=
  now ← now_UnixNano;
  queue <-? api_GetQueueByName
              (QueueNameRequest.mk accountId (moabpb.RestartTasksRequest.QueueName req));
  match range_map (moabpb.RestartTasksRequest.Entries req) (restart_entry_of now queue limits) with
  | inl e => mret (inl e)
  | inr entries =>
      '(resp, now) <-? api_RestartTasks (Wire.RestartTasksRequest.mk (Some (Queue.Id queue)) entries);
      mret (inr (restartTasksResponseEntriesToFront resp, now))
  end.

Definition handler_GetTask (req : moabpb.GetTaskRequest.t) (accountId : Z)
    (limits : ServiceLimits.t) : T (GResult (moabpb.Task.t * Z)) :=
  queue <-? api_GetQueueByName
              (QueueNameRequest.mk accountId (moabpb.GetTaskRequest.QueueName req));
  match DecodeTaskId (moabpb.GetTaskRequest.TaskId req) with
  | None => mret (inl (InvalidArgument "invalid id"))
  | Some taskId =>
      '(task, now) <-? api_GetTask (Wire.GetTaskRequest.mk
          (Some (TaskId.mk accountId (QueueId.QueueId (Queue.Id queue)) taskId)));
      mret (inr (taskToFront task, now))
  end.

Definition handler_ListTasks (req : moabpb.ListTasksRequest.t) (accountId : Z)
    (limits : ServiceLimits.t) : T (GResult (list moabpb.Task.t * bytes * bytes * Z)) :=
  let queueName := moabpb.ListTasksRequest.QueueName req in
  queue <-? getQueue accountId queueName;
  match paginationTokenToCore (moabpb.ListTasksRequest.PaginationToken req) with
  | None => mret (inl (InvalidArgument "invalid pagination token"))
  | Some paginationToken =>
      with_retry accountId queueName queue
        (fun queue => api_ListTasks (Wire.ListTasksRequest.mk (Some (Queue.Id queue))
           (taskStateFilterToCore (moabpb.ListTasksRequest.State req)) paginationToken
           (moabpb.ListTasksRequest.Limit req)))
        (fun '(resp1, now) =>
           match paginationTokenToFront (ltr_NextPaginationToken resp1),
                 paginationTokenToFront (ltr_PreviousPaginationToken resp1) with
           | Some next, Some previous =>
               mret (inr (tasksToFront (ltr_Tasks resp1), next, previous, now))
           | _, _ => mret (inl (Internal "marshal"))
           end)
  end.

(** ** [server.go]: validate, then handle for account 0 with the default limits *)

Context {G : Gronx} {C : CronLib}.

Definition validated {Req A} (validate : Req -> error)
    (handler : Req -> Z -> ServiceLimits.t -> T (GResult A)) (request : Req) : T (GResult A) :=
  match validate request with
  | Some err => mret (inl (InvalidArgument err))
  | None => handler request 0 DefaultServiceLimits
  end.

Definition server_CreateQueue := validated ValidateCreateQueueRequest handler_CreateQueue.
Definition server_GetQueue := validated ValidateGetQueueRequest handler_GetQueue.
Definition server_UpdateQueue := validated ValidateUpdateQueueRequest handler_UpdateQueue.
Definition server_DeleteQueue := validated ValidateDeleteQueueRequest handler_DeleteQueue.
Definition server_ListQueues := validated ValidateListQueuesRequest handler_ListQueues.
Definition server_Enqueue := validated ValidateEnqueueRequest handler_Enqueue.
Definition server_Dequeue := validated ValidateDequeueRequest handler_Dequeue.
Definition server_ReportStatus := validated ValidateReportStatusRequest handler_ReportStatus.
Definition server_DeleteTasks := validated ValidateDeleteTasksRequest handler_DeleteTasks.
Definition server_RestartTasks := validated ValidateRestartTasksRequest handler_RestartTasks.
Definition server_CreateSchedule := validated ValidateCreateScheduleRequest handler_CreateSchedule.
Definition server_GetSchedule := validated ValidateGetScheduleRequest handler_GetSchedule.
Definition server_UpdateSchedule := validated ValidateUpdateScheduleRequest handler_UpdateSchedule.
Definition server_DeleteSchedule := validated ValidateDeleteScheduleRequest handler_DeleteSchedule.
Definition server_ListSchedules := validated ValidateListSchedulesRequest handler_ListSchedules.
Definition server_PurgeQueue := validated ValidatePurgeQueueRequest handler_PurgeQueue.
Definition server_GetTask := validated ValidateGetTaskRequest handler_GetTask.
Definition server_ListTasks := validated ValidateListTasksRequest handler_ListTasks.
End gateway.
