(* ===== verification/GatewayWorld.v ===== *)
(** * The gateway on the single-node stub

    [MoabApiServer] over [MoabNonclusteredStub]: the world of [Stub] with the queues cache as
    its local state.  The cache ([yellowstone-common/cache]) is a parameter: [QueuesCache]
    names its operations, [QueuesCacheOk] what the gateway relies on — an entry that is
    returned was stored under that key and not deleted since; an entry may be gone at any
    time (it expires). *)

From S2P Require Export Gateway.

Class QueuesCache : Type := {
  Cache : Type;
  cache_lookup : Z -> Cache -> bytes -> option (CallResult Queue.t);
  cache_store : Z -> Cache -> bytes -> CallResult Queue.t -> Cache;
  cache_forget : Cache -> bytes -> Cache;
}.

Class QueuesCacheOk (QCa : QueuesCache) : Prop := {
  lookup_store now now' c k v r :
    cache_lookup now' (cache_store now c k v) k = Some r -> r = v;
  lookup_store_ne now now' c k k' v r :
    k <> k' -> cache_lookup now' (cache_store now c k v) k' = Some r ->
    cache_lookup now' c k' = Some r;
  lookup_forget now c k : cache_lookup now (cache_forget c k) k = None;
  lookup_forget_ne now c k k' r :
    cache_lookup now (cache_forget c k) k' = Some r -> cache_lookup now c k' = Some r;
}.

(** A cache with these laws: entries live for one second. *)
Definition queuesCacheTTL : Z := 1 * time_Second.

Definition cache_ref : QueuesCache := {|
  Cache := gmap bytes (CallResult Queue.t * Z);
  cache_lookup now c k :=
    match c !! k with
    | Some (r, expires) => if now <? expires then Some r else None
    | None => None
    end;
  cache_store now c k v := <[k := (v, now + queuesCacheTTL)]> c;
  cache_forget c k := delete k c;
|}.

#[export] Instance cache_ref_ok : QueuesCacheOk cache_ref.
Proof.
  split; cbn.
  - intros now now' c k v r. rewrite lookup_insert_eq. destruct (now' <? _); congruence.
  - intros now now' c k k' v r Hk. by rewrite lookup_insert_ne.
  - intros now c k. by rewrite lookup_delete_eq.
  - intros now c k k' r. destruct (decide (k = k')) as [->|Hk].
    + by rewrite lookup_delete_eq.
    + by rewrite lookup_delete_ne.
Qed.

Section world.
Context {U : Utils} {H : Honey} {C : CronLib} {K : Keyspace} {QCa : QueuesCache}.

Definition GWorld : Type := World (L := Cache).

(** The clock as the cache sees it, without taking a reading of the handler's. *)
Definition current (w : GWorld) : Z := clock w (clock_reads w).

#[export] Instance gateway_process : Process GWorld := {|
  now_UnixNano := time_Now;
  Uint64 := rand_Uint64;
  cache_Get key := fun w => Ok (cache_lookup (current w) (local w) key, w);
  cache_Put key r := fun w => Ok (tt, set_local (cache_store (current w) (local w) key r) w);
  cache_Delete key := fun w => Ok (tt, set_local (cache_forget (local w) key) w);
|}.
End world.
