(* ===== verification/StubLemmas.v ===== *)
(** * The shards of the stub

    A stub's adapters cut the key space into equal ranges; the search finds the one that
    holds a key.  [queues_at] and [tasks_at] are the cores a key belongs to, with rules for
    running a call there. *)

From S2P Require Export GatewayWorld.

(** [adapters] cut the key space into ranges of [size] keys. *)
Definition partitioned {S} (size : Z) (adapters : list (Adapter S)) : Prop :=
  0 < size /\ Z.of_nat (length adapters) * size = 2 ^ 32 /\
  forall i ad, adapters !! i = Some ad ->
    lowerBound ad = Z.of_nat i * size /\ upperBound ad = (Z.of_nat i + 1) * size - 1.

Section shard_ranges.
Context {S : Type}.
Implicit Types adapters : list (Adapter S).

Lemma partition_lookup size adapters key :
  partitioned size adapters -> 0 <= key < 2 ^ 32 ->
  exists ad, adapters !! Z.to_nat (key / size) = Some ad.
Proof.
  intros (Hs & Hl & _) Hk. apply lookup_lt_is_Some.
  assert (0 <= key / size) by (apply Z.div_pos; lia).
  assert (key / size < Z.of_nat (length adapters)) by (apply Z.div_lt_upper_bound; lia). lia.
Qed.

Lemma findAdapter_partition size adapters key :
  partitioned size adapters -> 0 <= key < 2 ^ 32 ->
  findAdapter adapters key = Some (Z.to_nat (key / size)).
Proof.
  intros Hp Hk. destruct (partition_lookup _ _ _ Hp Hk) as [ad Had].
  pose proof Hp as (Hs & Hl & Hb). unfold findAdapter, sort_Search.
  set (f := fun i => match adapters !! i with Some ad => lowerBound ad >? key | None => true end).
  assert (Hf : forall i, f i = true <-> (Z.to_nat (key / size) < i)%nat).
  { intros i. unfold f. assert (0 <= key / size) by (apply Z.div_pos; lia).
    pose proof (Z.div_mod key size ltac:(lia)). pose proof (Z.mod_pos_bound key size Hs).
    destruct (adapters !! i) as [ad'|] eqn:E.
    - destruct (Hb _ _ E) as [-> _]. rewrite Z.gtb_ltb, Z.ltb_lt. split; intros; nia.
    - apply lookup_ge_None in E. apply lookup_lt_Some in Had. split; [lia|done]. }
  destruct (search_loop_spec (length adapters) f 0 (length adapters)) as (H1 & H2 & H3); [lia..| |].
  { intros a b Hab. rewrite !Hf. lia. }
  set (k := search_loop _ f 0 _) in *. apply lookup_lt_Some in Had as Hlt.
  assert (k = Datatypes.S (Z.to_nat (key / size))) as ->.
  { destruct (decide (k < length adapters)%nat) as [Hlk|].
    - specialize (H3 Hlk). apply Hf in H3.
      destruct (decide (Datatypes.S (Z.to_nat (key / size)) < k)%nat) as [Hx|]; [|lia].
      specialize (H2 _ (conj (Nat.le_0_l _) Hx)). rewrite (proj2 (Hf _)) in H2; [done|lia].
    - destruct (decide (Datatypes.S (Z.to_nat (key / size)) < k)%nat) as [Hx|]; [|lia].
      specialize (H2 _ (conj (Nat.le_0_l _) Hx)). rewrite (proj2 (Hf _)) in H2; [done|lia]. }
  cbn [Nat.ltb Nat.leb]. rewrite Nat.sub_succ, Nat.sub_0_r, Had.
  destruct (Hb _ _ Had) as [_ ->].
  assert (0 <= key / size) by (apply Z.div_pos; lia).
  pose proof (Z.div_mod key size ltac:(lia)). pose proof (Z.mod_pos_bound key size Hs).
  rewrite (proj2 (Z.leb_le _ _)); [done|]. rewrite Z2Nat.id by done. nia.
Qed.

(** The shard that holds a key is the only one. *)
Lemma partition_owner size adapters i ad key :
  partitioned size adapters -> adapters !! i = Some ad ->
  lowerBound ad <= key <= upperBound ad -> i = Z.to_nat (key / size).
Proof.
  intros (Hs & _ & Hb) Had Hr. destruct (Hb _ _ Had) as [E1 E2]. rewrite E1, E2 in Hr.
  assert (key / size = Z.of_nat i) as ->; [|lia].
  symmetry. apply (Z.div_unique key size (Z.of_nat i) (key - Z.of_nat i * size)); lia.
Qed.

Lemma partition_set_core size adapters i s :
  partitioned size adapters -> partitioned size (alter (set_core s) i adapters).
Proof.
  intros (Hs & Hl & Hb). split; [done|]. split; [by rewrite length_alter|].
  intros j ad Had. destruct (decide (i = j)) as [->|Hij].
  - rewrite list_lookup_alter_eq in Had. destruct (adapters !! j) as [ad'|] eqn:E; [|done].
    cbn in Had. injection Had as <-. apply (Hb _ _ E).
  - rewrite list_lookup_alter_ne in Had by done. by apply Hb.
Qed.
End shard_ranges.

(** [NewMoabNonclusteredStub] makes a partitioned: a power of two divides the key space. *)
Lemma land_pred_pow2 n : 1 <= n -> Z.land n (n - 1) = 0 -> exists k, 0 <= k /\ n = 2 ^ k.
Proof.
  intros Hn Hl. exists (Z.log2 n). pose proof (Z.log2_nonneg n). split; [done|].
  destruct (Z.log2_spec n ltac:(lia)) as [H1 H2].
  destruct (decide (n = 2 ^ Z.log2 n)) as [|Hne]; [done|]. exfalso.
  assert (Z.testbit (Z.land n (n - 1)) (Z.log2 n) = true) as Hb; [|by rewrite Hl, Z.bits_0 in Hb].
  rewrite Z.land_spec, Z.bit_log2 by lia. cbn.
  replace (Z.log2 n) with (Z.log2 (n - 1)); [apply Z.bit_log2; lia|].
  apply Z.log2_unique; [done|]. lia.
Qed.

Lemma partition_new {S} `{KO : KeyspaceOk} app (s : S) n :
  1 <= n <= 2 ^ 32 -> Z.land n (n - 1) = 0 ->
  partitioned (2 ^ 32 / n) (new_adapters app s n).
Proof.
  intros Hn Hl. destruct (land_pred_pow2 n) as (k & Hk & ->); [lia|done|].
  assert (k <= 32) by (apply (Z.pow_le_mono_r_iff 2); lia).
  assert (2 ^ 32 / 2 ^ k = 2 ^ (32 - k)) as E by (rewrite <-Z.pow_sub_r by lia; done).
  unfold new_adapters. rewrite KeyspacePerApplication_val, E. split; [apply Z.pow_pos_nonneg; lia|]. split.
  - rewrite length_fmap, length_seq, Z2Nat.id by lia. rewrite <-Z.pow_add_r by lia. f_equal. lia.
  - intros i ad. rewrite list_lookup_fmap. destruct (seq _ _ !! i) as [j|] eqn:Ej; [|done].
    apply lookup_seq in Ej as [-> _]. intros [= <-]. cbn. lia.
Qed.

(** ** The core that holds a key *)

Section at_key.
Context {S : Type}.
Implicit Types adapters : list (Adapter S).

Definition at_key adapters (key : Z) : option S :=
  i ← findAdapter adapters key; core <$> adapters !! i.

Definition put_key adapters (key : Z) (s : S) : list (Adapter S) :=
  match findAdapter adapters key with
  | Some i => alter (set_core s) i adapters
  | None => adapters
  end.

(** Two keys of one shard. *)
Definition same_shard adapters (key key' : Z) : Prop :=
  findAdapter adapters key = findAdapter adapters key'.

#[export] Instance same_shard_dec adapters key key' : Decision (same_shard adapters key key').
Proof. unfold same_shard. apply _. Defined.

Lemma run_core_Ok {A B} adapters key (m : M S A) (answer : A -> CallResult B) s a s' :
  at_key adapters key = Some s -> rpc m s = (Ok a, s') ->
  run_core adapters (findAdapter adapters key) m answer = Ok (answer a, put_key adapters key s').
Proof.
  unfold at_key, put_key, run_core. destruct (findAdapter adapters key) as [i|]; [|done].
  cbn. destruct (adapters !! i) as [ad|] eqn:E; [|done]. cbn. intros [= <-] ->.
  do 2 f_equal. apply list_eq. intros j. destruct (decide (i = j)) as [->|Hij].
  - rewrite list_lookup_alter_eq, E. cbn. rewrite list_lookup_insert_eq; [done|]. by eapply lookup_lt_Some.
  - by rewrite list_lookup_alter_ne, list_lookup_insert_ne.
Qed.

Lemma put_key_same adapters key s : at_key adapters key = Some s -> put_key adapters key s = adapters.
Proof.
  unfold at_key, put_key. destruct (findAdapter adapters key) as [i|]; [|done]. cbn. intros Hs.
  apply list_eq. intros j. destruct (decide (i = j)) as [->|Hij].
  - rewrite list_lookup_alter_eq. destruct (adapters !! j) as [[c i l u]|]; cbn in *; [|done].
    by injection Hs as ->.
  - by rewrite list_lookup_alter_ne.
Qed.

Lemma partition_put size adapters key s : partitioned size adapters -> partitioned size (put_key adapters key s).
Proof. unfold put_key. destruct (findAdapter _ _); [apply partition_set_core|done]. Qed.

Lemma findAdapter_put size adapters key s key' :
  partitioned size adapters -> 0 <= key' < 2 ^ 32 ->
  findAdapter (put_key adapters key s) key' = findAdapter adapters key'.
Proof.
  intros Hp Hk. rewrite (findAdapter_partition size adapters key') by done.
  apply findAdapter_partition; [by apply partition_put|done].
Qed.

Lemma at_key_is_Some size adapters key :
  partitioned size adapters -> 0 <= key < 2 ^ 32 -> exists s, at_key adapters key = Some s.
Proof.
  intros Hp Hk. destruct (partition_lookup _ _ _ Hp Hk) as [ad Had].
  unfold at_key. rewrite (findAdapter_partition size) by done. cbn. rewrite Had. by exists (core ad).
Qed.

Lemma at_key_put size adapters key s key' :
  partitioned size adapters -> 0 <= key < 2 ^ 32 -> 0 <= key' < 2 ^ 32 ->
  at_key (put_key adapters key s) key' =
    if decide (same_shard adapters key key') then Some s else at_key adapters key'.
Proof.
  intros Hp Hk Hk'. unfold at_key. rewrite (findAdapter_put size) by done.
  unfold put_key. pose proof (findAdapter_partition size adapters key Hp Hk) as Ek.
  pose proof (findAdapter_partition size adapters key' Hp Hk') as Ek'. rewrite Ek, Ek'. cbn.
  destruct (partition_lookup _ _ _ Hp Hk) as [ad Had].
  case_decide as E; unfold same_shard in E; rewrite Ek, Ek' in E.
  - injection E as E. rewrite <-E, list_lookup_alter_eq, Had. done.
  - rewrite list_lookup_alter_ne; [done|]. congruence.
Qed.

Lemma at_key_put_eq size adapters key s :
  partitioned size adapters -> 0 <= key < 2 ^ 32 -> at_key (put_key adapters key s) key = Some s.
Proof. intros. rewrite (at_key_put size) by done. by rewrite decide_True. Qed.

Lemma same_shard_put size adapters key s k1 k2 :
  partitioned size adapters -> 0 <= k1 < 2 ^ 32 -> 0 <= k2 < 2 ^ 32 ->
  same_shard (put_key adapters key s) k1 k2 <-> same_shard adapters k1 k2.
Proof. intros. unfold same_shard. by rewrite !(findAdapter_put size) by done. Qed.
End at_key.

(** ** Calls through the stub *)

Section calls.
Context {U : Utils} {H : Honey} {C : CronLib} {K : Keyspace} {L : Type}.
Notation W := (World (L := L)).
Implicit Types w : W.

(** The world after a reading of the clock. *)
Definition ticked (w : W) : W :=
  mkWorld (moabQueuesCores w) (moabTasksCores w) (clock w) (S (clock_reads w))
    (rand w) (rand_draws w) (local w).
Definition read_clock (w : W) : Z := clock w (clock_reads w).

Lemma wp_on_queues {A} key m w s (a : QResponse A) s' Q :
  at_key (moabQueuesCores w) key = Some s -> rpc (m (read_clock w)) s = (Ok a, s') ->
  Q (queues_answer a) (set_queues (put_key (moabQueuesCores w) key s') (ticked w)) ->
  wp (on_queues (Some key) m) w Q.
Proof.
  intros Hs Hm HQ. unfold wp, on_queues, mbind, M_bind, time_Now, deref, mret, M_ret, at_queues.
  cbn [moabQueuesCores]. unfold read_clock in Hm. by rewrite (run_core_Ok _ _ _ _ _ _ _ Hs Hm).
Qed.

Lemma wp_on_tasks {A} key m w s (a : Response A) s' Q :
  at_key (moabTasksCores w) key = Some s -> rpc (m (read_clock w)) s = (Ok a, s') ->
  Q (tasks_answer a) (set_tasks (put_key (moabTasksCores w) key s') (ticked w)) ->
  wp (on_tasks (Some key) m) w Q.
Proof.
  intros Hs Hm HQ. unfold wp, on_tasks, mbind, M_bind, time_Now, deref, mret, M_ret, at_tasks.
  cbn [moabTasksCores]. unfold read_clock in Hm. by rewrite (run_core_Ok _ _ _ _ _ _ _ Hs Hm).
Qed.

(** The response with [meta.Now]. *)
Definition with_meta {A} (now : Z) (r : CallResult A) : CallResult (A * Z) :=
  match r with inl e => inl e | inr a => inr (a, now) end.

Lemma wp_on_tasks_meta {A} key m w s (a : Response A) s' Q :
  at_key (moabTasksCores w) key = Some s -> rpc (m (read_clock w)) s = (Ok a, s') ->
  Q (with_meta (read_clock w) (tasks_answer a))
    (set_tasks (put_key (moabTasksCores w) key s') (ticked w)) ->
  wp (on_tasks_meta (Some key) m) w Q.
Proof.
  intros Hs Hm HQ. unfold wp, on_tasks_meta, mbind, M_bind, time_Now, deref, mret, M_ret, at_tasks.
  cbn [moabTasksCores]. unfold read_clock in Hm. by rewrite (run_core_Ok _ _ _ _ _ _ _ Hs Hm).
Qed.

Context {HO : HoneyOk H}.

(** A client call that answers [a] and leaves a core it reads unchanged. *)
Lemma wp_on_queues_read {A} key m w s (a : QResponse A) Q :
  at_key (moabQueuesCores w) key = Some s -> m (read_clock w) s = Ok (a, s) ->
  Q (queues_answer a) (ticked w) -> wp (on_queues (Some key) m) w Q.
Proof.
  intros Hs Hm HQ. eapply wp_on_queues; [done|by unfold rpc; rewrite Hm|].
  rewrite put_key_same by done. by destruct w.
Qed.
End calls.
