(* ===== verification/GatewayProofs.v ===== *)
(** * The gateway against the contracts of the cores

    [gw_ok]: the shards cut the key space and every core keeps its invariant.  The rules
    below run a call of the stub against the specification of the core it reaches. *)

From S2P Require Export StubLemmas QueuesSystem TasksSystem.

Section gateway_proofs.
Context {U : Utils} {H : Honey} {C : CronLib} {K : Keyspace} {QCa : QueuesCache}.
Context {UO : UtilsOk U} {HO : HoneyOk H} {CO : CronOk C} {KO : KeyspaceOk K} {QCO : QueuesCacheOk QCa}.
Implicit Types w : GWorld.

Record gw_ok (w : GWorld) : Prop := {
  gw_queues : exists size, partitioned size (moabQueuesCores w);
  gw_tasks : exists size, partitioned size (moabTasksCores w);
  gw_qinv : forall i ad, moabQueuesCores w !! i = Some ad -> QInv (qview (core ad));
  gw_tinv : forall i ad, moabTasksCores w !! i = Some ad -> Good (view (core ad));
}.

(** The cores an account and a queue belong to. *)
Definition queues_core w (a : Z) : option QTxn := at_key (moabQueuesCores w) (ByAccount a).
Definition tasks_core w (id : QueueId.t) : option Txn :=
  at_key (moabTasksCores w) (ByAccountAndQueue (QueueId.AccountId id) (QueueId.QueueId id)).

Lemma key_range b : 0 <= GetShardKey b < 2 ^ 32.
Proof. rewrite <-KeyspacePerApplication_val. apply GetShardKey_range. Qed.

Lemma queues_core_is_Some w a : gw_ok w -> exists s, queues_core w a = Some s.
Proof. intros [[size Hp] _ _ _]. eapply at_key_is_Some; [done|apply key_range]. Qed.
Lemma tasks_core_is_Some w id : gw_ok w -> exists s, tasks_core w id = Some s.
Proof. intros [_ [size Hp] _ _]. eapply at_key_is_Some; [done|apply key_range]. Qed.

Lemma at_key_elem {S} (l : list (Adapter S)) key s :
  at_key l key = Some s -> exists i ad, l !! i = Some ad /\ core ad = s.
Proof.
  unfold at_key. destruct (findAdapter l key) as [i|]; [|done]. cbn.
  destruct (l !! i) as [ad|] eqn:E; [|done]. intros [= <-]. by exists i, ad.
Qed.

Lemma queues_core_inv w a s : gw_ok w -> queues_core w a = Some s -> QInv (qview s).
Proof. intros Hw (i & ad & Hi & <-)%at_key_elem. by apply (gw_qinv w Hw i). Qed.
Lemma tasks_core_inv w id s : gw_ok w -> tasks_core w id = Some s -> Good (view s).
Proof. intros Hw (i & ad & Hi & <-)%at_key_elem. by apply (gw_tinv w Hw i). Qed.

(** Every core after one of them changed satisfies what the others and the new one do. *)
Lemma put_key_all {S} (P : S -> Prop) (l : list (Adapter S)) key s :
  (forall i ad, l !! i = Some ad -> P (core ad)) -> P s ->
  forall i ad, put_key l key s !! i = Some ad -> P (core ad).
Proof.
  intros Hl Hs i ad. unfold put_key. destruct (findAdapter l key) as [j|]; [|apply Hl].
  destruct (decide (j = i)) as [->|Hij].
  - rewrite list_lookup_alter_eq. destruct (l !! i); [|done]. by intros [= <-].
  - rewrite list_lookup_alter_ne by done. apply Hl.
Qed.

(** The worlds after a call to a queues core and to a tasks core. *)
Definition after_queues w (a : Z) (s : QTxn) : GWorld :=
  set_queues (put_key (moabQueuesCores w) (ByAccount a) s) (ticked w).
Definition after_tasks w (id : QueueId.t) (s : Txn) : GWorld :=
  set_tasks (put_key (moabTasksCores w) (ByAccountAndQueue (QueueId.AccountId id) (QueueId.QueueId id)) s)
    (ticked w).

Lemma gw_ok_same w w' :
  moabQueuesCores w' = moabQueuesCores w -> moabTasksCores w' = moabTasksCores w -> gw_ok w -> gw_ok w'.
Proof. intros E1 E2 [H1 H2 H3 H4]. split; rewrite ?E1, ?E2; done. Qed.

Lemma gw_ok_after_queues w a s : gw_ok w -> QInv (qview s) -> gw_ok (after_queues w a s).
Proof.
  intros [[size Hp] H2 H3 H4] Hs. split; [|done| |done].
  - exists size. by apply partition_put.
  - by apply (put_key_all (fun s => QInv (qview s))).
Qed.

Lemma gw_ok_after_tasks w id s : gw_ok w -> Good (view s) -> gw_ok (after_tasks w id s).
Proof.
  intros [H1 [size Hp] H3 H4] Hs. split; [done| |done|].
  - exists size. by apply partition_put.
  - by apply (put_key_all (fun s => Good (view s))).
Qed.

Lemma queues_core_after w a s : gw_ok w -> queues_core (after_queues w a s) a = Some s.
Proof. intros [[size Hp] _ _ _]. eapply at_key_put_eq; [done|apply key_range]. Qed.
Lemma tasks_core_after w id s : gw_ok w -> tasks_core (after_tasks w id s) id = Some s.
Proof. intros [_ [size Hp] _ _]. eapply at_key_put_eq; [done|apply key_range]. Qed.

(** Another queue's core is the new one when the queues share a shard, and else as it was. *)
Lemma tasks_core_after_other w id s id' :
  gw_ok w ->
  tasks_core (after_tasks w id s) id' = Some s \/
  tasks_core (after_tasks w id s) id' = tasks_core w id'.
Proof.
  intros [_ [size Hp] _ _]. unfold tasks_core, after_tasks, set_tasks, ticked. cbn [moabTasksCores].
  rewrite (at_key_put size) by (done || apply key_range). case_decide; auto.
Qed.

(** ** Calls *)

Lemma wp_queues_call {A} a m w s (r : QResponse A) A' Q :
  gw_ok w -> queues_core w a = Some s ->
  meets (m (read_clock w)) (qview s) (Some (r, A')) ->
  (forall s', qabs (qview s') = A' -> QInv (qview s') -> Q (queues_answer r) (after_queues w a s')) ->
  wp (on_queues (Some (ByAccount a)) m) w Q.
Proof.
  intros Hw Hs Hm HQ. destruct (proj1 (wp_ok _ _ _) (Hm s eq_refl)) as (r' & s' & E & -> & EA & Hi).
  eapply wp_on_queues; [done|by unfold rpc; rewrite E|]. by apply HQ.
Qed.

(** A call that changes nothing of a queues core. *)
Lemma wp_queues_read {A} a m w s (r : QResponse A) Q :
  gw_ok w -> queues_core w a = Some s ->
  meets (m (read_clock w)) (qview s) (Some (r, qabs (qview s))) -> readonly (m (read_clock w)) ->
  Q (queues_answer r) (ticked w) -> wp (on_queues (Some (ByAccount a)) m) w Q.
Proof.
  intros Hw Hs Hm Hr HQ. destruct (proj1 (wp_ok _ _ _) (Hm s eq_refl)) as (r' & s' & E & -> & _).
  pose proof (Hr _ _ _ E) as ->. by eapply wp_on_queues_read.
Qed.

Lemma wp_tasks_call {A} id m w s (P : Response A -> View -> Prop) Q :
  gw_ok w -> tasks_core w id = Some s -> wpv (m (read_clock w)) (view s) P ->
  (forall r s', P r (view s') -> Q (tasks_answer r) (after_tasks w id s')) ->
  wp (on_tasks (Some (ByAccountAndQueue (QueueId.AccountId id) (QueueId.QueueId id))) m) w Q.
Proof.
  intros Hw Hs Hm HQ. destruct (proj1 (wp_ok _ _ _) (Hm s eq_refl)) as (r & s' & E & Hp).
  eapply wp_on_tasks; [done|by unfold rpc; rewrite E|]. by apply HQ.
Qed.

Lemma wp_tasks_meta {A} id m w s (P : Response A -> View -> Prop) Q :
  gw_ok w -> tasks_core w id = Some s -> wpv (m (read_clock w)) (view s) P ->
  (forall r s', P r (view s') ->
     Q (with_meta (read_clock w) (tasks_answer r)) (after_tasks w id s')) ->
  wp (on_tasks_meta (Some (ByAccountAndQueue (QueueId.AccountId id) (QueueId.QueueId id))) m) w Q.
Proof.
  intros Hw Hs Hm HQ. destruct (proj1 (wp_ok _ _ _) (Hm s eq_refl)) as (r & s' & E & Hp).
  eapply wp_on_tasks_meta; [done|by unfold rpc; rewrite E|]. by apply HQ.
Qed.

(** The queue a name stands for. *)
Definition queue_named w (a : Z) (name : bytes) : option Queue.t :=
  s ← queues_core w a; find_queue (qabs (qview s)) a name.

Lemma readonly_GetQueueByName req : readonly (GetQueueByName req).
Proof.
  apply readonly_bind; [apply readonly_queues_GetByName|]. intros o.
  apply readonly_found. intros x. apply readonly_ret.
Qed.

Lemma wp_GetQueueByName w a name Q :
  gw_ok w -> is_u64 a ->
  Q (match queue_named w a name with
     | Some x => inr x
     | None => inl (AppErr (QueuesError (queueNotFoundError name)))
     end) (ticked w) ->
  wp (Stub_GetQueueByName (QueueNameRequest.mk a name)) w Q.
Proof.
  intros Hw Ha HQ. destruct (queues_core_is_Some w a Hw) as [s Hs].
  unfold queue_named in HQ. rewrite Hs in HQ. cbn in HQ.
  pose proof (refine_GetQueueByName (qview s) (QueueNameRequest.mk a name)
                (queues_core_inv w a s Hw Hs) Ha) as Hm.
  unfold spec_GetQueueByName in Hm. cbn [QueueNameRequest.AccountId QueueNameRequest.QueueName] in Hm.
  destruct (find_queue _ _ _) as [x|]; (eapply wp_queues_read; [done|done|exact Hm| |exact HQ]);
    apply readonly_GetQueueByName.
Qed.
End gateway_proofs.
