(* ===== verification/GatewayProps.v ===== *)
(** * Properties of the gateway

    End-to-end statements about API calls: what a call does to the queues core of its
    account, to the tasks cores of the queues involved and to the gateway's cache. *)

From S2P Require Export GatewayProofs.

Section gateway_props.
Context {U : Utils} {H : Honey} {C : CronLib} {K : Keyspace} {QCa : QueuesCache}.
Context {B : Base62} {TC : TokenCodec}.
Context {UO : UtilsOk U} {HO : HoneyOk H} {CO : CronOk C} {KO : KeyspaceOk K} {QCO : QueuesCacheOk QCa}.
Implicit Types w : GWorld.

(** [id] has a purge marker in its tasks core. *)
Definition marked w (id : QueueId.t) : Prop :=
  exists s, tasks_core w id = Some s /\ ~ not_purged (view s) (QueueId.AccountId id) (QueueId.QueueId id).

(** Every tasks core holds the task rows it held before. *)
Definition same_tasks w w' : Prop :=
  forall id s, tasks_core w id = Some s ->
    exists s', tasks_core w' id = Some s' /\ v_table (view s') = v_table (view s).

(** The world after a random number was drawn. *)
Definition drawn w : GWorld :=
  mkWorld (moabQueuesCores w) (moabTasksCores w) (clock w) (clock_reads w)
    (rand w) (S (rand_draws w)) (local w).
Definition next_rand w : Z := rand w (rand_draws w).

(** An id no queue of the account has, nor a deleted one that awaits collection. *)
Definition unused_id w (id : QueueId.t) : Prop :=
  exists s, queues_core w (QueueId.AccountId id) = Some s /\
    q_table (qview s) !! queue_key id = None /\ q_gc (qview s) !! queue_key id = None.

Lemma wp_draw {A} (k : Z -> M GWorld A) w Q :
  wp (k (next_rand w)) (drawn w) Q -> wp (rand_Uint64 ≫= k) w Q.
Proof. done. Qed.

Lemma wp_cache_Delete key w (Q : unit -> GWorld -> Prop) :
  Q tt (set_local (cache_forget (local w) key) w) -> wp (cache_Delete key) w Q.
Proof. done. Qed.

Lemma same_tasks_after w id s s0 :
  gw_ok w -> tasks_core w id = Some s0 -> v_table (view s) = v_table (view s0) ->
  same_tasks w (after_tasks w id s).
Proof.
  intros Hw H0 E id' s' Hs'. pose proof Hw as [_ [size Hp] _ _].
  unfold tasks_core, after_tasks, set_tasks, ticked in *. cbn [moabTasksCores].
  rewrite (at_key_put size) by (done || apply key_range). case_decide as Hsh; [|by exists s'].
  exists s. split; [done|]. rewrite E. unfold at_key in H0, Hs'. rewrite Hsh in H0. congruence.
Qed.

(** The swapped queue is what the name stands for afterwards. *)
Lemma find_swapped v v' req now x :
  let a := SwapQueueIdRequest.AccountId req in
  let new := QueueId.mk a (SwapQueueIdRequest.NewQueueId req) in
  let y := swapped_queue new now x in
  QInv v -> QInv v' -> is_u64 a -> find_queue (qabs v) a (SwapQueueIdRequest.QueueName req) = Some x ->
  a_queues (qabs v') = <[row_key y := y]> (delete (row_key x) (a_queues (qabs v))) ->
  find_queue (qabs v') a (SwapQueueIdRequest.QueueName req) = Some y.
Proof.
  intros a new y Hv Hv' Ha Hx E. rewrite find_queue_by_name in Hx |- * by (done || apply Hv || apply Hv').
  apply by_name_Some in Hx as (_ & _ & En); [|apply Hv|done].
  apply by_name_Some; [apply Hv'|done|]. split; [|split].
  - unfold has_queue. change (a_queues (qabs v') !! row_key y = Some y). by rewrite E, lookup_insert_eq.
  - done.
  - by rewrite <-En.
Qed.

Lemma wp_PurgeQueue w req a limits x :
  let name := moabpb.QueueNameRequest.QueueName req in
  let new := QueueId.mk a (next_rand w) in
  gw_ok w -> is_u64 a -> is_u64 (next_rand w) -> queue_named w a name = Some x -> unused_id w new ->
  ⟪ w ⟫ handler_PurgeQueue req a limits ⟪ r, w' ⟫
    r = inr tt /\ gw_ok w' /\ queue_named w' a name = Some (swapped_queue new (read_clock w) x) /\
    marked w' (Queue.Id x) /\ same_tasks w w' /\
    forall now, cache_lookup now (local w') (cacheKey a name) = None.
Proof.
  intros name new Hw Ha Hn Hx (s & Hs & Ht & Hg). unfold handler_PurgeQueue. cbn [maxIDGenerationAttempts with_fresh_id].
  apply wp_draw. apply wp_bind. unfold queue_named in Hx. cbn in Hs. rewrite Hs in Hx. cbn in Hx.
  assert (Hwd : gw_ok (drawn w)) by by apply (gw_ok_same w).
  pose proof (queues_core_inv w a s Hw Hs) as Hv.
  set (req' := SwapQueueIdRequest.mk a name (next_rand w)).
  pose proof (refine_SwapQueueId (qview s) req' (read_clock w) Hv (conj Ha Hn) Hg) as Hm.
  unfold spec_SwapQueueId in Hm. cbn [SwapQueueIdRequest.AccountId SwapQueueIdRequest.QueueName
    SwapQueueIdRequest.NewQueueId req'] in Hm. rewrite Hx in Hm. cbn [a_queues qabs] in Hm. fold new in Hm. rewrite Ht in Hm.
  eapply (wp_queues_call a (fun now => SwapQueueId req' now) (drawn w) s); [done|done|exact Hm|].
  intros s' EA Hv'. cbn [queues_answer]. apply wp_bind, wp_cache_Delete.
  pose proof (find_swapped (qview s) (qview s') req' (read_clock w) x Hv Hv' Ha Hx
                ltac:(by rewrite EA)) as Hy.
  set (w1 := set_local _ (after_queues (drawn w) a s')).
  assert (Hw1 : gw_ok w1).
  { apply (gw_ok_same (after_queues (drawn w) a s')); [done..|]. by apply gw_ok_after_queues. }
  assert (Hwx : wf_queue (Queue.Id x)).
  { rewrite find_queue_by_name in Hx by (done || apply Hv).
    apply by_name_Some in Hx as (Hx & _); [|apply Hv|done]. by apply (has_queue_wf (qview s)); [apply Hv|]. }
  destruct (tasks_core_is_Some w1 (Queue.Id x) Hw1) as [t Hts].
  destruct (tasks_core_inv w1 _ t Hw1 Hts) as [Hti Htp]. apply wp_bind.
  eapply (wp_tasks_call (Queue.Id x) (fun _ => PurgeQueue (Queue.Id x)) w1 t);
    [done|done|by apply op_PurgeQueue|].
  intros r t' (-> & Hti' & Htp' & Et & Hmk). apply wp_ret.
  split; [done|]. split; [by apply gw_ok_after_tasks|]. split.
  - unfold queue_named. change (queues_core (after_tasks w1 (Queue.Id x) t') a)
      with (queues_core (after_queues (drawn w) a s') a).
    rewrite queues_core_after by done. exact Hy.
  - split; [exists t'; split; [by apply tasks_core_after|done]|]. split.
    + by apply (same_tasks_after w1 (Queue.Id x) t' t).
    + intros now. apply lookup_forget.
Qed.

(** C23: [PurgeQueue] of the gateway, with a first random id that is free: the name now
    stands for the same queue under the fresh id, the old id is marked for collection, the
    gateway forgets its cached copy, and no task is touched. *)
Theorem PurgeQueue_rotates_and_marks w req a limits x :
  let name := moabpb.QueueNameRequest.QueueName req in
  let new := QueueId.mk a (next_rand w) in
  gw_ok w -> is_u64 a -> is_u64 (next_rand w) -> queue_named w a name = Some x -> unused_id w new ->
  ⟪ w ⟫ handler_PurgeQueue req a limits ⟪ r, w' ⟫
    r = inr tt /\ gw_ok w' /\ queue_named w' a name = Some (swapped_queue new (read_clock w) x) /\
    marked w' (Queue.Id x) /\ same_tasks w w' /\
    forall now, cache_lookup now (local w') (cacheKey a name) = None.
Proof. apply wp_PurgeQueue. Qed.

(** ** Stale cache entries *)

Lemma wp_eq {S A} (m : M S A) s a s' :
  wp m s (fun b s'' => b = a /\ s'' = s') -> m s = Ok (a, s').
Proof. by intros (b & s'' & -> & -> & ->)%wp_ok. Qed.

(** The world differs from [w] in the clock and in the cache at most, where the name, if
    present, stands for [x]. *)
Definition refreshed w (key : bytes) (x : Queue.t) (w1 : GWorld) : Prop :=
  moabQueuesCores w1 = moabQueuesCores w /\ moabTasksCores w1 = moabTasksCores w /\
  forall now r, cache_lookup now (local w1) key = Some r -> r = inr x.

Lemma getQueue_hit w a name r :
  cache_lookup (current w) (local w) (cacheKey a name) = Some r -> getQueue a name w = Ok (r, w).
Proof. intros E. unfold getQueue, mbind, M_bind. cbn [cache_Get gateway_process]. by rewrite E. Qed.

Lemma getQueue_miss w a name x :
  gw_ok w -> is_u64 a -> queue_named w a name = Some x ->
  (forall now, cache_lookup now (local w) (cacheKey a name) = None) ->
  exists w1, getQueue a name w = Ok (inr x, w1) /\ refreshed w (cacheKey a name) x w1.
Proof.
  intros Hw Ha Hx Hc. eexists. split.
  - unfold getQueue, mbind, M_bind. cbn [cache_Get gateway_process]. rewrite Hc.
    cbn [api_GetQueueByName MoabNonclusteredStub].
    rewrite (wp_eq (Stub_GetQueueByName (QueueNameRequest.mk a name)) w (inr x) (ticked w)); [reflexivity|].
    apply wp_GetQueueByName; [done..|]. by rewrite Hx.
  - split; [done|]. split; [done|]. intros now r Hr. exact (lookup_store _ _ _ _ _ _ Hr).
Qed.

(** A call that answers "purged" is made once more, with the queue the name stands for. *)
Lemma with_retry_purged {A Bo} w w0 a name old x (m : Queue.t -> M GWorld (CallResult A))
    (k : A -> M GWorld (GResult Bo)) ea eq_ :
  gw_ok w0 -> is_u64 a -> queue_named w0 a name = Some x ->
  m old w = Ok (inl (AppErr (TasksError (queueIdPurgedError ea eq_))), w0) ->
  exists w1, refreshed w0 (cacheKey a name) x w1 /\
    with_retry a name old m k w = or_return (m x) k w1.
Proof.
  intros Hw Ha Hx Hm.
  set (w' := set_local (cache_forget (local w0) (cacheKey a name)) w0).
  destruct (getQueue_miss w' a name x) as (w1 & E & Hr); [|done|exact Hx| |].
  { by apply (gw_ok_same w0). }
  { intros now. apply lookup_forget. }
  exists w1. split; [done|].
  unfold with_retry. unfold mbind at 1, M_bind at 1. rewrite Hm.
  unfold retryWithFreshQueueIfPurged. cbn [isNotFound Code tasks_Code]. rewrite bool_decide_true by done.
  cbn [negb]. unfold mbind, M_bind. cbn [cache_Delete gateway_process]. fold w'. rewrite E. reflexivity.
Qed.

Lemma Stub_Enqueue_purged w id es :
  gw_ok w -> marked w id ->
  Stub_Enqueue (Wire.EnqueueRequest.mk (Some id) es) w =
    Ok (inl (AppErr (TasksError (queueIdPurgedError (QueueId.AccountId id) (QueueId.QueueId id)))), ticked w).
Proof.
  intros Hw (s & Hs & Hp). apply wp_eq.
  eapply (wp_on_tasks_meta _ _ w s
    (ApplicationError (queueIdPurgedError (QueueId.AccountId id) (QueueId.QueueId id))) s).
  - exact Hs.
  - destruct (marked_calls s id (EnqueueRequest.mk id es) (DequeueRequest.mk id None 0 None 0)
      (ListTasksRequest.mk id TASK_STATE_INVALID None 0) (read_clock w) Hp) as [E _]; [done..|].
    unfold rpc. cbn. unfold mbind, M_bind, deref, mret, M_ret. by rewrite E.
  - split; [done|]. rewrite put_key_same by exact Hs. by destruct w.
Qed.

Lemma Stub_Dequeue_purged w id settings limit dlq keepalive :
  gw_ok w -> marked w id ->
  Stub_Dequeue (Wire.DequeueRequest.mk (Some id) settings limit dlq keepalive) w =
    Ok (inl (AppErr (TasksError (queueIdPurgedError (QueueId.AccountId id) (QueueId.QueueId id)))), ticked w).
Proof.
  intros Hw (s & Hs & Hp). apply wp_eq.
  eapply (wp_on_tasks_meta _ _ w s
    (ApplicationError (queueIdPurgedError (QueueId.AccountId id) (QueueId.QueueId id))) s).
  - exact Hs.
  - destruct (marked_calls s id (EnqueueRequest.mk id []) (DequeueRequest.mk id settings limit dlq keepalive)
      (ListTasksRequest.mk id TASK_STATE_INVALID None 0) (read_clock w) Hp) as (_ & E & _); [done..|].
    unfold rpc. cbn. unfold mbind, M_bind, deref, mret, M_ret. by rewrite E.
  - split; [done|]. rewrite put_key_same by exact Hs. by destruct w.
Qed.

(** The core request of [Dequeue] for a queue. *)
Definition dequeue_call (req : moabpb.DequeueRequest.t) (queue : Queue.t) : Wire.DequeueRequest.t :=
  Wire.DequeueRequest.mk (Some (Queue.Id queue)) (Queue.DequeuingSettings queue)
    (if moabpb.DequeueRequest.BatchSize req =? 0 then 1 else moabpb.DequeueRequest.BatchSize req)
    (Queue.DeadLetterQueueConfig queue)
    (if moabpb.DequeueRequest.KeepaliveTimeoutInSeconds req =? 0
     then Queue.KeepaliveTimeoutInSeconds queue
     else moabpb.DequeueRequest.KeepaliveTimeoutInSeconds req).

(** The API response of a core call that returns tasks. *)
Definition reply_tasks (m : M GWorld (CallResult (list Task.t * Z)))
    : M GWorld (GResult (list moabpb.Task.t * Z)) :=
  or_return m (fun '(tasks, now) => mret (inr (tasksToFront tasks, now))).

(** C24: a gateway whose cache holds a purged copy of a queue recovers while the purge marker of
    the old id is still there: [Enqueue] and [Dequeue] by name, within the batch limits, with
    entries that convert, and when the cached copy is not paused, call the tasks core with the id the name stands for
    now, leave every core as it was before that call, and replace the cached entry.  Only the
    id is refreshed for [Enqueue]: its entries are the ones computed before, with the retry
    strategy and the expiry of the old copy; [Dequeue] sends the settings of the fresh queue.
    Once the marker is collected the old id is accepted again and the tasks are lost
    ([GatewayFindings.drained_marker_loses_tasks]). *)
Theorem stale_cache_is_refreshed w req dreq a limits old x es :
  let name := moabpb.EnqueueRequest.QueueName req in
  gw_ok w -> is_u64 a -> queue_named w a name = Some x -> marked w (Queue.Id old) ->
  cache_lookup (read_clock w) (local w) (cacheKey a name) = Some (inr old) ->
  cache_lookup (read_clock (ticked w)) (local w) (cacheKey a name) = Some (inr old) ->
  i32 (len (moabpb.EnqueueRequest.Entries req)) <= ServiceLimits.MaxEnqueueBatchSize limits ->
  range_map (moabpb.EnqueueRequest.Entries req) (enqueue_entry_of (read_clock w) old limits) = inr es ->
  moabpb.DequeueRequest.QueueName dreq = name -> paused old = false ->
  moabpb.DequeueRequest.BatchSize dreq <= ServiceLimits.MaxDequeueBatchSize limits ->
  (exists w1, refreshed w (cacheKey a name) x w1 /\
     handler_Enqueue req a limits w =
       reply_tasks (Stub_Enqueue (Wire.EnqueueRequest.mk (Some (Queue.Id x)) es)) w1) /\
  (exists w1, refreshed w (cacheKey a name) x w1 /\
     handler_Dequeue dreq a limits w = reply_tasks (Stub_Dequeue (dequeue_call dreq x)) w1).
Proof.
  intros name Hw Ha Hx Hm Hc1 Hc2 Hlen Hes Hd Hp Hb.
  split.
  - unfold handler_Enqueue. fold name. rewrite Z.gtb_ltb.
    rewrite (proj2 (Z.ltb_ge _ _) Hlen). unfold mbind at 1, M_bind at 1. cbn [now_UnixNano gateway_process time_Now].
    unfold or_return at 1, mbind at 1, M_bind at 1. change (mkWorld _ _ _ _ _ _ _) with (ticked w).
    rewrite (getQueue_hit (ticked w) a name _ Hc2). fold (read_clock w). rewrite Hes.
    destruct (with_retry_purged (ticked w) (ticked (ticked w)) a name old x
      (fun queue => Stub_Enqueue (Wire.EnqueueRequest.mk (Some (Queue.Id queue)) es))
      (fun '(tasks, now) => mret (inr (tasksToFront tasks, now))) _ _
      ltac:(by apply (gw_ok_same w)) Ha Hx
      (Stub_Enqueue_purged (ticked w) (Queue.Id old) es ltac:(by apply (gw_ok_same w)) Hm))
      as (w1 & Hr & E).
    exists w1. split; [exact Hr|exact E].
  - unfold handler_Dequeue. rewrite Hd, Z.gtb_ltb, (proj2 (Z.ltb_ge _ _) Hb).
    unfold or_return at 1, mbind at 1, M_bind at 1. rewrite (getQueue_hit w a name _ Hc1), Hp. cbv zeta.
    destruct (with_retry_purged w (ticked w) a name old x
      (fun queue => Stub_Dequeue (dequeue_call dreq queue))
      (fun '(tasks, now) => mret (inr (tasksToFront tasks, now))) _ _
      ltac:(by apply (gw_ok_same w)) Ha Hx
      (Stub_Dequeue_purged w (Queue.Id old) _ _ _ _ Hw Hm))
      as (w1 & Hr & E).
    exists w1. split; [exact Hr|exact E].
Qed.

(** ** Creating a queue *)

(** The [j]-th random number from here on. *)
Definition rand_at w (j : nat) : Z := rand w (rand_draws w + j).

(** The account has no queue of that name and may have one more; read off the tables. *)
Definition room w (a : Z) (name : bytes) (limit : Z) : Prop :=
  exists s, queues_core w a = Some s /\ find_queue (qabs (qview s)) a name = None /\
    count_queues (qabs (qview s)) a < limit.
Definition taken w (id : QueueId.t) : Prop :=
  exists s, queues_core w (QueueId.AccountId id) = Some s /\ is_Some (a_queues (qabs (qview s)) !! queue_key id).

(** The request the queues core handles, and the row it stores. *)
Definition create_core (req : moabpb.CreateQueueRequest.t) (a : Z) (limits : ServiceLimits.t) (n : Z)
    : CreateQueueRequest.t :=
  CreateQueueRequest.mk (QueueId.mk a n) (moabpb.CreateQueueRequest.Name req)
    (moabpb.CreateQueueRequest.Description req)
    (moabpb.CreateQueueRequest.KeepaliveTimeoutInSeconds req)
    (retryStrategyToCore (moabpb.CreateQueueRequest.RetryStrategy req))
    (dequeuingSettingsToCore (moabpb.CreateQueueRequest.DequeuingSettings req))
    (deadLetterQueueConfigToCore (moabpb.CreateQueueRequest.DeadLetterQueueConfig req))
    (moabpb.CreateQueueRequest.ExpiresInSeconds req) (ServiceLimits.MaxNumberOfQueues limits).
Definition created (req : moabpb.CreateQueueRequest.t) (a : Z) (limits : ServiceLimits.t) (n now : Z)
    : Queue.t := new_queue (create_core req a limits n) now.

(** What the queues core of [a] holds, as far as its tables go. *)
Definition same_queues w w' (a : Z) : Prop :=
  exists s s', queues_core w a = Some s /\ queues_core w' a = Some s' /\ qabs (qview s') = qabs (qview s).

Lemma room_same w w' a name limit : same_queues w w' a -> room w a name limit -> room w' a name limit.
Proof. intros (s & s' & E1 & E2 & E) (s0 & E0 & ?). exists s'. rewrite E1 in E0. injection E0 as <-. by rewrite E. Qed.
Lemma taken_same w w' id : same_queues w w' (QueueId.AccountId id) -> taken w id -> taken w' id.
Proof. intros (s & s' & E1 & E2 & E) (s0 & E0 & ?). exists s'. rewrite E1 in E0. injection E0 as <-. by rewrite E. Qed.
Lemma unused_id_same w w' id : same_queues w w' (QueueId.AccountId id) -> unused_id w id -> unused_id w' id.
Proof.
  intros (s & s' & E1 & E2 & E) (s0 & E0 & ?). exists s'. rewrite E1 in E0. injection E0 as <-.
  change (q_table (qview s')) with (a_queues (qabs (qview s'))).
  change (q_gc (qview s')) with (a_gc (qabs (qview s'))). by rewrite E.
Qed.

(** One attempt: a taken id is answered with a collision and changes nothing; a free one
    creates the queue. *)
Lemma wp_CreateQueue_taken w req a limits n Q :
  gw_ok w -> is_u64 a -> is_u64 n ->
  room w a (moabpb.CreateQueueRequest.Name req) (ServiceLimits.MaxNumberOfQueues limits) ->
  taken w (QueueId.mk a n) ->
  (forall w', gw_ok w' -> same_queues w w' a -> moabTasksCores w' = moabTasksCores w ->
     rand w' = rand w -> rand_draws w' = rand_draws w ->
     Q (inl (AppErr (QueuesError (queueIdCollisionError (QueueId.mk a n))))) w') ->
  wp (Stub_CreateQueue (create_queue_request req a limits n)) w Q.
Proof.
  intros Hw Ha Hn (s & Hs & Hf & Hc) (s0 & E0 & Hx) HQ. cbn in E0. rewrite Hs in E0. injection E0 as <-.
  pose proof (queues_core_inv w a s Hw Hs) as Hv.
  set (cr := create_core req a limits n).
  assert (Hg : q_gc (qview s) !! queue_key (QueueId.mk a n) = None).
  { apply eq_None_not_Some. intros Hg. apply (ln_dead _ (qi_linked _ Hv)) in Hg.
    change (is_Some (q_table (qview s) !! queue_key (QueueId.mk a n))) in Hx. rewrite Hg in Hx. by destruct Hx. }
  pose proof (refine_CreateQueue (qview s) cr (read_clock w) Hv (conj Ha Hn) Hg) as Hm.
  unfold spec_CreateQueue in Hm. cbn [CreateQueueRequest.QueueId CreateQueueRequest.Name
    CreateQueueRequest.MaxNumberOfQueues cr create_core QueueId.AccountId] in Hm.
  rewrite Hf, Z.geb_leb in Hm.
  rewrite (proj2 (Z.leb_gt _ _) Hc) in Hm. destruct Hx as [x Hx]. rewrite Hx in Hm.
  eapply (wp_queues_call a (fun now => CreateQueue cr now) w s); [done|done|exact Hm|].
  intros s' EA Hv'. apply HQ; [by apply gw_ok_after_queues| |done..].
  exists s, s'. split; [done|]. split; [by apply queues_core_after|done].
Qed.

Lemma wp_CreateQueue_free w req a limits n Q :
  gw_ok w -> is_u64 a -> is_u64 n ->
  room w a (moabpb.CreateQueueRequest.Name req) (ServiceLimits.MaxNumberOfQueues limits) ->
  unused_id w (QueueId.mk a n) ->
  (forall w', gw_ok w' -> moabTasksCores w' = moabTasksCores w ->
     queue_named w' a (moabpb.CreateQueueRequest.Name req) = Some (created req a limits n (read_clock w)) ->
     Q (inr (created req a limits n (read_clock w))) w') ->
  wp (Stub_CreateQueue (create_queue_request req a limits n)) w Q.
Proof.
  intros Hw Ha Hn (s & Hs & Hf & Hc) (s0 & E0 & Hx & Hg) HQ. cbn in E0. rewrite Hs in E0. injection E0 as <-.
  pose proof (queues_core_inv w a s Hw Hs) as Hv.
  set (cr := create_core req a limits n).
  pose proof (refine_CreateQueue (qview s) cr (read_clock w) Hv (conj Ha Hn) Hg) as Hm.
  unfold spec_CreateQueue in Hm. cbn [CreateQueueRequest.QueueId CreateQueueRequest.Name
    CreateQueueRequest.MaxNumberOfQueues cr create_core QueueId.AccountId] in Hm.
  rewrite Hf, Z.geb_leb in Hm.
  rewrite (proj2 (Z.leb_gt _ _) Hc) in Hm. change (a_queues (qabs (qview s))) with (q_table (qview s)) in Hm.
  rewrite Hx in Hm.
  eapply (wp_queues_call a (fun now => CreateQueue cr now) w s); [done|done|exact Hm|].
  intros s' EA Hv'. apply HQ; [by apply gw_ok_after_queues|done|].
  unfold queue_named. rewrite queues_core_after by done. cbn.
  rewrite find_queue_by_name by (done || apply Hv'). apply by_name_Some; [apply Hv'|done|].
  split; [|done]. change (a_queues (qabs (qview s')) !! row_key (new_queue cr (read_clock w)) =
    Some (new_queue cr (read_clock w))). rewrite EA. apply lookup_insert_eq.
Qed.

Lemma same_queues_refl w a : gw_ok w -> same_queues w w a.
Proof. intros Hw. destruct (queues_core_is_Some w a Hw) as [s Hs]. by exists s, s. Qed.
Lemma same_queues_trans w1 w2 w3 a : same_queues w1 w2 a -> same_queues w2 w3 a -> same_queues w1 w3 a.
Proof.
  intros (s1 & s2 & E1 & E2 & E) (s2' & s3 & E2' & E3 & E'). exists s1, s3. rewrite E2 in E2'.
  injection E2' as <-. split; [done|]. split; [done|]. by rewrite E'.
Qed.

(** What is left to show after the first [k] ids were taken. *)
Definition create_outcome w req a limits (n k : nat) (r : GResult moabpb.Queue.t) w' : Prop :=
  gw_ok w' /\ moabTasksCores w' = moabTasksCores w /\
  if decide (k < n)%nat then
    exists now, let x := created req a limits (rand_at w k) now in
      r = inr (queueToFront x) /\ queue_named w' a (moabpb.CreateQueueRequest.Name req) = Some x
  else r = inl (Internal "failed to generate a unique id") /\ same_queues w w' a.

Lemma wp_with_fresh_id req a limits n : forall k w,
  gw_ok w -> is_u64 a -> (forall j, (j <= k)%nat -> is_u64 (rand_at w j)) ->
  room w a (moabpb.CreateQueueRequest.Name req) (ServiceLimits.MaxNumberOfQueues limits) ->
  (forall j, (j < k)%nat -> taken w (QueueId.mk a (rand_at w j))) ->
  ((k < n)%nat -> unused_id w (QueueId.mk a (rand_at w k))) ->
  wp (with_fresh_id n (fun m => api_CreateQueue (create_queue_request req a limits m))
        (fun queue => mret (inr (queueToFront queue)))) w (create_outcome w req a limits n k).
Proof.
  induction n as [|n IH]; intros k w Hw Ha Hr Hroom Ht Hf; cbn [with_fresh_id].
  - apply wp_ret. split; [done|]. split; [done|]. rewrite decide_False by lia.
    split; [done|by apply same_queues_refl].
  - apply wp_draw. assert (Er : forall j, rand_at w (S j) = rand_at (drawn w) j).
    { intros j. unfold rand_at, drawn. cbn. f_equal. lia. }
    assert (E0 : next_rand w = rand_at w 0) by (unfold next_rand, rand_at; f_equal; lia). rewrite E0.
    assert (Hd : gw_ok (drawn w)) by by apply (gw_ok_same w). apply wp_bind. destruct k as [|k].
    + apply wp_CreateQueue_free; [done|done|by apply Hr|done|apply Hf; lia|].
      intros w' Hw' Et Hx. apply wp_ret. split; [done|]. split; [done|]. rewrite decide_True by lia.
      exists (read_clock w). by split.
    + apply wp_CreateQueue_taken; [done|done|apply Hr; lia|done|apply Ht; lia|].
      intros w' Hw' Hsame Et Erand Edraws. cbn [isIDCollision Code queues_Code].
      rewrite bool_decide_true by done.
      assert (Er' : forall j, rand_at w' j = rand_at w (S j)).
      { intros j. unfold rand_at. rewrite Erand, Edraws. cbn. f_equal. lia. }
      eapply wp_mono; [apply (IH k w'); [done|done| | | |]|].
      * intros j Hj. rewrite Er'. apply Hr. lia.
      * by apply (room_same (drawn w)).
      * intros j Hj. rewrite Er'. apply (taken_same (drawn w)); [done|]. apply Ht. lia.
      * intros Hk. rewrite Er'. apply (unused_id_same (drawn w)); [done|]. apply Hf. lia.
      * intros r w'' (Hw'' & Et' & Ho). split; [done|]. split; [by rewrite Et', Et|].
        destruct (decide (k < n)%nat); [rewrite decide_True by lia|rewrite decide_False by lia].
        -- destruct Ho as (now & Ho). exists now. by rewrite Er' in Ho.
        -- destruct Ho as [-> Ho]. split; [done|]. by apply (same_queues_trans (drawn w) w').
Qed.

(** C28: when the name is free and the account may have one more queue, [CreateQueue] draws up to
    five random ids and uses the first that no queue of the account has; when all five are
    taken it answers [Internal] and stores nothing.  The id it uses must not be that of a
    deleted queue awaiting collection, which the code does not check. *)
Theorem CreateQueue_retries_on_collision w req a limits (k : nat) :
  gw_ok w -> is_u64 a -> (forall j, (j <= k)%nat -> is_u64 (rand_at w j)) ->
  room w a (moabpb.CreateQueueRequest.Name req) (ServiceLimits.MaxNumberOfQueues limits) ->
  (forall j, (j < k)%nat -> taken w (QueueId.mk a (rand_at w j))) ->
  ((k < 5)%nat -> unused_id w (QueueId.mk a (rand_at w k))) ->
  ⟪ w ⟫ handler_CreateQueue req a limits ⟪ r, w' ⟫
    gw_ok w' /\ moabTasksCores w' = moabTasksCores w /\
    if decide (k < 5)%nat then
      exists now, let x := created req a limits (rand_at w k) now in
        r = inr (queueToFront x) /\ queue_named w' a (moabpb.CreateQueueRequest.Name req) = Some x
    else r = inl (Internal "failed to generate a unique id") /\ same_queues w w' a.
Proof. intros. by apply wp_with_fresh_id. Qed.

(** ** Reading a queue back *)

Lemma retryStrategy_roundtrip s : retryStrategyToFront (retryStrategyToCore s) = s.
Proof. by destruct s as [[]|]. Qed.
Lemma deadLetterQueueConfig_roundtrip c : deadLetterQueueConfigToFront (deadLetterQueueConfigToCore c) = c.
Proof. by destruct c as [[]|]. Qed.
Lemma dequeuingSettings_roundtrip s field :
  FrontValidators.validateDequeuingSettings s field = None ->
  dequeuingSettingsToFront (dequeuingSettingsToCore s) = s.
Proof.
  destruct s as [[m [[t i u]|] p]|]; [|done..]. cbn. intros Hv. no_error.
  destruct u; cbn in *; done.
Qed.

(** The API message of a queue that was just created. *)
Definition created_front (req : moabpb.CreateQueueRequest.t) (now : Z) : moabpb.Queue.t :=
  moabpb.Queue.mk (moabpb.CreateQueueRequest.Name req) (moabpb.CreateQueueRequest.Description req)
    now now 1 (moabpb.CreateQueueRequest.KeepaliveTimeoutInSeconds req)
    (moabpb.CreateQueueRequest.ExpiresInSeconds req) (moabpb.CreateQueueRequest.RetryStrategy req)
    (moabpb.CreateQueueRequest.DequeuingSettings req)
    (moabpb.CreateQueueRequest.DeadLetterQueueConfig req).

Lemma queueToFront_created req a limits n now `{Gronx} :
  ValidateCreateQueueRequest req = None ->
  queueToFront (created req a limits n now) = created_front req now.
Proof.
  intros Hv. unfold ValidateCreateQueueRequest in Hv. no_error.
  unfold queueToFront, created, created_front, new_queue, create_core. cbn.
  rewrite retryStrategy_roundtrip, deadLetterQueueConfig_roundtrip. erewrite dequeuingSettings_roundtrip; [done|].
  eassumption.
Qed.

Lemma wp_GetStatistics w id Q :
  gw_ok w -> (forall st, Q (inr (st, read_clock w)) (ticked w)) ->
  wp (Stub_GetStatistics (Wire.QueueIdRequest.mk (Some id))) w Q.
Proof.
  intros Hw HQ. destruct (tasks_core_is_Some w id Hw) as [s Hs].
  assert (wp (GetStatistics id (read_clock w)) s (fun r s' => s' = s /\ exists st, r = Payload st))
    as (r & s' & E & -> & st & ->)%wp_ok.
  { unfold GetStatistics. repeat (apply wp_bind, wp_gets). split; [done|]. by eexists. }
  eapply (wp_on_tasks_meta _ _ w s (Payload st) s); [exact Hs| |].
  - unfold rpc. cbn. unfold mbind, M_bind, deref, mret, M_ret. by rewrite E.
  - rewrite put_key_same by exact Hs. destruct w. apply HQ.
Qed.

(** A queue created through the API reads back as it was sent: [CreateQueue] answers
    with the request's fields, version 1 and the time of the call, and [GetQueue] by name
    answers with that same queue. *)
Theorem created_queue_reads_back w req a limits `{Gronx} :
  let name := moabpb.CreateQueueRequest.Name req in
  gw_ok w -> is_u64 a -> is_u64 (next_rand w) -> ValidateCreateQueueRequest req = None ->
  room w a name (ServiceLimits.MaxNumberOfQueues limits) -> unused_id w (QueueId.mk a (next_rand w)) ->
  ⟪ w ⟫ (r1 ← handler_CreateQueue req a limits;
         r2 ← handler_GetQueue (moabpb.QueueNameRequest.mk name) a limits;
         mret (r1, r2)) ⟪ r, w' ⟫
    exists stats now, r = (inr (created_front req (read_clock w)),
                           inr (created_front req (read_clock w), stats, now)).
Proof.
  intros name Hw Ha Hn Hv Hroom Hf. apply wp_bind. unfold handler_CreateQueue.
  cbn [maxIDGenerationAttempts with_fresh_id]. apply wp_draw, wp_bind.
  assert (Hd : gw_ok (drawn w)) by by apply (gw_ok_same w).
  apply wp_CreateQueue_free; [done..|]. intros w1 Hw1 _ Hx. apply wp_ret. apply wp_bind.
  unfold handler_GetQueue. cbn [moabpb.QueueNameRequest.QueueName]. unfold or_return at 1. apply wp_bind.
  apply wp_GetQueueByName; [done..|]. unfold name. rewrite Hx. unfold or_return. apply wp_bind.
  apply wp_GetStatistics; [by apply (gw_ok_same w1)|]. intros st. apply wp_ret, wp_ret.
  exists (queueStatsToFront st), (read_clock (ticked w1)).
  by rewrite (queueToFront_created _ _ _ _ _ Hv).
Qed.
End gateway_props.
