(* ===== verification/LoadGeneratorProps.v ===== *)
(** * Properties of the load generator

    A configuration that passes [Validate] only makes requests the gateway's validators
    accept, producers never panic and account for every call, the pacer keeps its distance,
    and setting up the queues works under every interleaving of its goroutines. *)

From S2P Require Export LoadPool GatewayProps.

(** ** Decimal numbers in names *)

Definition is_digit (c : Z) : Prop := 48 <= c <= 57.

Lemma str_app s1 s2 : str (s1 +:+ s2) = str s1 ++ str s2.
Proof.
  induction s1 as [|c s1 IH]; [done|]. change (str (String c s1 +:+ s2)) with
    (Z.of_N (Ascii.N_of_ascii c) :: str (s1 +:+ s2)). by rewrite IH.
Qed.

Lemma pretty_N_char_digit x : is_digit (Z.of_N (Ascii.N_of_ascii (pretty_N_char x))).
Proof. unfold is_digit, pretty_N_char. by repeat case_match. Qed.

Lemma pretty_N_go_digits k : forall (x : N) s, (x < 10 ^ N.of_nat k)%N ->
  exists ds, str (pretty_N_go x s) = ds ++ str s /\ Forall is_digit ds /\ (length ds <= k)%nat.
Proof.
  induction k as [|k IH]; intros x s Hx.
  - assert (x = 0)%N as -> by (cbn in Hx; lia). exists []. rewrite pretty_N_go_0. by repeat constructor.
  - destruct (decide (0 < x)%N) as [Hp|Hp].
    + rewrite pretty_N_go_step by done.
      destruct (IH (x `div` 10)%N (String (pretty_N_char (x `mod` 10)) s)) as (ds & E & Hd & Hl).
      { apply N.Div0.div_lt_upper_bound. by rewrite <-N.pow_succ_r', <-Nat2N.inj_succ. }
      exists (ds ++ [Z.of_N (Ascii.N_of_ascii (pretty_N_char (x `mod` 10)))]). split; [|split].
      * by rewrite E, <-app_assoc.
      * apply Forall_app. split; [done|]. apply Forall_singleton, pretty_N_char_digit.
      * rewrite length_app. cbn. lia.
    + assert (x = 0)%N as -> by lia. exists []. rewrite pretty_N_go_0. repeat constructor. cbn. lia.
Qed.

(** A Go [int] that is not negative has at most 19 digits. *)
Lemma pretty_digits z : 0 <= z < two63 ->
  Forall is_digit (str (pretty z)) /\ len (str (pretty z)) <= 19.
Proof.
  intros Hz. unfold pretty, pretty_Z. destruct z as [|p|p]; [by repeat constructor| |lia].
  unfold pretty, pretty_positive, pretty, pretty_N. rewrite decide_False by done.
  destruct (pretty_N_go_digits 19 (Npos p) "") as (ds & -> & Hd & Hl).
  { assert (10 ^ N.of_nat 19 = 10000000000000000000)%N as -> by reflexivity. rewrite two63_val in Hz. lia. }
  cbn. rewrite app_nil_r. split; [done|]. unfold len. lia.
Qed.

Lemma nameRegex_app a b : nameRegex (a ++ b) = nameRegex a && nameRegex b.
Proof. apply forallb_app. Qed.

Lemma nameRegex_digits ds : Forall is_digit ds -> nameRegex ds = true.
Proof.
  unfold is_digit. induction 1 as [|d ds Hd _ IH]; [done|]. cbn. unfold nameRegex in IH. rewrite IH.
  unfold is_alnum. rewrite (proj2 (Z.leb_le 48 d)), (proj2 (Z.leb_le d 57)) by lia. done.
Qed.

(** ** What [Validate] establishes *)

(** The fields are Go [int]s. *)
Definition config_typed (c : Config.t) : Prop :=
  is_i64 (Config.Queues c) /\ is_i64 (Config.DedupeKeysPerQueue c) /\ is_i64 (Config.ThreadsPerQueue c) /\
  is_i64 (Config.HandlerLatencyMsMin c) /\ is_i64 (Config.HandlerLatencyMsMax c).

(** A prefix of the gateway's name alphabet that leaves room for a number. *)
Definition prefix_ok (c : Config.t) : Prop :=
  nameRegex (Config.QueueNamePrefix c) = true /\ len (Config.QueueNamePrefix c) <= 108.

Record config_ok (c : Config.t) : Prop := {
  co_queues : 0 < Config.Queues c;
  co_payload : 0 <= Config.PayloadSizeMin c <= Config.PayloadSizeMax c;
  co_payload_max : Config.PayloadSizeMax c <= 65536;
  co_batch : 0 < Config.BatchSizeMin c <= Config.BatchSizeMax c;
  co_batch_max : Config.BatchSizeMax c <= 50;
  co_dedupe : 0 < Config.DedupeKeysPerQueue c;
  co_threads : 0 < Config.ThreadsPerQueue c;
  co_latency : 0 <= Config.HandlerLatencyMsMin c <= Config.HandlerLatencyMsMax c;
  co_prefix : Config.QueueNamePrefix c <> [];
  co_keepalive : 5 <= Config.QueueKeepaliveTimeout c <= 60;
  co_expires : 60 <= Config.QueueExpiresInSeconds c <= 14 * 86400;
  co_concurrency : 0 < Config.QueueSetupConcurrency c;
}.

Lemma Validate_ok c : Validate c = None -> config_ok c.
Proof.
  unfold Validate. rewrite !andThen_None, !reject_None.
  unfold lg.maxPayloadSize, lg.maxEnqueueBatchSize, lg.minQueueKeepaliveTimeout,
    lg.maxQueueKeepaliveTimeout, lg.minQueueExpiresInSeconds, lg.maxQueueExpiresInSeconds.
  intros Hc. destruct_and!. split; try lia. by eapply bool_decide_eq_false_1.
Qed.

(** ** Requests *)

Lemma queue_name_valid c name f :
  config_typed c -> config_ok c -> prefix_ok c -> name ∈ queue_names c -> validateQueueName name f = None.
Proof.
  intros [Hq _] Hc [Hr Hl] Hn. unfold queue_names in Hn. apply list_elem_of_fmap in Hn as (i & -> & Hi).
  apply elem_of_seq in Hi. destruct (pretty_digits (Z.of_nat i)) as [Hd Hlen]; [unfold is_i64 in Hq; lia|].
  unfold validateQueueName, validateString. rewrite andThen_None, !invalid_if_None.
  rewrite !nameRegex_app, Hr, (nameRegex_digits _ Hd).
  assert (1 <= len (Config.QueueNamePrefix c)).
  { pose proof (co_prefix c Hc). unfold len. destruct (Config.QueueNamePrefix c); [done|cbn; lia]. }
  split; [|done]. unfold len, maxNameLength in *. rewrite !length_app.
  change (length (str "-")) with 1%nat. apply orb_false_iff. rewrite Z.gtb_ltb, !Z.ltb_ge. lia.
Qed.

Lemma setup_request_valid c name :
  config_typed c -> config_ok c -> prefix_ok c -> name ∈ queue_names c ->
  ValidateCreateQueueRequest (setup_request name c) = None.
Proof.
  intros Ht Hc Hp Hn. pose proof (co_keepalive c Hc). pose proof (co_expires c Hc).
  unfold ValidateCreateQueueRequest. rewrite !andThen_None. cbn [setup_request moabpb.CreateQueueRequest.Name].
  split_and!; [by eapply queue_name_valid|done|done|done|done|..]; apply invalid_if_None; cbn;
    unfold minKeepaliveTimeoutInSeconds, maxKeepaliveTimeoutInSeconds, minExpiresTimeoutInSeconds,
      maxExpiresTimeoutInSeconds; lia.
Qed.

Lemma wp_randBetween a b rng (Q : Z -> Rng -> Prop) :
  0 <= a <= b -> b < two63 - 1 -> (forall n rng', a <= n <= b -> Q n rng') -> wp (randBetween a b) rng Q.
Proof.
  intros Ha Hb HQ. unfold randBetween. destruct (a >=? b) eqn:E; [apply wp_ret, HQ; lia|].
  rewrite i64_id by (unfold is_i64; lia). apply wp_bind, wp_Intn; [lia|]. intros n rng' Hn.
  apply wp_ret. rewrite i64_id by (unfold is_i64; lia). apply HQ. lia.
Qed.

Lemma wp_index {S A} (l : list A) i (s : S) (Q : A -> S -> Prop) :
  0 <= i < len l -> (forall x, l !! Z.to_nat i = Some x -> Q x s) -> wp (index l i) s Q.
Proof.
  intros Hi HQ. unfold index. rewrite (proj2 (Z.ltb_ge i 0)) by lia.
  destruct (lookup_lt_is_Some_2 l (Z.to_nat i)) as [x Hx]; [unfold len in Hi; lia|].
  rewrite Hx. by apply wp_ret, HQ.
Qed.

(** A loop that makes [n] values of a kind. *)
Lemma wp_make {S A} (f : nat -> M S A) (P : A -> Prop) n k (s : S) (Q : list A -> S -> Prop) :
  (forall i s, wp (f i) s (fun x _ => P x)) ->
  (forall xs s, length xs = n -> Forall P xs -> Q xs s) -> wp (for_map (seq k n) f) s Q.
Proof.
  intros Hf HQ. eapply (wp_for_map f (fun l ys _ => (length ys + length l = n)%nat /\ Forall P ys)).
  - split; [cbn; by rewrite length_seq|constructor].
  - intros x l ys s' [Hl Hys]. eapply wp_mono; [apply Hf|]. intros y s'' Hy.
    rewrite length_app. cbn in *. split; [lia|]. apply Forall_app. split; [done|by constructor].
  - intros ys s' [Hl Hys]. apply HQ; [cbn in Hl; lia|done].
Qed.

Lemma wp_randomPayload size rng (Q : bytes -> Rng -> Prop) :
  0 <= size -> (forall b rng', len b = size -> Q b rng') -> wp (randomPayload size) rng Q.
Proof.
  intros Hs HQ. unfold randomPayload. rewrite (proj2 (Z.ltb_ge _ _)) by done.
  eapply (wp_make _ (fun _ => True)).
  - intros _ s. apply wp_bind, wp_Intn; [done|]. intros n rng' Hn. by apply wp_index.
  - intros xs s Hl _. apply HQ. unfold len. lia.
Qed.

Lemma pool_key_length what i n :
  (String.length what <= 100)%nat -> 0 <= i < two63 -> 0 <= n < two63 -> len (pool_key what i n) <= 256.
Proof.
  intros Hw Hi Hn. unfold pool_key. rewrite !str_app. unfold len. rewrite !length_app.
  pose proof (proj2 (pretty_digits i Hi)) as H1. pose proof (proj2 (pretty_digits n Hn)) as H2.
  assert (Hl : length (str what) = String.length what).
  { clear. unfold str. rewrite length_fmap. induction what as [|c s IH]; [done|]. cbn. by rewrite IH. }
  unfold len in *. change (length (str "-")) with 1%nat. lia.
Qed.

Lemma wp_maybe_key what i pct size rng (Q : bytes -> Rng -> Prop) :
  (String.length what <= 100)%nat -> 0 <= i < two63 -> 0 < size < two63 ->
  (forall key rng', len key <= 256 -> Q key rng') -> wp (maybe_key what i pct size) rng Q.
Proof.
  intros Hw Hi Hs HQ. unfold maybe_key. apply wp_bind, wp_Intn; [done|]. intros roll rng1 _.
  destruct (roll <? pct); [|by apply wp_ret, HQ]. apply wp_bind, wp_Intn; [lia|]. intros n rng2 Hn.
  apply wp_ret, HQ, pool_key_length; lia.
Qed.

Lemma wp_buildEnqueueEntry c i rng :
  config_typed c -> config_ok c -> 0 <= i < two63 ->
  wp (buildEnqueueEntry c i) rng (fun e _ => forall j, validateEnqueueEntry j e = None).
Proof.
  intros (_ & Hd & Ht & _) Hc Hi. unfold buildEnqueueEntry.
  pose proof (co_payload_max c Hc). pose proof (co_dedupe c Hc). pose proof (co_threads c Hc).
  apply wp_bind, wp_randBetween; [apply (co_payload c Hc)|rewrite two63_val; lia|]. intros size rng1 Hsize.
  apply wp_bind, wp_randomPayload; [pose proof (co_payload c Hc); lia|]. intros payload rng2 Hpay.
  unfold is_i64 in *. apply wp_bind, wp_maybe_key; [cbn; lia|done|lia|]. intros dedupeKey rng3 Hk.
  apply wp_bind, wp_maybe_key; [cbn; lia|done|lia|]. intros threadId rng4 _. apply wp_ret. intros j.
  unfold validateEnqueueEntry. rewrite !andThen_None, !invalid_if_None. cbn.
  unfold maxDedupeKeyLength, maxPayloadSize. split_and!; [lia|done|done|done|lia|done|done].
Qed.

Lemma length_queue_names c : config_ok c -> len (queue_names c) = Config.Queues c.
Proof. intros Hc. unfold len, queue_names. rewrite length_fmap, length_seq. pose proof (co_queues c Hc). lia. Qed.

Lemma wp_buildEnqueueRequest c i rng :
  config_typed c -> config_ok c -> prefix_ok c -> 0 <= i < Config.Queues c ->
  wp (buildEnqueueRequest c (queue_names c) i) rng (fun req _ =>
    ValidateEnqueueRequest req = None /\
    queue_names c !! Z.to_nat i = Some (moabpb.EnqueueRequest.QueueName req) /\
    Config.BatchSizeMin c <= len (moabpb.EnqueueRequest.Entries req) <= Config.BatchSizeMax c).
Proof.
  intros Ht Hc Hp Hi. unfold buildEnqueueRequest.
  apply wp_bind, wp_index; [by rewrite length_queue_names|]. intros name Hname.
  pose proof (co_batch c Hc). pose proof (co_batch_max c Hc).
  apply wp_bind, wp_randBetween; [lia|rewrite two63_val; lia|]. intros n rng1 Hn.
  rewrite (proj2 (Z.ltb_ge n 0)) by lia. apply wp_bind.
  eapply (wp_make _ (fun e => forall j, validateEnqueueEntry j e = None)).
  - intros _ s. apply wp_buildEnqueueEntry; [done|done|]. destruct Ht as [Ht _]. unfold is_i64 in Ht. lia.
  - intros es s Hlen Hes. apply wp_ret. cbn [moabpb.EnqueueRequest.Entries moabpb.EnqueueRequest.QueueName].
    split; [|split; [done|unfold len; lia]]. unfold ValidateEnqueueRequest.
    rewrite !andThen_None, !invalid_if_None. cbn [moabpb.EnqueueRequest.Entries moabpb.EnqueueRequest.QueueName].
    unfold maxNumberOfEnqueueRequestEntries. split_and!.
    + eapply queue_name_valid; [done..|]. by eapply list_elem_of_lookup_2.
    + unfold len. lia.
    + unfold len. lia.
    + apply range_check_None. intros j e He. rewrite Forall_lookup in Hes. by eapply Hes.
Qed.

(** ** Producers *)

Lemma u64_add_u64 a b : u64 (u64 a + b) = u64 (a + b).
Proof. unfold u64. by rewrite Zplus_mod_idemp_l. Qed.
Lemma u64_add_u64_m a b c : u64 (a + u64 b + c) = u64 (a + b + c).
Proof. rewrite (Z.add_comm a), <-Z.add_assoc, u64_add_u64. f_equal. lia. Qed.

Fixpoint total {A} (f : A -> Z) (xs : list A) : Z :=
  match xs with [] => 0 | x :: xs => f x + total f xs end.

Section producer_props.
Context {E : Evrblk} {W : Type} {Api : MoabApi W}.

(** A request and the client's answer to it. *)
Definition Exchange : Type := moabpb.EnqueueRequest.t * (ClientError + list moabpb.Task.t * Z).

(** [called w calls w']: the calls lead from [w] to [w'], one after the other. *)
Inductive called : W -> list Exchange -> W -> Prop :=
  | called_nil w : called w [] w
  | called_cons w req answer w1 calls w' :
      client_Enqueue req w = Ok (answer, w1) -> called w1 calls w' ->
      called w ((req, answer) :: calls) w'.

Lemma called_app w1 calls w2 calls' w3 :
  called w1 calls w2 -> called w2 calls' w3 -> called w1 (calls ++ calls') w3.
Proof. induction 1 as [|w req answer w1 calls w' Hc _ IH]; [done|]. intros. econstructor; eauto. Qed.

(** What an answer adds to the numbers of tasks and of errors. *)
Definition tasks_answered (x : Exchange) : Z := match x.2 with inr (tasks, _) => len tasks | inl _ => 0 end.
Definition error_answered (x : Exchange) : Z := match x.2 with inr _ => 0 | inl _ => 1 end.

Definition record_call (s : Stats.t) (x : Exchange) : Stats.t :=
  match x.2 with
  | inr (tasks, _) => RecordEnqueue (len tasks) true s
  | inl _ => RecordEnqueue 0 false s
  end.

(** Which calls [ticks] leave in the statistics: all of them, one per tick, while the producer
    runs; once it returned all but perhaps the last, during which it was told to stop. *)
Definition recorded_of (ticks : list Tick) (running : bool) (calls recorded : list Exchange) : Prop :=
  if running then recorded = calls /\ length calls = length ticks
  else (length recorded < length ticks)%nat /\
    (recorded = calls \/
     (exists t, t ∈ ticks /\ tk_done_after t = true) /\ exists x, calls = recorded ++ [x]).

Lemma recorded_of_app t ticks running calls1 calls recorded :
  recorded_of [t] true calls1 calls1 -> recorded_of ticks running calls recorded ->
  recorded_of (t :: ticks) running (calls1 ++ calls) (calls1 ++ recorded).
Proof.
  intros [_ El]. destruct running; cbn [recorded_of]; rewrite !length_app, El; cbn [length].
  - intros [-> ->]. split; [done|lia].
  - intros [Hlt [->|[(u & Hu & Hd) (x & ->)]]]; (split; [lia|]); [by left|right]. split.
    + exists u. split; [by right|done].
    + exists x. by rewrite app_assoc.
Qed.

Lemma recorded_of_stop t ticks calls recorded :
  recorded_of [t] false calls recorded -> recorded_of (t :: ticks) false calls recorded.
Proof.
  cbn [recorded_of length]. intros [Hlt [->|[(u & Hu & Hd) Hx]]]; (split; [lia|]); [by left|right].
  split; [|done]. exists u. split; [|done]. apply elem_of_cons. left. by apply list_elem_of_singleton.
Qed.

(** The client need only handle valid requests. *)
Variable Inv : W -> Prop.
Hypothesis enqueue_ok : forall req w, ValidateEnqueueRequest req = None -> Inv w ->
  wp (client_Enqueue req) w (fun _ w' => Inv w').

Variable c : Config.t.
Hypothesis typed : config_typed c.
Hypothesis valid : config_ok c.
Hypothesis prefix : prefix_ok c.

(** A request a producer sends. *)
Definition sent (req : moabpb.EnqueueRequest.t) : Prop :=
  ValidateEnqueueRequest req = None /\ moabpb.EnqueueRequest.QueueName req ∈ queue_names c /\
  Config.BatchSizeMin c <= len (moabpb.EnqueueRequest.Entries req) <= Config.BatchSizeMax c.

(** What the iterations of [ticks] leave. *)
Definition ran (ticks : list Tick) (p : Producer W) (running : bool) (p' : Producer W) : Prop :=
  Inv (p_world p') /\
  exists calls recorded, called (p_world p) calls (p_world p') /\ Forall (fun x : Exchange => sent x.1) calls /\
    recorded_of ticks running calls recorded /\ p_stats p' = foldl record_call (p_stats p) recorded.

Lemma wp_on_rng {A} (m : M Rng A) (p : Producer W) Q :
  wp m (p_rng p) (fun a rng => Q a (mkProducer (p_world p) (p_stats p) rng (p_pacer p))) -> wp (on_rng m) p Q.
Proof. unfold wp, on_rng. by destruct (m (p_rng p)) as [[]|]. Qed.
Lemma wp_on_client {A} (m : M W A) (p : Producer W) Q :
  wp m (p_world p) (fun a w => Q a (mkProducer w (p_stats p) (p_rng p) (p_pacer p))) -> wp (on_client m) p Q.
Proof. unfold wp, on_client. by destruct (m (p_world p)) as [[]|]. Qed.

Lemma wp_pace t (p : Producer W) Q :
  (forall ok pc, Q ok (mkProducer (p_world p) (p_stats p) (p_rng p) pc)) -> wp (pace t) p Q.
Proof.
  intros HQ. unfold wp, pace. destruct p as [w s rng [pc|]]; cbn; [|apply HQ].
  destruct (wait pc t) as [ok pc']. apply HQ.
Qed.

Lemma wp_answer {A} (m : M W A) w Q : wp m w Q -> wp m w (fun a w' => m w = Ok (a, w') /\ Q a w').
Proof. unfold wp. by destruct (m w) as [[]|]. Qed.

Lemma wp_Run_iteration t (p : Producer W) :
  Inv (p_world p) -> wp (Run_iteration c (queue_names c) t) p (ran [t] p).
Proof.
  intros Hw. assert (Hnone : forall rng pc, ran [t] p false (mkProducer (p_world p) (p_stats p) rng pc)).
  { intros rng pc. split; [done|]. exists [], []. split_and!; [exact (called_nil _)|constructor|by split; [cbn; lia|left]|done]. }
  unfold Run_iteration. destruct (tk_done t); [apply wp_ret; destruct p; by apply Hnone|].
  apply wp_bind, wp_pace. intros ok pc. destruct ok; cbn [negb]; [|by apply wp_ret, Hnone].
  apply wp_bind, wp_on_rng, wp_Intn; [rewrite length_queue_names by done; by apply co_queues|].
  intros i rng1 Hi. rewrite length_queue_names in Hi by done.
  apply wp_bind, wp_on_rng. eapply wp_mono; [by apply wp_buildEnqueueRequest|].
  intros req rng2 (Hv & Hname & Hlen). assert (Hsent : sent req).
  { split; [done|]. split; [by eapply list_elem_of_lookup_2|done]. }
  apply wp_bind, wp_on_client. eapply wp_mono; [by apply wp_answer, enqueue_ok|]. intros resp w' [Ecall Hi'].
  assert (Hcall : called (p_world p) [(req, resp)] w') by (econstructor; [exact Ecall|constructor]).
  destruct (tk_done_after t) eqn:Et.
  { apply wp_ret. split; [done|]. exists [(req, resp)], []. split_and!; [done|by constructor| |done].
    split; [cbn; lia|right]. split; [exists t; split; [by left|done]|by eexists]. }
  apply wp_bind. unfold on_stats.
  assert (Hrec : ran [t] p true (mkProducer w' (record_call (p_stats p) (req, resp)) rng2 pc)).
  { split; [done|]. exists [(req, resp)], [(req, resp)]. by split_and!; [|constructor|..]. }
  destruct resp as [e|[tasks now]]; apply wp_modify, wp_ret; exact Hrec.
Qed.

Lemma wp_Run ticks (p : Producer W) :
  Inv (p_world p) -> wp (Run c (queue_names c) ticks) p (ran ticks p).
Proof.
  revert p; induction ticks as [|t ticks IH]; intros p Hw; cbn [Run].
  - apply wp_ret. split; [done|]. exists [], []. split_and!; by constructor.
  - apply wp_bind. eapply wp_mono; [by apply wp_Run_iteration|].
    intros continue p1 (Hw1 & calls & recorded & Hc & Hf & Hr & Es). destruct continue.
    + destruct Hr as [-> Hl]. eapply wp_mono; [by apply IH|].
      intros r p2 (Hw2 & calls' & recorded' & Hc' & Hf' & Hr' & Es'). split; [done|].
      exists (calls ++ calls'), (calls ++ recorded').
      split; [by eapply called_app|]. split; [by apply Forall_app|].
      split; [by apply recorded_of_app|]. by rewrite foldl_app, <-Es.
    + apply wp_ret. split; [done|]. exists calls, recorded. split_and!; try done. by apply recorded_of_stop.
Qed.

(** *** The counters *)

(** The counters are [uint64]s. *)
Definition stats_typed (s : Stats.t) : Prop :=
  is_u64 (Stats.enqueueRequests s) /\ is_u64 (Stats.enqueueErrors s) /\ is_u64 (Stats.tasksEnqueued s).

(** The counters of [s'] are those of [s] and the sums over the calls, as [uint64]s. *)
Definition counts (s : Stats.t) (recorded : list Exchange) (s' : Stats.t) : Prop :=
  Stats.enqueueRequests s' = u64 (Stats.enqueueRequests s + len recorded) /\
  Stats.enqueueErrors s' = u64 (Stats.enqueueErrors s + total error_answered recorded) /\
  Stats.tasksEnqueued s' = u64 (Stats.tasksEnqueued s + total tasks_answered recorded) /\
  Stats.tasksHandled s' = Stats.tasksHandled s /\ Stats.handlerErrors s' = Stats.handlerErrors s.

Lemma stats_count xs : forall s, stats_typed s -> counts s xs (foldl record_call s xs).
Proof.
  induction xs as [|x xs IH]; intros s (H1 & H2 & H3); cbn [foldl total]; unfold counts in *; cbn [total].
  - unfold len. cbn [length]. by rewrite !Z.add_0_r, !u64_id.
  - destruct (IH (record_call s x)) as (E1 & E2 & E3 & E4 & E5).
    { destruct x as [req [e|[tasks now]]]; split_and!; cbn; auto. }
    rewrite E1, E2, E3, E4, E5. destruct x as [req [e|[tasks now]]]; cbn; rewrite ?u64_add_u64, ?u64_add_u64_m;
      split_and!; try done; f_equal; unfold len; cbn [length]; lia.
Qed.
End producer_props.

(** ** The pacer *)

(** A timer does not fire early and the clock does not run backwards. *)
Definition tick_honest (p : Pacer) (t : Tick) : Prop :=
  tk_now t <= tk_after t /\
  (0 < pacer_sleep p (tk_now t) -> tk_cancelled t = false -> tk_now t + pacer_sleep p (tk_now t) <= tk_after t).

Lemma wait_keeps_interval p t l p' :
  pacer_last p = Some l -> 0 <= pacer_interval p < 2 ^ 62 -> 0 <= l <= tk_now t -> tk_now t < 2 ^ 62 ->
  tick_honest p t -> wait p t = (true, p') ->
  exists l', pacer_last p' = Some l' /\ l + pacer_interval p <= l' /\ pacer_interval p' = pacer_interval p.
Proof.
  intros El Hi Hl Hn [H1 H2] E. unfold wait in E. exists (tk_after t).
  assert (Es : pacer_sleep p (tk_now t) = pacer_interval p - (tk_now t - l)).
  { unfold pacer_sleep, time_Sub. rewrite El, two63_val. rewrite i64_id; unfold is_i64; rewrite ?two63_val; lia. }
  rewrite Es in *. destruct (_ >? 0) eqn:Eg; destruct (tk_cancelled t) eqn:Ec; cbn in E;
    simplify_eq; cbn; (split; [done|]; split; [|done]); try lia; specialize (H2 ltac:(lia) eq_refl); lia.
Qed.

(** ** Consumers *)

Lemma wp_handle_task c s rng :
  config_typed c -> config_ok c -> Config.HandlerLatencyMsMax c < 2 ^ 40 ->
  wp (handle_task c s) rng (fun '(sleep, s') _ =>
    Config.HandlerLatencyMsMin c * time_Millisecond <= sleep <= Config.HandlerLatencyMsMax c * time_Millisecond /\
    s' = RecordHandled true s).
Proof.
  intros Ht Hc Hm. pose proof (co_latency c Hc). unfold handle_task, time_Millisecond. apply wp_bind.
  destruct (_ >? 0) eqn:Eg.
  - apply wp_bind, (wp_randBetween _ _ rng); [done|rewrite two63_val; lia|]. intros ms rng' Hms.
    apply wp_ret, wp_ret. split; [|done]. rewrite i64_id by (unfold is_i64; rewrite two63_val; lia). nia.
  - apply wp_ret, wp_ret. split; [lia|done].
Qed.

(** C40: a configuration that passes [Validate], with a prefix of the gateway's alphabet that
    leaves room for a number, is never answered "invalid request": the requests to look up,
    create and delete its queues and every batch a producer builds, whatever the random
    numbers, pass the gateway's validators.  Against a client that need only handle valid
    requests, a producer runs any number of iterations without a panic: its calls, each with
    the answer the client gave, lead from the client's first state to its last; every one is a
    valid batch of the configured size to a queue of the set-up; and its counters are the
    numbers of calls, of answers that were errors and of tasks in the answers, over one call
    per iteration while it runs, and over all but perhaps the last once it returned, the last
    being left out only when it was told to stop during it. *)
Theorem validated_config_sends_valid_requests c :
  config_typed c -> Validate c = None -> prefix_ok c ->
  (forall name, name ∈ queue_names c ->
     ValidateGetQueueRequest (moabpb.QueueNameRequest.mk name) = None /\
     ValidateCreateQueueRequest (setup_request name c) = None /\
     ValidateDeleteQueueRequest (moabpb.QueueNameRequest.mk name) = None) /\
  (forall i rng, 0 <= i < Config.Queues c ->
     ⟪ rng ⟫ buildEnqueueRequest c (queue_names c) i ⟪ req, rng' ⟫ ValidateEnqueueRequest req = None) /\
  (forall (E : Evrblk) W (Api : MoabApi W) (Inv : W -> Prop) ticks (p : Producer W),
     (forall req w, ValidateEnqueueRequest req = None -> Inv w ->
        wp (client_Enqueue req) w (fun _ w' => Inv w')) ->
     Inv (p_world p) -> stats_typed (p_stats p) ->
     ⟪ p ⟫ Run c (queue_names c) ticks ⟪ running, p' ⟫
       Inv (p_world p') /\
       exists calls recorded, called (p_world p) calls (p_world p') /\
         Forall (fun x : Exchange => sent c x.1) calls /\ recorded_of ticks running calls recorded /\
         counts (p_stats p) recorded (p_stats p')).
Proof.
  intros Ht Hv Hp. pose proof (Validate_ok c Hv) as Hc. split; [|split].
  - intros name Hn. split_and!; [by eapply queue_name_valid|by apply setup_request_valid|by eapply queue_name_valid].
  - intros i rng Hi. eapply wp_mono; [by apply wp_buildEnqueueRequest|]. by intros req rng' [Hr _].
  - intros E W Api Inv ticks p Hi Hw Hs. eapply wp_mono; [by apply (wp_Run Inv)|].
    intros running p' (Hw' & calls & recorded & Hcalls & Hf & Hr & ->). split; [done|].
    exists calls, recorded. split_and!; try done. by apply stats_count.
Qed.

(** ** The main program *)

Section main_run.
Context {ClientError : Type}.

(** The elements of a list that is written out. *)
Ltac list_cases Hin :=
  cbn [app] in Hin; repeat (apply elem_of_cons in Hin as [Hin|Hin]); try (by apply elem_of_nil in Hin).

(** Consumers are dealt to the queues in turn. *)
Lemma start_consumers_spec c names : names <> [] ->
  exists qs, start_consumers c names = Ok qs /\ length qs = Z.to_nat (Config.Consumers c) /\
    forall i q, qs !! i = Some q <-> (i < Z.to_nat (Config.Consumers c))%nat /\ names !! (i mod length names)%nat = Some q.
Proof.
  destruct names as [|n0 names]; [done|]. intros _. unfold start_consumers. eexists. split; [done|].
  rewrite length_fmap, length_seq. split; [done|]. intros i q. rewrite list_lookup_fmap.
  assert (Hlt : (i mod length (n0 :: names) < length (n0 :: names))%nat) by (apply Nat.mod_upper_bound; cbn; lia).
  destruct (lookup_lt_is_Some_2 _ _ Hlt) as [x Hx].
  destruct (decide (i < Z.to_nat (Config.Consumers c))%nat) as [Hi|Hi].
  - rewrite lookup_seq_lt by done. rewrite Hx. change (0 + i)%nat with i. cbn [fmap option_fmap option_map].
    rewrite Hx. split; [intros [= <-]; done|]. by intros [_ [= <-]].
  - rewrite lookup_seq_ge by lia. split; [done|]. intros [? _]. lia.
Qed.

#[local] Notation run c signal := (main (ClientError := ClientError) c true (inr (queue_names c)) signal).

Definition opening (c : Config.t) : list MainEvent :=
  [MetricsStarted; ClientCreated; QueuesSetUp (queue_names c); StatsLoggerStarted].
Definition producers (c : Config.t) : list MainEvent :=
  (fun i => ProducerStarted i (producer_pacer c)) <$> seq 0 (Z.to_nat (Config.Producers c)).
Definition closing (c : Config.t) (signal : bool) : list MainEvent :=
  if signal || (Config.Duration c >? 0) then
    [if signal then ShutdownSignal else DurationElapsed; WorkersCancelled] ++ [WorkersStopped; FinalStats] ++
    (if Config.Cleanup c then [QueuesCleanedUp (queue_names c)] else []) ++ [ClientClosed; MetricsStopped]
  else [].

(** The events of a run, and which consumers it starts. *)
Lemma main_trace c signal : Validate c = None -> 0 < Config.LogInterval c ->
  exists qs, run c signal = opening c ++ imap ConsumerStarted qs ++ producers c ++ closing c signal /\
    forall i q, qs !! i = Some q <->
      (i < Z.to_nat (Config.Consumers c))%nat /\ queue_names c !! (i mod length (queue_names c))%nat = Some q.
Proof.
  intros Hv Hlog. pose proof (Validate_ok c Hv) as Hc. pose proof (length_queue_names c Hc) as Hlen. unfold len in Hlen.
  pose proof (co_queues c Hc) as Hq.
  assert (Hne : queue_names c <> []) by (intros E; rewrite E in Hlen; cbn in Hlen; lia).
  destruct (start_consumers_spec c _ Hne) as (qs & Es & _ & Hqs). exists qs. split; [|done].
  unfold main, start_logger, run_load. rewrite Hv. destruct (Z.leb_spec (Config.LogInterval c) 0); [lia|]. by rewrite Es.
Qed.

(** Only consumers are between the opening and the closing, and no failure. *)
Lemma main_events c signal qs e : e ∈ opening c ++ imap ConsumerStarted qs ++ producers c ++ closing c signal ->
  e <> Fatal /\ (forall p, e <> Panicked p) /\ (forall i q, e = ConsumerStarted i q -> qs !! i = Some q).
Proof.
  rewrite !elem_of_app, elem_of_lookup_imap. intros [Hin|[(i & q & -> & Hi)|[Hin|Hin]]].
  - unfold opening in Hin. list_cases Hin; by subst.
  - split_and!; [done|done|]. by intros ? ? [= <- <-].
  - apply list_elem_of_fmap in Hin as (? & -> & _). done.
  - unfold closing in Hin. destruct (signal || _); [destruct signal, (Config.Cleanup c)|]; list_cases Hin; by subst.
Qed.

(** A validated configuration with a positive log interval, whose queues were set up: the run
    neither fails nor panics; every consumer reads a queue of the set-up, every queue has a
    consumer when there are at least as many; and a run that ends has stopped its workers
    before it cleans up, cleans up the queues of the set-up exactly when asked to, and closes
    what it opened. *)
Theorem main_runs_to_the_end c signal :
  Validate c = None -> 0 < Config.LogInterval c ->
  let names := queue_names c in let tr := main (ClientError := ClientError) c true (inr names) signal in
  Fatal ∉ tr /\ (forall p, Panicked p ∉ tr) /\
  (forall i q, ConsumerStarted i q ∈ tr -> q ∈ names) /\
  (Config.Queues c <= Config.Consumers c -> forall q, q ∈ names -> exists i, ConsumerStarted i q ∈ tr) /\
  (signal = true \/ 0 < Config.Duration c -> exists before,
     tr = before ++ [WorkersStopped; FinalStats] ++
          (if Config.Cleanup c then [QueuesCleanedUp names] else []) ++ [ClientClosed; MetricsStopped] /\
     forall ns, QueuesCleanedUp ns ∉ before).
Proof.
  intros Hv Hlog names tr. destruct (main_trace c signal Hv Hlog) as (qs & Etr & Hqs). fold names tr in Etr, Hqs.
  pose proof (main_events c signal qs) as Hev. rewrite <-Etr in Hev. split_and!.
  - intros Hin. by destruct (Hev _ Hin).
  - intros p Hin. destruct (Hev _ Hin) as (_ & Hp & _). by destruct (Hp p).
  - intros i q Hin. destruct (Hev _ Hin) as (_ & _ & Hq). by eapply list_elem_of_lookup_2, Hqs, Hq.
  - intros Hle q (i & Hi)%list_elem_of_lookup. exists i. apply lookup_lt_Some in Hi as Hlt.
    pose proof (length_queue_names c (Validate_ok c Hv)) as Hlen. unfold len in Hlen. fold names in Hlen.
    rewrite Etr, !elem_of_app, elem_of_lookup_imap. right. left. exists i, q. split; [done|]. apply Hqs.
    split; [lia|]. by rewrite Nat.mod_small.
  - intros Hend. exists (opening c ++ imap ConsumerStarted qs ++ producers c ++
      [if signal then ShutdownSignal else DurationElapsed; WorkersCancelled]). rewrite Etr. split.
    + unfold closing.
      assert (signal || (Config.Duration c >? 0) = true) as -> by (destruct Hend as [->|?]; [done|]; apply orb_true_iff; right; lia).
      by rewrite <-!app_assoc.
    + intros ns [Hin|[Hin|[Hin|Hin]%elem_of_app]%elem_of_app]%elem_of_app; [by list_cases Hin| | |].
      * by apply elem_of_lookup_imap in Hin as (? & ? & ? & _).
      * by apply list_elem_of_fmap in Hin as (? & ? & _).
      * destruct signal; by list_cases Hin.
Qed.
End main_run.
