(* ===== verification/LoadSetup.v ===== *)
(** * Setting up the queues of a load test

    What [SetupQueues] and [CleanupQueues] rely on is the class [QueueClient]; the gateway,
    called through a gRPC client, is an instance of it.  Under every interleaving of the
    goroutines, with other clients at work, setting up ends, never deadlocks, keeps its bound
    on concurrent calls, and an answer without an error means that every queue exists. *)

From S2P Require Export LoadGeneratorProps.

(** ** The interface *)

(** What a call of the set-up does to the world: it keeps [Inv] and loses no queue. *)
Definition keeps_queues {W : Type} (Inv : W -> Prop) (Exists : bytes -> W -> Prop) (w w' : W) : Prop :=
  Inv w' /\ forall n, Exists n w -> Exists n w'.

(** [Exists name w]: the name stands for a queue.  The calls need only work for valid
    requests; they leave the queues there are, and a queue exists once it was found, created or
    reported to exist. *)
Class QueueClient {E : Evrblk} {W : Type} (Api : MoabApi W) (Inv : W -> Prop)
    (Exists : bytes -> W -> Prop) : Prop := {
  get_ok name w :
    ValidateGetQueueRequest (moabpb.QueueNameRequest.mk name) = None -> Inv w ->
    ⟪ w ⟫ client_GetQueue (moabpb.QueueNameRequest.mk name) ⟪ r, w' ⟫
      keeps_queues Inv Exists w w' /\ (forall x, r = inr x -> Exists name w');
  create_ok req w :
    ValidateCreateQueueRequest req = None -> Inv w ->
    ⟪ w ⟫ client_CreateQueue req ⟪ r, w' ⟫
      keeps_queues Inv Exists w w' /\
      match r with
      | inr _ => Exists (moabpb.CreateQueueRequest.Name req) w'
      | inl e => IsAlreadyExists e = true -> Exists (moabpb.CreateQueueRequest.Name req) w'
      end;
}.

Section setup.
Context {E : Evrblk} {W : Type} {Api : MoabApi W}.
Context {Inv : W -> Prop} {Exists : bytes -> W -> Prop} {QC : QueueClient Api Inv Exists}.

Definition setup_calls (b : SetupPhase) : nat := match b with ToGet => 1 | ToCreate => 0 end.

Lemma getOrCreateQueue_ok c name b w :
  config_typed c -> config_ok c -> prefix_ok c -> name ∈ queue_names c -> Inv w ->
  ⟪ w ⟫ getOrCreateQueue c name b ⟪ r, w' ⟫
    env Inv Exists (queue_names c) w w' /\
    match r with
    | inl b' => (setup_calls b' < setup_calls b)%nat
    | inr None => Exists name w'
    | inr (Some _) => len (queue_names c) <= Config.Queues c
    end.
Proof.
  assert (Henv : forall w w', keeps_queues Inv Exists w w' -> env Inv Exists (queue_names c) w w').
  { intros w1 w2 [H1 H2]. split; auto. }
  intros Ht Hc Hp Hn Hw. destruct b; unfold getOrCreateQueue; apply wp_bind.
  - eapply wp_mono; [apply get_ok; [by eapply queue_name_valid|done]|].
    intros r w' [He%Henv Hr]. apply wp_ret. split; [done|]. destruct r as [err|x]; [|by eapply Hr].
    destruct (negb (IsNotFound err)); [by rewrite length_queue_names|cbn; lia].
  - eapply wp_mono; [apply create_ok; [by apply setup_request_valid|done]|].
    intros r w' [He%Henv Hr]. apply wp_ret. split; [done|]. destruct r as [err|x]; [|done].
    destruct (IsAlreadyExists err); [by apply Hr|by rewrite length_queue_names].
Qed.

(** A state of [SetupQueues] reached in [k] steps. *)
Definition setup_exec (c : Config.t) (w : W) (k : nat) (st : SetupPool) : Prop :=
  pool_exec (getOrCreateQueue c) ToGet (Config.QueueSetupConcurrency c) (Config.Queues c)
    Inv Exists (queue_names c) k (pool_init w (queue_names c)) st.

Lemma setup_correct c w k st :
  config_typed c -> Validate c = None -> prefix_ok c -> Inv w -> setup_exec c w k st ->
  len (pool_running st) <= Config.QueueSetupConcurrency c /\
  Z.of_nat k <= 5 * Config.Queues c /\
  (pool_done st = true \/ exists i st', setup_step c i st = Some st') /\
  (pool_done st = true -> setup_result c st = inr (queue_names c) ->
     Inv (pool_world st) /\ forall name, name ∈ queue_names c -> Exists name (pool_world st)).
Proof.
  intros Ht Hv Hp Hw He. pose proof (Validate_ok c Hv) as Hc.
  destruct (pool_correct (getOrCreateQueue c) ToGet (Config.QueueSetupConcurrency c) (Config.Queues c)
    Inv Exists setup_calls (queue_names c)
    (fun name b w Hn Hi => getOrCreateQueue_ok c name b w Ht Hc Hp Hn Hi) k w st (co_concurrency c Hc) Hw He)
    as (H1 & H2 & H3 & H4 & H5).
  split; [done|]. split; [|split; [done|]].
  - pose proof (length_queue_names c Hc) as Hl. unfold len in Hl. cbn [setup_calls] in H3. lia.
  - intros Hd Hr. split; [done|]. intros name Hn. destruct (H5 Hd name Hn) as [|Hin]; [done|].
    unfold setup_result in Hr. destruct (pool_errs st); [by apply elem_of_nil in Hin|done].
Qed.
End setup.

(** ** The gateway as such a client *)

(** The status codes of the client library over gRPC.  Only an application error of the code
    [AlreadyExists] is reported as such. *)
Class GrpcStatus : Type := {
  status_code : GrpcError -> evrblk.Code;
  status_not_found : GrpcError -> bool;
  status_already_exists : GrpcError -> bool;
}.
Class GrpcStatusOk (GS : GrpcStatus) : Prop := {
  status_already_exists_only err : status_already_exists err = true ->
    exists e, err = ErrorToGRPC (AppErr e) /\ Code e = AlreadyExists;
}.

#[export] Instance grpc_errors {GS : GrpcStatus} : Evrblk := {|
  ClientError := GrpcError;
  CodeOf := status_code;
  IsNotFound := status_not_found;
  IsAlreadyExists := status_already_exists;
|}.

Section gateway_client.
Context {U : Utils} {H : Honey} {C : CronLib} {K : Keyspace} {QCa : QueuesCache}.
Context {B : Base62} {TC : TokenCodec} {G : Gronx} {GS : GrpcStatus}.

#[export] Instance gateway_api : MoabApi GWorld := {|
  client_GetQueue := server_GetQueue;
  client_CreateQueue := server_CreateQueue;
  client_DeleteQueue := server_DeleteQueue;
  client_Enqueue := server_Enqueue;
|}.

Context {UO : UtilsOk U} {HO : HoneyOk H} {CO : CronOk C} {KO : KeyspaceOk K} {QCO : QueuesCacheOk QCa}.
Context {GSO : GrpcStatusOk GS}.
Implicit Types w : GWorld.

(** The random numbers to come are 64-bit, and none is the id of a deleted queue that awaits
    its collection. *)
Definition fresh_draws w : Prop := forall k, (rand_draws w <= k)%nat ->
  is_u64 (rand w k) /\
  forall s, queues_core w 0 = Some s -> q_gc (qview s) !! queue_key (QueueId.mk 0 (rand w k)) = None.

Definition gateway_ready w : Prop := gw_ok w /\ fresh_draws w.
Definition queue_there (name : bytes) w : Prop := is_Some (queue_named w 0 name).

#[local] Notation genv := (keeps_queues gateway_ready queue_there).

Lemma genv_refl w : gateway_ready w -> genv w w.
Proof. done. Qed.
Lemma genv_trans w1 w2 w3 : genv w1 w2 -> genv w2 w3 -> genv w1 w3.
Proof. intros [_ H1] [H2 H3]. split; auto. Qed.

(** A world with the same cores that drew no fewer numbers. *)
Lemma genv_same w w' :
  moabQueuesCores w' = moabQueuesCores w -> moabTasksCores w' = moabTasksCores w ->
  rand w' = rand w -> (rand_draws w <= rand_draws w')%nat -> gateway_ready w -> genv w w'.
Proof.
  intros E1 E2 E3 Hd [Hw Hf]. split; [split|].
  - by apply (gw_ok_same w).
  - intros k Hk. rewrite E3. unfold queues_core. rewrite E1. apply Hf. lia.
  - intros n. unfold queue_there, queue_named, queues_core. by rewrite E1.
Qed.

(** A call to the queues core of the account that keeps its queues and what it collects. *)
Lemma genv_after_queues w s s' :
  gateway_ready w -> queues_core w 0 = Some s -> QInv (qview s') ->
  q_gc (qview s') = q_gc (qview s) -> (forall x, has_queue (qview s) x -> has_queue (qview s') x) ->
  genv w (after_queues w 0 s').
Proof.
  intros [Hw Hf] Hs Hv' Eg Hq. pose proof (queues_core_inv w 0 s Hw Hs) as Hv.
  assert (Hs' : queues_core (after_queues w 0 s') 0 = Some s') by by apply queues_core_after.
  split; [split|].
  - by apply gw_ok_after_queues.
  - intros k Hk. destruct (Hf k Hk) as [H1 H2]. split; [done|]. rewrite Hs'. intros s0 [= <-].
    rewrite Eg. by apply H2.
  - intros n [x Hx]. unfold queue_there, queue_named in *. rewrite Hs in Hx. rewrite Hs'. cbn in *.
    rewrite find_queue_by_name in Hx |- * by (done || apply Hv || apply Hv').
    apply by_name_Some in Hx as (Hx & Ha & En); [|apply Hv|done]. exists x.
    apply by_name_Some; [apply Hv'|done|]. split; [by apply Hq|done].
Qed.

(** What one attempt to create a queue comes to. *)
Lemma wp_CreateQueue_attempt w req limits n Q :
  gateway_ready w -> is_u64 n ->
  (forall s, queues_core w 0 = Some s -> q_gc (qview s) !! queue_key (QueueId.mk 0 n) = None) ->
  (forall r w', genv w w' ->
     match r with
     | inr _ => queue_there (moabpb.CreateQueueRequest.Name req) w'
     | inl (AppErr e) => Code e = AlreadyExists -> queue_there (moabpb.CreateQueueRequest.Name req) w'
     | inl _ => True
     end -> Q r w') ->
  wp (Stub_CreateQueue (create_queue_request req 0 limits n)) w Q.
Proof.
  intros Hr Hn Hg HQ. pose proof Hr as [Hw Hf]. destruct (queues_core_is_Some w 0 Hw) as [s Hs].
  pose proof (queues_core_inv w 0 s Hw Hs) as Hv. set (cr := create_core req 0 limits n).
  pose proof (refine_CreateQueue (qview s) cr (read_clock w) Hv (conj is_u64_0 Hn) (Hg s Hs)) as Hm.
  unfold spec_CreateQueue in Hm. cbn [CreateQueueRequest.QueueId CreateQueueRequest.Name cr create_core
    QueueId.AccountId] in Hm.
  assert (Hsame : forall s', qabs (qview s') = qabs (qview s) -> QInv (qview s') -> genv w (after_queues w 0 s')).
  { intros s' EA Hv'. eapply genv_after_queues; [done|done|done|exact (f_equal a_gc EA)|].
    intros x. unfold has_queue. change (q_table (qview s')) with (a_queues (qabs (qview s'))). by rewrite EA. }
  destruct (find_queue _ _ _) as [x|] eqn:Ef.
  - eapply (wp_queues_call 0 (fun now => CreateQueue cr now) w s); [done|done|exact Hm|].
    intros s' EA Hv'. apply HQ; [by apply Hsame|]. intros _. apply (Hsame s' EA Hv').
    unfold queue_there, queue_named. rewrite Hs. cbn. by rewrite Ef.
  - destruct (_ >=? _).
    { eapply (wp_queues_call 0 (fun now => CreateQueue cr now) w s); [done|done|exact Hm|].
      intros s' EA Hv'. apply HQ; [by apply Hsame|done]. }
    destruct (a_queues _ !! _) as [y|] eqn:Ei.
    { eapply (wp_queues_call 0 (fun now => CreateQueue cr now) w s); [done|done|exact Hm|].
      intros s' EA Hv'. apply HQ; [by apply Hsame|done]. }
    eapply (wp_queues_call 0 (fun now => CreateQueue cr now) w s); [done|done|exact Hm|].
    intros s' EA Hv'. set (x := new_queue cr (read_clock w)) in *.
    assert (Et : q_table (qview s') = <[row_key x := x]> (q_table (qview s))) by exact (f_equal a_queues EA).
    apply HQ.
    + eapply genv_after_queues; [done|done|done|exact (f_equal a_gc EA)|]. intros y Hy.
      unfold has_queue, stores in *. rewrite Et, lookup_insert_ne; [done|].
      intros Ek. rewrite <-Ek in Hy. change (row_key x) with (queue_key (QueueId.mk 0 n)) in Hy.
      change (q_table (qview s)) with (a_queues (qabs (qview s))) in Hy. congruence.
    + cbn [queues_answer]. unfold queue_there, queue_named. rewrite queues_core_after by done. cbn.
      exists x. rewrite find_queue_by_name by (done || apply Hv'). apply by_name_Some; [apply Hv'|done|].
      split; [|done]. unfold has_queue, stores. by rewrite Et, lookup_insert_eq.
Qed.

Lemma wp_create_loop req limits n : forall w,
  gateway_ready w ->
  ⟪ w ⟫ with_fresh_id n (fun m => api_CreateQueue (create_queue_request req 0 limits m))
          (fun queue => mret (inr (queueToFront queue))) ⟪ r, w' ⟫
    genv w w' /\ match r with
    | inr _ => queue_there (moabpb.CreateQueueRequest.Name req) w'
    | inl e => status_already_exists e = true -> queue_there (moabpb.CreateQueueRequest.Name req) w'
    end.
Proof.
  induction n as [|n IH]; intros w Hr; cbn [with_fresh_id].
  - apply wp_ret. split; [by apply genv_refl|]. by intros (e & E & _)%status_already_exists_only.
  - apply wp_draw. apply wp_bind. pose proof Hr as [Hw Hf].
    assert (Hd : genv w (drawn w)) by (apply genv_same; [done..|cbn; lia|done]).
    destruct (Hf (rand_draws w) ltac:(lia)) as [Hu Hg].
    apply wp_CreateQueue_attempt; [apply Hd|exact Hu|exact Hg|]. intros r w' He Hp.
    pose proof (genv_trans _ _ _ Hd He) as He'.
    destruct r as [err|queue]; [|by apply wp_ret].
    destruct (isIDCollision err).
    + eapply wp_mono; [apply IH, He'|]. intros r w'' [He'' Hp']. split; [exact (genv_trans _ _ _ He' He'')|done].
    + apply wp_ret. split; [done|]. intros (e & [= ->] & Hcode)%status_already_exists_only. by apply Hp.
Qed.

#[export] Instance gateway_queue_client : QueueClient gateway_api gateway_ready queue_there.
Proof.
  split.
  - intros name w Hv Hr. pose proof Hr as [Hw Hf]. unfold client_GetQueue. cbn [gateway_api].
    unfold server_GetQueue, validated. rewrite Hv. unfold handler_GetQueue. cbn [moabpb.QueueNameRequest.QueueName].
    unfold or_return at 1. apply wp_bind, wp_GetQueueByName; [done|done|].
    assert (H1 : genv w (ticked w)) by by apply genv_same.
    destruct (queue_named w 0 name) as [x|] eqn:Ex; [|by apply wp_ret].
    unfold or_return. apply wp_bind, wp_GetStatistics; [apply H1|]. intros st. apply wp_ret.
    assert (H2 : genv w (ticked (ticked w))) by by apply genv_same.
    split; [done|]. intros _ _. apply H2. by exists x.
  - intros req w Hv Hr. unfold client_CreateQueue. cbn [gateway_api].
    unfold server_CreateQueue, validated. rewrite Hv. by apply wp_create_loop.
Qed.

(** C39: [SetupQueues] against the gateway, with a validated configuration and a prefix of the
    gateway's alphabet that leaves room for a number, under every interleaving of its
    goroutines and of other clients: at most [QueueSetupConcurrency] goroutines are in flight,
    it ends after at most five steps per queue, no state before its end is stuck, and when it
    answers without an error every name stands for a queue.  In between, the other clients may
    change the server in any way that takes none of the set-up's names away once it is there,
    keeps the invariants of the cores, and never leaves a deleted queue awaiting collection
    under an id that is still to be drawn: of the random numbers to come, none may be such an
    id, at the start and throughout ([gateway_ready]). *)
Theorem setup_creates_every_queue c w k st :
  config_typed c -> Validate c = None -> prefix_ok c -> gateway_ready w ->
  setup_exec (Inv := gateway_ready) (Exists := queue_there) c w k st ->
  len (pool_running st) <= Config.QueueSetupConcurrency c /\
  Z.of_nat k <= 5 * Config.Queues c /\
  (pool_done st = true \/ exists i st', setup_step c i st = Some st') /\
  (pool_done st = true -> setup_result c st = inr (queue_names c) ->
     gw_ok (pool_world st) /\
     forall name, name ∈ queue_names c -> exists x, queue_named (pool_world st) 0 name = Some x).
Proof.
  intros Ht Hv Hp Hw He. destruct (setup_correct c w k st Ht Hv Hp Hw He) as (H1 & H2 & H3 & H4).
  split; [done|]. split; [done|]. split; [done|]. intros Hd Hr. destruct (H4 Hd Hr) as [[Hg _] Hn].
  split; [done|]. intros name Hin. exact (Hn name Hin).
Qed.
End gateway_client.
