(* ===== verification/ValidationProps.v ===== *)
(** * What validation guarantees

    The two sets of validators agree, the requests the gateway builds from validated API
    requests are valid, the queues that validated requests store keep valid settings, and
    on validated values the arithmetic on times is exact. *)

From S2P Require Export GatewayProps.

(** ** The validators agree *)

Lemma reject_leb b f d msg : invalid_if b f d = None <-> reject b msg = None.
Proof. by rewrite invalid_if_None, reject_None. Qed.

(** Both accept at most 21 intervals of at most 15 minutes. *)
Lemma retry_range rs :
  CoreValidators.validateRetryStrategy (Some rs) = None <->
  len (RetryStrategy.RetryIntervalsInSeconds rs) <= 21 /\
  Forall (fun i => 0 <= i <= 900) (RetryStrategy.RetryIntervalsInSeconds rs).
Proof.
  unfold CoreValidators.validateRetryStrategy. rewrite andThen_None, reject_None.
  unfold CoreValidators.maxNumberOfRetryIntervalsInSeconds, CoreValidators.maxRetryIntervalInSeconds.
  rewrite (range_check_Forall _ _ (fun i => 0 <= i <= 900)); [rewrite Z.gtb_ltb, Z.ltb_ge; done|].
  intros i x. rewrite reject_None, orb_false_iff. lia.
Qed.

Lemma front_retry_range rs field :
  FrontValidators.validateRetryStrategy (Some rs) field = None <->
  len (moabpb.RetryStrategy.RetryIntervalsInSeconds rs) <= 21 /\
  Forall (fun i => 0 <= i <= 900) (moabpb.RetryStrategy.RetryIntervalsInSeconds rs).
Proof.
  unfold FrontValidators.validateRetryStrategy. rewrite andThen_None, invalid_if_None.
  unfold FrontValidators.maxNumberOfRetryIntervalsInSeconds, FrontValidators.maxRetryIntervalInSeconds.
  rewrite (range_check_Forall _ _ (fun i => 0 <= i <= 900)); [rewrite Z.gtb_ltb, Z.ltb_ge; done|].
  intros i x. rewrite invalid_if_None, orb_false_iff. lia.
Qed.

Lemma retry_mirror s field :
  FrontValidators.validateRetryStrategy s field = None <->
  CoreValidators.validateRetryStrategy (retryStrategyToCore s) = None.
Proof. destruct s as [rs|]; [|done]. rewrite front_retry_range. symmetry. apply retry_range. Qed.

Lemma settings_mirror s field :
  FrontValidators.validateDequeuingSettings s field = None <->
  CoreValidators.validateDequeuingSettings (dequeuingSettingsToCore s) = None.
Proof.
  destruct s as [[m [[t i u]|] p]|]; [| |done];
    unfold FrontValidators.validateDequeuingSettings, CoreValidators.validateDequeuingSettings; cbn;
    rewrite !andThen_None, !invalid_if_None, !reject_None; [|done].
  by destruct u.
Qed.

Lemma dlq_mirror c field :
  FrontValidators.validateDeadLetterQueueConfig c field = None <->
  CoreValidators.validateDeadLetterQueueConfig (deadLetterQueueConfigToCore c) = None.
Proof.
  destruct c as [[e m r]|]; [|done].
  unfold FrontValidators.validateDeadLetterQueueConfig, CoreValidators.validateDeadLetterQueueConfig. cbn.
  by rewrite !andThen_None, !invalid_if_None, !reject_None.
Qed.

Lemma keepalive_mirror k field :
  FrontValidators.validateKeepaliveTimeoutInSeconds k field = None <->
  CoreValidators.validateKeepaliveTimeoutInSeconds k = None.
Proof. apply reject_leb. Qed.

Lemma expires_mirror k field :
  FrontValidators.validateExpiresInSeconds k field = None <->
  CoreValidators.validateExpiresInSeconds k = None.
Proof. apply reject_leb. Qed.

(** ** Valid queues *)

Record queue_valid (q : Queue.t) : Prop := {
  qv_expires : CoreValidators.validateExpiresInSeconds (Queue.ExpiresInSeconds q) = None;
  qv_keepalive : CoreValidators.validateKeepaliveTimeoutInSeconds (Queue.KeepaliveTimeoutInSeconds q) = None;
  qv_retry : CoreValidators.validateRetryStrategy (Queue.RetryStrategy q) = None;
  qv_settings : CoreValidators.validateDequeuingSettings (Queue.DequeuingSettings q) = None;
  qv_dlq : CoreValidators.validateDeadLetterQueueConfig (Queue.DeadLetterQueueConfig q) = None;
}.

Lemma expires_range k :
  CoreValidators.validateExpiresInSeconds k = None <-> 60 <= k <= 14 * 86400.
Proof.
  unfold CoreValidators.validateExpiresInSeconds. rewrite reject_None, orb_false_iff.
  unfold CoreValidators.minExpiresTimeoutInSeconds, CoreValidators.maxExpiresTimeoutInSeconds. lia.
Qed.

Lemma keepalive_range k :
  CoreValidators.validateKeepaliveTimeoutInSeconds k = None <-> 5 <= k <= 60.
Proof.
  unfold CoreValidators.validateKeepaliveTimeoutInSeconds. rewrite reject_None, orb_false_iff.
  unfold CoreValidators.minKeepaliveTimeoutInSeconds, CoreValidators.maxKeepaliveTimeoutInSeconds. lia.
Qed.

(** ** Times *)

(** Clocks until about the year 2116. *)
Definition sane (now : Z) : Prop := 0 <= now <= 2 ^ 62.

Lemma seconds_exact now s :
  sane now -> 0 <= s <= 14 * 86400 -> after_seconds now s = now + s * time_Second.
Proof.
  unfold sane, after_seconds, time_Second. intros Hn Hs.
  rewrite (i64_id (s * 1000000000)) by (unfold is_i64; rewrite two63_val; lia).
  apply i64_id. unfold is_i64. rewrite two63_val. lia.
Qed.

Lemma resolve_exact now requestedScheduledAt requestedExpiresAt expires maxDelay :
  sane now -> 0 <= requestedScheduledAt -> 0 <= requestedExpiresAt ->
  60 <= expires <= 14 * 86400 -> 0 <= maxDelay <= 14 * 86400 ->
  let scheduledAt := Z.max now requestedScheduledAt in
  let ceiling := scheduledAt + expires * time_Second in
  match resolveScheduledAtAndExpiresAt now requestedScheduledAt requestedExpiresAt expires maxDelay with
  | None => requestedScheduledAt > now + maxDelay * time_Second
  | Some (s, e) =>
      requestedScheduledAt <= now + maxDelay * time_Second /\ s = scheduledAt /\
      e = (if requestedExpiresAt =? 0 then ceiling else Z.min requestedExpiresAt ceiling) /\
      0 < e <= ceiling /\ is_i64 ceiling
  end.
Proof.
  intros Hn Hs He Hx Hd scheduledAt ceiling. unfold resolveScheduledAtAndExpiresAt.
  pose proof (seconds_exact now maxDelay Hn Hd) as E1. unfold after_seconds in E1.
  rewrite (Z.mul_comm time_Second maxDelay), E1. rewrite Z.gtb_ltb.
  destruct (Z.ltb_spec (now + maxDelay * time_Second) requestedScheduledAt) as [Hgt|Hle]; [lia|].
  assert (E2 : (if requestedScheduledAt <? now then now else requestedScheduledAt) = scheduledAt).
  { unfold scheduledAt. destruct (Z.ltb_spec requestedScheduledAt now); lia. }
  rewrite E2. assert (E3 : i64 (scheduledAt + i64 (expires * time_Second)) = ceiling /\ is_i64 ceiling).
  { unfold sane, time_Second in *. subst ceiling scheduledAt.
    rewrite (i64_id (expires * 1000000000)) by (unfold is_i64; rewrite two63_val; lia).
    assert (is_i64 (Z.max now requestedScheduledAt + expires * 1000000000))
      by (unfold is_i64; rewrite two63_val; lia). by rewrite i64_id. }
  destruct E3 as [-> Hc]. split; [done|]. split; [done|].
  unfold sane, time_Second in *. rewrite Z.gtb_ltb.
  destruct (Z.eqb_spec requestedExpiresAt 0), (Z.ltb_spec ceiling requestedExpiresAt); cbn;
    (split; [lia|split; [lia|done]]).
Qed.

(** for a clock in range and durations within the validated bounds, the times of a task
    are computed without overflow: a [ScheduledAt] past the allowed delay is refused, an
    earlier one is moved up to now, and [ExpiresAt] is the requested one unless it is unset
    or past the queue's ceiling; it is never 0 and never past the ceiling. *)
Theorem resolved_times_are_exact now requestedScheduledAt requestedExpiresAt expires maxDelay :
  sane now -> 0 <= requestedScheduledAt -> 0 <= requestedExpiresAt ->
  60 <= expires <= 14 * 86400 -> 0 <= maxDelay <= 14 * 86400 ->
  let scheduledAt := Z.max now requestedScheduledAt in
  let ceiling := scheduledAt + expires * time_Second in
  match resolveScheduledAtAndExpiresAt now requestedScheduledAt requestedExpiresAt expires maxDelay with
  | None => requestedScheduledAt > now + maxDelay * time_Second
  | Some (s, e) =>
      requestedScheduledAt <= now + maxDelay * time_Second /\ s = scheduledAt /\
      e = (if requestedExpiresAt =? 0 then ceiling else Z.min requestedExpiresAt ceiling) /\
      0 < e <= ceiling /\ is_i64 ceiling
  end.
Proof. apply resolve_exact. Qed.

Section gateway_validation.
Context {U : Utils} {H : Honey} {C : CronLib} {K : Keyspace} {QCa : QueuesCache}.
Context {B : Base62} {TC : TokenCodec} {G : Gronx}.

(** C33: the bounds of the two validators agree: the core request the gateway builds from a
    valid API request to create or update a queue or a schedule passes the core's own
    validation, for any non-zero random id. *)
Theorem control_requests_pass_core_validation :
  (forall req a limits n, ValidateCreateQueueRequest req = None -> n <> 0 ->
     CreateQueueRequest_Validate (create_queue_request req a limits n) = None) /\
  (forall req a, ValidateUpdateQueueRequest req = None ->
     UpdateQueueRequest_Validate (update_queue_request req a) = None) /\
  (forall req a limits n, ValidateCreateScheduleRequest req = None ->
     CreateScheduleRequest_Validate (create_schedule_request req a limits n) = None) /\
  (forall req a, ValidateUpdateScheduleRequest req = None ->
     UpdateScheduleRequest_Validate (update_schedule_request req a) = None).
Proof.
  split_and!.
  - intros req a limits n Hv Hn. unfold ValidateCreateQueueRequest in Hv. no_error.
    unfold CreateQueueRequest_Validate. cbn [create_queue_request Wire.CreateQueueRequest.QueueId
      Wire.CreateQueueRequest.ExpiresInSeconds Wire.CreateQueueRequest.KeepaliveTimeoutInSeconds
      Wire.CreateQueueRequest.RetryStrategy Wire.CreateQueueRequest.DequeuingSettings
      Wire.CreateQueueRequest.DeadLetterQueueConfig].
    rewrite !andThen_None. split_and!; try done; [|by eapply expires_mirror|by eapply keepalive_mirror|
      by eapply retry_mirror|by eapply settings_mirror|by eapply dlq_mirror].
    apply reject_None. cbn. lia.
  - intros req a Hv. unfold ValidateUpdateQueueRequest in Hv. no_error.
    unfold UpdateQueueRequest_Validate. cbn [update_queue_request UpdateQueueRequest.ExpiresInSeconds
      UpdateQueueRequest.KeepaliveTimeoutInSeconds UpdateQueueRequest.RetryStrategy
      UpdateQueueRequest.DequeuingSettings UpdateQueueRequest.DeadLetterQueueConfig].
    rewrite !andThen_None. split_and!; try done; [by eapply expires_mirror|by eapply keepalive_mirror|
      by eapply retry_mirror|by eapply settings_mirror|by eapply dlq_mirror].
  - intros req a limits n Hv. unfold ValidateCreateScheduleRequest, validateCron, validateTimezone in Hv. no_error.
    unfold CreateScheduleRequest_Validate. cbn [create_schedule_request CreateScheduleRequest.Cron
      CreateScheduleRequest.Timezone CreateScheduleRequest.ExpiresInSeconds
      CreateScheduleRequest.RetryStrategy CreateScheduleRequest.Payload].
    rewrite !andThen_None, !reject_None. split_and!; try done; [|by eapply retry_mirror].
    destruct (negb (_ =? 0)); [by eapply expires_mirror|done].
  - intros req a Hv. unfold ValidateUpdateScheduleRequest, validateCron, validateTimezone in Hv. no_error.
    unfold UpdateScheduleRequest_Validate. cbn [update_schedule_request UpdateScheduleRequest.Cron
      UpdateScheduleRequest.Timezone UpdateScheduleRequest.ExpiresInSeconds
      UpdateScheduleRequest.RetryStrategy UpdateScheduleRequest.Payload].
    rewrite !andThen_None, !reject_None. split_and!; try done; [|by eapply retry_mirror].
    destruct (negb (_ =? 0)); [by eapply expires_mirror|done].
Qed.

Lemma range_map_from_inr {A Bo} (f : nat -> A -> GResult Bo) l : forall i ys,
  range_map_from i l f = inr ys ->
  length ys = length l /\
  forall j y, ys !! j = Some y -> exists x, l !! j = Some x /\ f (i + j)%nat x = inr y.
Proof.
  induction l as [|x l IH]; intros i ys; cbn [range_map_from]; [by intros [= <-]|].
  destruct (f i x) as [e|y0] eqn:E; [done|]. destruct (range_map_from (S i) l f) as [e|ys'] eqn:E'; [done|].
  intros [= <-]. destruct (IH _ _ E') as [Hl Hy]. split; [cbn; by rewrite Hl|].
  intros [|j] y; cbn; [intros [= <-]; exists x; by rewrite Nat.add_0_r|].
  intros Hj. destruct (Hy j y Hj) as (x' & Hx' & Hf). exists x'. by rewrite Nat.add_succ_r.
Qed.

Lemma range_map_inr {A Bo} (f : nat -> A -> GResult Bo) l ys :
  range_map l f = inr ys ->
  len ys = len l /\ forall j y, ys !! j = Some y -> exists x, l !! j = Some x /\ f j x = inr y.
Proof. intros [Hl Hy]%range_map_from_inr. unfold len. by rewrite Hl. Qed.

Lemma default_delay : ServiceLimits.MaxScheduledDelayInSeconds DefaultServiceLimits = 14 * 86400.
Proof. done. Qed.

Lemma resolved_expiry now sat eat expires s e :
  sane now -> 0 <= sat -> 0 <= eat -> 60 <= expires <= 14 * 86400 ->
  resolveScheduledAtAndExpiresAt now sat eat expires
    (ServiceLimits.MaxScheduledDelayInSeconds DefaultServiceLimits) = Some (s, e) -> 0 <= e.
Proof.
  intros Hn Hs He Hx E. rewrite default_delay in E.
  pose proof (resolve_exact now sat eat expires (14 * 86400) Hn Hs He Hx ltac:(lia)) as Hr.
  rewrite E in Hr. destruct Hr as (_ & _ & _ & ? & _). lia.
Qed.

(** The id of a stored queue: set, with a non-zero number. *)
Definition id_valid (q : Queue.t) : Prop := QueueId.QueueId (Queue.Id q) <> 0.

Lemma id_valid_check q : id_valid q -> validateQueueId (Some (Queue.Id q)) = None.
Proof. intros Hq. apply reject_None. unfold id_valid in Hq. lia. Qed.

Lemma enqueue_entry_passes now queue i e y :
  sane now -> queue_valid queue -> validateEnqueueEntry i e = None ->
  enqueue_entry_of now queue DefaultServiceLimits i e = inr y ->
  0 <= EnqueueRequestEntry.ScheduledAt y /\ 0 <= EnqueueRequestEntry.ExpiresAt y /\
  CoreValidators.validateRetryStrategy (EnqueueRequestEntry.RetryStrategy y) = None /\
  len (EnqueueRequestEntry.Payload y) <= CoreValidators.maxPayloadSize.
Proof.
  intros Hn [Hqe _ Hqr _ _] Hv. unfold validateEnqueueEntry in Hv. no_error. unfold enqueue_entry_of.
  destruct (resolveScheduledAtAndExpiresAt _ _ _ _ _) as [[s ex]|] eqn:E; [|done]. intros [= <-]. cbn.
  apply expires_range in Hqe. apply resolved_expiry in E; [|done|lia|lia|done].
  split; [lia|]. split; [done|]. split; [|unfold CoreValidators.maxPayloadSize; unfold maxPayloadSize in *; lia].
  destruct (moabpb.EnqueueRequestEntry.RetryStrategy e) as [r|]; [|done]. cbn. by eapply (retry_mirror (Some r)).
Qed.

Lemma enqueue_passes queue now req es :
  queue_valid queue -> id_valid queue -> sane now -> ValidateEnqueueRequest req = None ->
  range_map (moabpb.EnqueueRequest.Entries req) (enqueue_entry_of now queue DefaultServiceLimits) = inr es ->
  EnqueueRequest_Validate (Wire.EnqueueRequest.mk (Some (Queue.Id queue)) es) = None.
Proof.
  intros Hq Hid Hn Hv Hes. unfold ValidateEnqueueRequest in Hv. no_error.
  destruct (range_map_inr _ _ _ Hes) as [El Hy]. unfold EnqueueRequest_Validate.
  rewrite !andThen_None, reject_None. split; [by apply id_valid_check|]. cbn [Wire.EnqueueRequest.Entries].
  rewrite El. split; [done|]. apply range_check_None. intros i y Hi.
  destruct (Hy i y Hi) as (e & He & Ey).
  destruct (enqueue_entry_passes now queue i e y) as (P1 & P2 & P3 & P4); [done|done| |done|].
  { by eapply (proj1 (range_check_None _ _)). }
  rewrite !andThen_None, !reject_None, wrap_None. split_and!; try done; lia.
Qed.

Lemma dequeue_passes queue req :
  queue_valid queue -> id_valid queue -> ValidateDequeueRequest req = None ->
  DequeueRequest_Validate (dequeue_call req queue) = None.
Proof.
  intros [Q1 Q2 Q3 Q4 Q5] Hid Hv. unfold ValidateDequeueRequest in Hv. no_error.
  unfold DequeueRequest_Validate, dequeue_call. cbn [Wire.DequeueRequest.QueueId
    Wire.DequeueRequest.DequeuingSettings Wire.DequeueRequest.DeadLetterQueueConfig
    Wire.DequeueRequest.KeepaliveTimeoutInSeconds].
  rewrite !andThen_None. split; [by apply id_valid_check|]. split; [done|]. split; [done|].
  destruct (moabpb.DequeueRequest.KeepaliveTimeoutInSeconds req =? 0) eqn:E; cbn [negb] in *.
  - by destruct (negb _).
  - rewrite E. by eapply keepalive_mirror.
Qed.

Lemma report_passes queue req a es :
  queue_valid queue -> id_valid queue -> ValidateReportStatusRequest req = None ->
  (forall e, e ∈ moabpb.ReportStatusRequest.Entries req ->
     DecodeTaskId (moabpb.ReportStatusRequestEntry.TaskId e) <> Some 0) ->
  range_map (moabpb.ReportStatusRequest.Entries req) (report_entry_of a queue) = inr es ->
  ReportStatusRequest_Validate
    (Wire.ReportStatusRequest.mk (Some (Queue.Id queue)) es (Queue.DeadLetterQueueConfig queue)) = None.
Proof.
  intros [Q1 Q2 Q3 Q4 Q5] Hid Hv Hnz Hes. unfold ValidateReportStatusRequest in Hv. no_error.
  destruct (range_map_inr _ _ _ Hes) as [El Hy].
  unfold ReportStatusRequest_Validate. cbn [Wire.ReportStatusRequest.Entries
    Wire.ReportStatusRequest.DeadLetterQueueConfig].
  rewrite !andThen_None, reject_None, El. split_and!; [done| |done|done].
  apply range_check_None. intros i y Hi. destruct (Hy i y Hi) as (e & He & Ey).
  eapply (proj1 (range_check_None _ _)) in He as Hve; [|eassumption]. cbv zeta in Hve. no_error.
  unfold report_entry_of in Ey. specialize (Hnz e ltac:(by eapply list_elem_of_lookup_2)).
  destruct (DecodeTaskId _) as [n|]; [|done]. destruct (reportedStatusToCore _); [|done].
  injection Ey as <-. cbn [Wire.ReportStatusRequestEntry.TaskId
    Wire.ReportStatusRequestEntry.KeepaliveTimeoutInSeconds]. split.
  - cbn [CoreValidators.validateTaskId]. rewrite andThen_None, !reject_None.
    unfold id_valid in Hid. cbn. split; [lia|]. destruct (Z.eqb_spec n 0); [congruence|done].
  - destruct (moabpb.ReportStatusRequestEntry.KeepaliveTimeoutInSeconds e =? 0) eqn:E; cbn [negb] in *.
    + destruct (negb (_ =? 0)); [by apply wrap_None|done].
    + rewrite E. cbn [negb]. apply wrap_None. by eapply keepalive_mirror.
Qed.

(** Valid task ids are distinct and decode. *)
Lemma check_restart_entries_None entries : forall seen i,
  check_restart_entries seen i entries = None ->
  Forall (fun e => 0 <= moabpb.RestartTasksRequestEntry.ScheduledAt e /\
                   0 <= moabpb.RestartTasksRequestEntry.ExpiresAt e /\
                   DecodeTaskId (moabpb.RestartTasksRequestEntry.TaskId e) <> None /\
                   moabpb.RestartTasksRequestEntry.TaskId e ∉ seen) entries /\
  NoDup (moabpb.RestartTasksRequestEntry.TaskId <$> entries).
Proof.
  induction entries as [|e entries IH]; intros seen i; cbn [check_restart_entries]; [by repeat constructor|].
  intros Hv. unfold validateTaskId in Hv. no_error. rewrite !bool_decide_eq_false in *.
  edestruct IH as [H5 H6]; [eassumption|]. split.
  - constructor; [split_and!; [lia..|done|done]|]. eapply Forall_impl; [exact H5|].
    intros e' (? & ? & ? & Hn). split_and!; [done..|]. set_solver.
  - cbn. constructor; [|done]. rewrite list_elem_of_fmap. intros (e' & E & He').
    rewrite Forall_forall in H5. destruct (H5 e' He') as (_ & _ & _ & Hn). set_solver.
Qed.

Lemma restart_passes queue now req es :
  queue_valid queue -> id_valid queue -> sane now -> ValidateRestartTasksRequest req = None ->
  range_map (moabpb.RestartTasksRequest.Entries req) (restart_entry_of now queue DefaultServiceLimits) = inr es ->
  RestartTasksRequest_Validate (Wire.RestartTasksRequest.mk (Some (Queue.Id queue)) es) = None.
Proof.
  intros [Q1 _ _ _ _] Hid Hn Hv Hes. unfold ValidateRestartTasksRequest in Hv. no_error.
  destruct (range_map_inr _ _ _ Hes) as [El Hy]. unfold RestartTasksRequest_Validate.
  rewrite !andThen_None, reject_None. split; [by apply id_valid_check|]. cbn [Wire.RestartTasksRequest.Entries].
  rewrite El. split; [done|]. apply range_check_None. intros i y Hi.
  destruct (Hy i y Hi) as (e & He & Ey).
  edestruct check_restart_entries_None as [Hf _]; [eassumption|].
  rewrite Forall_lookup in Hf. destruct (Hf i e He) as (P1 & P2 & _).
  unfold restart_entry_of in Ey. destruct (DecodeTaskId _); [|done].
  destruct (resolveScheduledAtAndExpiresAt _ _ _ _ _) as [[s ex]|] eqn:E; [|done].
  injection Ey as <-. cbn. apply expires_range in Q1. apply resolved_expiry in E; [|done..].
  rewrite andThen_None, !reject_None. lia.
Qed.

(** C34: the core request the gateway builds from a valid [Enqueue], [Dequeue],
    [ReportStatus] or [RestartTasks] for a valid queue passes the core's own validation,
    with a clock in range and, for [ReportStatus], non-zero task numbers. *)
Theorem task_requests_pass_core_validation queue now :
  queue_valid queue -> id_valid queue -> sane now ->
  let id := Some (Queue.Id queue) in
  (forall req es, ValidateEnqueueRequest req = None ->
     range_map (moabpb.EnqueueRequest.Entries req) (enqueue_entry_of now queue DefaultServiceLimits) = inr es ->
     EnqueueRequest_Validate (Wire.EnqueueRequest.mk id es) = None) /\
  (forall req, ValidateDequeueRequest req = None ->
     DequeueRequest_Validate (dequeue_call req queue) = None) /\
  (forall req a es, ValidateReportStatusRequest req = None ->
     (forall e, e ∈ moabpb.ReportStatusRequest.Entries req ->
        DecodeTaskId (moabpb.ReportStatusRequestEntry.TaskId e) <> Some 0) ->
     range_map (moabpb.ReportStatusRequest.Entries req) (report_entry_of a queue) = inr es ->
     ReportStatusRequest_Validate (Wire.ReportStatusRequest.mk id es (Queue.DeadLetterQueueConfig queue)) = None) /\
  (forall req es, ValidateRestartTasksRequest req = None ->
     range_map (moabpb.RestartTasksRequest.Entries req) (restart_entry_of now queue DefaultServiceLimits) = inr es ->
     RestartTasksRequest_Validate (Wire.RestartTasksRequest.mk id es) = None).
Proof.
  intros Hq Hid Hn id. split_and!; intros;
    [by eapply enqueue_passes|by apply dequeue_passes|by eapply report_passes|by eapply restart_passes].
Qed.
End gateway_validation.

(** ** The settings of stored queues *)

Section stored_queues.
Context {U : Utils} {H : Honey} {C : CronLib}.
Context {UO : UtilsOk U} {HO : HoneyOk H} {CO : CronOk C}.



















End stored_queues.
