(* ===== verification/RoutingProps.v ===== *)
(** * Properties of ids and shards

    Ids survive the trip through their text form and are not taken for another kind; the
    shards of a new stub cut the key space, so every request finds exactly one core, and
    each listed shard id names its own shard. *)

From S2P Require Export GatewayProofs.

(** ** Ids *)

(** The text of one kind of id does not match the pattern of another. *)
Lemma match_other p q s : head p <> head q -> p <> [] -> q <> [] -> match_id p (q ++ s) = false.
Proof.
  intros Hh Hp Hq. unfold match_id. rewrite bool_decide_false; [done|].
  intros [t E]. destruct p as [|c p], q as [|d q]; try done. injection E as E _. by rewrite E in Hh.
Qed.

Section ids.
Context {B : Base62} {BO : Base62Ok B}.

(** A task, queue or schedule id decodes to itself after encoding, and the text of one
    kind of id is rejected by the decoders of the other kinds. *)
Theorem ids_roundtrip (t : Z) (q : QueueId.t) (s : ScheduleId.t) :
  is_u64 t -> wf_qid q -> wf_sid s ->
  (DecodeTaskId (EncodeTaskId t) = Some t /\
   DecodeQueueId (EncodeQueueId q) = Some q /\
   DecodeScheduleId (EncodeScheduleId s) = Some s) /\
  (DecodeTaskId (EncodeQueueId q) = None /\ DecodeTaskId (EncodeScheduleId s) = None /\
   DecodeQueueId (EncodeTaskId t) = None /\ DecodeQueueId (EncodeScheduleId s) = None /\
   DecodeScheduleId (EncodeTaskId t) = None /\ DecodeScheduleId (EncodeQueueId q) = None).
Proof.
  intros Ht [Hq1 Hq2] (Hs1 & Hs2 & Hs3). split.
  - split_and!; [by apply Decode_Encode_TaskId|by apply Decode_Encode_QueueId|by apply Decode_Encode_ScheduleId].
  - unfold DecodeTaskId, DecodeQueueId, DecodeScheduleId, taskIdRegex, queueIdRegex, scheduleIdRegex,
      EncodeTaskId, EncodeQueueId, EncodeScheduleId.
    by rewrite !match_other by by vm_compute.
Qed.
End ids.

(** ** Shards *)

Section shards.
Context {U : Utils} {H : Honey} {C : CronLib} {K : Keyspace} {KO : KeyspaceOk K}.

(** The adapters of an application: [key] has one shard, the search finds it, and the
    shard's id leads to it. *)
Definition routes {S} (adapters : list (Adapter S)) (key : Z) : Prop :=
  exists i ad, findAdapter adapters key = Some i /\ adapters !! i = Some ad /\
    lowerBound ad <= key <= upperBound ad /\
    (forall j ad', adapters !! j = Some ad' -> lowerBound ad' <= key <= upperBound ad' -> j = i) /\
    findById adapters (shard_id ad) = Some i.

Lemma new_shard_id {S} app (s : S) n i ad :
  new_adapters app s n !! i = Some ad -> shard_id ad = ShardId app (lowerBound ad) (upperBound ad).
Proof.
  unfold new_adapters. rewrite list_lookup_fmap. destruct (seq _ _ !! i); [|done]. by intros [= <-].
Qed.

Lemma findById_new {S} app (s : S) n i ad :
  1 <= n <= 2 ^ 32 -> Z.land n (n - 1) = 0 -> new_adapters app s n !! i = Some ad ->
  findById (new_adapters app s n) (shard_id ad) = Some i.
Proof.
  intros Hn Hl Hi. pose proof (partition_new app s n Hn Hl) as Hp. set (l := new_adapters app s n) in *.
  unfold findById. rewrite (proj2 (list_find_Some _ l i ad)); [done|]. split; [done|]. split; [done|].
  intros j ad' Hj Hlt E. rewrite (new_shard_id _ _ _ _ _ Hi), (new_shard_id _ _ _ _ _ Hj) in E.
  destruct Hp as (_ & Hs & Hb). destruct (Hb _ _ Hi) as [E1 E2], (Hb _ _ Hj) as [E3 E4].
  rewrite E1, E2, E3, E4 in E. apply (ShardId_distinct _ _ (Z.of_nat (length l))) in E;
    [lia|by rewrite KeyspacePerApplication_val, Z.mul_comm|..];
    apply lookup_lt_Some in Hi; apply lookup_lt_Some in Hj; lia.
Qed.

Lemma routes_new {S} app (s : S) n key :
  1 <= n <= 2 ^ 32 -> Z.land n (n - 1) = 0 -> 0 <= key < 2 ^ 32 -> routes (new_adapters app s n) key.
Proof.
  intros Hn Hl Hk. pose proof (partition_new app s n Hn Hl) as Hp.
  destruct (partition_lookup _ _ _ Hp Hk) as [ad Had]. exists (Z.to_nat (key / (2 ^ 32 / n))), ad.
  split; [by apply findAdapter_partition|]. split; [done|]. split.
  - destruct Hp as (Hs & _ & Hb). destruct (Hb _ _ Had) as [-> ->].
    assert (0 <= key / (2 ^ 32 / n)) by (apply Z.div_pos; lia). rewrite Z2Nat.id by done.
    pose proof (Z.div_mod key (2 ^ 32 / n) ltac:(lia)). pose proof (Z.mod_pos_bound key _ Hs). nia.
  - split; [|by apply findById_new]. intros j ad'. by apply partition_owner.
Qed.

(** C35: a new stub is made exactly when the number of shards is a power of two up to 2^32 (any
    other number is refused), and then it has that many shards per application and routes
    every key to exactly one of them, which its shard id leads to as well. *)
Theorem new_stub_routes_every_key {L : Type} (n : Z) (clk rnd : nat -> Z) (l : L) :
  match NewMoabNonclusteredStub n clk rnd l with
  | Some w =>
      (exists k, 0 <= k <= 32 /\ n = 2 ^ k) /\
      Z.of_nat (length (moabQueuesCores w)) = n /\ Z.of_nat (length (moabTasksCores w)) = n /\
      forall key, 0 <= key < 2 ^ 32 -> routes (moabQueuesCores w) key /\ routes (moabTasksCores w) key
  | None => ~ exists k, 0 <= k <= 32 /\ n = 2 ^ k
  end.
Proof.
  unfold NewMoabNonclusteredStub. rewrite KeyspacePerApplication_val.
  destruct (_ || _ || _) eqn:E.
  - intros (k & Hk & ->). assert (1 <= 2 ^ k <= 2 ^ 32).
    { split; [change 1 with (2 ^ 0)|]; apply Z.pow_le_mono_r; lia. }
    assert (Z.land (2 ^ k) (2 ^ k - 1) = 0) as El.
    { rewrite Z.sub_1_r, <-Z.ones_equiv, Z.land_ones by lia. apply Z.mod_same. lia. }
    rewrite El in E. cbn in E. lia.
  - apply orb_false_iff in E as [E Hl]. apply orb_false_iff in E as [H1 H2].
    assert (1 <= n <= 2 ^ 32) by lia. assert (Z.land n (n - 1) = 0) by lia.
    cbn [moabQueuesCores moabTasksCores]. unfold new_adapters at 1 2. rewrite !length_fmap, !length_seq.
    split; [|split; [lia|]; split; [lia|]; intros key Hk; by split; apply routes_new].
    destruct (land_pred_pow2 n) as (k & Hk & ->); [lia|done|]. exists k. split; [|done]. split; [done|].
    apply (Z.pow_le_mono_r_iff 2); lia.
Qed.
End shards.

(** ** Witnesses *)

Lemma ids_roundtrip_witness :
  DecodeQueueId (B := base62_ref) (EncodeQueueId (B := base62_ref) (QueueId.mk 7 3)) = Some (QueueId.mk 7 3).
Proof.
  apply (ids_roundtrip (B := base62_ref) 5 (QueueId.mk 7 3) (ScheduleId.mk 7 3 1)); by_eval.
Defined.
