(* ===== verification/GatewayExamples.v ===== *)
(** * A concrete run of the gateway

    The model on reference instances of everything outside the repository, and worlds
    reached by API calls; the inputs of the witnesses. *)

From S2P Require Export QueuesExamples TasksExamples ValidationProps RoutingProps.

#[export] Existing Instance keyspace_ref.
#[export] Existing Instance cache_ref.
#[export] Existing Instance base62_ref.

(** A token is its kind in two bytes and its value; the text form is the bytes themselves. *)
Definition kind_bytes (k : CorePaginationToken.Type_) : bytes :=
  match k with
  | CorePaginationToken.INVALID => [0; 0]
  | CorePaginationToken.NEXT => [1; 0]
  | CorePaginationToken.PREVIOUS => [2; 0]
  | CorePaginationToken.OTHER v => [3; v]
  end.
Definition kind_of_bytes (c v : Z) : CorePaginationToken.Type_ :=
  if c =? 0 then CorePaginationToken.INVALID
  else if c =? 1 then CorePaginationToken.NEXT
  else if c =? 2 then CorePaginationToken.PREVIOUS
  else CorePaginationToken.OTHER v.

Definition tokens_ref : TokenCodec := {|
  base64_Encode b := b;
  base64_Decode b := Some b;
  token_Marshal tok := Some (kind_bytes (CorePaginationToken.Type' tok) ++ CorePaginationToken.Value tok);
  token_Unmarshal b :=
    match b with
    | c :: v :: b => Some (CorePaginationToken.mk (kind_of_bytes c v) b)
    | _ => None
    end;
|}.
#[export] Existing Instance tokens_ref.

#[export] Instance tokens_ref_ok : TokenCodecOk tokens_ref.
Proof.
  split; cbn; try done.
  - intros tok. by eexists.
  - intros [k v] b [= <-]. by destruct k.
  - intros [k v] b _ [= <-]. by destruct k.
Qed.

(** Five-field expressions only. *)
Definition gronx_ref : Gronx := {| IsValid s := bool_decide (count_occ Z.eq_dec s 32 = 4%nat) |}.
#[export] Existing Instance gronx_ref.

(** A fact about the core a key belongs to, by evaluation. *)
Lemma core_eval {S} (o : option S) (P : S -> Prop) `{forall s, Decision (P s)} :
  match o with Some s => bool_decide (P s) | None => false end = true -> exists s, o = Some s /\ P s.
Proof. destruct o as [s|]; [|done]. intros E. exists s. split; [done|]. by apply bool_decide_eq_true in E. Qed.

Ltac by_core :=
  unfold room, unused_id, taken, marked; refine (core_eval _ _ _); vm_compute; reflexivity.

#[export] Instance not_purged_dec v a q : Decision (not_purged v a q).
Proof. unfold not_purged. apply _. Defined.

Module GRun.
(** The state a handler leaves. *)
Definition after {A} (m : M GWorld A) (w : GWorld) : GWorld :=
  match m w with Ok (_, w') => w' | Fail _ => w end.
Definition answer {A} (m : M GWorld A) (w : GWorld) : option A :=
  match m w with Ok (a, _) => Some a | Fail _ => None end.

(** Readings 10 ms apart; the ids 3, 4, 4, 5, 6, ... are drawn. *)
Definition clk (i : nat) : Z := 1000 * time_Second + Z.of_nat i * 10000000.
Definition rnd (i : nat) : Z := if (i <? 2)%nat then Z.of_nat i + 3 else Z.of_nat i + 2.

Definition w0 : GWorld := mkWorld (new_adapters MoabQueues QNewCore 4)
  (new_adapters MoabTasks NewCore 4) clk 0 rnd 0 (∅ : Cache).

Definition create (name : string) : moabpb.CreateQueueRequest.t :=
  moabpb.CreateQueueRequest.mk (str name) (str "d") 30
    (Some (moabpb.RetryStrategy.mk [10; 20])) None None 3600.
Definition named (name : string) : moabpb.QueueNameRequest.t := moabpb.QueueNameRequest.mk (str name).
Definition entry : moabpb.EnqueueRequestEntry.t :=
  moabpb.EnqueueRequestEntry.mk (str "p") 0 0 [] [] None [].
Definition enqueue : moabpb.EnqueueRequest.t := moabpb.EnqueueRequest.mk (str "jobs") [entry].
Definition dequeue : moabpb.DequeueRequest.t := moabpb.DequeueRequest.mk (str "jobs") 5 0.
Definition limits := DefaultServiceLimits.

(** Two queues. *)
Definition w1 : GWorld := after (handler_CreateQueue (create "jobs") 7 limits) w0.
Definition w2 : GWorld := after (handler_CreateQueue (create "mail") 7 limits) w1.
(** The first queue is cached, and then purged by another gateway. *)
Definition w3 : GWorld := after (getQueue 7 (str "jobs")) w1.
Definition w4 : GWorld := set_local (local w3) (after (handler_PurgeQueue (named "jobs") 7 limits) w3).

Definition jobs (w : GWorld) : Queue.t :=
  default (created (create "jobs") 7 limits 0 0) (queue_named w 7 (str "jobs")).

Lemma gw_ok_w0 : gw_ok w0.
Proof.
  assert (Hn : forall S (s : S) app (P : S -> Prop), P s ->
    forall i ad, new_adapters app s 4 !! i = Some ad -> P (core ad)).
  { intros S s app P Hs i ad. unfold new_adapters. rewrite list_lookup_fmap.
    destruct (seq _ _ !! i); [|done]. by intros [= <-]. }
  split; cbn [moabQueuesCores moabTasksCores w0].
  - eexists. by apply (partition_new MoabQueues QNewCore 4).
  - eexists. by apply (partition_new MoabTasks NewCore 4).
  - apply (Hn _ _ _ (fun s => QInv (qview s))). rewrite qview_new. apply QInv_empty.
  - apply (Hn _ _ _ (fun s => Good (view s))). apply Good_reachable, reachable_new.
Qed.

Lemma after_wp {A} (m : M GWorld A) w (Q : A -> GWorld -> Prop) :
  wp m w Q -> exists a, Q a (after m w).
Proof. intros (a & w' & E & HQ)%wp_ok. exists a. unfold after. by rewrite E. Qed.

Lemma gw_ok_w1 : gw_ok w1.
Proof.
  destruct (after_wp _ w0 _ (wp_with_fresh_id (create "jobs") 7 limits 5 0 w0 gw_ok_w0
    ltac:(by_eval) ltac:(intros [|j] Hj; [by_eval|lia]) ltac:(by_core)
    ltac:(intros; lia) ltac:(intros _; by_core))) as [r [Hw _]]. exact Hw.
Qed.

Lemma gw_ok_w2 : gw_ok w2.
Proof.
  destruct (after_wp _ w1 _ (wp_with_fresh_id (create "mail") 7 limits 5 0 w1 gw_ok_w1
    ltac:(by_eval) ltac:(intros [|j] Hj; [by_eval|lia]) ltac:(by_core)
    ltac:(intros; lia) ltac:(intros _; by_core))) as [r [Hw _]]. exact Hw.
Qed.

Lemma gw_ok_w3 : gw_ok w3.
Proof.
  assert (El : local w1 = ∅) by (vm_compute; reflexivity).
  destruct (getQueue_miss w1 7 (str "jobs") (jobs w1) gw_ok_w1 ltac:(by_eval) ltac:(by_eval)
    ltac:(intros now; by rewrite El)) as (w & E & E1 & E2 & _).
  unfold w3, after. rewrite E. exact (gw_ok_same w1 w E1 E2 gw_ok_w1).
Qed.

Lemma gw_ok_w4 : gw_ok w4.
Proof.
  destruct (after_wp _ w3 _ (wp_PurgeQueue w3 (named "jobs") 7 limits (jobs w3) gw_ok_w3
    ltac:(by_eval) ltac:(by_eval) ltac:(by_eval) ltac:(by_core)))
    as (r & _ & Hw & _). 
  exact (gw_ok_same (after (handler_PurgeQueue (named "jobs") 7 limits) w3) w4 eq_refl eq_refl Hw).
Qed.
End GRun.
