(* ===== verification/LoadWitnesses.v ===== *)
(** * A load test on concrete inputs

    The generator against the reference gateway: the default configuration, a complete run of
    [SetupQueues] with two goroutines, and what [Validate] lets through. *)

From S2P Require Export LoadSetup GatewayExamples.

Module LRun.
Import GRun.

(** The client library's reading of the gateway's errors. *)
Definition status_ref : GrpcStatus := {|
  status_code e :=
    match e with
    | ErrorToGRPC (AppErr e) =>
        match Code e with
        | NotFound => evrblk.NotFound
        | AlreadyExists => evrblk.AlreadyExists
        | ResourceExhausted => evrblk.ResourceExhausted
        | InvalidRequest => evrblk.InvalidRequest
        | _ => evrblk.InternalFailure
        end
    | InvalidArgument _ => evrblk.InvalidRequest
    | _ => evrblk.InternalFailure
    end;
  status_not_found e :=
    match e with ErrorToGRPC (AppErr e) => bool_decide (Code e = NotFound) | _ => false end;
  status_already_exists e :=
    match e with ErrorToGRPC (AppErr e) => bool_decide (Code e = AlreadyExists) | _ => false end;
|}.
#[export] Existing Instance status_ref.

#[export] Instance status_ref_ok : GrpcStatusOk status_ref.
Proof.
  split. intros [[e| | | | | |]| | |]; cbn; try done. intros He%bool_decide_eq_true. by exists e.
Qed.

Definition config : Config.t :=
  parseFlags [F_queues 9; F_producers 3; F_queues 2; F_queue_setup_concurrency 2; F_enqueue_rate 1000].

(** An empty server whose random numbers are 3, 4, ..., 1002, over and over. *)
Definition w : GWorld := mkWorld (new_adapters MoabQueues QNewCore 4) (new_adapters MoabTasks NewCore 4)
  clk 0 (fun k => Z.of_nat (k mod 1000) + 3) 0 (∅ : Cache).

Lemma config_typed_config : config_typed config.
Proof. unfold config_typed, is_i64. vm_compute. by repeat split. Qed.

Lemma w_ready : gateway_ready w.
Proof.
  split; [by apply (gw_ok_same w0); [..|exact gw_ok_w0]|]. intros k _. split.
  - unfold w. cbn [rand]. pose proof (Nat.mod_upper_bound k 1000 ltac:(lia)). unfold is_u64. rewrite two64_val. lia.
  - intros s Hs. assert (Es : queues_core w 0 = Some QNewCore) by reflexivity.
    rewrite Es in Hs. injection Hs as <-. apply lookup_empty.
Qed.

(** Both goroutines look their queue up before either creates it. *)
Definition schedule : list nat := [0; 0; 1; 2; 1; 2; 2; 1]%nat.
Definition final : SetupPool (W := GWorld) :=
  pool_run (getOrCreateQueue config) ToGet 2 2 schedule (pool_init w (queue_names config)).

(** A client that counts its calls and refuses every other one. *)
Definition counting_api : MoabApi nat := {|
  client_GetQueue _ := fun _ => Fail ErrNotFound;
  client_CreateQueue _ := fun _ => Fail ErrNotFound;
  client_DeleteQueue _ := fun _ => Fail ErrNotFound;
  client_Enqueue _ := fun n => Ok (if Nat.even n then inr ([], 0) else inl (Internal "busy"), S n);
|}.
Definition tick : Tick := mkTick false 0 false 0 false.
Definition producer : Producer nat :=
  mkProducer 0%nat (NewStatsCollector 0) (mkRng (fun k => Z.of_nat k * 7919) 0) None.
End LRun.

Import LRun.

Lemma setup_creates_every_queue_witness :
  pool_done final = true /\
  forall name, name ∈ [str "load-test-queue-0"; str "load-test-queue-1"] ->
    exists x, queue_named (pool_world final) 0 name = Some x.
Proof.
  assert (Hd : pool_done final = true) by (vm_compute; reflexivity).
  split; [exact Hd|].
  destruct (pool_run_exec (getOrCreateQueue config) ToGet 2 2 gateway_ready queue_there (queue_names config) schedule
              (pool_init w (queue_names config))) as (k & _ & He).
  destruct (setup_creates_every_queue config w k final config_typed_config ltac:(vm_compute; reflexivity)
              ltac:(vm_compute; split; [reflexivity|discriminate]) w_ready He) as (_ & _ & _ & Hn).
  exact (proj2 (Hn Hd ltac:(vm_compute; reflexivity))).
Defined.

Lemma validated_config_sends_valid_requests_witness :
  Validate config = None /\
  ⟪ producer ⟫ Run (Api := counting_api) config (queue_names config) [tick; tick; tick] ⟪ running, p' ⟫
    (running = true -> Stats.enqueueRequests (p_stats p') = 3).
Proof.
  assert (Hv : Validate config = None) by (vm_compute; reflexivity). split; [exact Hv|].
  destruct (validated_config_sends_valid_requests config config_typed_config Hv
              ltac:(vm_compute; split; [reflexivity|discriminate])) as (_ & _ & Hr).
  eapply wp_mono; [apply (Hr _ _ counting_api (fun _ => True) [tick; tick; tick] producer)|].
  - intros req n _ _. exact I.
  - exact I.
  - split_and!; by_eval.
  - intros running p' (_ & calls & recorded & _ & _ & Hrec & Hreq & _) ->.
    destruct Hrec as [-> Hlen]. rewrite Hreq. unfold len. rewrite Hlen. reflexivity.
Defined.

(** ** Examples *)

(** The rate is spread over the producers: 1000 calls a second by 3 of them are 3 ms apart. *)
Example pacer_of_config : producer_pacer config = Some (mkPacer 3000000 None).
Proof. vm_compute. reflexivity. Qed.

Example stats_line :
  fst (PrintStats (10 * time_Second) (10 * time_Second) (Stats.mk 0 8 1 1234567 99 0 0 0 0)) =
  "[00:00:10] Enqueued: 1,234,567 tasks (8 reqs, 1 errors, 123,456 tasks/sec) | Handled: 99 tasks (0 errors, 9 tasks/sec) | Success: enqueue=87.5% handler=100.0%".
Proof. vm_compute. reflexivity. Qed.

(** ** What [Validate] lets through *)

Module LoadFindings.

(** A prefix outside the gateway's alphabet, or too long: every request is rejected. *)
Example prefix_not_validated :
  let c := parseFlags [F_queue_name_prefix (str "load.test")] in
  Validate c = None /\
  forall name, name ∈ queue_names c -> ValidateCreateQueueRequest (setup_request name c) <> None.
Proof.
  cbv zeta. split; [vm_compute; reflexivity|]. intros name Hn.
  unfold queue_names in Hn. apply list_elem_of_fmap in Hn as (i & -> & _). intros Hv.
  unfold ValidateCreateQueueRequest in Hv. rewrite !andThen_None in Hv. destruct Hv as [Hv _].
  unfold validateQueueName, validateString in Hv. rewrite andThen_None, !invalid_if_None in Hv.
  destruct Hv as [_ Hv]. cbn [setup_request moabpb.CreateQueueRequest.Name] in Hv.
  rewrite nameRegex_app in Hv. discriminate Hv.
Qed.

(** An interval of no time: the statistics logger panics and takes the process down. *)
Example log_interval_not_validated :
  let c := parseFlags [F_log_interval 0] in
  Validate c = None /\ start_logger c = Fail (ErrPanic NonPositiveArgument).
Proof. vm_compute. by split. Qed.

(** From a billion on, the separators of [formatNumber] stop at the millions. *)
Example formatNumber_billions : formatNumber 1234567890 = "1234,567,890".
Proof. vm_compute. reflexivity. Qed.
End LoadFindings.
