(* ===== verification/GatewayWitnesses.v ===== *)
(** * The gateway's properties on concrete runs

    Each property of [RoutingProps], [GatewayProps] and [ValidationProps] at the worlds of
    [GatewayExamples], and where the gateway departs from its intent, by evaluation. *)

From S2P Require Export GatewayExamples.
Import GRun.

Lemma new_stub_routes_every_key_witness :
  exists w : World (L := unit), NewMoabNonclusteredStub 4 clk rnd tt = Some w /\
    routes (moabTasksCores w) (ByAccountAndQueue 7 3).
Proof.
  pose proof (new_stub_routes_every_key 4 clk rnd tt) as Hr.
  destruct (NewMoabNonclusteredStub 4 clk rnd tt) as [w|] eqn:E; [|discriminate].
  exists w. split; [reflexivity|]. apply (proj2 (proj2 (proj2 Hr))). by_eval.
Defined.

Lemma PurgeQueue_rotates_and_marks_witness :
  ⟪ w3 ⟫ handler_PurgeQueue (named "jobs") 7 limits ⟪ r, w' ⟫ r = inr tt /\ marked w' (QueueId.mk 7 3).
Proof.
  eapply wp_mono; [apply (PurgeQueue_rotates_and_marks w3 (named "jobs") 7 limits (jobs w3) gw_ok_w3)|].
  - by_eval.
  - by_eval.
  - by_eval.
  - by_core.
  - intros r w' (-> & _ & _ & Hm & _). split; [reflexivity|].
    replace (QueueId.mk 7 3) with (Queue.Id (jobs w3)) by (vm_compute; reflexivity). exact Hm.
Defined.

Lemma stale_cache_is_refreshed_witness :
  exists es w', refreshed w4 (cacheKey 7 (str "jobs")) (jobs w4) w' /\
    handler_Enqueue enqueue 7 limits w4 =
      reply_tasks (Stub_Enqueue (Wire.EnqueueRequest.mk (Some (Queue.Id (jobs w4))) es)) w'.
Proof.
  destruct (range_map [entry] (enqueue_entry_of (read_clock w4) (jobs w3) limits)) as [e|es] eqn:Ees.
  - exfalso. revert Ees. vm_compute. discriminate.
  - exists es. refine (proj1 (stale_cache_is_refreshed w4 enqueue dequeue 7 limits (jobs w3) (jobs w4) es
      gw_ok_w4 ltac:(by_eval) ltac:(by_eval) _ ltac:(by_eval) ltac:(by_eval) ltac:(by_eval) Ees
      ltac:(by_eval) ltac:(by_eval) ltac:(by_eval))). by_core.
Defined.

Lemma CreateQueue_retries_on_collision_witness :
  ⟪ w2 ⟫ handler_CreateQueue (create "more") 7 limits ⟪ r, w' ⟫
    exists now, queue_named w' 7 (str "more") = Some (created (create "more") 7 limits 5 now).
Proof.
  eapply wp_mono; [apply (CreateQueue_retries_on_collision w2 (create "more") 7 limits 1 gw_ok_w2)|].
  - by_eval.
  - intros [|[|j]] Hj; [by_eval|by_eval|lia].
  - by_core.
  - intros [|j] Hj; [by_core|lia].
  - intros _. by_core.
  - cbn [decide]. intros r w' (_ & _ & Ho). destruct (decide (1 < 5)%nat) as [_|Hn]; [|lia].
    destruct Ho as (now & _ & Hq). exists now. exact Hq.
Defined.

Lemma created_queue_reads_back_witness :
  ⟪ w2 ⟫ (r1 ← handler_CreateQueue (create "more") 8 limits;
          r2 ← handler_GetQueue (moabpb.QueueNameRequest.mk (str "more")) 8 limits;
          mret (r1, r2)) ⟪ r, w' ⟫
    exists stats now, r = (inr (created_front (create "more") (read_clock w2)),
                           inr (created_front (create "more") (read_clock w2), stats, now)).
Proof.
  apply (created_queue_reads_back w2 (create "more") 8 limits gw_ok_w2).
  - by_eval.
  - by_eval.
  - by_eval.
  - by_core.
  - by_core.
Defined.

Lemma resolved_times_are_exact_witness :
  resolveScheduledAtAndExpiresAt (clk 0) 0 (clk 0 + 2 * 3600 * time_Second) 3600 86400 =
    Some (clk 0, clk 0 + 3600 * time_Second).
Proof.
  pose proof (resolved_times_are_exact (clk 0) 0 (clk 0 + 2 * 3600 * time_Second) 3600 86400
    ltac:(by_eval) ltac:(by_eval) ltac:(by_eval) ltac:(by_eval) ltac:(by_eval)) as Hr.
  cbv zeta in Hr. destruct (resolveScheduledAtAndExpiresAt _ _ _ _ _) as [[s e]|];
    [|exfalso; revert Hr; vm_compute; discriminate].
  destruct Hr as (_ & -> & -> & _). vm_compute. reflexivity.
Defined.

Lemma control_requests_pass_core_validation_witness :
  CreateQueueRequest_Validate (create_queue_request (create "jobs") 7 limits 3) = None.
Proof. apply control_requests_pass_core_validation; [by_eval|lia]. Defined.

Lemma task_requests_pass_core_validation_witness :
  DequeueRequest_Validate (dequeue_call dequeue (jobs w1)) = None.
Proof.
  refine (proj1 (proj2 (task_requests_pass_core_validation (jobs w1) (clk 9) _ _ _)) dequeue _).
  - split; by_eval.
  - by_eval.
  - by_eval.
  - by_eval.
Defined.


(** ** Where the gateway departs from its intent *)

Module GatewayFindings.
(** Two gateways share the cores; each has a cache of its own.  [on other m] runs [m] on the
    gateway whose cache is [other] and keeps this one's cache. *)
Definition on {A} (other : Cache) (m : M GWorld A) (w : GWorld) : GWorld :=
  set_local (local w) (after m (set_local other w)).

(** The request of the tasks garbage collection worker. *)
Definition purge_gc : RunPurgeQueueGarbageCollectionRequest.t :=
  RunPurgeQueueGarbageCollectionRequest.mk 100 250 1000.

(** One collection of every tasks shard. *)
Definition collect (w : GWorld) : GWorld :=
  fold_left (fun w ad => after (Stub_RunPurgeQueueGarbageCollection purge_gc (shard_id ad)) w)
    (moabTasksCores w) w.

(** This gateway has the queue cached; another one purges it and the worker collects, all
    within the cache's second. *)
Definition purged : GWorld := on ∅ (handler_PurgeQueue (named "jobs") 7 limits) w3.
Definition collected_purge : GWorld := collect purged.

(** The API id of the first task of a queue. *)
Definition first_task : bytes := EncodeTaskId 1.
Definition get_task : moabpb.GetTaskRequest.t := moabpb.GetTaskRequest.mk (str "jobs") first_task.

Definition accepted {A} (r : option (GResult A)) : bool :=
  match r with Some (inr _) => true | _ => false end.
Definition is_NotFound {A} (r : option (GResult A)) : bool :=
  match r with Some (inl (ErrorToGRPC e)) => isNotFound e | _ => false end.

(** the purge marker is dropped as soon as the purged id is drained, while another
    gateway may hold that id in its cache: its [Enqueue] is accepted under the dead id, and
    the accepted task is not found by name, nor handed out once the cache entry is gone. *)
Theorem drained_marker_loses_tasks :
  let r := answer (handler_Enqueue enqueue 7 limits) in
  let w := after (handler_Enqueue enqueue 7 limits) in
  (* with the marker in place the task goes to the live id *)
  accepted (r purged) = true /\ accepted (answer (handler_GetTask get_task 7 limits) (w purged)) = true /\
  (* once the marker is collected it is accepted and lost *)
  accepted (r collected_purge) = true /\
  is_NotFound (answer (handler_GetTask get_task 7 limits) (w collected_purge)) = true /\
  option_map (sum_map id fst) (answer (handler_Dequeue dequeue 7 limits)
    (set_local ∅ (w collected_purge))) = Some (inr []).
Proof. vm_compute. done. Qed.

(** *** A cached miss

    [getQueue] caches a missing queue; [CreateQueue] does not drop that entry. *)
Definition missed : GWorld := after (handler_Enqueue enqueue 7 limits) w0.
Definition created_after_miss : GWorld := after (handler_CreateQueue (create "jobs") 7 limits) missed.

(** after a lookup of a missing queue, a queue created through the same gateway is
    there by [GetQueue], but [Enqueue] and [Dequeue] on it answer [NotFound] until the
    cached miss expires. *)
Theorem cached_miss_hides_new_queue :
  accepted (answer (handler_CreateQueue (create "jobs") 7 limits) missed) = true /\
  accepted (answer (handler_GetQueue (named "jobs") 7 limits) created_after_miss) = true /\
  is_NotFound (answer (handler_Enqueue enqueue 7 limits) created_after_miss) = true /\
  is_NotFound (answer (handler_Dequeue dequeue 7 limits) created_after_miss) = true.
Proof. vm_compute. done. Qed.
End GatewayFindings.
