(* ===== verification/Workers.v ===== *)
(** * The background workers ([pkg/workers/queues.go], [tasks.go])

    The cron worker turns due schedules into tasks; the two garbage collection workers call
    the collectors of every shard.  [yellowstone-common/workers.IntervalWorker], which calls
    a [handler] every five seconds, and the metrics are not modelled.  The handlers run the
    shards one after the other; [interleaves] gives the other schedules of the goroutine per
    shard, call by call.  A loop takes a bound; running out of it is a result of its own. *)

From S2P Require Export GatewayWorld.

(** What ends a run of [fetch] early. *)
Inductive WorkerError : Set :=
  | ClientError (e : CallError)
  | NextTickError.

Inductive Outcome : Set :=
  | Done
  | Failed (e : WorkerError)
  | OutOfFuel.

(** ** [MoabQueuesCronWorker] *)

Section cron.
Context {C : CronLib}.

(** [None] is an error of [time.LoadLocation] or [gronx.NextTickAfter]. *)
Definition nextTick (nanos : Z) (schedule : Schedule.t) : option Z :=
  tz ← LoadLocation (Schedule.Timezone schedule);
  NextTickAfter (Schedule.Cron schedule) nanos tz.

(** The schedule's own lifetime, or the queue's. *)
Definition expires_in (queue : Queue.t) (schedule : Schedule.t) : Z :=
  if Schedule.ExpiresInSeconds schedule >? 0
  then Schedule.ExpiresInSeconds schedule else Queue.ExpiresInSeconds queue.

Definition retry_strategy (queue : Queue.t) (schedule : Schedule.t) : option RetryStrategy.t :=
  match Schedule.RetryStrategy schedule with
  | Some r => Some r
  | None => Queue.RetryStrategy queue
  end.

Definition expires_at (queue : Queue.t) (schedule : Schedule.t) (scheduledAt : Z) : Z :=
  i64 (scheduledAt + i64 (expires_in queue schedule * time_Second)).

(** The task of one tick. *)
Definition tick_entry (queue : Queue.t) (schedule : Schedule.t) (scheduledAt : Z)
    : EnqueueRequestEntry.t :=
  EnqueueRequestEntry.mk (Schedule.Payload schedule) scheduledAt
    (expires_at queue schedule scheduledAt) (Schedule.DedupeKey schedule)
    (retry_strategy queue schedule) [] [].

(** [for scheduledAt <= dueBefore.UnixNano() { ... }]: the entries, [scheduledAt] and
    [lastEnqueuedFor] at the end of the loop. *)
Fixpoint tick_loop (fuel : nat) (queue : Queue.t) (schedule : Schedule.t) (now dueBefore : Z)
    (entries : list EnqueueRequestEntry.t) (scheduledAt lastEnqueuedFor : Z)
    : Outcome + (list EnqueueRequestEntry.t * Z * Z) :=
  match fuel with
  | O => inl OutOfFuel
  | S fuel =>
      if scheduledAt <=? dueBefore then
        let '(entries, lastEnqueuedFor) :=
          if (scheduledAt >=? now) && (expires_at queue schedule scheduledAt >? now)
          then (entries ++ [tick_entry queue schedule scheduledAt], scheduledAt)
          else (entries, lastEnqueuedFor) in
        match nextTick scheduledAt schedule with
        | None => inl (Failed NextTickError)
        | Some scheduledAt =>
            tick_loop fuel queue schedule now dueBefore entries scheduledAt lastEnqueuedFor
        end
      else inr (entries, scheduledAt, lastEnqueuedFor)
  end.

Context {W : Type} {Api : MoabClientApi W} {P : Process W}.
#[local] Notation T := (M W).

(** [if err != nil { return err }] *)
Definition or_fail {A} (m : T (CallResult A)) (k : A -> T Outcome) : T Outcome :=
  r ← m;
  match r with inl e => mret (Failed (ClientError e)) | inr a => k a end.

(** The body of [for _, entry := range resp.Entries], followed by [k]. *)
Definition fetch_entry (ticks : nat) (shardId : bytes) (now dueBefore : Z)
    (entry : Schedule.t * Queue.t) (k : T Outcome) : T Outcome :=
  let '(schedule, queue) := entry in
  match tick_loop ticks queue schedule now dueBefore [] (Schedule.NextScheduledAt schedule) 0 with
  | inl o => mret o
  | inr (entries, scheduledAt, lastEnqueuedFor) =>
      or_fail (api_Enqueue (Wire.EnqueueRequest.mk (Some (Queue.Id queue)) entries)) (fun _ =>
      or_fail (api_ReportSchedulesStatus (Wire.ReportSchedulesStatusRequest.mk
          (Some (Schedule.Id schedule)) scheduledAt lastEnqueuedFor) shardId) (fun _ => k))
  end.

Fixpoint fetch_entries (ticks : nat) (shardId : bytes) (now dueBefore : Z)
    (entries : list (Schedule.t * Queue.t)) (k : T Outcome) : T Outcome :=
  match entries with
  | [] => k
  | e :: entries =>
      fetch_entry ticks shardId now dueBefore e
        (fetch_entries ticks shardId now dueBefore entries k)
  end.

(** The outer [for]. *)
Fixpoint fetch_loop (rounds ticks : nat) (shardId : bytes) (now dueBefore : Z) : T Outcome :=
  match rounds with
  | O => mret OutOfFuel
  | S rounds =>
      or_fail (api_DequeSchedules dueBefore shardId) (fun entries =>
        match entries with
        | [] => mret Done
        | _ => fetch_entries ticks shardId now dueBefore entries
                 (fetch_loop rounds ticks shardId now dueBefore)
        end)
  end.

Definition fetch (rounds ticks : nat) (shardId : bytes) (now : Z) : T Outcome :=
  let dueBefore := i64 (now + 60 * time_Second) in
  fetch_loop rounds ticks shardId now dueBefore.

(** [handler] logs the errors of its shards. *)
Definition cron_handler (rounds ticks : nat) : T unit :=
  shards ← api_ListShards MoabQueues;
  match shards with
  | inl _ => mret tt
  | inr shards =>
      now ← now_UnixNano;
      for_map shards (fun shardId => fetch rounds ticks shardId now) ;;
      mret tt
  end.

(** ** [MoabQueuesGCWorker], [MoabTasksGCWorker]: errors are counted and logged *)

Definition queues_runGarbageCollection (shardId : bytes) : T unit :=
  api_RunQueuesGarbageCollection (RunQueuesGarbageCollectionRequest.mk 100 250 1000) shardId ;;
  mret tt.

(** The expiry sweep, then the purge collection whatever came of the sweep. *)
Definition tasks_runGarbageCollection (shardId : bytes) : T unit :=
  api_RunTasksGarbageCollection (RunTasksGarbageCollectionRequest.mk 1000 100) shardId ;;
  api_RunPurgeQueueGarbageCollection (RunPurgeQueueGarbageCollectionRequest.mk 100 250 1000) shardId ;;
  mret tt.

Definition gc_handler (app : bytes) (run : bytes -> T unit) : T unit :=
  shards ← api_ListShards app;
  match shards with
  | inl _ => mret tt
  | inr shards => now_UnixNano ;; for_map shards run ;; mret tt
  end.

(** The goroutine of a shard as the calls it makes. *)
Definition queues_gc_calls (shardId : bytes) : list (T unit) :=
  [ api_RunQueuesGarbageCollection (RunQueuesGarbageCollectionRequest.mk 100 250 1000) shardId ;; mret tt ].
Definition tasks_gc_calls (shardId : bytes) : list (T unit) :=
  [ api_RunTasksGarbageCollection (RunTasksGarbageCollectionRequest.mk 1000 100) shardId ;; mret tt;
    api_RunPurgeQueueGarbageCollection (RunPurgeQueueGarbageCollectionRequest.mk 100 250 1000) shardId ;; mret tt ].

Definition run_calls (l : list (T unit)) : T unit := fold_right (fun c k => c ;; k) (mret tt) l.

(** A round whose goroutines make their calls in the order [l]. *)
Definition gc_round (app : bytes) (l : list (T unit)) : T unit :=
  shards ← api_ListShards app;
  match shards with
  | inl _ => mret tt
  | inr _ => now_UnixNano ;; run_calls l
  end.

Definition queues_gc_handler : T unit := gc_handler MoabQueues queues_runGarbageCollection.
Definition tasks_gc_handler : T unit := gc_handler MoabTasks tasks_runGarbageCollection.

(** ** What each worker hands to its [IntervalWorker] *)

Record IntervalWorker := mkIntervalWorker { interval : Z; on_tick : T unit }.

Definition NewMoabQueuesCronWorker (rounds ticks : nat) : IntervalWorker :=
  mkIntervalWorker (5 * time_Second) (cron_handler rounds ticks).
Definition NewMoabQueuesGCWorker : IntervalWorker := mkIntervalWorker (5 * time_Second) queues_gc_handler.
Definition NewMoabTasksGCWorker : IntervalWorker := mkIntervalWorker (5 * time_Second) tasks_gc_handler.
End cron.

(** [l] takes every element of every list of [ss], each list in its order. *)
Inductive interleaves {A} : list (list A) -> list A -> Prop :=
  | interleaves_done ss : Forall (fun s => s = []) ss -> interleaves ss []
  | interleaves_step ss i x xs l :
      ss !! i = Some (x :: xs) -> interleaves (<[i := xs]> ss) l -> interleaves ss (x :: l).
