(* ===== verification/WorkersProps.v ===== *)
(** * Properties of the workers

    The calls one visit to a schedule makes, with one entry per tick, that a run of [fetch] ends with every
    schedule of its shard past the lookahead, and that the collectors' goroutines may be
    scheduled in any way. *)

From S2P Require Export Workers GatewayProofs.

(** ** Ticks *)

(** "NextTickAfter gives next run time", truncated to seconds: ticks fall on whole
    seconds. *)
Class CronSeconds (C : CronLib) : Prop :=
  NextTickAfter_second cron now tz t : NextTickAfter cron now tz = Some t -> t mod time_Second = 0.

#[export] Instance cron_ref_seconds : CronSeconds cron_ref.
Proof. intros cron now tz t. cbn. case_bool_decide; [|done]. intros [= <-]. by apply Z.mod_mul. Qed.

Section ticks.
Context {C : CronLib} {CO : CronOk C} {CS : CronSeconds C}.
Implicit Types (q : Queue.t) (s : Schedule.t).

(** [ts] are the ticks of [s] from [t] up to [dueBefore], and [next] the one after. *)
Inductive tick_run s (dueBefore : Z) : Z -> list Z -> Z -> Prop :=
  | run_stop t : dueBefore < t -> tick_run s dueBefore t [] t
  | run_tick t t' ts next :
      t <= dueBefore -> nextTick t s = Some t' -> tick_run s dueBefore t' ts next ->
      tick_run s dueBefore t (t :: ts) next.

(** Some tick up to [dueBefore] has no successor. *)
Inductive tick_stuck s (dueBefore : Z) : Z -> Prop :=
  | stuck_here t : t <= dueBefore -> nextTick t s = None -> tick_stuck s dueBefore t
  | stuck_later t t' :
      t <= dueBefore -> nextTick t s = Some t' -> tick_stuck s dueBefore t' -> tick_stuck s dueBefore t.

(** A tick that becomes a task: not in the past, and not expired before it starts. *)
Definition wanted q s (now t : Z) : Prop := now <= t /\ now < expires_at q s t.
#[export] Instance wanted_dec q s now t : Decision (wanted q s now t).
Proof. unfold wanted. apply _. Defined.

(** The seconds [tick_loop] may have to visit, and one iteration to leave. *)
Definition ticks_between (t dueBefore : Z) : Z := dueBefore / time_Second - t / time_Second + 2.

Lemma nextTick_later s t t' :
  nextTick t s = Some t' -> t < t' /\ is_i64 t' /\ t / time_Second + 1 <= t' / time_Second.
Proof.
  unfold nextTick. intros (tz & _ & E)%bind_Some. pose proof (NextTickAfter_second _ _ _ _ E) as Hm.
  apply NextTickAfter_after in E as [Hlt Hi]. split; [done|]. split; [done|].
  unfold time_Second in *. apply Z.div_exact in Hm; [|done].
  assert (t / 1000000000 < t' / 1000000000); [|lia]. apply Z.div_lt_upper_bound; lia.
Qed.

Lemma tick_loop_spec fuel q s now dueBefore : forall es t last,
  ticks_between t dueBefore <= Z.of_nat fuel -> (1 <= fuel)%nat ->
  match tick_loop fuel q s now dueBefore es t last with
  | inr (es', next, last') => exists ts, tick_run s dueBefore t ts next /\
      es' = es ++ (tick_entry q s <$> filter (wanted q s now) ts) /\
      last' = default last (list.last (filter (wanted q s now) ts))
  | inl o => o = Failed NextTickError /\ tick_stuck s dueBefore t
  end.
Proof.
  induction fuel as [|fuel IH]; intros es t last Hf H1; [lia|]. cbn [tick_loop].
  destruct (Z.leb_spec t dueBefore) as [Hle|Hgt].
  2:{ exists []. rewrite app_nil_r. by split; [constructor|]. }
  destruct (nextTick t s) as [t'|] eqn:En.
  2:{ destruct (_ && _); by split; [|apply stuck_here]. }
  destruct (nextTick_later _ _ _ En) as (_ & _ & Hsec).
  assert (Hle' : t / time_Second <= dueBefore / time_Second) by by apply Z.div_le_mono.
  unfold ticks_between in Hf.
  assert (Hw : (t >=? now) && (expires_at q s t >? now) = bool_decide (wanted q s now t)).
  { unfold wanted. case_bool_decide; lia. }
  rewrite Hw. case_bool_decide as Hwant.
  - specialize (IH (es ++ [tick_entry q s t]) t' t ltac:(unfold ticks_between; lia) ltac:(lia)).
    destruct (tick_loop _ _ _ _ _ _ _ _) as [o|[[es' next] last']].
    + destruct IH. split; [done|]. by eapply stuck_later.
    + destruct IH as (ts & Hr & -> & ->). exists (t :: ts). split; [by eapply run_tick|].
      rewrite filter_cons_True by done. split; [by rewrite <-app_assoc|].
      rewrite last_cons. by destruct (list.last _).
  - specialize (IH es t' last ltac:(unfold ticks_between; lia) ltac:(lia)).
    destruct (tick_loop _ _ _ _ _ _ _ _) as [o|[[es' next] last']].
    + destruct IH. split; [done|]. by eapply stuck_later.
    + destruct IH as (ts & Hr & -> & ->). exists (t :: ts). split; [by eapply run_tick|].
      by rewrite filter_cons_False by done.
Qed.

Lemma tick_run_bounds s dueBefore t ts next :
  tick_run s dueBefore t ts next ->
  dueBefore < next /\ Forall (fun u => t <= u <= dueBefore) ts /\ StronglySorted Z.lt ts /\
  (is_i64 t -> is_i64 next).
Proof.
  induction 1 as [t Ht|t t' ts next Ht En _ (IH1 & IH2 & IH3 & IH4)].
  { split; [done|]. split; [constructor|]. by split; [constructor|]. }
  destruct (nextTick_later _ _ _ En) as (Hlt & Hi & _). split; [done|]. split.
  - constructor; [lia|]. eapply Forall_impl; [exact IH2|]. cbn. intros u Hu. lia.
  - split; [|by auto]. constructor; [done|]. eapply Forall_impl; [exact IH2|]. cbn. intros u Hu. lia.
Qed.

(** The ticks of a window are determined, and a window has ticks or is stuck, not both. *)
Lemma tick_run_det s dueBefore t ts next : tick_run s dueBefore t ts next ->
  (forall ts' next', tick_run s dueBefore t ts' next' -> ts' = ts /\ next' = next) /\
  ~ tick_stuck s dueBefore t.
Proof.
  induction 1 as [t Ht|t t' ts next Ht En _ [IH1 IH2]].
  - split; [|inversion 1; lia]. inversion 1; [done|lia].
  - split; [|inversion 1; congruence]. inversion 1; [lia|]. simplify_eq.
    by destruct (IH1 _ _ ltac:(eassumption)) as [-> ->].
Qed.

(** C29: one visit of the cron worker to a due schedule, whatever the client behind it, is two
    calls: an [Enqueue] to the schedule's queue with exactly one entry for every tick of its
    expression in the lookahead window that is neither in the past nor already expired, in the
    order of the ticks; and then a [ReportSchedulesStatus] with the first tick past the window
    as the next one and the latest tick it sent (0 for none).  An error of either call ends the
    run with it, before the report when it is the first; and when a tick of the window has no
    successor the visit makes no call and the run fails.  What becomes of the entries is the
    client's: the tasks core leaves out an entry whose dedupe key
    is taken, and the cluster client refuses more than fifty
    ([WorkerFindings.per_second_schedule_exceeds_batch]). *)
Theorem cron_visit_sends_each_tick {W} {Api : MoabClientApi W} ticks shardId q s now dueBefore
    (k : M W Outcome) :
  ticks_between (Schedule.NextScheduledAt s) dueBefore <= Z.of_nat ticks -> (1 <= ticks)%nat ->
  is_i64 (Schedule.NextScheduledAt s) ->
  (exists ts next,
     tick_run s dueBefore (Schedule.NextScheduledAt s) ts next /\ StronglySorted Z.lt ts /\
     dueBefore < next /\ is_i64 next /\
     let sent := filter (wanted q s now) ts in
     fetch_entry ticks shardId now dueBefore (s, q) k =
       or_fail (api_Enqueue (Wire.EnqueueRequest.mk (Some (Queue.Id q)) (tick_entry q s <$> sent))) (fun _ =>
       or_fail (api_ReportSchedulesStatus (Wire.ReportSchedulesStatusRequest.mk
           (Some (Schedule.Id s)) next (default 0 (list.last sent))) shardId) (fun _ => k))) \/
  tick_stuck s dueBefore (Schedule.NextScheduledAt s) /\
    fetch_entry ticks shardId now dueBefore (s, q) k = mret (Failed NextTickError).
Proof.
  intros Hf H1 Hi. pose proof (tick_loop_spec ticks q s now dueBefore [] (Schedule.NextScheduledAt s) 0 Hf H1) as Ht.
  unfold fetch_entry. destruct (tick_loop _ _ _ _ _ _ _ _) as [o|[[es next] last]].
  - destruct Ht as [-> Hs]. by right.
  - destruct Ht as (ts & Hr & -> & ->). destruct (tick_run_bounds _ _ _ _ _ Hr) as (Hn & _ & Hs & Hin).
    left. exists ts, next. split_and!; try done. auto.
Qed.
End ticks.

(** ** [Enqueue] of a schedule's tasks returns *)

Section total.
Context {S : Type}.

Definition total {A} (m : M S A) : Prop := forall s, exists a s', m s = Ok (a, s').

Lemma total_ret {A} (a : A) : total (mret a).
Proof. intros s. by exists a, s. Qed.
Lemma total_gets {A} (f : S -> A) : total (gets f).
Proof. intros s. by exists (f s), s. Qed.
Lemma total_modify (f : S -> S) : total (modify f).
Proof. intros s. by exists tt, (f s). Qed.
Lemma total_bind {A B} (m : M S A) (f : A -> M S B) : total m -> (forall a, total (f a)) -> total (m ≫= f).
Proof.
  intros Hm Hf s. destruct (Hm s) as (a & s1 & E1). destruct (Hf a s1) as (b & s2 & E2).
  exists b, s2. unfold mbind, M_bind. by rewrite E1.
Qed.
Lemma total_when b (m : M S unit) : total m -> total (when b m).
Proof. intros Hm. destruct b; [done|apply total_ret]. Qed.
End total.

(** Walks through a computation made of reads and writes. *)
Ltac total_steps :=
  repeat first [apply total_ret | apply total_gets | apply total_modify
               | apply total_when | apply total_bind; [|intros]].

Section plain_enqueue.
Context {U : Utils} {H : Honey}.

(** No thread and nothing to overwrite. *)
Definition plain (e : EnqueueRequestEntry.t) : Prop :=
  EnqueueRequestEntry.ThreadId e = [] /\ EnqueueRequestEntry.OverwriteOnDuplicate e = [].

Lemma total_createTask t : Task.ThreadId t = [] -> total (createTask t).
Proof. intros E. unfold createTask. rewrite bool_decide_true by done. unfold bump_counters. total_steps. Qed.

Lemma total_enqueue_entry a q now e st : plain e -> total (enqueue_entry a q now e st).
Proof.
  intros [Et Eo]. unfold enqueue_entry. rewrite Eo. apply total_bind.
  - destruct (bool_decide _); unfold getTaskIdByDedupeKey; total_steps.
  - intros [d|]; [apply total_ret|]. apply total_bind; [by apply total_createTask|]. intros []. total_steps.
Qed.

Lemma total_enqueue_entries a q now es : forall ts st,
  Forall plain es -> total (enqueue_entries a q now es ts st).
Proof.
  induction es as [|e es IH]; intros ts st Hes; [apply total_ret|]. apply Forall_cons in Hes as [He Hes].
  cbn [enqueue_entries]. apply total_bind; [by apply total_enqueue_entry|]. auto.
Qed.

Lemma total_Enqueue req now : Forall plain (EnqueueRequest.Entries req) -> total (Enqueue req now).
Proof.
  intros Hes. unfold Enqueue. apply total_bind.
  - unfold checkQueueNotPurged, purgeGCRecords_Exists. apply total_bind; [total_steps|].
    intros []; apply total_ret.
  - intros [e|]; [apply total_ret|]. apply total_bind; [apply total_gets|]. intros st.
    apply total_bind; [by apply total_enqueue_entries|]. intros r. total_steps.
Qed.
End plain_enqueue.

(** ** The cores behind a shard id *)

Section shard.
Context {U : Utils} {H : Honey} {C : CronLib} {K : Keyspace} {L : Type}.
Notation W := (World (L := L)).
Implicit Types w : W.

Definition shard_core w (shardId : bytes) : option QTxn :=
  i ← findById (moabQueuesCores w) shardId; core <$> moabQueuesCores w !! i.

Lemma findById_insert {S} (l : list (Adapter S)) i ad s shardId :
  l !! i = Some ad -> findById (<[i := set_core s ad]> l) shardId = findById l shardId.
Proof.
  intros Hi. assert (E : shard_id <$> <[i := set_core s ad]> l = shard_id <$> l).
  { rewrite list_fmap_insert. apply list_insert_id. by rewrite list_lookup_fmap, Hi. }
  unfold findById. revert E. generalize (<[i := set_core s ad]> l). clear. intros l' E.
  revert l' E. induction l as [|a l IH]; intros [|a' l'] E; try done.
  injection E as Ea E. cbn [list_find]. rewrite Ea. case_decide; [done|].
  specialize (IH l' E). destruct (list_find _ l') as [[]|], (list_find _ l) as [[]|]; cbn in *; congruence.
Qed.

(** A call to the shard's core. *)
Lemma wp_at_shard {A} shardId (m : M QTxn (QResponse A)) w s a s' Q :
  shard_core w shardId = Some s -> rpc m s = (Ok a, s') ->
  (forall w', shard_core w' shardId = Some s' -> Q (queues_answer a) w') ->
  wp (at_queues (fun l => findById l shardId) m) w Q.
Proof.
  unfold shard_core. intros Hs Hm HQ. unfold wp, at_queues, run_core.
  destruct (findById _ _) as [i|] eqn:Ei; [|done]. cbn in Hs.
  destruct (moabQueuesCores w !! i) as [ad|] eqn:Ea; [|done]. cbn in Hs. injection Hs as Hs.
  rewrite Hs, Hm. apply HQ. cbn [moabQueuesCores set_queues]. rewrite findById_insert, Ei by done.
  cbn. rewrite list_lookup_insert_eq by by eapply lookup_lt_Some. done.
Qed.

Lemma shard_core_ticked w shardId : shard_core (ticked w) shardId = shard_core w shardId.
Proof. done. Qed.

Lemma run_core_total {S A B} (l : list (Adapter S)) i (m : M S A) (answer : A -> CallResult B) :
  total m -> exists r l', run_core l i m answer = Ok (r, l').
Proof.
  intros Hm. unfold run_core. destruct i as [i|]; [|by eexists _, _]. destruct (l !! i) as [ad|]; [|by eexists _, _].
  destruct (Hm (core ad)) as (a & s' & E). unfold rpc. rewrite E. by eexists _, _.
Qed.

(** [Enqueue] of plain entries answers and leaves the queues cores alone. *)
Lemma wp_Enqueue_plain w id es Q :
  Forall plain es -> (forall r w', moabQueuesCores w' = moabQueuesCores w -> Q r w') ->
  wp (Stub_Enqueue (Wire.EnqueueRequest.mk (Some id) es)) w Q.
Proof.
  intros Hes HQ. unfold Stub_Enqueue, on_tasks_meta. apply wp_bind. unfold time_Now, wp at 1.
  apply wp_bind, wp_ret, wp_bind. unfold wp at 1, at_tasks.
  match goal with |- context [run_core ?l ?i ?m ?f] =>
    destruct (run_core_total l i m f) as (r & l' & ->) end.
  - change (total (Enqueue (EnqueueRequest.mk id es) (read_clock w))). by apply total_Enqueue.
  - apply wp_ret. by apply HQ.
Qed.
End shard.

(** ** A run of [fetch] *)

Section fetch.
Context {U : Utils} {H : Honey} {C : CronLib} {K : Keyspace} {QCa : QueuesCache}.
Context {UO : UtilsOk U} {HO : HoneyOk H} {CO : CronOk C} {CS : CronSeconds C}.
Implicit Types (w : GWorld) (v : QView) (s : QTxn) (t : Schedule.t).

#[local] Notation due := QueuesGC.due.

#[export] Instance schedule_due_dec before t : Decision (due before t).
Proof. unfold due. apply _. Defined.

(** The number of schedules due. *)
Definition pending v (before : Z) : Z := tally (due before) (q_sched v).

(** What a run relies on and keeps: every due schedule has its queue, and at most [ticks]
    ticks to visit. *)
Record fetchable (before : Z) (ticks : nat) v : Prop := {
  fe_inv : QInv v;
  fe_alive t : has_schedule v t -> due before t -> alive v t;
  fe_ticks t : has_schedule v t -> due before t ->
    ticks_between (Schedule.NextScheduledAt t) before <= Z.of_nat ticks;
}.

(** [t] was checked: its row has a tick past [before] now, all else is as it was. *)
Lemma fetchable_checked before ticks v v' t req now :
  fetchable before ticks v -> has_schedule v t -> due before t -> QInv v' ->
  ReportSchedulesStatusRequest.NextScheduledAt req > before ->
  qabs v' = put_schedule (checked_schedule req now t) (qabs v) ->
  fetchable before ticks v' /\ pending v' before = pending v before - 1 /\
  q_table v' = q_table v /\
  (forall u, u <> t -> has_schedule v u -> has_schedule v' u).
Proof.
  intros [Hv Ha Ht] Hs Hd Hv' Hn E.
  set (t' := checked_schedule req now t) in *.
  assert (E1 : skey t' = skey t /\ Schedule.NextScheduledAt t' = ReportSchedulesStatusRequest.NextScheduledAt req).
  { subst t'. unfold checked_schedule, skey. destruct t; cbn. by destruct (negb (_ =? 0)). }
  destruct E1 as [Ek En].
  assert (Es : q_sched v' = <[skey t := t']> (q_sched v)).
  { change (a_scheds (qabs v') = <[skey t := t']> (q_sched v)). by rewrite E, <-Ek. }
  assert (Eq : q_table v' = q_table v) by (change (a_queues (qabs v') = q_table v); by rewrite E).
  assert (Hnd : ~ due before t') by (unfold due; rewrite En; lia).
  assert (Hback : forall u, has_schedule v' u -> due before u -> has_schedule v u).
  { intros u Hu Hdu. unfold has_schedule, stores in Hu |- *. rewrite Es in Hu.
    apply lookup_insert_Some in Hu as [[_ <-]|[_ Hu]]; [by destruct Hnd|done]. }
  split; [|split; [|split; [done|]]].
  - split; [done| |].
    + intros u Hu Hdu. unfold alive. rewrite Eq. by apply Ha; [apply Hback|].
    + intros u Hu Hdu. by apply Ht; [apply Hback|].
  - unfold pending. rewrite Es, tally_insert. unfold weight. unfold has_schedule, stores in Hs.
    rewrite Hs, decide_True, decide_False by done. lia.
  - intros u Hne Hu. unfold has_schedule, stores in *. rewrite Es, lookup_insert_ne; [done|].
    intros Ekk. rewrite <-Ekk, Hs in Hu. congruence.
Qed.

Lemma wp_report w shardId s t next last Q :
  shard_core w shardId = Some s -> QInv (qview s) -> has_schedule (qview s) t -> is_i64 next ->
  let req := ReportSchedulesStatusRequest.mk (Schedule.Id t) next last in
  (forall w' s' now, shard_core w' shardId = Some s' -> QInv (qview s') ->
     qabs (qview s') = put_schedule (checked_schedule req now t) (qabs (qview s)) -> Q (inr tt) w') ->
  wp (Stub_ReportSchedulesStatus (Wire.ReportSchedulesStatusRequest.mk (Some (Schedule.Id t)) next last) shardId)
    w Q.
Proof.
  intros Hs Hv Ht Hn req HQ. unfold Stub_ReportSchedulesStatus. apply wp_bind. unfold time_Now, wp at 1.
  pose proof (has_schedule_wf _ _ (qi_schedules _ Hv) Ht) as [Hwf _].
  pose proof (refine_ReportSchedulesStatus (qview s) req (read_clock w) Hv Hwf Hn) as Hm.
  unfold spec_ReportSchedulesStatus in Hm. cbn [a_scheds qabs] in Hm. unfold has_schedule, stores, skey in Ht.
  cbn [ReportSchedulesStatusRequest.ScheduleId req] in Hm. rewrite Ht in Hm.
  destruct (proj1 (wp_ok _ _ _) (Hm s eq_refl)) as (r & s' & E & -> & EA & Hi).
  eapply (wp_at_shard shardId _ (ticked w) s (QPayload tt) s'); [exact Hs| |].
  - unfold rpc. change (match ReportSchedulesStatus req (read_clock w) s with
      | Ok (a, s') => (Ok a, s') | Fail e => (Fail e, s) end = (Ok (QPayload tt), s')). by rewrite E.
  - intros w' Hw'. by eapply HQ.
Qed.

(** The answer of a run, and what it leaves of the shard. *)
Definition ends (before : Z) (shardId : bytes) (queues : gmap bytes Queue.t) (o : Outcome) w' : Prop :=
  o <> OutOfFuel /\ exists s', shard_core w' shardId = Some s' /\ QInv (qview s') /\
    q_table (qview s') = queues /\
    (o = Done -> forall t, has_schedule (qview s') t -> ~ due before t).

Lemma wp_fetch_entries before ticks shardId now es k : forall w s,
  (1 <= ticks)%nat -> shard_core w shardId = Some s -> fetchable before ticks (qview s) ->
  Forall (fun e => has_schedule (qview s) e.1 /\ due before e.1) es -> NoDup es.*1 ->
  (forall w' s', shard_core w' shardId = Some s' -> fetchable before ticks (qview s') ->
     pending (qview s') before = pending (qview s) before - Z.of_nat (length es) ->
     q_table (qview s') = q_table (qview s) -> wp k w' (ends before shardId (q_table (qview s)))) ->
  wp (fetch_entries ticks shardId now before es k) w (ends before shardId (q_table (qview s))).
Proof.
  induction es as [|[t q] es IH]; intros w s H1 Hs Hf Hes Hnd Hk; cbn [fetch_entries].
  { apply (Hk w s); [done..|cbn; lia|done]. }
  apply Forall_cons in Hes as [[Ht Hd] Hes]. apply NoDup_cons in Hnd as [Hni Hnd]. cbn [fst] in *.
  pose proof (fe_inv _ _ _ Hf) as Hv.
  destruct (has_schedule_wf _ _ (qi_schedules _ Hv) Ht) as [_ Hi]. unfold fetch_entry.
  pose proof (tick_loop_spec ticks q t now before [] (Schedule.NextScheduledAt t) 0
    (fe_ticks _ _ _ Hf t Ht Hd) H1) as Hl.
  destruct (tick_loop _ _ _ _ _ _ _ _) as [o|[[entries next] last]].
  { destruct Hl as [-> _]. apply wp_ret. split; [done|]. by exists s. }
  destruct Hl as (ts & Hr & -> & _). destruct (tick_run_bounds _ _ _ _ _ Hr) as (Hn & _ & _ & Hin).
  unfold or_fail at 1. apply wp_bind, wp_Enqueue_plain.
  { apply Forall_fmap, Forall_forall. by intros u _. }
  intros r w1 E1. assert (Hs1 : shard_core w1 shardId = Some s) by (unfold shard_core; by rewrite E1).
  destruct r as [e|r]; [apply wp_ret; split; [done|]; by exists s|].
  unfold or_fail. apply wp_bind. eapply wp_report; [done|done|done|by apply Hin|].
  intros w2 s2 now2 Hs2 Hv2 E2.
  edestruct fetchable_checked as (Hf2 & Hp & Eq & Hkeep); [exact Hf|exact Ht|exact Hd|exact Hv2| |exact E2|];
    [cbn; lia|]. rewrite <-Eq. apply IH; [done|done|done| |done|].
  - apply Forall_forall. intros e He. rewrite Forall_forall in Hes. destruct (Hes e He) as [He1 He2].
    split; [|done]. apply Hkeep; [|done]. intros <-. apply Hni. by apply list_elem_of_fmap_2.
  - intros w' s' Hs' Hf' Hp' Eq'. rewrite Eq. apply (Hk w' s'); [done|done| |congruence].
    rewrite Hp', Hp. cbn [length]. lia.
Qed.

Lemma wp_deque w shardId s before Q :
  shard_core w shardId = Some s -> 0 <= before < two63 -> QInv (qview s) ->
  (forall t, has_schedule (qview s) t -> due before t -> alive (qview s) t) ->
  (forall es w', shard_core w' shardId = Some s -> due_rows (qview s) before 250 es.*1 -> Q (inr es) w') ->
  wp (Stub_DequeSchedules before shardId) w Q.
Proof.
  intros Hs Hb Hv Ha HQ. unfold Stub_DequeSchedules. apply wp_bind. unfold time_Now, wp at 1.
  destruct (proj1 (wp_ok _ _ _) (op_DequeSchedules (qview s) before Hb Hv Ha s eq_refl))
    as (r & s' & E & _ & es & -> & Hd & _).
  pose proof (readonly_DequeSchedules before _ _ _ E) as ->.
  eapply (wp_at_shard shardId _ (ticked w) s (QPayload es) s); [exact Hs|unfold rpc; by rewrite E|].
  intros w' Hw'. by apply HQ.
Qed.

Lemma wp_fetch_loop before ticks shardId now rounds : forall w s,
  (1 <= ticks)%nat -> 0 <= before < two63 -> shard_core w shardId = Some s ->
  fetchable before ticks (qview s) -> pending (qview s) before < Z.of_nat rounds ->
  wp (fetch_loop rounds ticks shardId now before) w (ends before shardId (q_table (qview s))).
Proof.
  induction rounds as [|rounds IH]; intros w s H1 Hb Hs Hf Hp.
  { exfalso. pose proof (tally_nonneg (due before) (q_sched (qview s))). unfold pending in Hp. lia. }
  cbn [fetch_loop]. unfold or_fail. apply wp_bind. pose proof (fe_inv _ _ _ Hf) as Hv.
  eapply wp_deque; [done|done|done|apply Hf|]. intros es w1 Hs1 [D1 _ D3 _ D5].
  destruct es as [|e es].
  - apply wp_ret. split; [done|]. exists s. split; [done|]. split; [done|]. split; [done|]. intros _ t Ht Hd.
    destruct (D5 t Ht Hd) as [Hin|[Hl _]]; [by apply not_elem_of_nil in Hin|done].
  - apply wp_fetch_entries; [done|done|done| |done|].
    + rewrite Forall_fmap in D1. exact D1.
    + intros w' s' Hs' Hf' Hp' Eq. rewrite <-Eq. apply IH; [done|done|done|done|]. cbn [length] in Hp'. lia.
Qed.

(** C30: a run of the cron worker over a shard ends — one round per due schedule is enough —
    and when it ends without an error no schedule of the shard is due within the lookahead
    of a minute any more; the shard keeps its invariant and its queues. *)
Theorem fetch_leaves_nothing_due w shardId now rounds ticks s :
  let before := now + 60 * time_Second in
  shard_core w shardId = Some s -> qreachable s -> 0 <= before < two63 -> (1 <= ticks)%nat ->
  (forall t, has_schedule (qview s) t -> due before t -> alive (qview s) t) ->
  (forall t, has_schedule (qview s) t -> due before t ->
     ticks_between (Schedule.NextScheduledAt t) before <= Z.of_nat ticks) ->
  pending (qview s) before < Z.of_nat rounds ->
  ⟪ w ⟫ fetch rounds ticks shardId now ⟪ o, w' ⟫
    o <> OutOfFuel /\ exists s', shard_core w' shardId = Some s' /\ QInv (qview s') /\
      q_table (qview s') = q_table (qview s) /\
      (o = Done -> forall t, has_schedule (qview s') t -> ~ due before t).
Proof.
  intros before Hs Hr%QInv_reachable Hb H1 Ha Ht Hp. unfold fetch.
  rewrite i64_id by (unfold is_i64; fold before; lia). by apply wp_fetch_loop.
Qed.
End fetch.

(** ** Schedules of the collectors *)

Section schedules.
Context {W : Type} (I : W -> Prop).
Implicit Types (c d : M W unit) (l : list (M W unit)).

Definition preserves c : Prop := forall w w', I w -> c w = Ok (tt, w') -> I w'.
(** When [c] and then [d] return, the other order returns the same. *)
Definition swaps c d : Prop := forall w w', I w -> (c ;; d) w = Ok (tt, w') -> (d ;; c) w = Ok (tt, w').

Lemma then_Ok c (m : M W unit) w w' : (c ;; m) w = Ok (tt, w') <-> exists w1, c w = Ok (tt, w1) /\ m w1 = Ok (tt, w').
Proof.
  unfold mbind, M_bind. cbn. destruct (c w) as [[[] w1]|e]; split; try done.
  - intros Hm. by exists w1.
  - by intros (w2 & [= <-] & Hm).
  - by intros (w2 & [=] & _).
Qed.

Lemma run_calls_front c pre l w w' :
  preserves c -> Forall preserves pre -> Forall (fun d => swaps d c) pre -> I w ->
  run_calls (pre ++ c :: l) w = Ok (tt, w') -> run_calls (c :: pre ++ l) w = Ok (tt, w').
Proof.
  intros Hc Hpre Hsw. revert w. induction pre as [|d pre IH]; intros w Hw Hr; [done|].
  apply Forall_cons in Hpre as [Hd Hpre], Hsw as [Hs Hsw]. cbn [app run_calls fold_right] in Hr.
  apply then_Ok in Hr as (w1 & H1 & Hr). apply IH in Hr; [|done|done|by eapply Hd].
  cbn [run_calls fold_right] in Hr. apply then_Ok in Hr as (w2 & H2 & Hr).
  assert (H12 : (d ;; c) w = Ok (tt, w2)) by (apply then_Ok; eauto).
  apply Hs in H12 as (w3 & H3 & H4)%then_Ok; [|done].
  cbn [app run_calls fold_right]. apply then_Ok. exists w3. split; [done|]. apply then_Ok. by exists w2.
Qed.

(** Goroutines whose calls swap with each other's: every schedule does what running them one
    after the other does. *)
Lemma interleave_runs ss l :
  interleaves ss l -> Forall (Forall preserves) ss ->
  (forall i j s t, ss !! i = Some s -> ss !! j = Some t -> i <> j -> Forall (fun d => Forall (swaps d) t) s) ->
  forall w w', I w -> run_calls (concat ss) w = Ok (tt, w') -> run_calls l w = Ok (tt, w').
Proof.
  induction 1 as [ss Hss|ss i x xs l Hi _ IH]; intros Hp Hsw w w' Hw Hr.
  { assert (E : concat ss = []) by (clear -Hss; induction Hss as [|s ss -> _ IH]; [done|apply IH]). by rewrite E in Hr. }
  pose proof (Forall_lookup_1 _ _ _ _ Hp Hi) as [Hx Hxs]%Forall_cons.
  assert (Ess : concat ss = concat (take i ss) ++ x :: (xs ++ concat (drop (S i) ss))).
  { rewrite <-(take_drop_middle ss i _ Hi) at 1. by rewrite concat_app. }
  assert (Ess' : concat (<[i := xs]> ss) = concat (take i ss) ++ xs ++ concat (drop (S i) ss)).
  { rewrite (insert_take_drop ss i xs) by by eapply lookup_lt_Some. by rewrite concat_app. }
  rewrite Ess in Hr. apply run_calls_front in Hr; [|done| | |done].
  - cbn [run_calls fold_right] in Hr. apply then_Ok in Hr as (w1 & H1 & Hr).
    cbn [run_calls fold_right]. apply then_Ok. exists w1. split; [done|].
    apply IH; [by apply Forall_insert| |by eapply Hx|by rewrite Ess'].
    intros a b s t Ha Hb Hab.
    assert (Hsub : forall k u, <[i := xs]> ss !! k = Some u -> exists u', ss !! k = Some u' /\ u ⊆ u').
    { intros k u [(-> & <- & _)|[_ Hk]]%list_lookup_insert_Some; [|by exists u]. exists (x :: xs). split; [done|].
      by apply list_subseteq_cons. }
    destruct (Hsub a s Ha) as (s' & Hs' & Hss), (Hsub b t Hb) as (t' & Ht' & Htt).
    pose proof (Hsw a b s' t' Hs' Ht' Hab) as Hall. rewrite Forall_forall in Hall. apply Forall_forall. intros d Hd.
    pose proof (Hall d (Hss _ Hd)) as Ht. rewrite Forall_forall in Ht. apply Forall_forall. auto.
  - apply Forall_concat, Forall_take, Hp.
  - apply Forall_concat. apply Forall_lookup_2. intros j s Hj. apply lookup_take_Some in Hj as [Hj Hji].
    pose proof (Hsw j i s _ Hj Hi ltac:(lia)) as Hall. rewrite Forall_forall in Hall. apply Forall_forall. intros d Hd.
    apply (Forall_cons_1 _ _ _ (Hall d Hd)).
Qed.
End schedules.

(** Calls to the cores of different shards swap. *)
Section shard_calls.
Context {S A B : Type}.
Implicit Types (l : list (Adapter S)) (m : M S A).

(** The store after a call, or nothing when the call takes the process down. *)
Definition after_call m (s : S) : option S :=
  match rpc m s with
  | (Ok _, s') => Some s'
  | (Fail (ErrPanic _), _) => None
  | (Fail _, _) => Some s
  end.

Lemma findById_Some l sid i : findById l sid = Some i -> exists ad, l !! i = Some ad /\ shard_id ad = sid.
Proof.
  unfold findById. destruct (list_find _ l) as [[j ad]|] eqn:E; [|done]. intros [= <-].
  apply list_find_Some in E as (H1 & H2 & _). by exists ad.
Qed.

Lemma run_core_at l sid m (answer : A -> CallResult B) l' :
  (exists r, run_core l (findById l sid) m answer = Ok (r, l')) <->
  match findById l sid with
  | None => l' = l
  | Some i => exists ad s, l !! i = Some ad /\ after_call m (core ad) = Some s /\ l' = <[i := set_core s ad]> l
  end.
Proof.
  unfold run_core. destruct (findById l sid) as [i|] eqn:Ei; [|naive_solver].
  destruct (findById_Some _ _ _ Ei) as (ad & Hi & _). rewrite Hi.
  transitivity (exists s, after_call m (core ad) = Some s /\ l' = <[i := set_core s ad]> l).
  2: { split; [intros (s & Hs & ->); by exists ad, s|]. intros (ad' & s & Ea & Hs & ->). injection Ea as <-. by exists s. }
  assert (E : l = <[i := set_core (core ad) ad]> l) by (symmetry; apply list_insert_id; by rewrite Hi; destruct ad).
  unfold after_call. destruct (rpc m (core ad)) as [[a|e] s].
  - split; [intros (r & [= <- <-]); eauto|]. intros (s' & Es & ->). injection Es as <-. eauto.
  - destruct e; (split; [intros (r & Hr)|intros (s' & Es & ->)]); try done.
    all: try (injection Hr as <- <-; by exists (core ad)).
    all: injection Es as <-; rewrite <-E; eauto.
Qed.

Lemma run_core_swap l sid1 sid2 m1 m2 (answer : A -> CallResult B) r1 r2 l1 l2 :
  sid1 <> sid2 ->
  run_core l (findById l sid1) m1 answer = Ok (r1, l1) -> run_core l1 (findById l1 sid2) m2 answer = Ok (r2, l2) ->
  exists r r' l1', run_core l (findById l sid2) m2 answer = Ok (r, l1') /\
                   run_core l1' (findById l1' sid1) m1 answer = Ok (r', l2).
Proof.
  intros Hne H1 H2.
  assert (E1 := proj1 (run_core_at l sid1 m1 answer l1) (ex_intro _ _ H1)).
  assert (E2 := proj1 (run_core_at l1 sid2 m2 answer l2) (ex_intro _ _ H2)).
  cut (exists l1', (exists r, run_core l (findById l sid2) m2 answer = Ok (r, l1')) /\
                   (exists r, run_core l1' (findById l1' sid1) m1 answer = Ok (r, l2))); [naive_solver|].
  setoid_rewrite run_core_at.
  destruct (findById l sid1) as [i|] eqn:Ei.
  - destruct E1 as (ad & s & Hi & Hs & ->). rewrite (findById_insert l i ad s sid2 Hi) in E2.
    destruct (findById l sid2) as [j|] eqn:Ej.
    + destruct E2 as (ad' & s' & Hj & Hs' & ->).
      assert (Hij : i <> j).
      { intros ->. apply findById_Some in Ei as (x & Hx & Ex), Ej as (y & Hy & Ey). congruence. }
      rewrite list_lookup_insert_ne in Hj by done. exists (<[j := set_core s' ad']> l). split; [eauto|].
      rewrite (findById_insert l j ad' s' sid1 Hj), Ei. exists ad, s. rewrite list_lookup_insert_ne by done.
      split_and!; [done..|]. by apply list_insert_insert_ne.
    + subst l2. exists l. rewrite Ei. split; [done|]. by exists ad, s.
  - subst l1. exists l2. split; [done|]. destruct (findById l sid2) as [j|] eqn:Ej.
    + destruct E2 as (ad' & s' & Hj & _ & ->). by rewrite (findById_insert l j ad' s' sid1 Hj), Ei.
    + subst l2. by rewrite Ei.
Qed.
End shard_calls.

Section collectors.
Context {U : Utils} {H : Honey} {C : CronLib} {K : Keyspace} {QCa : QueuesCache}.
Implicit Types (w : GWorld) (t : Z).

(** All calls of the round read the same time. *)
Definition frozen t w : Prop := forall n, clock w n = t.

(** A collector's call to the core of a shard. *)
Definition tasks_call (sid : bytes) (m : Z -> M Txn (Response unit)) : M GWorld unit :=
  (now ← time_Now; at_tasks (fun l => findById l sid) (m now)) ;; mret tt.
Definition queues_call (sid : bytes) (m : Z -> M QTxn (QResponse unit)) : M GWorld unit :=
  (now ← time_Now; at_queues (fun l => findById l sid) (m now)) ;; mret tt.

Lemma tasks_call_Ok t sid m w w' : frozen t w ->
  tasks_call sid m w = Ok (tt, w') <->
  exists r l, run_core (moabTasksCores w) (findById (moabTasksCores w) sid) (m t) tasks_answer = Ok (r, l) /\
              w' = set_tasks l (ticked w).
Proof.
  intros Hf. unfold tasks_call, mbind, M_bind, time_Now, at_tasks. cbn. rewrite Hf.
  destruct (run_core _ _ _ _) as [[r l]|e]; cbn; [|naive_solver]. split.
  - intros [= <-]. by exists r, l.
  - by intros (r' & l' & [= <- <-] & ->).
Qed.
Lemma queues_call_Ok t sid m w w' : frozen t w ->
  queues_call sid m w = Ok (tt, w') <->
  exists r l, run_core (moabQueuesCores w) (findById (moabQueuesCores w) sid) (m t) queues_answer = Ok (r, l) /\
              w' = set_queues l (ticked w).
Proof.
  intros Hf. unfold queues_call, mbind, M_bind, time_Now, at_queues. cbn. rewrite Hf.
  destruct (run_core _ _ _ _) as [[r l]|e]; cbn; [|naive_solver]. split.
  - intros [= <-]. by exists r, l.
  - by intros (r' & l' & [= <- <-] & ->).
Qed.

Lemma tasks_call_preserves t sid m : preserves (frozen t) (tasks_call sid m).
Proof. intros w w' Hf (r & l & _ & ->)%(tasks_call_Ok t); [|done]. exact Hf. Qed.
Lemma queues_call_preserves t sid m : preserves (frozen t) (queues_call sid m).
Proof. intros w w' Hf (r & l & _ & ->)%(queues_call_Ok t); [|done]. exact Hf. Qed.

Lemma tasks_calls_swap t sid1 sid2 m1 m2 : sid1 <> sid2 ->
  swaps (frozen t) (tasks_call sid1 m1) (tasks_call sid2 m2).
Proof.
  intros Hne w w' Hf (w1 & H1 & H2)%then_Ok. apply then_Ok.
  pose proof (tasks_call_preserves t _ _ _ _ Hf H1) as Hf1.
  apply (tasks_call_Ok t) in H1 as (r1 & l1 & H1 & ->); [|done]. apply (tasks_call_Ok t) in H2 as (r2 & l2 & H2 & ->); [|done].
  destruct (run_core_swap _ sid1 sid2 _ _ _ _ _ _ _ Hne H1 H2) as (r & r' & l' & E1 & E2).
  exists (set_tasks l' (ticked w)). split; [apply (tasks_call_Ok t); eauto|]. apply (tasks_call_Ok t); [exact Hf|]. eauto.
Qed.
Lemma queues_calls_swap t sid1 sid2 m1 m2 : sid1 <> sid2 ->
  swaps (frozen t) (queues_call sid1 m1) (queues_call sid2 m2).
Proof.
  intros Hne w w' Hf (w1 & H1 & H2)%then_Ok. apply then_Ok.
  pose proof (queues_call_preserves t _ _ _ _ Hf H1) as Hf1.
  apply (queues_call_Ok t) in H1 as (r1 & l1 & H1 & ->); [|done]. apply (queues_call_Ok t) in H2 as (r2 & l2 & H2 & ->); [|done].
  destruct (run_core_swap _ sid1 sid2 _ _ _ _ _ _ _ Hne H1 H2) as (r & r' & l' & E1 & E2).
  exists (set_queues l' (ticked w)). split; [apply (queues_call_Ok t); eauto|]. apply (queues_call_Ok t); [exact Hf|]. eauto.
Qed.

Lemma tasks_gc_calls_eq sid : tasks_gc_calls sid =
  [ tasks_call sid (fun now => RunTasksGarbageCollection (RunTasksGarbageCollectionRequest.mk 1000 100) now);
    tasks_call sid (fun _ => RunPurgeQueueGarbageCollection (RunPurgeQueueGarbageCollectionRequest.mk 100 250 1000)) ].
Proof. reflexivity. Qed.
Lemma queues_gc_calls_eq sid : queues_gc_calls sid =
  [ queues_call sid (fun _ => RunQueuesGarbageCollection (RunQueuesGarbageCollectionRequest.mk 100 250 1000)) ].
Proof. reflexivity. Qed.

(** The handler runs the goroutines one after the other. *)
Lemma run_calls_app {W} (l l' : list (M W unit)) (w : W) : run_calls (l ++ l') w = (run_calls l ;; run_calls l') w.
Proof.
  revert w. induction l as [|c l IH]; intros w; [done|]. cbn [app run_calls fold_right] in *.
  unfold mbind, M_bind in *. destruct (c w) as [[[] w1]|e]; [apply IH|done].
Qed.

Lemma for_map_calls {W} (run : bytes -> M W unit) (calls : bytes -> list (M W unit)) ids :
  (forall sid x, run sid x = run_calls (calls sid) x) ->
  forall x, (for_map ids run ;; mret tt) x = run_calls (concat (calls <$> ids)) x.
Proof.
  intros Hrun. induction ids as [|sid ids IH]; intros w; [done|]. cbn [fmap list_fmap concat].
  rewrite run_calls_app. cbn [for_map]. unfold mbind, M_bind, mret, M_ret in *. rewrite Hrun.
  destruct (run_calls (calls sid) w) as [[[] w1]|e]; [|done]. rewrite <-IH.
  destruct (for_map ids run w1) as [[ys w2]|e]; done.
Qed.

(** Whatever the schedule, a round that runs through ends in the same world. *)
Definition any_schedule (app : bytes) (ids : list bytes) (calls : bytes -> list (M GWorld unit))
    (handler : M GWorld unit) w : Prop :=
  forall l w', interleaves (calls <$> ids) l -> handler w = Ok (tt, w') -> gc_round app l w = Ok (tt, w').

Lemma schedule_agrees t app ids calls run w :
  api_ListShards app w = Ok (inr ids, w) -> frozen t w -> NoDup ids ->
  (forall sid x, run sid x = run_calls (calls sid) x) ->
  (forall sid, Forall (preserves (frozen t)) (calls sid)) ->
  (forall sid1 sid2, sid1 <> sid2 -> Forall (fun d => Forall (swaps (frozen t) d) (calls sid2)) (calls sid1)) ->
  any_schedule app ids calls (gc_handler app run) w.
Proof.
  intros Hl Hf Hnd Hrun Hp Hsw l w' Hi Hh.
  assert (Hs : (for_map ids run ;; mret tt) (ticked w) = Ok (tt, w')).
  { unfold gc_handler, mbind, M_bind in Hh. rewrite Hl in Hh. exact Hh. }
  rewrite (for_map_calls run calls ids Hrun) in Hs. unfold gc_round, mbind, M_bind. rewrite Hl.
  change (run_calls l (ticked w) = Ok (tt, w')).
  revert Hs. apply (interleave_runs (frozen t) _ _ Hi); [|clear w' Hi Hh|exact Hf].
  - apply Forall_fmap, Forall_forall. intros sid _. apply Hp.
  - intros i j s s' Hs Hs' Hij. apply list_lookup_fmap_Some in Hs as (a & -> & Ha), Hs' as (b & -> & Hb).
    apply Hsw. intros ->. apply Hij. by eapply NoDup_lookup.
Qed.

(** C31: a round of either collection worker starts a goroutine per shard; whatever the order
    in which the goroutines make their calls, when the shards have different ids and the
    round sees one time, it ends in the world in which the shards are collected one after the
    other. *)
Theorem collectors_run_under_any_schedule t w :
  frozen t w -> NoDup (shard_id <$> moabTasksCores w) -> NoDup (shard_id <$> moabQueuesCores w) ->
  any_schedule MoabTasks (shard_id <$> moabTasksCores w) tasks_gc_calls tasks_gc_handler w /\
  any_schedule MoabQueues (shard_id <$> moabQueuesCores w) queues_gc_calls queues_gc_handler w.
Proof.
  intros Hf Ht Hq. split.
  - apply (schedule_agrees t); [done|done|done| | |].
    + intros sid w0. unfold tasks_runGarbageCollection, tasks_gc_calls, run_calls, mbind, M_bind, mret, M_ret. cbn [fold_right].
      by repeat (case_match; simplify_eq).
    + intros sid. rewrite tasks_gc_calls_eq. repeat constructor; apply tasks_call_preserves.
    + intros sid1 sid2 Hne. rewrite !tasks_gc_calls_eq. repeat constructor; by apply tasks_calls_swap.
  - apply (schedule_agrees t); [done|done|done| | |].
    + intros sid w0. unfold queues_runGarbageCollection, queues_gc_calls, run_calls, mbind, M_bind, mret, M_ret. cbn [fold_right].
      by repeat (case_match; simplify_eq).
    + intros sid. rewrite queues_gc_calls_eq. repeat constructor; apply queues_call_preserves.
    + intros sid1 sid2 Hne. rewrite !queues_gc_calls_eq. repeat constructor; by apply queues_calls_swap.
Qed.
End collectors.
