(* ===== verification/WorkersWitnesses.v ===== *)
(** * The workers on concrete runs

    A shard with two schedules that tick every second; two shards with tasks, collected at
    the same time. *)

From S2P Require Export WorkersProps GatewayExamples TasksExamples.

Module CronRun.
Definition shard : bytes := str "shard".
Definition now : Z := QRun.now1.
Definition before : Z := now + 60 * time_Second.

Definition w : GWorld := mkWorld [mkAdapter QRun.s3 shard 0 (2 ^ 32 - 1)]
  (new_adapters MoabTasks NewCore 1) GRun.clk 0 GRun.rnd 0 (∅ : Cache).

Lemma shard_w : shard_core w shard = Some QRun.s3.
Proof.
  unfold shard_core, w, findById. cbn [moabQueuesCores list_find shard_id].
  by rewrite decide_True by done.
Qed.

(** The rows of the shard that are due. *)
Definition due_list : list Schedule.t :=
  filter (QueuesGC.due before) (snd <$> map_to_list (q_sched (qview QRun.s3))).

Lemma in_due_list t : has_schedule (qview QRun.s3) t -> QueuesGC.due before t -> t ∈ due_list.
Proof.
  intros Ht Hd. apply list_elem_of_filter. split; [done|]. apply list_elem_of_fmap.
  exists (skey t, t). split; [done|]. by apply elem_of_map_to_list.
Qed.

(** A property of every due row, by evaluation. *)
Lemma due_check (P : Schedule.t -> Prop) `{forall t, Decision (P t)} :
  bool_decide (Forall P due_list) = true ->
  forall t, has_schedule (qview QRun.s3) t -> QueuesGC.due before t -> P t.
Proof.
  intros E%bool_decide_eq_true t Ht Hd. rewrite Forall_forall in E. by apply E, in_due_list.
Qed.

Definition hourly : Schedule.t := default (new_schedule (QRun.schedule_req 1 "hourly") 0 (ScheduleId.mk 0 0 0) 0)
  (q_sched (qview QRun.s3) !! schedule_key (ScheduleId.mk 7 3 1)).
Definition jobs : Queue.t := default (new_queue (QRun.create_req QRun.id1 "jobs") 0)
  (q_table (qview QRun.s3) !! queue_key QRun.id1).
End CronRun.
Import CronRun.

(** The ticks of the window, as the loop computes them. *)
Lemma hourly_ticks : exists ts next, tick_run hourly before (Schedule.NextScheduledAt hourly) ts next /\
  length (filter (wanted jobs hourly now) ts) = 61%nat.
Proof.
  pose proof (tick_loop_spec 70 jobs hourly now before [] (Schedule.NextScheduledAt hourly) 0
    ltac:(by_eval) ltac:(lia)) as Ht.
  destruct (tick_loop 70 jobs hourly now before [] (Schedule.NextScheduledAt hourly) 0)
    as [o|[[entries next] last]] eqn:E.
  - exfalso. apply (f_equal (fun r => match r with inl _ => true | inr _ => false end)) in E.
    revert E. vm_compute. discriminate.
  - destruct Ht as (ts & Hr & -> & _). exists ts, next. split; [exact Hr|].
    apply (f_equal (fun r => match r with inl _ => 0%nat | inr (es, _, _) => length es end)) in E.
    cbv beta iota in E. rewrite app_nil_l, length_fmap in E. rewrite <-E. vm_compute. reflexivity.
Qed.

Lemma cron_visit_sends_each_tick_witness : exists entries next last, length entries = 61%nat /\
  fetch_entry (W := GWorld) 70 shard now before (hourly, jobs) (mret Done) =
    or_fail (api_Enqueue (Wire.EnqueueRequest.mk (Some (Queue.Id jobs)) entries)) (fun _ =>
    or_fail (api_ReportSchedulesStatus (Wire.ReportSchedulesStatusRequest.mk
      (Some (Schedule.Id hourly)) next last) shard) (fun _ => mret Done)).
Proof.
  destruct hourly_ticks as (ts & next & Hr & Hlen). destruct (tick_run_det _ _ _ _ _ Hr) as [Hdet Hns].
  destruct (cron_visit_sends_each_tick (W := GWorld) 70 shard jobs hourly now before (mret Done)
    ltac:(by_eval) ltac:(lia) ltac:(by_eval)) as [(ts' & next' & Hr' & _ & _ & _ & E)|[Hs _]]; [|by destruct Hns].
  destruct (Hdet _ _ Hr') as [-> ->]. eexists _, _, _. split; [|exact E]. by rewrite length_fmap.
Defined.

Lemma fetch_leaves_nothing_due_witness :
  ⟪ w ⟫ fetch 3 70 shard now ⟪ o, w' ⟫ o <> OutOfFuel /\
    exists s', shard_core w' shard = Some s' /\
      (o = Done -> forall t, has_schedule (qview s') t -> ~ QueuesGC.due before t).
Proof.
  eapply wp_mono; [apply (fetch_leaves_nothing_due w shard now 3 70 QRun.s3)|].
  - exact shard_w.
  - apply QRun.qreachable_s3.
  - by_eval.
  - lia.
  - apply (due_check (alive (qview QRun.s3))). vm_compute. reflexivity.
  - apply (due_check (fun t => ticks_between (Schedule.NextScheduledAt t) before <= 70)). vm_compute. reflexivity.
  - by_eval.
  - intros o w' (Ho & s' & Hs & _ & _ & Hd). split; [exact Ho|]. exists s'. split; [exact Hs|exact Hd].
Defined.

Module CollectorRun.
Definition two_shards : GWorld := mkWorld (new_adapters MoabQueues QNewCore 1)
  [mkAdapter Run.s1 (str "a") 0 (2 ^ 31 - 1); mkAdapter Run.s2 (str "b") (2 ^ 31) (2 ^ 32 - 1)]
  (fun _ => Run.now2) 0 GRun.rnd 0 (∅ : Cache).

(** The goroutine of the second shard goes first and last. *)
Definition order : list (M GWorld unit) :=
  match tasks_gc_calls (str "a"), tasks_gc_calls (str "b") with
  | [a1; a2], [b1; b2] => [b1; a1; a2; b2]
  | _, _ => []
  end.

Lemma order_interleaves :
  interleaves (tasks_gc_calls <$> (shard_id <$> moabTasksCores two_shards)) order.
Proof.
  eapply (interleaves_step _ 1); [reflexivity|]. eapply (interleaves_step _ 0); [reflexivity|].
  eapply (interleaves_step _ 0); [reflexivity|]. eapply (interleaves_step _ 1); [reflexivity|].
  constructor. repeat constructor.
Qed.
End CollectorRun.
Import CollectorRun.

Lemma collectors_run_under_any_schedule_witness :
  exists w', tasks_gc_handler two_shards = Ok (tt, w') /\ gc_round MoabTasks order two_shards = Ok (tt, w').
Proof.
  destruct (collectors_run_under_any_schedule Run.now2 two_shards) as [Ht _].
  - intros n. reflexivity.
  - apply (bool_decide_unpack _). vm_compute. exact I.
  - apply (bool_decide_unpack _). vm_compute. exact I.
  - destruct (tasks_gc_handler two_shards) as [[[] w']|e] eqn:E.
    + exists w'. split; [reflexivity|]. exact (Ht order w' order_interleaves E).
    + exfalso. apply (f_equal (fun r => match r with Ok _ => true | Fail _ => false end)) in E.
      revert E. vm_compute. discriminate.
Defined.

Module WorkerFindings.
(** The [Enqueue] request the worker builds for a schedule that ticks every second. *)
Definition request : option Wire.EnqueueRequest.t :=
  match tick_loop 70 jobs hourly now before [] (Schedule.NextScheduledAt hourly) 0 with
  | inr (entries, _, _) => Some (Wire.EnqueueRequest.mk (Some (Queue.Id jobs)) entries)
  | inl _ => None
  end.

(** a schedule that ticks every second has 61 ticks in the lookahead of a minute; the
    request the worker builds for them exceeds the 50 entries the client's validation
    admits, and the worker returns before it reports the schedule. *)
Theorem per_second_schedule_exceeds_batch :
  (EnqueueRequest_Validate <$> request) =
    Some (Some "Entries exceeds max number of entries (50)"%string).
Proof. vm_compute. reflexivity. Qed.
End WorkerFindings.
