(* ===== verification/Snapshots.v ===== *)
(** * Snapshots ([Snapshot], [Restore], [Clear], [EachEntity], [RestoreEntity])

    A core writes the rows of its primary tables to a stream and restores the rows of such
    streams that belong to its shard, rebuilding every index.  The stream format and the
    driver are [yellowstone-common/honey], not part of the repository: [Snapshots] names the
    two functions the cores call and [SnapshotsOk] what the cores' comments say they do.  A
    streamed value is one of the core's row types; [UnmarshalBinary] of another is an
    error.  The shard bounds are a predicate on shard keys. *)

From S2P Require Export Sharding.

(** [honey.PortableTable], [honey.Section] and a stream *)
Record PortableTable (S V : Type) := mkPortableTable {
  EachEntity : S -> list (bytes * V);
  Clear : M S unit;
  RestoreEntity : (Z -> bool) -> bytes -> V -> M S bool;
}.
Arguments mkPortableTable {S V} _ _ _.
Arguments EachEntity {S V} _ _.
Arguments Clear {S V} _.
Arguments RestoreEntity {S V} _ _ _ _.

Record Section_ (S V : Type) := mkSection { Name : bytes; Table : PortableTable S V }.
Arguments mkSection {S V} _ _.
Arguments Name {S V} _.
Arguments Table {S V} _.

Definition Stream (V : Type) : Type := list (bytes * list (bytes * V)).

Class Snapshots : Type := {
  NewSnapshot : forall {S V}, S -> bytes -> list (Section_ S V) -> Stream V;
  RestoreSnapshot : forall {S V}, list (Section_ S V) -> (Z -> bool) -> list (Stream V) -> M S unit;
}.

Section streams.
Context {S V : Type}.

Definition find_section (sections : list (Section_ S V)) (name : bytes) : option (Section_ S V) :=
  snd <$> list_find (fun s => Name s = name) sections.

(** The entities of one section, through the section's own table. *)
Definition restore_section (sections : list (Section_ S V)) (owns : Z -> bool)
    (part : bytes * list (bytes * V)) : M S unit :=
  match find_section sections part.1 with
  | None => fail ErrUnknownSection
  | Some s => for_each part.2 (fun e => RestoreEntity (Table s) owns e.1 e.2 ;; mret tt)
  end.
End streams.

(** "a consistent, portable snapshot of this core's primary entities"; "replaces this core's
    state with the union of the entities from the given streams that belong to this core's
    shard bounds, inserting them through the tables' own methods", section by section. *)
Class SnapshotsOk (Sn : Snapshots) : Prop := {
  NewSnapshot_spec {S V} (s : S) (app : bytes) (sections : list (Section_ S V)) :
    NewSnapshot s app sections = (fun sec => (Name sec, EachEntity (Table sec) s)) <$> sections;
  RestoreSnapshot_spec {S V} (sections : list (Section_ S V)) owns streams :
    RestoreSnapshot sections owns streams =
      (for_each sections (fun sec => Clear (Table sec)) ;;
       for_each streams (fun st => for_each st (restore_section sections owns)));
}.

Definition snapshots_ref : Snapshots := {|
  NewSnapshot S V s app sections := (fun sec => (Name sec, EachEntity (Table sec) s)) <$> sections;
  RestoreSnapshot S V sections owns streams :=
    for_each sections (fun sec => Clear (Table sec)) ;;
    for_each streams (fun st => for_each st (restore_section sections owns));
|}.
#[export] Instance snapshots_ref_ok : SnapshotsOk snapshots_ref.
Proof. by split. Qed.

(** A decoded entity is inserted if it is owned. *)
Definition if_owned {S} (owned : bool) (m : M S unit) : M S bool :=
  if owned then m ;; mret true else mret false.

(** [value.UnmarshalBinary] *)
Definition unmarshal {S A} (value : option A) : M S A :=
  match value with Some a => mret a | None => fail ErrUnmarshal end.

(** ** The queues core *)

Inductive QEntity : Type :=
  | EQueue (queue : Queue.t)
  | ESchedule (schedule : Schedule.t)
  | EQueuesCounter (counter : QueuesCounter.t)
  | EGCRecord (record : QueuesGarbageCollectionRecord.t).

Section queues_snapshot.
Context {U : Utils} {H : Honey} {K : Keyspace} {Sn : Snapshots}.
#[local] Notation T := (M QTxn).

Definition queues_Clear : T unit :=
  modify (upd_queues (fun _ => mkQueuesTable (bt_new _) (bt_new _))).
Definition queues_EachEntity (s : QTxn) : list (bytes * QEntity) :=
  (fun e => (e.1, EQueue e.2)) <$> bt_EachEntry (queues_table (queues s)).
Definition queues_RestoreEntity (owns : Z -> bool) (key : bytes) (value : QEntity) : T bool :=
  queue ← unmarshal (match value with EQueue q => Some q | _ => None end);
  if_owned (owns (ByAccount (QueueId.AccountId (Queue.Id queue)))) (queues_Create queue).

Definition schedules_Clear : T unit :=
  modify (upd_schedules (fun _ => mkSchedulesTable (bt_new _) (bt_new _) si_new)).
Definition schedules_EachEntity (s : QTxn) : list (bytes * QEntity) :=
  (fun e => (e.1, ESchedule e.2)) <$> bt_EachEntry (schedules_table (schedules s)).
Definition schedules_RestoreEntity (owns : Z -> bool) (key : bytes) (value : QEntity) : T bool :=
  schedule ← unmarshal (match value with ESchedule s => Some s | _ => None end);
  if_owned (owns (ByAccount (ScheduleId.AccountId (Schedule.Id schedule)))) (schedules_Create schedule).

(** The identity of a counter is its key: an 8-byte account id. *)
Definition qcounters_Clear : T unit := modify (upd_qcounters (fun _ => bt_new _)).
Definition qcounters_EachEntity (s : QTxn) : list (bytes * QEntity) :=
  (fun e => (e.1, EQueuesCounter e.2)) <$> bt_EachEntry (qcounters s).
Definition qcounters_RestoreEntity (owns : Z -> bool) (key : bytes) (value : QEntity) : T bool :=
  if negb (length key =? 8)%nat then fail ErrBadKeyLength
  else
    let accountId := BytesToUint64 (take 8 key) in
    if negb (owns (ByAccount accountId)) then mret false
    else
      counter ← unmarshal (match value with EQueuesCounter c => Some c | _ => None end);
      qcounters_Set accountId counter ;; mret true.

Definition gcRecords_Clear : T unit := modify (upd_gcRecords (fun _ => bt_new _)).
Definition gcRecords_EachEntity (s : QTxn) : list (bytes * QEntity) :=
  (fun e => (e.1, EGCRecord e.2)) <$> bt_EachEntry (gcRecords s).
Definition gcRecords_RestoreEntity (owns : Z -> bool) (key : bytes) (value : QEntity) : T bool :=
  record ← unmarshal (match value with EGCRecord r => Some r | _ => None end);
  if_owned (owns (ByAccount (QueueId.AccountId (QueuesGarbageCollectionRecord.QueueId record))))
    (gcRecords_Create record).

Definition queues_snapshotSections : list (Section_ QTxn QEntity) :=
  [ mkSection (str "Queues") (mkPortableTable queues_EachEntity queues_Clear queues_RestoreEntity);
    mkSection (str "Schedules")
      (mkPortableTable schedules_EachEntity schedules_Clear schedules_RestoreEntity);
    mkSection (str "Counters")
      (mkPortableTable qcounters_EachEntity qcounters_Clear qcounters_RestoreEntity);
    mkSection (str "GCRecords")
      (mkPortableTable gcRecords_EachEntity gcRecords_Clear gcRecords_RestoreEntity) ].

Definition queues_Snapshot (s : QTxn) : Stream QEntity := NewSnapshot s (str "MoabQueues") queues_snapshotSections.
Definition queues_Restore (owns : Z -> bool) (readers : list (Stream QEntity)) : T unit :=
  RestoreSnapshot queues_snapshotSections owns readers.
End queues_snapshot.

(** ** The tasks core *)

Inductive TEntity : Type :=
  | EThread (thread : Thread.t)
  | ETask (task : Task.t)
  | ETasksCounter (counter : TasksCounter.t)
  | EQueueState (state : QueueState.t)
  | ERateLimiter (state : RateLimiterState.t)
  | EPurgeRecord (record : PurgeQueueGarbageCollectionRecord.t).

Section tasks_snapshot.
Context {U : Utils} {H : Honey} {K : Keyspace} {Sn : Snapshots}.
#[local] Notation T := (M Txn).

Definition threads_Clear : T unit := modify (upd_threads (fun _ => newThreadsTable)).
Definition threads_EachEntity (s : Txn) : list (bytes * TEntity) :=
  (fun e => (e.1, EThread e.2)) <$> bt_EachEntry (threads_table (threads s)).
Definition threads_RestoreEntity (owns : Z -> bool) (key : bytes) (value : TEntity) : T bool :=
  thread ← unmarshal (match value with EThread t => Some t | _ => None end);
  let head := Thread.HeadTaskId thread in
  if_owned (owns (ByAccountAndQueue (TaskId.AccountId head) (TaskId.QueueId head)))
    (threads_set (TaskId.AccountId head) (TaskId.QueueId head) thread).

Definition tasks_Clear : T unit := modify (upd_tasks (fun _ => newTasksTable)).
Definition tasks_EachEntity (s : Txn) : list (bytes * TEntity) :=
  (fun e => (e.1, ETask e.2)) <$> bt_EachEntry (table (tasks s)).

(** [taskRestorer]: a threaded task joins its thread's index, and only a head is queued. *)
Definition taskRestorer_RestoreEntity (owns : Z -> bool) (key : bytes) (value : TEntity) : T bool :=
  task ← unmarshal (match value with ETask t => Some t | _ => None end);
  let id := Task.Id task in
  let a := TaskId.AccountId id in let q := TaskId.QueueId id in
  if negb (owns (ByAccountAndQueue a q)) then mret false
  else
    isHead ←
      (if bool_decide (Task.ThreadId task = []) then mret true
       else
         threads_AddToIndex a q (Task.ThreadId task) (Task.ScheduledAt task) (TaskId.TaskId id) ;;
         thread ← threads_Get a q (Task.ThreadId task);
         mret (TaskId.TaskId (Thread.HeadTaskId thread) =? TaskId.TaskId id));
    restoreIndexes task isHead ;;
    mret true.

(** Counters, cursors and buckets are keyed by 16 bytes: account id and queue id. *)
Definition restore_by_key {A} (decode : TEntity -> option A) (set : Z -> Z -> A -> T unit)
    (owns : Z -> bool) (key : bytes) (value : TEntity) : T bool :=
  if negb (length key =? 16)%nat then fail ErrBadKeyLength
  else
    let accountId := BytesToUint64 (take 8 key) in
    let queueId := BytesToUint64 (take 8 (drop 8 key)) in
    if negb (owns (ByAccountAndQueue accountId queueId)) then mret false
    else
      row ← unmarshal (decode value);
      set accountId queueId row ;; mret true.

Definition counters_Clear : T unit := modify (upd_counters (fun _ => bt_new _)).
Definition counters_EachEntity (s : Txn) : list (bytes * TEntity) :=
  (fun e => (e.1, ETasksCounter e.2)) <$> bt_EachEntry (counters s).
Definition counters_RestoreEntity : (Z -> bool) -> bytes -> TEntity -> T bool :=
  restore_by_key (fun v => match v with ETasksCounter c => Some c | _ => None end) counters_Set.

Definition queueState_Clear : T unit := modify (upd_queueState (fun _ => bt_new _)).
Definition queueState_EachEntity (s : Txn) : list (bytes * TEntity) :=
  (fun e => (e.1, EQueueState e.2)) <$> bt_EachEntry (queueState s).
Definition queueState_RestoreEntity : (Z -> bool) -> bytes -> TEntity -> T bool :=
  restore_by_key (fun v => match v with EQueueState c => Some c | _ => None end) queueState_Set.

Definition rateLimiters_Clear : T unit := modify (upd_rateLimiters (fun _ => bt_new _)).
Definition rateLimiters_EachEntity (s : Txn) : list (bytes * TEntity) :=
  (fun e => (e.1, ERateLimiter e.2)) <$> bt_EachEntry (rateLimiters s).
Definition rateLimiters_RestoreEntity : (Z -> bool) -> bytes -> TEntity -> T bool :=
  restore_by_key (fun v => match v with ERateLimiter c => Some c | _ => None end) rateLimiters_Set.

Definition purgeGCRecords_Clear : T unit := modify (upd_purgeGCRecords (fun _ => bt_new _)).
Definition purgeGCRecords_EachEntity (s : Txn) : list (bytes * TEntity) :=
  (fun e => (e.1, EPurgeRecord e.2)) <$> bt_EachEntry (purgeGCRecords s).
Definition purgeGCRecords_RestoreEntity (owns : Z -> bool) (key : bytes) (value : TEntity) : T bool :=
  record ← unmarshal (match value with EPurgeRecord r => Some r | _ => None end);
  let id := PurgeQueueGarbageCollectionRecord.QueueId record in
  if_owned (owns (ByAccountAndQueue (QueueId.AccountId id) (QueueId.QueueId id)))
    (purgeGCRecords_Create record).

(** Threads before tasks: a task's place in the queue index depends on its thread's head. *)
Definition tasks_snapshotSections : list (Section_ Txn TEntity) :=
  [ mkSection (str "Threads") (mkPortableTable threads_EachEntity threads_Clear threads_RestoreEntity);
    mkSection (str "Tasks") (mkPortableTable tasks_EachEntity tasks_Clear taskRestorer_RestoreEntity);
    mkSection (str "Counters") (mkPortableTable counters_EachEntity counters_Clear counters_RestoreEntity);
    mkSection (str "QueueState")
      (mkPortableTable queueState_EachEntity queueState_Clear queueState_RestoreEntity);
    mkSection (str "RateLimiters")
      (mkPortableTable rateLimiters_EachEntity rateLimiters_Clear rateLimiters_RestoreEntity);
    mkSection (str "PurgeGCRecords")
      (mkPortableTable purgeGCRecords_EachEntity purgeGCRecords_Clear purgeGCRecords_RestoreEntity) ].

Definition tasks_Snapshot (s : Txn) : Stream TEntity := NewSnapshot s (str "MoabTasks") tasks_snapshotSections.
Definition tasks_Restore (owns : Z -> bool) (readers : list (Stream TEntity)) : T unit :=
  RestoreSnapshot tasks_snapshotSections owns readers.
End tasks_snapshot.
