(* ===== verification/QueuesSnapshot.v ===== *)
(** * Restoring a queues core

    A queues core restored from a snapshot holds exactly the rows of the accounts it owns,
    with every index rebuilt. *)

From S2P Require Export Snapshots QueuesSystem.

(** ** Rebuilding a table and its indexes from a stream *)

Section rebuild.
Context {T : Type} (wf : T -> Prop) (key : T -> bytes).
Context (src : gmap bytes T) (Hsrc : keyed wf key src).
Implicit Types (l : list (bytes * T)).

Definition rows l : gmap bytes T := fold_left (fun m e => <[key e.2 := e.2]> m) l ∅.

Definition from_src l : Prop := NoDup l.*1 /\ forall k x, (k, x) ∈ l -> src !! k = Some x.

Lemma from_src_snoc l k x :
  from_src (l ++ [(k, x)]) -> from_src l /\ stores key src x /\ k = key x /\ wf x /\ x ∉ l.*2.
Proof.
  intros [Hnd Hl]. rewrite fmap_app in Hnd. apply NoDup_app in Hnd as (Hnd & Hdis & _).
  assert (Hx : src !! k = Some x) by (apply Hl, elem_of_app; right; by apply list_elem_of_singleton).
  destruct (Hsrc _ _ Hx) as [-> Hw]. split; [|split_and!; try done].
  - split; [done|]. intros k' x' Hin. apply Hl, elem_of_app. by left.
  - intros ([k' x'] & -> & Hin)%list_elem_of_fmap. cbn in *.
    apply (Hdis (key x')); [|by apply list_elem_of_singleton].
    assert (src !! k' = Some x') as [-> _]%Hsrc by (apply Hl, elem_of_app; by left).
    by apply list_elem_of_fmap_2' with (x := (key x', x')).
Qed.

Lemma rows_spec l :
  from_src l -> keyed wf key (rows l) /\ forall x, stores key (rows l) x <-> x ∈ l.*2.
Proof.
  induction l as [|[k x] l IH] using rev_ind; intros Hl.
  { split; [apply keyed_empty|]. intros x. unfold stores. cbn. rewrite lookup_empty. set_solver. }
  apply from_src_snoc in Hl as (Hl & Hx & -> & Hw & Hni). destruct (IH Hl) as [H1 H2].
  unfold rows in *. rewrite fold_left_app. cbn. split; [by apply keyed_insert|]. intros y.
  rewrite stores_insert, H2, fmap_app, elem_of_app. cbn. rewrite list_elem_of_singleton. split.
  - intros [->|[? _]]; auto.
  - intros [Hy|Ey]; [|by left]. right. split; [done|]. intros E. apply Hni.
    assert (x = y) as ->; [|done]. apply list_elem_of_fmap in Hy as ([k' y'] & -> & Hy). cbn in *.
    apply Hl in Hy. destruct (Hsrc _ _ Hy) as [-> _]. unfold stores in Hx. congruence.
Qed.

Lemma rows_absent l k x : from_src (l ++ [(k, x)]) -> rows l !! key x = None.
Proof.
  intros Hl. apply from_src_snoc in Hl as (Hl & Hx & _ & _ & Hni). destruct (rows_spec l Hl) as [H1 H2].
  destruct (rows l !! key x) as [y|] eqn:E; [|done]. destruct (H1 _ _ E) as [Ek _]. rewrite Ek in E.
  apply H2 in E as Hy. destruct Hni. assert (x = y) as ->; [|done].
  apply list_elem_of_fmap in Hy as ([k' y'] & -> & Hy). cbn in *. apply Hl in Hy.
  destruct (Hsrc _ _ Hy) as [-> _]. unfold stores in Hx. congruence.
Qed.

Section names.
Context (name : T -> bytes) (num : T -> Z).
Hypothesis name_num_key : forall x y, wf x -> wf y -> name x = name y -> num x = num y -> key x = key y.

Definition names_of l : gmap bytes Z := fold_left (fun m e => <[name e.2 := num e.2]> m) l ∅.

Lemma names_spec l N : from_src l -> named key name num src N -> named key name num (rows l) (names_of l).
Proof.
  induction l as [|[k x] l IH] using rev_ind; intros Hl HN; [apply named_empty|].
  pose proof (rows_absent _ _ _ Hl) as Hn. pose proof (from_src_snoc _ _ _ Hl) as (Hl' & Hx & -> & Hw & Hni).
  unfold rows, names_of in *. rewrite !fold_left_app. cbn. apply named_insert; [by apply IH|done|].
  destruct (fold_left _ l ∅ !! name x) as [n|] eqn:E; [|done].
  apply (IH Hl' HN) in E as (y & Hy & E & _). apply rows_spec in Hy; [|done]. destruct Hni.
  assert (y = x) as <-; [|done]. apply (named_unique wf key name num name_num_key src N); try done.
  apply list_elem_of_fmap in Hy as ([k' y'] & -> & Hy). cbn in *. apply Hl' in Hy.
  by destruct (Hsrc _ _ Hy) as [-> _].
Qed.

End names.

Section items.
Context (item : T -> bytes).

Definition items_of l : gset bytes := fold_left (fun D e => {[item e.2]} ∪ D) l ∅.

Lemma items_spec l : from_src l -> listed key item (rows l) (items_of l).
Proof.
  induction l as [|[k x] l IH] using rev_ind; intros Hl; [apply listed_empty|].
  pose proof (rows_absent _ _ _ Hl) as Hn. pose proof (from_src_snoc _ _ _ Hl) as (Hl' & _).
  unfold rows, items_of in *. rewrite !fold_left_app. cbn. apply listed_insert; [by apply IH|done].
Qed.

End items.

(** The stream of a table, cut down to the rows that satisfy [P]. *)
Context {H : Honey} {HO : HoneyOk H}.

Lemma from_src_stream (t : BinaryTable T) (P : T -> Prop) `{!forall x, Decision (P x)} :
  bt_den t = src -> from_src (filter (fun e => P e.2) (bt_EachEntry t)).
Proof.
  intros Et. split.
  - pose proof (StronglySorted_NoDup blt _ (bt_EachEntry_sorted t)) as Hnd.
    induction (bt_EachEntry t) as [|e l IH]; [constructor|]. cbn in Hnd. apply NoDup_cons in Hnd as [Hn Hnd].
    rewrite filter_cons. case_decide; [|by apply IH]. cbn. apply NoDup_cons. split; [|by apply IH].
    intros (e' & E & [_ Hin]%list_elem_of_filter)%list_elem_of_fmap. apply Hn. rewrite E. by apply list_elem_of_fmap_2.
  - intros k x [_ Hin]%list_elem_of_filter. apply bt_EachEntry_spec in Hin. by rewrite <-Et.
Qed.

Lemma rows_stream (t : BinaryTable T) (P : T -> Prop) `{!forall x, Decision (P x)} :
  bt_den t = src -> rows (filter (fun e => P e.2) (bt_EachEntry t)) = filter (fun kx => P kx.2) src.
Proof.
  intros Et. destruct (rows_spec _ (from_src_stream t P Et)) as [H1 H2].
  apply (keyed_ext wf key); [done| |].
  - intros k x [Hx _]%map_lookup_filter_Some. by apply Hsrc.
  - intros x. rewrite H2. unfold stores. rewrite map_lookup_filter_Some, list_elem_of_fmap. split.
    + intros ([k y] & -> & [Hp Hy]%list_elem_of_filter). apply bt_EachEntry_spec in Hy. rewrite Et in Hy.
      by destruct (Hsrc _ _ Hy) as [-> _].
    + intros [Hx Hp]. exists (key x, x). split; [done|]. apply list_elem_of_filter. split; [done|].
      apply bt_EachEntry_spec. by rewrite Et.
Qed.
End rebuild.

(** Rows stored under the key they were streamed with. *)
Section entries.
Context {T : Type} {H : Honey} {HO : HoneyOk H}.
Implicit Types l : list (bytes * T).

Definition entries l : gmap bytes T := fold_left (fun m e => <[e.1 := e.2]> m) l ∅.

Lemma entries_spec l k x : NoDup l.*1 -> entries l !! k = Some x <-> (k, x) ∈ l.
Proof.
  induction l as [|[k' x'] l IH] using rev_ind; intros Hnd.
  { unfold entries. cbn. rewrite lookup_empty. set_solver. }
  rewrite fmap_app in Hnd. apply NoDup_app in Hnd as (Hnd & Hdis & _). specialize (IH Hnd).
  unfold entries in *. rewrite fold_left_app. cbn. rewrite lookup_insert_Some, IH, elem_of_app, list_elem_of_singleton.
  split.
  - intros [[-> ->]|[_ Hl]]; [by right|by left].
  - intros [Hl|E]; [right|left; by injection E as -> ->]. split; [|done]. intros ->.
    apply (Hdis k); [by apply (list_elem_of_fmap_2' fst l (k, x))|by apply list_elem_of_singleton].
Qed.

Lemma entries_stream (t : BinaryTable T) (P : bytes * T -> Prop) `{!forall e, Decision (P e)} :
  entries (filter P (bt_EachEntry t)) = filter P (bt_den t).
Proof.
  apply map_eq. intros k. apply option_eq. intros x. rewrite entries_spec.
  - by rewrite list_elem_of_filter, map_lookup_filter_Some, bt_EachEntry_spec, (and_comm (P _)).
  - pose proof (StronglySorted_NoDup blt _ (bt_EachEntry_sorted t)) as Hnd.
    induction (bt_EachEntry t) as [|e l IH]; [constructor|]. cbn in Hnd. apply NoDup_cons in Hnd as [Hn Hnd].
    rewrite filter_cons. case_decide; [|by apply IH]. cbn. apply NoDup_cons. split; [|by apply IH].
    intros (e' & E & [_ Hin]%list_elem_of_filter)%list_elem_of_fmap. apply Hn. rewrite E. by apply list_elem_of_fmap_2.
Qed.
End entries.

(** ** One section of a stream, for any core

    Total correctness seen through the contents [view] of a store; [wpq] and [wpv] are its
    instances. *)

Section at_view.
Context {S V T E : Type} (view : S -> V) (inj : T -> E) (restore : bytes -> E -> M S bool).
Context (P : bytes * T -> Prop) `{!forall e, Decision (P e)}.

Definition wp_at {A} (m : M S A) (v : V) (Q : A -> V -> Prop) : Prop :=
  forall s, view s = v -> wp m s (fun a s' => Q a (view s')).

(** Every entity is put, or skipped if it is not owned. *)
Lemma wp_at_restore_section (l : list (bytes * T)) (upd : list (bytes * T) -> V) :
  (forall before e, e ∈ l -> P e ->
     wp_at (restore e.1 (inj e.2)) (upd before) (fun _ v' => v' = upd (before ++ [e]))) ->
  (forall v e, e ∈ l -> ~ P e -> wp_at (restore e.1 (inj e.2)) v (fun _ v' => v' = v)) ->
  wp_at (for_each ((fun e => (e.1, inj e.2)) <$> l) (fun e => restore e.1 e.2 ;; mret tt)) (upd [])
    (fun _ v' => v' = upd (filter P l)).
Proof.
  intros Hput Hskip s0 Hs0.
  apply (wp_for_each _ (fun todo s => exists before rest, l = before ++ rest /\
    todo = (fun e => (e.1, inj e.2)) <$> rest /\ view s = upd (filter P before))).
  - by exists [], l.
  - intros e todo s (before & rest & El & Et & Ev). destruct rest as [|[k x] rest]; [done|].
    cbn in Et. injection Et as -> ->. cbn [fst snd]. apply wp_bind.
    assert (Hin : (k, x) ∈ l) by (rewrite El; apply elem_of_app; right; left).
    assert (Enext : l = (before ++ [(k, x)]) ++ rest) by (by rewrite <-app_assoc).
    destruct (decide (P (k, x))) as [Hp|Hp].
    + eapply wp_mono; [exact (Hput (filter P before) (k, x) Hin Hp s Ev)|]. intros r s' Es. apply wp_ret.
      exists (before ++ [(k, x)]), rest. split_and!; [done|done|].
      by rewrite Es, filter_app, filter_cons_True, filter_nil.
    + eapply wp_mono; [exact (Hskip (upd (filter P before)) (k, x) Hin Hp s Ev)|]. intros r s' Es. apply wp_ret.
      exists (before ++ [(k, x)]), rest. split_and!; [done|done|].
      by rewrite Es, filter_app, filter_cons_False, filter_nil, app_nil_r.
  - intros s (before & rest & -> & Et & Ev). destruct rest; [|done]. by rewrite app_nil_r.
Qed.
End at_view.

(** ** The run of [Restore] *)

Section restore.
Context {U : Utils} {H : Honey} {K : Keyspace} {Sn : Snapshots}.
Context {UO : UtilsOk U} {HO : HoneyOk H} {SO : SnapshotsOk Sn}.
Context (owns : Z -> bool).
Implicit Types (v : QView).

(** What the core owns, row by row. *)
Definition owned_account (a : Z) : Prop := owns (ByAccount a) = true.
Definition owned_queue (x : Queue.t) : Prop := owned_account (QueueId.AccountId (Queue.Id x)).
Definition owned_schedule (s : Schedule.t) : Prop := owned_account (ScheduleId.AccountId (Schedule.Id s)).
Definition owned_record (r : QueuesGarbageCollectionRecord.t) : Prop :=
  owned_account (QueueId.AccountId (QueuesGarbageCollectionRecord.QueueId r)).
Definition owned_counter (e : bytes * QueuesCounter.t) : Prop :=
  owned_account (BytesToUint64 (take 8 e.1)).

#[export] Instance owned_account_dec a : Decision (owned_account a).
Proof. unfold owned_account. apply _. Defined.
#[export] Instance owned_queue_dec x : Decision (owned_queue x).
Proof. apply owned_account_dec. Defined.
#[export] Instance owned_schedule_dec s : Decision (owned_schedule s).
Proof. apply owned_account_dec. Defined.
#[export] Instance owned_record_dec r : Decision (owned_record r).
Proof. apply owned_account_dec. Defined.
#[export] Instance owned_counter_dec e : Decision (owned_counter e).
Proof. apply owned_account_dec. Defined.

(** One section of the queues core. *)
Lemma wpq_restore_section {T} (inj : T -> QEntity) (restore : bytes -> QEntity -> M QTxn bool)
    (P : bytes * T -> Prop) `{!forall e, Decision (P e)} (l : list (bytes * T)) (upd : list (bytes * T) -> QView) :
  (forall before e, e ∈ l -> P e ->
     wpq (restore e.1 (inj e.2)) (upd before) (fun _ v' => v' = upd (before ++ [e]))) ->
  (forall v e, e ∈ l -> ~ P e -> wpq (restore e.1 (inj e.2)) v (fun _ v' => v' = v)) ->
  wpq (for_each ((fun e => (e.1, inj e.2)) <$> l) (fun e => restore e.1 e.2 ;; mret tt)) (upd [])
    (fun _ v' => v' = upd (filter P l)).
Proof. apply (wp_at_restore_section qview). Qed.

Definition with_queues (l : list (bytes * Queue.t)) v : QView :=
  set_q_table (rows row_key l) (set_q_names (names_of queue_name_key row_num l) v).
Definition with_schedules (l : list (bytes * Schedule.t)) v : QView :=
  set_q_sched (rows skey l) (set_q_snames (names_of schedule_name_key snum l)
    (set_q_due (items_of schedule_due_key l) v)).

Definition with_counters (l : list (bytes * QueuesCounter.t)) v : QView := set_q_cnt (entries l) v.
Definition with_records (l : list (bytes * QueuesGarbageCollectionRecord.t)) v : QView :=
  set_q_gc (rows gc_key l) v.

Lemma wpq_unmarshal {A} (a : A) v (Q : A -> QView -> Prop) : Q a v -> wpq (unmarshal (Some a)) v Q.
Proof. apply wpq_ret. Qed.
Lemma wpq_if_owned (b : bool) (m : M QTxn unit) v (Q : bool -> QView -> Prop) :
  (b = true -> wpq m v (fun _ v' => Q true v')) -> (b = false -> Q false v) -> wpq (if_owned b m) v Q.
Proof.
  destruct b; intros Hm Hq; [|by apply wpq_ret, Hq]. apply wpq_bind.
  eapply wpq_mono; [by apply Hm|]. intros ? v' HQ. by apply wpq_ret.
Qed.

(** The run of one entity whose row says whether it is owned. *)
#[local] Ltac restored Hp :=
  unfold owned_queue, owned_schedule, owned_record, owned_account in Hp; cbn [fst snd] in *;
  apply wpq_bind, wpq_unmarshal, wpq_if_owned; intros Eo; try done; try congruence.

Lemma wpq_restore_queues l v :
  q_table v = ∅ -> q_names v = ∅ ->
  wpq (for_each ((fun e => (e.1, EQueue e.2)) <$> l) (fun e => queues_RestoreEntity owns e.1 e.2 ;; mret tt)) v
    (fun _ v' => v' = with_queues (filter (fun e => owned_queue e.2) l) v).
Proof.
  intros E1 E2. assert (Ev : v = with_queues [] v) by (destruct v; cbn in *; by subst).
  rewrite Ev at 1. apply (wpq_restore_section EQueue (queues_RestoreEntity owns) _ l (fun l => with_queues l v)).
  - intros before [k x] _ Hp. unfold queues_RestoreEntity. restored Hp.
    unfold queues_Create. qsteps. unfold with_queues, rows, names_of. by rewrite !fold_left_app.
  - intros v' [k x] _ Hp. unfold queues_RestoreEntity. restored Hp.
Qed.

Lemma wpq_restore_schedules l v :
  q_sched v = ∅ -> q_snames v = ∅ -> q_due v = ∅ ->
  wpq (for_each ((fun e => (e.1, ESchedule e.2)) <$> l)
         (fun e => schedules_RestoreEntity owns e.1 e.2 ;; mret tt)) v
    (fun _ v' => v' = with_schedules (filter (fun e => owned_schedule e.2) l) v).
Proof.
  intros E1 E2 E3. assert (Ev : v = with_schedules [] v) by (destruct v; cbn in *; by subst).
  rewrite Ev at 1.
  apply (wpq_restore_section ESchedule (schedules_RestoreEntity owns) _ l (fun l => with_schedules l v)).
  - intros before [k x] _ Hp. unfold schedules_RestoreEntity. restored Hp.
    unfold schedules_Create. qsteps. unfold with_schedules, rows, names_of, items_of. by rewrite !fold_left_app.
  - intros v' [k x] _ Hp. unfold schedules_RestoreEntity. restored Hp.
Qed.

Lemma wpq_restore_records l v :
  q_gc v = ∅ ->
  wpq (for_each ((fun e => (e.1, EGCRecord e.2)) <$> l)
         (fun e => gcRecords_RestoreEntity owns e.1 e.2 ;; mret tt)) v
    (fun _ v' => v' = with_records (filter (fun e => owned_record e.2) l) v).
Proof.
  intros E1. assert (Ev : v = with_records [] v) by (destruct v; cbn in *; by subst).
  rewrite Ev at 1.
  apply (wpq_restore_section EGCRecord (gcRecords_RestoreEntity owns) _ l (fun l => with_records l v)).
  - intros before [k x] _ Hp. unfold gcRecords_RestoreEntity. restored Hp.
    qsteps. unfold with_records, rows. by rewrite !fold_left_app.
  - intros v' [k x] _ Hp. unfold gcRecords_RestoreEntity. restored Hp.
Qed.

(** A counter's key names its account. *)
Lemma counter_key a : is_u64 a -> length (counters_tablePK a) = 8%nat /\
  BytesToUint64 (take 8 (counters_tablePK a)) = a.
Proof.
  intros Ha. rewrite cnt_pk_eq, length_be64. split; [done|].
  by rewrite take_ge, BytesToUint64_spec, u64_id by (by rewrite ?length_be64).
Qed.

Lemma wpq_restore_counters l v :
  q_cnt v = ∅ -> (forall e, e ∈ l -> exists a, is_u64 a /\ e.1 = counters_tablePK a) ->
  wpq (for_each ((fun e => (e.1, EQueuesCounter e.2)) <$> l)
         (fun e => qcounters_RestoreEntity owns e.1 e.2 ;; mret tt)) v
    (fun _ v' => v' = with_counters (filter owned_counter l) v).
Proof.
  intros E1 Hk. assert (Ev : v = with_counters [] v) by (destruct v; cbn in *; by subst).
  rewrite Ev at 1.
  apply (wpq_restore_section EQueuesCounter (qcounters_RestoreEntity owns) _ l (fun l => with_counters l v)).
  - intros before [k x] (a & Ha & E)%Hk Hp. cbn [fst snd] in *. subst k. destruct (counter_key a Ha) as [E2 E3].
    unfold qcounters_RestoreEntity, owned_counter, owned_account in *. cbn [fst] in Hp. rewrite E2. cbn [negb Nat.eqb].
    rewrite Hp, E3. cbn [negb]. apply wpq_bind, wpq_unmarshal. qsteps.
    unfold with_counters, entries. by rewrite fold_left_app.
  - intros v' [k x] (a & Ha & E)%Hk Hp. cbn [fst snd] in *. subst k. destruct (counter_key a Ha) as [E2 E3].
    unfold qcounters_RestoreEntity, owned_counter, owned_account in *. cbn [fst] in Hp. rewrite E2. cbn [negb Nat.eqb].
    rewrite (proj1 (not_true_iff_false _) Hp). by apply wpq_ret.
Qed.
End restore.

Section roundtrip.
Context {U : Utils} {H : Honey} {K : Keyspace} {Sn : Snapshots}.
Context {UO : UtilsOk U} {HO : HoneyOk H} {SO : SnapshotsOk Sn}.
Context (owns : Z -> bool).
Implicit Types (v : QView).

Lemma wpq_queues_Clear v (Q : unit -> QView -> Prop) :
  Q tt (set_q_table ∅ (set_q_names ∅ v)) -> wpq queues_Clear v Q.
Proof. intros HQ s <-. apply wp_modify. unfold qview, Uint64Table. cbn. by rewrite !bt_den_new. Qed.
Lemma wpq_schedules_Clear v (Q : unit -> QView -> Prop) :
  Q tt (set_q_sched ∅ (set_q_snames ∅ (set_q_due ∅ v))) -> wpq schedules_Clear v Q.
Proof. intros HQ s <-. apply wp_modify. unfold qview, Uint64Table. cbn. by rewrite !bt_den_new, si_den_new. Qed.
Lemma wpq_qcounters_Clear v (Q : unit -> QView -> Prop) :
  Q tt (set_q_cnt ∅ v) -> wpq qcounters_Clear v Q.
Proof. intros HQ s <-. apply wp_modify. unfold qview. cbn. by rewrite bt_den_new. Qed.
Lemma wpq_gcRecords_Clear v (Q : unit -> QView -> Prop) :
  Q tt (set_q_gc ∅ v) -> wpq gcRecords_Clear v Q.
Proof. intros HQ s <-. apply wp_modify. unfold qview. cbn. by rewrite bt_den_new. Qed.

Lemma wpq_clear v :
  wpq (for_each queues_snapshotSections (fun sec => Clear (Table sec))) v (fun _ v' => v' = empty_qview).
Proof.
  cbn [for_each queues_snapshotSections Table Clear].
  apply wpq_bind, wpq_queues_Clear, wpq_bind, wpq_schedules_Clear, wpq_bind, wpq_qcounters_Clear,
    wpq_bind, wpq_gcRecords_Clear, wpq_ret. done.
Qed.

(** The contents of a restored core, before they are described by the source's. *)
Definition restored (s : QTxn) : QView :=
  with_records (filter (fun e => owned_record owns e.2) (bt_EachEntry (gcRecords s)))
    (with_counters (filter (owned_counter owns) (bt_EachEntry (qcounters s)))
      (with_schedules (filter (fun e => owned_schedule owns e.2) (bt_EachEntry (schedules_table (schedules s))))
        (with_queues (filter (fun e => owned_queue owns e.2) (bt_EachEntry (queues_table (queues s))))
          empty_qview))).

Lemma wpq_restore s v :
  queues_ok (qview s) ->
  wpq (queues_Restore owns [queues_Snapshot s]) v (fun _ v' => v' = restored s).
Proof.
  intros Hq. unfold queues_Restore, queues_Snapshot. rewrite RestoreSnapshot_spec, NewSnapshot_spec.
  apply wpq_bind. eapply wpq_mono; [apply wpq_clear|]. intros ? ? ->.
  cbn [for_each queues_snapshotSections fmap list_fmap Name Table EachEntity].
  apply wpq_bind. apply wpq_bind.
  eapply wpq_mono; [by apply (wpq_restore_queues owns (bt_EachEntry (queues_table (queues s))))|].
  intros ? ? ->. apply wpq_bind.
  eapply wpq_mono; [by apply (wpq_restore_schedules owns (bt_EachEntry (schedules_table (schedules s))))|].
  intros ? ? ->. apply wpq_bind.
  eapply wpq_mono; [apply (wpq_restore_counters owns (bt_EachEntry (qcounters s))); [done|]|].
  { intros [k c] Hin. apply bt_EachEntry_spec in Hin. apply (qo_keys _ Hq k). by exists c. }
  intros ? ? ->. apply wpq_bind.
  eapply wpq_mono; [by apply (wpq_restore_records owns (bt_EachEntry (gcRecords s)))|].
  intros ? ? ->. qsteps. done.
Qed.

(** ** The restored contents, described by the source's *)

Context (s : QTxn) (Hs : QInv (qview s)).
#[local] Notation v := (qview s).
#[local] Notation v' := (restored s).

Lemma restored_table : q_table v' = filter (fun e => owned_queue owns e.2) (q_table v).
Proof. by apply (rows_stream _ _ _ (qo_rows _ (qi_queues _ Hs)) _ (owned_queue owns)). Qed.
Lemma restored_sched : q_sched v' = filter (fun e => owned_schedule owns e.2) (q_sched v).
Proof. by apply (rows_stream _ _ _ (so_rows _ (qi_schedules _ Hs)) _ (owned_schedule owns)). Qed.
Lemma restored_gc : q_gc v' = filter (fun e => owned_record owns e.2) (q_gc v).
Proof. by apply (rows_stream _ _ _ (ln_gc _ (qi_linked _ Hs)) _ (owned_record owns)). Qed.
Lemma restored_cnt : q_cnt v' = filter (owned_counter owns) (q_cnt v).
Proof. by apply (entries_stream (qcounters s)). Qed.

(** A restored counter is the account's own, or none. *)
Lemma restored_counter a : is_u64 a ->
  q_cnt v' !! counters_tablePK a = if decide (owned_account owns a) then q_cnt v !! counters_tablePK a else None.
Proof.
  intros Ha. rewrite restored_cnt. destruct (counter_key a Ha) as [_ E]. case_decide as Ho.
  - apply option_eq. intros c. rewrite map_lookup_filter_Some. unfold owned_counter. cbn. rewrite E. tauto.
  - apply map_lookup_filter_None. right. intros c _. unfold owned_counter. cbn. by rewrite E.
Qed.

Lemma restored_queues_ok : queues_ok v'.
Proof.
  pose proof (qi_queues _ Hs) as Hq. split.
  - rewrite restored_table. intros k x [Hx _]%map_lookup_filter_Some. by apply (qo_rows _ Hq).
  - apply (names_spec wf_queue_row row_key (q_table v) (qo_rows _ Hq) queue_name_key row_num
      queue_name_num_key _ (q_names v)); [|apply Hq].
    by apply (from_src_stream _ _ (owned_queue owns)).
  - intros a Ha. rewrite restored_table, (restored_counter a Ha). case_decide as Ho.
    + rewrite tally_filter; [by apply (qo_count _ Hq)|]. intros x <-. done.
    + rewrite tally_none; [done|]. intros k x [_ Hx]%map_lookup_filter_Some <-. by apply Ho.
  - intros k [c Hc]. rewrite restored_cnt in Hc. apply map_lookup_filter_Some in Hc as [Hc _].
    apply (qo_keys _ Hq). by exists c.
Qed.

Lemma restored_schedules_ok : schedules_ok v'.
Proof.
  pose proof (qi_schedules _ Hs) as Hq.
  pose proof (from_src_stream (q_sched v) (schedules_table (schedules s)) (owned_schedule owns) eq_refl) as Hl.
  split.
  - rewrite restored_sched. intros k x [Hx _]%map_lookup_filter_Some. by apply (so_rows _ Hq).
  - apply (names_spec wf_schedule skey (q_sched v) (so_rows _ Hq) schedule_name_key snum
      schedule_name_num_key _ (q_snames v)); [done|apply Hq].
  - by apply (items_spec wf_schedule skey (q_sched v) (so_rows _ Hq) schedule_due_key).
Qed.

Lemma restored_linked : linked v'.
Proof.
  destruct Hs as [Hq Hc [H1 H2 H3 H4]]. split; unfold has_queue, has_schedule, stores;
    rewrite ?restored_table, ?restored_sched, ?restored_gc.
  - intros x [Hx Ho]%map_lookup_filter_Some. rewrite tally_filter; [by apply H1|].
    intros t Et. unfold of_queue in Et. unfold owned_queue in Ho. cbn in Ho. by rewrite <-Et in Ho.
  - intros t [Ht Ho]%map_lookup_filter_Some. destruct (has_schedule_wf _ _ Hc Ht) as [(Ha & Hb & _) _].
    destruct (H2 t Ht) as [[x Hx]|[r Hr]]; [left; exists x|right; exists r]; apply map_lookup_filter_Some; (split; [done|]).
    + apply lookup_queue in Hx as [_ Ei]; [|done|by split]. unfold owned_queue. cbn. by rewrite Ei.
    + destruct (H3 _ _ Hr) as [E Hw]. unfold gc_key in E. rewrite gc_pk_eq in E.
      apply queue_key_inj in E as E'; [|by split|done]. unfold owned_record. cbn. by rewrite <-E'.
  - intros k r [Hr _]%map_lookup_filter_Some. by apply H3.
  - intros k [r [Hr _]%map_lookup_filter_Some]. apply map_lookup_filter_None. left. apply H4. by exists r.
Qed.

Lemma restored_inv : QInv v'.
Proof. split; [apply restored_queues_ok|apply restored_schedules_ok|apply restored_linked]. Qed.

(** With every account owned, the restored core is the source. *)
Lemma restored_all : (forall a, owned_account owns a) -> v' = v.
Proof.
  intros Ho.
  assert (E1 : q_table v' = q_table v) by (rewrite restored_table; apply map_filter_id; intros; apply Ho).
  assert (E2 : q_sched v' = q_sched v) by (rewrite restored_sched; apply map_filter_id; intros; apply Ho).
  assert (E3 : q_gc v' = q_gc v) by (rewrite restored_gc; apply map_filter_id; intros; apply Ho).
  assert (E4 : q_cnt v' = q_cnt v) by (rewrite restored_cnt; apply map_filter_id; intros; apply Ho).
  pose proof restored_inv as [Hq Hc _]. destruct Hs as [Hq' Hc' _].
  assert (E5 : q_names v' = q_names v).
  { eapply named_det; [apply Hq|]. rewrite E1. apply Hq'. }
  assert (E6 : q_snames v' = q_snames v).
  { eapply named_det; [apply Hc|]. rewrite E2. apply Hc'. }
  assert (E7 : q_due v' = q_due v).
  { eapply listed_det; [apply Hc|]. rewrite E2. apply Hc'. }
  revert E1 E2 E3 E4 E5 E6 E7. generalize v'. intros []. cbn. intros. subst. done.
Qed.

(** Lookups by name agree for an owned account and find nothing for another. *)
Lemma restored_by_name a name : is_u64 a ->
  by_name v' a name = if decide (owned_account owns a) then by_name v a name else None.
Proof.
  intros Ha. pose proof restored_queues_ok as Hq'. pose proof (qi_queues _ Hs) as Hq.
  assert (Hh : forall x, has_queue v' x <-> has_queue v x /\ owned_queue owns x).
  { intros x. unfold has_queue, stores. by rewrite restored_table, map_lookup_filter_Some. }
  apply option_eq. intros x. rewrite by_name_Some, Hh by done. case_decide as Ho.
  - rewrite by_name_Some by done. split; [tauto|]. intros (H1 & <- & H3). by split_and!.
  - split; [|done]. intros ((_ & Hx) & <- & _). by destruct Ho.
Qed.
End roundtrip.
