(* ===== verification/CoreApi.v ===== *)
(** * The core interfaces and the validating cores ([pkg/coreapis/api.go], [validation.go])

    [MoabQueuesCoreApi] and [MoabTasksCoreApi] are what an adapter calls: every handler of a
    core, with the time of the request, and its snapshots.  The cores implement them; a
    validating core checks each request first and answers an invalid one itself. *)

From S2P Require Export Stub Snapshots.

(** [mrpc.ReadResponse] and [mrpc.UpdateResponse]: an application error or a payload. *)
Definition Outcome (A : Type) : Type := mrpcError + A.

Record MoabQueuesCoreApi (S : Type) := mkMoabQueuesCoreApi {
  queuesCore_Snapshot : S -> Stream QEntity;
  queuesCore_Restore : list (Stream QEntity) -> M S unit;
  core_GetQueue : Wire.QueueIdRequest.t -> Z -> M S (Outcome Queue.t);
  core_GetQueueByName : QueueNameRequest.t -> Z -> M S (Outcome Queue.t);
  core_ListQueues : ListQueuesRequest.t -> Z -> M S (Outcome listQueuesResult);
  core_GetSchedule : ScheduleNameRequest.t -> Z -> M S (Outcome Schedule.t);
  core_DequeSchedules : Z -> Z -> M S (Outcome (list (Schedule.t * Queue.t)));
  core_ListSchedules : Wire.ListSchedulesRequest.t -> Z -> M S (Outcome listSchedulesResult);
  core_CreateQueue : Wire.CreateQueueRequest.t -> Z -> M S (Outcome Queue.t);
  core_UpdateQueue : UpdateQueueRequest.t -> Z -> M S (Outcome Queue.t);
  core_DeleteQueue : QueueNameRequest.t -> Z -> M S (Outcome QueueId.t);
  core_CreateSchedule : CreateScheduleRequest.t -> Z -> M S (Outcome Schedule.t);
  core_UpdateSchedule : UpdateScheduleRequest.t -> Z -> M S (Outcome Schedule.t);
  core_DeleteSchedule : ScheduleNameRequest.t -> Z -> M S (Outcome unit);
  core_ReportSchedulesStatus : Wire.ReportSchedulesStatusRequest.t -> Z -> M S (Outcome unit);
  core_RunQueuesGarbageCollection : RunQueuesGarbageCollectionRequest.t -> Z -> M S (Outcome unit);
  core_SwapQueueId : SwapQueueIdRequest.t -> Z -> M S (Outcome (Queue.t * QueueId.t));
}.
Arguments queuesCore_Snapshot {S} _ _.
Arguments queuesCore_Restore {S} _ _.
Arguments core_GetQueue {S} _ _ _.
Arguments core_GetQueueByName {S} _ _ _.
Arguments core_ListQueues {S} _ _ _.
Arguments core_GetSchedule {S} _ _ _.
Arguments core_DequeSchedules {S} _ _ _.
Arguments core_ListSchedules {S} _ _ _.
Arguments core_CreateQueue {S} _ _ _.
Arguments core_UpdateQueue {S} _ _ _.
Arguments core_DeleteQueue {S} _ _ _.
Arguments core_CreateSchedule {S} _ _ _.
Arguments core_UpdateSchedule {S} _ _ _.
Arguments core_DeleteSchedule {S} _ _ _.
Arguments core_ReportSchedulesStatus {S} _ _ _.
Arguments core_RunQueuesGarbageCollection {S} _ _ _.
Arguments core_SwapQueueId {S} _ _ _.

Record MoabTasksCoreApi (S : Type) := mkMoabTasksCoreApi {
  tasksCore_Snapshot : S -> Stream TEntity;
  tasksCore_Restore : list (Stream TEntity) -> M S unit;
  core_GetTask : Wire.GetTaskRequest.t -> Z -> M S (Outcome Task.t);
  core_GetStatistics : Wire.QueueIdRequest.t -> Z -> M S (Outcome GetStatisticsResponse.t);
  core_ListTasks : Wire.ListTasksRequest.t -> Z -> M S (Outcome listTasksResult);
  core_Enqueue : Wire.EnqueueRequest.t -> Z -> M S (Outcome (list Task.t));
  core_Dequeue : Wire.DequeueRequest.t -> Z -> M S (Outcome (list Task.t));
  core_ReportStatus : Wire.ReportStatusRequest.t -> Z -> M S (Outcome (list ReportStatusResponseEntry.t));
  core_DeleteTasks : Wire.DeleteTasksRequest.t -> Z -> M S (Outcome unit);
  core_RestartTasks : Wire.RestartTasksRequest.t -> Z -> M S (Outcome (list RestartTasksResponseEntry.t));
  core_PurgeQueue : Wire.QueueIdRequest.t -> Z -> M S (Outcome unit);
  core_RunTasksGarbageCollection : RunTasksGarbageCollectionRequest.t -> Z -> M S (Outcome unit);
  core_RunPurgeQueueGarbageCollection : RunPurgeQueueGarbageCollectionRequest.t -> Z -> M S (Outcome unit);
}.
Arguments tasksCore_Snapshot {S} _ _.
Arguments tasksCore_Restore {S} _ _.
Arguments core_GetTask {S} _ _ _.
Arguments core_GetStatistics {S} _ _ _.
Arguments core_ListTasks {S} _ _ _.
Arguments core_Enqueue {S} _ _ _.
Arguments core_Dequeue {S} _ _ _.
Arguments core_ReportStatus {S} _ _ _.
Arguments core_DeleteTasks {S} _ _ _.
Arguments core_RestartTasks {S} _ _ _.
Arguments core_PurgeQueue {S} _ _ _.
Arguments core_RunTasksGarbageCollection {S} _ _ _.
Arguments core_RunPurgeQueueGarbageCollection {S} _ _ _.

Section cores.
Context {U : Utils} {H : Honey} {C : CronLib} {K : Keyspace} {Sn : Snapshots} {G : Gronx}.

Definition queues_outcome {A} (m : M QTxn (QResponse A)) : M QTxn (Outcome A) :=
  r ← m; mret (match r with QError e => inl (QueuesError e) | QPayload a => inr a end).
Definition tasks_outcome {A} (m : M Txn (Response A)) : M Txn (Outcome A) :=
  r ← m; mret (match r with ApplicationError e => inl (TasksError e) | Payload a => inr a end).

(** [honey.ShardRange.Owns] *)
Definition in_bounds (lower upper : Z) (shardKey : Z) : bool :=
  (lower <=? shardKey) && (shardKey <=? upper).

(** *** The cores behind the interfaces *)

Definition MoabQueuesCore (lower upper : Z) : MoabQueuesCoreApi QTxn := {|
  queuesCore_Snapshot := queues_Snapshot;
  queuesCore_Restore := queues_Restore (in_bounds lower upper);
  core_GetQueue req now := queues_outcome (id ← deref (Wire.QueueIdRequest.QueueId req); GetQueue id);
  core_GetQueueByName req now := queues_outcome (GetQueueByName req);
  core_ListQueues req now := queues_outcome (ListQueues req);
  core_GetSchedule req now := queues_outcome (GetSchedule req);
  core_DequeSchedules req now := queues_outcome (DequeSchedules req);
  core_ListSchedules req now := queues_outcome (req ← deref (ListSchedulesRequest_of req); ListSchedules req);
  core_CreateQueue req now := queues_outcome (req ← deref (CreateQueueRequest_of req); CreateQueue req now);
  core_UpdateQueue req now := queues_outcome (UpdateQueue req now);
  core_DeleteQueue req now := queues_outcome (DeleteQueue req);
  core_CreateSchedule req now := queues_outcome (CreateSchedule req now);
  core_UpdateSchedule req now := queues_outcome (UpdateSchedule req now);
  core_DeleteSchedule req now := queues_outcome (DeleteSchedule req);
  core_ReportSchedulesStatus req now := queues_outcome (req ← deref (ReportSchedulesStatusRequest_of req); ReportSchedulesStatus req now);
  core_RunQueuesGarbageCollection req now := queues_outcome (RunQueuesGarbageCollection req);
  core_SwapQueueId req now := queues_outcome (SwapQueueId req now);
|}.

Definition MoabTasksCore (lower upper : Z) : MoabTasksCoreApi Txn := {|
  tasksCore_Snapshot := tasks_Snapshot;
  tasksCore_Restore := tasks_Restore (in_bounds lower upper);
  core_GetTask req now := tasks_outcome (id ← deref (Wire.GetTaskRequest.TaskId req); GetTask id now);
  core_GetStatistics req now := tasks_outcome (id ← deref (Wire.QueueIdRequest.QueueId req); GetStatistics id now);
  core_ListTasks req now := tasks_outcome (req ← deref (ListTasksRequest_of req); ListTasks req);
  core_Enqueue req now := tasks_outcome (req ← deref (EnqueueRequest_of req); Enqueue req now);
  core_Dequeue req now := tasks_outcome (req ← deref (DequeueRequest_of req); Dequeue req now);
  core_ReportStatus req now := tasks_outcome (req ← deref (ReportStatusRequest_of req); ReportStatus req now);
  core_DeleteTasks req now := tasks_outcome (req ← deref (DeleteTasksRequest_of req); DeleteTasks req);
  core_RestartTasks req now := tasks_outcome (req ← deref (RestartTasksRequest_of req); RestartTasks req now);
  core_PurgeQueue req now := tasks_outcome (id ← deref (Wire.QueueIdRequest.QueueId req); PurgeQueue id);
  core_RunTasksGarbageCollection req now := tasks_outcome (RunTasksGarbageCollection req now);
  core_RunPurgeQueueGarbageCollection req now := tasks_outcome (RunPurgeQueueGarbageCollection req);
|}.

(** *** The validating cores *)

(** [if err := req.Payload.Validate(); err != nil { return InvalidRequest }] *)
Definition validating {S A} (err : error) (call : M S (Outcome A)) : M S (Outcome A) :=
  match err with
  | Some msg => mret (inl (ValidationError msg))
  | None => call
  end.

Section queues_validating.
Context {S : Type} (core : MoabQueuesCoreApi S).

Definition validating_GetQueue (req : Wire.QueueIdRequest.t) (now : Z) : M S (Outcome Queue.t) :=
  validating (GetQueueRequest_Validate req) (core_GetQueue core req now).
Definition validating_GetQueueByName (req : QueueNameRequest.t) (now : Z) : M S (Outcome Queue.t) :=
  validating (GetQueueByNameRequest_Validate req) (core_GetQueueByName core req now).
Definition validating_ListQueues (req : ListQueuesRequest.t) (now : Z) : M S (Outcome listQueuesResult) :=
  validating (ListQueuesRequest_Validate req) (core_ListQueues core req now).
Definition validating_GetSchedule (req : ScheduleNameRequest.t) (now : Z) : M S (Outcome Schedule.t) :=
  validating (GetScheduleRequest_Validate req) (core_GetSchedule core req now).
Definition validating_DequeSchedules (req : Z) (now : Z) : M S (Outcome (list (Schedule.t * Queue.t))) :=
  validating (DequeSchedulesRequest_Validate req) (core_DequeSchedules core req now).
Definition validating_ListSchedules (req : Wire.ListSchedulesRequest.t) (now : Z) : M S (Outcome listSchedulesResult) :=
  validating (ListSchedulesRequest_Validate req) (core_ListSchedules core req now).
Definition validating_CreateQueue (req : Wire.CreateQueueRequest.t) (now : Z) : M S (Outcome Queue.t) :=
  validating (CreateQueueRequest_Validate req) (core_CreateQueue core req now).
Definition validating_UpdateQueue (req : UpdateQueueRequest.t) (now : Z) : M S (Outcome Queue.t) :=
  validating (UpdateQueueRequest_Validate req) (core_UpdateQueue core req now).
Definition validating_DeleteQueue (req : QueueNameRequest.t) (now : Z) : M S (Outcome QueueId.t) :=
  validating (DeleteQueueRequest_Validate req) (core_DeleteQueue core req now).
Definition validating_CreateSchedule (req : CreateScheduleRequest.t) (now : Z) : M S (Outcome Schedule.t) :=
  validating (CreateScheduleRequest_Validate req) (core_CreateSchedule core req now).
Definition validating_UpdateSchedule (req : UpdateScheduleRequest.t) (now : Z) : M S (Outcome Schedule.t) :=
  validating (UpdateScheduleRequest_Validate req) (core_UpdateSchedule core req now).
Definition validating_DeleteSchedule (req : ScheduleNameRequest.t) (now : Z) : M S (Outcome unit) :=
  validating (DeleteScheduleRequest_Validate req) (core_DeleteSchedule core req now).
Definition validating_ReportSchedulesStatus (req : Wire.ReportSchedulesStatusRequest.t) (now : Z) : M S (Outcome unit) :=
  validating (ReportSchedulesStatusRequest_Validate req) (core_ReportSchedulesStatus core req now).
Definition validating_RunQueuesGarbageCollection (req : RunQueuesGarbageCollectionRequest.t) (now : Z) : M S (Outcome unit) :=
  validating (RunQueuesGarbageCollectionRequest_Validate req) (core_RunQueuesGarbageCollection core req now).
Definition validating_SwapQueueId (req : SwapQueueIdRequest.t) (now : Z) : M S (Outcome (Queue.t * QueueId.t)) :=
  validating (SwapQueueIdRequest_Validate req) (core_SwapQueueId core req now).

Definition MoabQueuesValidatingCore : MoabQueuesCoreApi S := {|
  queuesCore_Snapshot := queuesCore_Snapshot core;
  queuesCore_Restore := queuesCore_Restore core;
  core_GetQueue := validating_GetQueue;
  core_GetQueueByName := validating_GetQueueByName;
  core_ListQueues := validating_ListQueues;
  core_GetSchedule := validating_GetSchedule;
  core_DequeSchedules := validating_DequeSchedules;
  core_ListSchedules := validating_ListSchedules;
  core_CreateQueue := validating_CreateQueue;
  core_UpdateQueue := validating_UpdateQueue;
  core_DeleteQueue := validating_DeleteQueue;
  core_CreateSchedule := validating_CreateSchedule;
  core_UpdateSchedule := validating_UpdateSchedule;
  core_DeleteSchedule := validating_DeleteSchedule;
  core_ReportSchedulesStatus := validating_ReportSchedulesStatus;
  core_RunQueuesGarbageCollection := validating_RunQueuesGarbageCollection;
  core_SwapQueueId := validating_SwapQueueId;
|}.
End queues_validating.

Section tasks_validating.
Context {S : Type} (core : MoabTasksCoreApi S).

Definition validating_GetTask (req : Wire.GetTaskRequest.t) (now : Z) : M S (Outcome Task.t) :=
  validating (GetTaskRequest_Validate req) (core_GetTask core req now).
Definition validating_GetStatistics (req : Wire.QueueIdRequest.t) (now : Z) : M S (Outcome GetStatisticsResponse.t) :=
  validating (GetStatisticsRequest_Validate req) (core_GetStatistics core req now).
Definition validating_ListTasks (req : Wire.ListTasksRequest.t) (now : Z) : M S (Outcome listTasksResult) :=
  validating (ListTasksRequest_Validate req) (core_ListTasks core req now).
Definition validating_Enqueue (req : Wire.EnqueueRequest.t) (now : Z) : M S (Outcome (list Task.t)) :=
  validating (EnqueueRequest_Validate req) (core_Enqueue core req now).
Definition validating_Dequeue (req : Wire.DequeueRequest.t) (now : Z) : M S (Outcome (list Task.t)) :=
  validating (DequeueRequest_Validate req) (core_Dequeue core req now).
Definition validating_ReportStatus (req : Wire.ReportStatusRequest.t) (now : Z) : M S (Outcome (list ReportStatusResponseEntry.t)) :=
  validating (ReportStatusRequest_Validate req) (core_ReportStatus core req now).
Definition validating_DeleteTasks (req : Wire.DeleteTasksRequest.t) (now : Z) : M S (Outcome unit) :=
  validating (DeleteTasksRequest_Validate req) (core_DeleteTasks core req now).
Definition validating_RestartTasks (req : Wire.RestartTasksRequest.t) (now : Z) : M S (Outcome (list RestartTasksResponseEntry.t)) :=
  validating (RestartTasksRequest_Validate req) (core_RestartTasks core req now).
Definition validating_PurgeQueue (req : Wire.QueueIdRequest.t) (now : Z) : M S (Outcome unit) :=
  validating (PurgeQueueRequest_Validate req) (core_PurgeQueue core req now).
Definition validating_RunTasksGarbageCollection (req : RunTasksGarbageCollectionRequest.t) (now : Z) : M S (Outcome unit) :=
  validating (RunTasksGarbageCollectionRequest_Validate req) (core_RunTasksGarbageCollection core req now).
Definition validating_RunPurgeQueueGarbageCollection (req : RunPurgeQueueGarbageCollectionRequest.t) (now : Z) : M S (Outcome unit) :=
  validating (RunPurgeQueueGarbageCollectionRequest_Validate req) (core_RunPurgeQueueGarbageCollection core req now).

Definition MoabTasksValidatingCore : MoabTasksCoreApi S := {|
  tasksCore_Snapshot := tasksCore_Snapshot core;
  tasksCore_Restore := tasksCore_Restore core;
  core_GetTask := validating_GetTask;
  core_GetStatistics := validating_GetStatistics;
  core_ListTasks := validating_ListTasks;
  core_Enqueue := validating_Enqueue;
  core_Dequeue := validating_Dequeue;
  core_ReportStatus := validating_ReportStatus;
  core_DeleteTasks := validating_DeleteTasks;
  core_RestartTasks := validating_RestartTasks;
  core_PurgeQueue := validating_PurgeQueue;
  core_RunTasksGarbageCollection := validating_RunTasksGarbageCollection;
  core_RunPurgeQueueGarbageCollection := validating_RunPurgeQueueGarbageCollection;
|}.
End tasks_validating.

End cores.
