(* ===== verification/Protowire.v ===== *)
(** * The protobuf wire format ([*_vtproto.pb.go])

    [MarshalToSizedBufferVT], [SizeVT] and [UnmarshalVT] are generated from one template per
    field type.  [fill_field], [size_field] and [decode_field] are these templates; the
    descriptor of a message lists its fields in order.  [MarshalToSizedBufferVT] fills its
    buffer from the back, last field first; the filled part of the buffer is the argument of
    [fill_field].  [encode_fields] is the encoding as the wire format defines it, the fields
    in order ([fill_fields_eq]), and [SizeVT] is its length ([size_fields_length]), so that no
    write leaves the buffer.  Field numbers are below 16: a tag is one byte.

    A message is the list of its field values.  Decoding works on the rest of the input; [l]
    is the length of the whole input, so that [l - len rest] is the code's [iNdEx].  Fields
    with an unknown number are skipped: [unknownFields], which the code only carries along,
    is not modelled. *)

From S2P Require Export GoStd.

(** ** Errors *)

Inductive ProtoErr : Set :=
  | ErrIntOverflow | ErrUnexpectedEOF | ErrInvalidLength | ErrEndGroup | ErrIllegalTag
  | ErrWrongWireType | ErrInvalidSkip
  | ErrLoopBound.   (** a loop bound of the model was exceeded *)

Definition PRes (A : Type) : Type := ProtoErr + A.
#[export] Instance PRes_ret : MRet PRes := fun A a => inr a.
#[export] Instance PRes_bind : MBind PRes := fun A B f r =>
  match r with inl e => inl e | inr a => f a end.

(** [github.com/planetscale/vtprotobuf/protohelpers] *)
Class Protohelpers : Type := {
  EncodeVarint : Z -> bytes;
  SizeOfVarint : Z -> Z;
  Skip : bytes -> option Z;   (** [None] is an error *)
}.

(** ** Descriptors and values *)

(** [Int32] is also the type of enums. *)
Inductive Kind : Set := Int64 | Int32 | Bool | Fixed64 | Sfixed64.

#[local] Unset Elimination Schemes.
Inductive FieldType : Set :=
  | TScalar (k : Kind)
  | TBytes
  | TMessage (fields : list (Z * FieldType))
  | TRepeated (fields : list (Z * FieldType))
  | TPacked (k : Kind).
Inductive Val : Set :=
  | VNum (z : Z)
  | VBytes (b : bytes)
  | VMsg (m : option (list Val))
  | VMsgs (l : list (list Val))
  | VNums (l : list Z).
#[local] Set Elimination Schemes.

Notation Desc := (list (Z * FieldType)).

(** Induction on a field type gives the claim for the fields of a message. *)
Section field_type_ind.
Context (P : FieldType -> Prop).
Context (Hs : forall k, P (TScalar k)) (Hb : P TBytes) (Hp : forall k, P (TPacked k)).
Context (Hm : forall fs, Forall (fun f => P f.2) fs -> P (TMessage fs)).
Context (Hr : forall fs, Forall (fun f => P f.2) fs -> P (TRepeated fs)).

Fixpoint FieldType_ind (t : FieldType) : P t :=
  let all := fix all (fs : Desc) : Forall (fun f => P f.2) fs :=
    match fs with
    | [] => Forall_nil_2 _
    | f :: fs => Forall_cons_2 _ f fs (FieldType_ind f.2) (all fs)
    end in
  match t with
  | TScalar k => Hs k
  | TBytes => Hb
  | TMessage fs => Hm fs (all fs)
  | TRepeated fs => Hr fs (all fs)
  | TPacked k => Hp k
  end.
End field_type_ind.

(** The value of a field that is not set. *)
Definition zero_val (t : FieldType) : Val :=
  match t with
  | TScalar _ => VNum 0
  | TBytes => VBytes []
  | TMessage _ => VMsg None
  | TRepeated _ => VMsgs []
  | TPacked _ => VNums []
  end.
Definition zero_message (d : Desc) : list Val := (fun f => zero_val f.2) <$> d.

(** ** Numbers *)

(** [for num >= 1<<7 { dAtA[j] = uint8(num&0x7f | 0x80); num >>= 7; j++ }; dAtA[j] = uint8(num)] *)
Fixpoint put_varint_loop (fuel : nat) (num : Z) : bytes :=
  match fuel with
  | O => [num]
  | S fuel =>
      if num >=? 128 then Z.lor (Z.land num 127) 128 :: put_varint_loop fuel (Z.shiftr num 7)
      else [num]
  end.
Definition put_varint (num : Z) : bytes := put_varint_loop 9 num.

(** [for shift := uint(0); ; shift += 7 { ... v |= T(b&0x7F) << shift ... }]; [conv] is the
    conversion to the type [T] of [v]. *)
Fixpoint get_varint_loop (fuel : nat) (conv : Z -> Z) (shift v : Z) (data : bytes) : PRes (Z * bytes) :=
  match fuel with
  | O => inl ErrLoopBound
  | S fuel =>
      if shift >=? 64 then inl ErrIntOverflow
      else
        match data with
        | [] => inl ErrUnexpectedEOF
        | b :: data =>
            let v := Z.lor v (conv (Z.shiftl (Z.land b 127) shift)) in
            if b <? 128 then inr (v, data) else get_varint_loop fuel conv (shift + 7) v data
        end
  end.
Definition get_varint (conv : Z -> Z) (data : bytes) : PRes (Z * bytes) := get_varint_loop 11 conv 0 0 data.

(** [binary.LittleEndian] *)
Definition LittleEndian_PutUint64 (z : Z) : bytes := reverse (be64 z).
Definition LittleEndian_Uint64 (b : bytes) : Z := be_value (reverse (take 8 b)).

Definition get_fixed64 (data : bytes) : PRes (Z * bytes) :=
  if (length data <? 8)%nat then inl ErrUnexpectedEOF
  else inr (LittleEndian_Uint64 data, drop 8 data).

(** The wire type of a number, its conversion from the wire, and its encoding. *)
Definition wire_type (k : Kind) : Z :=
  match k with Int64 | Int32 | Bool => 0 | Fixed64 | Sfixed64 => 1 end.

Definition get_scalar (k : Kind) (data : bytes) : PRes (Z * bytes) :=
  match k with
  | Int64 => get_varint i64 data
  | Int32 => get_varint i32 data
  | Bool => p ← get_varint i64 data; inr (if p.1 =? 0 then 0 else 1, p.2)
  | Fixed64 => get_fixed64 data
  | Sfixed64 => p ← get_fixed64 data; inr (i64 p.1, p.2)
  end.

Section encoding.
Context {PH : Protohelpers}.

Definition put_scalar (k : Kind) (z : Z) : bytes :=
  match k with
  | Int64 | Int32 => EncodeVarint (u64 z)
  | Bool => [if z =? 0 then 0 else 1]
  | Fixed64 | Sfixed64 => LittleEndian_PutUint64 (u64 z)
  end.

(** The elements of a packed field: varints are written inline. *)
Definition put_element (k : Kind) (z : Z) : bytes :=
  match k with
  | Int64 | Int32 | Bool => put_varint (u64 z)
  | Fixed64 | Sfixed64 => LittleEndian_PutUint64 (u64 z)
  end.

(** ** The encoding *)

Definition tag (n wire : Z) : bytes := [Z.lor (Z.shiftl n 3) wire].
Definition with_length (body : bytes) : bytes := EncodeVarint (len body) ++ body.

Definition encode_fields_with (enc : Z -> FieldType -> Val -> bytes) : Desc -> list Val -> bytes :=
  fix go fs vs :=
    match fs, vs with
    | f :: fs, v :: vs => enc f.1 f.2 v ++ go fs vs
    | _, _ => []
    end.

Fixpoint encode_field (n : Z) (t : FieldType) (v : Val) : bytes :=
  match t, v with
  | TScalar k, VNum z => if z =? 0 then [] else tag n (wire_type k) ++ put_scalar k z
  | TBytes, VBytes b => if len b >? 0 then tag n 2 ++ with_length b else []
  | TMessage fs, VMsg (Some vs) => tag n 2 ++ with_length (encode_fields_with encode_field fs vs)
  | TRepeated fs, VMsgs l =>
      concat ((fun vs => tag n 2 ++ with_length (encode_fields_with encode_field fs vs)) <$> l)
  | TPacked k, VNums l =>
      if len l >? 0 then tag n 2 ++ with_length (concat (put_element k <$> l)) else []
  | _, _ => []
  end.
Definition encode_fields : Desc -> list Val -> bytes := encode_fields_with encode_field.

(** ** [MarshalToSizedBufferVT] *)

(** [i = EncodeVarint(dAtA, i, uint64(size)); i--; dAtA[i] = tag], with [size] the number of
    bytes written since [buf]. *)
Definition close_field (n : Z) (buf : bytes) (filled : bytes) : bytes :=
  tag n 2 ++ EncodeVarint (len filled - len buf) ++ filled.

(** The fields from the last to the first. *)
Definition fill_fields_with (fill : Z -> FieldType -> Val -> bytes -> bytes) : Desc -> list Val -> bytes -> bytes :=
  fix go fs vs buf :=
    match fs, vs with
    | f :: fs, v :: vs => fill f.1 f.2 v (go fs vs buf)
    | _, _ => buf
    end.

Fixpoint fill_field (n : Z) (t : FieldType) (v : Val) (buf : bytes) : bytes :=
  match t, v with
  | TScalar k, VNum z => if z =? 0 then buf else tag n (wire_type k) ++ put_scalar k z ++ buf
  | TBytes, VBytes b => if len b >? 0 then tag n 2 ++ EncodeVarint (len b) ++ b ++ buf else buf
  | TMessage fs, VMsg (Some vs) => close_field n buf (fill_fields_with fill_field fs vs buf)
  | TRepeated fs, VMsgs l =>
      (** [for iNdEx := len(l) - 1; iNdEx >= 0; iNdEx--] *)
      fold_right (fun vs buf => close_field n buf (fill_fields_with fill_field fs vs buf)) buf l
  | TPacked k, VNums l =>
      if len l >? 0 then close_field n buf (concat (put_element k <$> l) ++ buf) else buf
  | _, _ => buf
  end.
Definition fill_fields : Desc -> list Val -> bytes -> bytes := fill_fields_with fill_field.

(** ** [SizeVT] *)

Definition size_element (k : Kind) (z : Z) : Z :=
  match k with
  | Int64 | Int32 => SizeOfVarint (u64 z)
  | Bool => 1
  | Fixed64 | Sfixed64 => 8
  end.

Definition size_fields_with (size : FieldType -> Val -> Z) : Desc -> list Val -> Z :=
  fix go fs vs :=
    match fs, vs with
    | f :: fs, v :: vs => size f.2 v + go fs vs
    | _, _ => 0
    end.

Definition total (l : list Z) : Z := fold_right Z.add 0 l.

Fixpoint size_field (t : FieldType) (v : Val) : Z :=
  match t, v with
  | TScalar k, VNum z => if z =? 0 then 0 else 1 + size_element k z
  | TBytes, VBytes b => if len b >? 0 then 1 + len b + SizeOfVarint (len b) else 0
  | TMessage fs, VMsg (Some vs) =>
      let l := size_fields_with size_field fs vs in 1 + l + SizeOfVarint l
  | TRepeated fs, VMsgs ms =>
      total ((fun vs => let l := size_fields_with size_field fs vs in 1 + l + SizeOfVarint l) <$> ms)
  | TPacked k, VNums l =>
      if len l >? 0 then let n := total (size_element k <$> l) in 1 + SizeOfVarint n + n else 0
  | _, _ => 0
  end.
Definition size_fields : Desc -> list Val -> Z := size_fields_with size_field.

(** ** [UnmarshalVT] *)

(** The next [byteLen] bytes, after the checks of the code. *)
Definition get_slice (l byteLen : Z) (data : bytes) : PRes (bytes * bytes) :=
  if byteLen <? 0 then inl ErrInvalidLength
  else
    let postIndex := i64 (l - len data + byteLen) in
    if postIndex <? 0 then inl ErrInvalidLength
    else if postIndex >? l then inl ErrUnexpectedEOF
    else inr (take (Z.to_nat byteLen) data, drop (Z.to_nat byteLen) data).

Definition get_bytes (l : Z) (data : bytes) : PRes (bytes * bytes) :=
  p ← get_varint i64 data; get_slice l p.1 p.2.

(** [for iNdEx < postIndex { ... }]: an element is bounded by the input only. *)
Fixpoint get_packed (fuel : nat) (k : Kind) (stop : nat) (data : bytes) (acc : list Z)
    : PRes (list Z * bytes) :=
  if (length data <=? stop)%nat then inr (acc, data)
  else
    match fuel with
    | O => inl ErrLoopBound
    | S fuel => p ← get_scalar k data; get_packed fuel k stop p.2 (acc ++ [p.1])
    end.

(** [protohelpers.Skip(dAtA[iNdEx:])] *)
Definition skip (data : bytes) : PRes Z :=
  match Skip data with Some n => inr n | None => inl ErrInvalidSkip end.

Section loop.
Context (dec : FieldType -> Z -> Val -> Z -> bytes -> PRes (Val * bytes)).

(** [switch fieldNum]: the value of the field is updated; [None] is the default case. *)
Definition switch_with (n wire l : Z) (data : bytes) : Desc -> list Val -> option (PRes (list Val * bytes)) :=
  fix go fs vs :=
    match fs, vs with
    | f :: fs, v :: vs =>
        if f.1 =? n then Some (p ← dec f.2 wire v l data; inr (p.1 :: vs, p.2))
        else (fun r => p ← r; inr (v :: p.1, p.2)) <$> go fs vs
    | _, _ => None
    end.

Definition decode_loop_with (fs : Desc) : nat -> Z -> bytes -> list Val -> PRes (list Val) :=
  fix loop fuel l data cur :=
    match data with
    | [] => inr cur
    | _ :: _ =>
        match fuel with
        | O => inl ErrLoopBound
        | S fuel =>
            p ← get_varint u64 data;
            let fieldNum := i32 (Z.shiftr p.1 3) in
            let wireType := Z.land p.1 7 in
            if wireType =? 4 then inl ErrEndGroup
            else if fieldNum <=? 0 then inl ErrIllegalTag
            else
              match switch_with fieldNum wireType l p.2 fs cur with
              | Some r => q ← r; loop fuel l q.2 q.1
              | None =>
                  skippy ← skip data;
                  if (skippy <? 0) || (i64 (l - len data + skippy) <? 0) then inl ErrInvalidLength
                  else if i64 (l - len data + skippy) >? l then inl ErrUnexpectedEOF
                  else loop fuel l (drop (Z.to_nat skippy) data) cur
              end
        end
    end.
End loop.

Definition expect (b : bool) : PRes unit := if b then inr tt else inl ErrWrongWireType.

Fixpoint decode_field (t : FieldType) (wire : Z) (v : Val) (l : Z) (data : bytes) : PRes (Val * bytes) :=
  match t with
  | TScalar k => expect (wire =? wire_type k) ;; p ← get_scalar k data; inr (VNum p.1, p.2)
  | TBytes => expect (wire =? 2) ;; p ← get_bytes l data; inr (VBytes p.1, p.2)
  | TMessage fs =>
      expect (wire =? 2) ;;
      p ← get_bytes l data;
      let cur := match v with VMsg (Some vs) => vs | _ => zero_message fs end in
      vs ← decode_loop_with decode_field fs (length p.1) (len p.1) p.1 cur;
      inr (VMsg (Some vs), p.2)
  | TRepeated fs =>
      expect (wire =? 2) ;;
      p ← get_bytes l data;
      vs ← decode_loop_with decode_field fs (length p.1) (len p.1) p.1 (zero_message fs);
      inr (VMsgs ((match v with VMsgs ms => ms | _ => [] end) ++ [vs]), p.2)
  | TPacked k =>
      let nums := match v with VNums l => l | _ => [] end in
      if wire =? wire_type k then p ← get_scalar k data; inr (VNums (nums ++ [p.1]), p.2)
      else
        expect (wire =? 2) ;;
        n ← get_varint i64 data;
        body ← get_slice l n.1 n.2;
        p ← get_packed (length n.2) k (length body.2) n.2 nums;
        inr (VNums p.1, p.2)
  end.

Definition decode_loop : Desc -> nat -> Z -> bytes -> list Val -> PRes (list Val) :=
  decode_loop_with decode_field.
Definition decode_message (d : Desc) (data : bytes) : PRes (list Val) :=
  decode_loop d (length data) (len data) data (zero_message d).
End encoding.
