(* ===== verification/ProtowireProps.v ===== *)
(** * Correctness of the wire format

    Every value of a message's Go type survives encoding and decoding, the size is that of
    the encoding, and decoding any bytes ends. *)

From S2P Require Export Protowire.

(** ** Conversions of machine integers, bit by bit *)

Lemma testbit_signed n a i :
  0 <= n -> - 2 ^ n <= a < 2 ^ n -> n <= i -> Z.testbit a i = (a <? 0).
Proof.
  intros Hn Ha Hi. rewrite Z.testbit_odd, Z.shiftr_div_pow2 by lia.
  pose proof (Z.pow_le_mono_r 2 n i ltac:(lia) Hi). destruct (Z.ltb_spec a 0).
  - assert (a / 2 ^ i = -1) as ->; [|done]. symmetry. apply (Z.div_unique _ _ _ (a + 2 ^ i)); lia.
  - by rewrite Z.div_small by lia.
Qed.

Definition swrap (n z : Z) : Z := (z + 2 ^ n) mod 2 ^ (n + 1) - 2 ^ n.

Lemma swrap_range n z : 0 <= n -> - 2 ^ n <= swrap n z < 2 ^ n.
Proof.
  intros Hn. unfold swrap. rewrite Z.pow_add_r, Z.pow_1_r by lia.
  pose proof (Z.mod_pos_bound (z + 2 ^ n) (2 ^ n * 2) ltac:(lia)). lia.
Qed.

Lemma swrap_testbit n z i : 0 <= n -> 0 <= i -> Z.testbit (swrap n z) i = Z.testbit z (Z.min i n).
Proof.
  intros Hn Hi.
  assert (Hlow : forall j, 0 <= j <= n -> Z.testbit (swrap n z) j = Z.testbit z j).
  { intros j Hj. rewrite <-(Z.mod_pow2_bits_low (swrap n z) (n + 1)), <-(Z.mod_pow2_bits_low z (n + 1)) by lia.
    f_equal. unfold swrap. rewrite Zminus_mod_idemp_l. f_equal. lia. }
  destruct (Z.le_ge_cases i n) as [Hin|Hin]; [rewrite Z.min_l by done; apply Hlow; lia|].
  rewrite Z.min_r by done. rewrite <-Hlow by lia.
  pose proof (swrap_range n z Hn). by rewrite !(testbit_signed n) by lia.
Qed.

(** A conversion that acts on bits alone. *)
Class Bitwise (conv : Z -> Z) : Prop := {
  conv_0 : conv 0 = 0;
  conv_lor a b : Z.lor (conv a) (conv b) = conv (Z.lor a b);
}.

Lemma swrap_bitwise n : 0 <= n -> Bitwise (swrap n).
Proof.
  intros Hn. split.
  - apply Z.bits_inj_0. intros i. destruct (Z.neg_nonneg_cases i) as [Hi|Hi]; [by rewrite Z.testbit_neg_r|].
    by rewrite swrap_testbit, Z.bits_0.
  - intros a b. apply Z.bits_inj'. intros i Hi. by rewrite Z.lor_spec, !swrap_testbit, Z.lor_spec.
Qed.

#[export] Instance i64_bitwise : Bitwise i64.
Proof. exact (swrap_bitwise 63 ltac:(lia)). Qed.
#[export] Instance i32_bitwise : Bitwise i32.
Proof. exact (swrap_bitwise 31 ltac:(lia)). Qed.
#[export] Instance u64_bitwise : Bitwise u64.
Proof.
  split; [done|]. intros a b. unfold u64. change two64 with (2 ^ 64). rewrite <-!Z.land_ones by lia.
  symmetry. apply Z.land_lor_distr_l.
Qed.

(** ** Varints *)

Lemma put_varint_loop_eq fuel num : 0 <= num ->
  put_varint_loop (S fuel) num =
    if num >=? 128 then (num mod 128 + 128) :: put_varint_loop fuel (num / 128) else [num].
Proof.
  intros Hn. cbn [put_varint_loop]. destruct (num >=? 128); [|done].
  rewrite Z.shiftr_div_pow2 by lia. change 127 with (Z.ones 7). rewrite Z.land_ones by lia.
  change (2 ^ 7) with 128. f_equal.
  assert (Z.land (num mod 128) 128 = 0) as E; [|pose proof (Z.add_lor_land (num mod 128) 128); lia].
  apply Z.bits_inj_0. intros i. rewrite Z.land_spec. change 128 with (2 ^ 7).
  rewrite Z.pow2_bits_eqb by lia. destruct (Z.eqb_spec 7 i) as [<-|]; [|apply andb_false_r].
  by rewrite Z.mod_pow2_bits_high by lia.
Qed.

(** The digits read so far and the digits left make up the number. *)
Lemma lor_digits a b k : 0 <= a < 2 ^ k -> 0 <= k -> Z.lor a (b * 2 ^ k) = a + b * 2 ^ k.
Proof.
  intros Ha Hk. assert (Z.land a (b * 2 ^ k) = 0) as E; [|pose proof (Z.add_lor_land a (b * 2 ^ k)); lia].
  apply Z.bits_inj_0. intros i. rewrite Z.land_spec.
  destruct (Z.lt_ge_cases i k).
  - by rewrite Z.mul_pow2_bits_low, andb_false_r by lia.
  - by rewrite <-(Z.mod_small a (2 ^ k)), Z.mod_pow2_bits_high by lia.
Qed.

Section varint.
Context (conv : Z -> Z) {B : Bitwise conv}.

Lemma get_varint_step fuel k v b data :
  0 <= 7 * k <= 63 -> 0 <= v < 2 ^ (7 * k) ->
  get_varint_loop (S fuel) conv (7 * k) (conv v) (b :: data) =
    let v := conv (v + (b mod 128) * 2 ^ (7 * k)) in
    if b <? 128 then inr (v, data) else get_varint_loop fuel conv (7 * (k + 1)) v data.
Proof.
  intros Hk Hv. cbn [get_varint_loop]. rewrite Z.geb_leb, (proj2 (Z.leb_gt _ _)) by lia.
  change 127 with (Z.ones 7). rewrite Z.land_ones, Z.shiftl_mul_pow2 by lia. change (2 ^ 7) with 128.
  rewrite conv_lor, lor_digits by lia. by replace (7 * k + 7) with (7 * (k + 1)) by lia.
Qed.

Lemma get_put_varint_loop fuel k v num rest :
  0 <= num < 2 ^ (7 * Z.of_nat fuel + 1) -> 0 <= k -> 0 <= v < 2 ^ (7 * k) -> 7 * (k + Z.of_nat fuel) <= 63 ->
  get_varint_loop (2 + fuel) conv (7 * k) (conv v) (put_varint_loop fuel num ++ rest) =
    inr (conv (v + num * 2 ^ (7 * k)), rest).
Proof.
  revert k v num. induction fuel as [|fuel IH]; intros k v num Hnum Hk Hv Hf.
  - cbn [put_varint_loop app Nat.add]. rewrite get_varint_step by lia. cbn zeta.
    by rewrite (proj2 (Z.ltb_lt _ _)), Z.mod_small by lia.
  - rewrite put_varint_loop_eq, Z.geb_leb by lia. destruct (Z.leb_spec 128 num) as [Hge|Hlt]; cbn [app].
    + change (2 + S fuel)%nat with (S (2 + fuel)). rewrite get_varint_step by lia. cbn zeta.
      pose proof (Z.div_mod num 128 ltac:(lia)). pose proof (Z.mod_pos_bound num 128 ltac:(lia)).
      rewrite (proj2 (Z.ltb_ge _ _)) by lia.
      replace ((num mod 128 + 128) mod 128) with (num mod 128)
        by (by rewrite (Z.add_mod _ 128), Z.mod_same, Z.add_0_r, !Z.mod_mod by lia).
      assert (2 ^ (7 * (k + 1)) = 128 * 2 ^ (7 * k)) as E.
      { replace (7 * (k + 1)) with (7 + 7 * k) by lia. by rewrite Z.pow_add_r by lia. }
      rewrite IH; [|split; [apply Z.div_pos; lia|]|lia| |lia].
      * do 3 f_equal. rewrite E. nia.
      * apply Z.div_lt_upper_bound; [lia|].
        replace (7 * Z.of_nat (S fuel) + 1) with (7 + (7 * Z.of_nat fuel + 1)) in Hnum by lia.
        rewrite Z.pow_add_r in Hnum by lia. lia.
      * rewrite E. nia.
    + change (2 + S fuel)%nat with (S (2 + fuel)). rewrite get_varint_step by lia. cbn zeta.
      by rewrite (proj2 (Z.ltb_lt _ _)), Z.mod_small by lia.
Qed.

Lemma get_put_varint num rest :
  is_u64 num -> get_varint conv (put_varint num ++ rest) = inr (conv num, rest).
Proof.
  intros Hn. pose proof (get_put_varint_loop 9 0 0 num rest) as E.
  rewrite (conv_0 (conv := conv)), Z.add_0_l, Z.mul_0_r, Z.pow_0_r, Z.mul_1_r in E. apply E; [exact Hn|lia..].
Qed.
End varint.

Lemma put_varint_byte num : 0 <= num < 128 -> put_varint num = [num].
Proof. intros. unfold put_varint. cbn. by rewrite Z.geb_leb, (proj2 (Z.leb_gt _ _)) by lia. Qed.

Lemma put_varint_nonempty num : 0 <= num -> put_varint num <> [].
Proof. intros. unfold put_varint. rewrite put_varint_loop_eq by done. by destruct (num >=? 128). Qed.

(** ** Numbers *)

Definition is_i32 (z : Z) : Prop := - 2 ^ 31 <= z < 2 ^ 31.

(** The values of a number's Go type. *)
Definition scalar_ok (k : Kind) (z : Z) : Prop :=
  match k with
  | Int64 | Sfixed64 => is_i64 z
  | Int32 => is_i32 z
  | Bool => z = 0 \/ z = 1
  | Fixed64 => is_u64 z
  end.

Lemma swrap_mod n z : 0 <= n -> swrap n (z mod 2 ^ 64) = swrap n z \/ 63 < n.
Proof.
  intros Hn. destruct (Z.le_gt_cases n 63); [left|by right].
  apply Z.bits_inj'. intros i Hi. rewrite !swrap_testbit by done. apply Z.mod_pow2_bits_low. lia.
Qed.
Lemma i32_u64 z : is_i32 z -> i32 (u64 z) = z.
Proof. intros Hz. destruct (swrap_mod 31 z ltac:(lia)) as [E|]; [|lia]. etrans; [exact E|]. by apply i32_id. Qed.

Lemma get_put_fixed64 z rest : get_fixed64 (LittleEndian_PutUint64 (u64 z) ++ rest) = inr (u64 z, rest).
Proof.
  unfold get_fixed64, LittleEndian_PutUint64, LittleEndian_Uint64.
  assert (length (reverse (be64 (u64 z))) = 8%nat) as El by (by rewrite length_reverse, length_be64).
  rewrite length_app, El. replace (8 + length rest <? 8)%nat with false by (symmetry; apply Nat.ltb_ge; lia).
  rewrite take_app_length', drop_app_length', reverse_involutive, be64_value by done.
  by rewrite u64_id by apply is_u64_u64.
Qed.

(** What [protohelpers] documents: base-128 varints, their size, and that a field is skipped
    by moving forward. *)
Class ProtohelpersOk (PH : Protohelpers) : Prop := {
  EncodeVarint_spec v : is_u64 v -> EncodeVarint v = put_varint v;
  SizeOfVarint_spec v : is_u64 v -> SizeOfVarint v = len (put_varint v);
  Skip_forward data n : Skip data = Some n -> 0 < n;
}.

Section wire.
Context {PH : Protohelpers} {PO : ProtohelpersOk PH}.

Lemma get_put_element k z rest : scalar_ok k z -> get_scalar k (put_element k z ++ rest) = inr (z, rest).
Proof.
  destruct k; cbn [scalar_ok put_element get_scalar]; intros Hz.
  - by rewrite (get_put_varint i64), i64_u64 by auto.
  - by rewrite (get_put_varint i32), i32_u64 by auto.
  - rewrite (get_put_varint i64) by auto. cbn. by destruct Hz as [->| ->].
  - rewrite get_put_fixed64. by rewrite u64_id.
  - rewrite get_put_fixed64. cbn. by rewrite i64_u64.
Qed.

Lemma put_scalar_element k z : scalar_ok k z -> put_scalar k z = put_element k z.
Proof.
  destruct k; cbn; intros Hz; try done; try by rewrite EncodeVarint_spec.
  destruct Hz as [->| ->]; done.
Qed.
Lemma get_put_scalar k z rest : scalar_ok k z -> get_scalar k (put_scalar k z ++ rest) = inr (z, rest).
Proof. intros Hz. by rewrite put_scalar_element, get_put_element. Qed.

(** ** The rest of the input is shorter *)

Lemma bind_inr {A B} (r : PRes A) (f : A -> PRes B) b : r ≫= f = inr b <-> exists a, r = inr a /\ f a = inr b.
Proof. destruct r; cbn; naive_solver. Qed.
Lemma then_inr {A B} (r : PRes A) (k : PRes B) b : (r ;; k) = inr b <-> (exists a, r = inr a) /\ k = inr b.
Proof. destruct r; cbn; naive_solver. Qed.

Lemma get_varint_loop_shorter conv fuel shift v data z rest :
  get_varint_loop fuel conv shift v data = inr (z, rest) -> (length rest < length data)%nat.
Proof.
  revert shift v data. induction fuel as [|fuel IH]; intros shift v data; cbn [get_varint_loop]; [done|].
  destruct (shift >=? 64); [done|]. destruct data as [|b data]; [done|]. cbn zeta.
  destruct (b <? 128); [intros [= _ <-]; cbn; lia|]. intros E%IH. cbn. lia.
Qed.
Lemma get_varint_shorter conv data z rest :
  get_varint conv data = inr (z, rest) -> (length rest < length data)%nat.
Proof. apply get_varint_loop_shorter. Qed.
Lemma get_fixed64_shorter data z rest : get_fixed64 data = inr (z, rest) -> (length rest < length data)%nat.
Proof.
  unfold get_fixed64. destruct (Nat.ltb_spec (length data) 8); [done|]. intros [= _ <-].
  rewrite length_drop. lia.
Qed.
Lemma get_scalar_shorter k data z rest : get_scalar k data = inr (z, rest) -> (length rest < length data)%nat.
Proof.
  destruct k; cbn [get_scalar]; try apply get_varint_shorter; try apply get_fixed64_shorter.
  - destruct (get_varint i64 data) as [|[z' r']] eqn:E; [done|]. intros [= _ <-]. by eapply get_varint_shorter.
  - destruct (get_fixed64 data) as [|[z' r']] eqn:E; [done|]. intros [= _ <-]. by eapply get_fixed64_shorter.
Qed.
Lemma get_slice_rest l n data body rest :
  get_slice l n data = inr (body, rest) -> (length rest <= length data)%nat.
Proof.
  unfold get_slice. destruct (n <? 0); [done|]. cbn zeta. destruct (_ <? 0); [done|].
  destruct (_ >? _); [done|]. intros [= _ <-]. rewrite length_drop. lia.
Qed.
Lemma get_bytes_shorter l data body rest :
  get_bytes l data = inr (body, rest) -> (length rest < length data)%nat.
Proof.
  unfold get_bytes. destruct (get_varint i64 data) as [|[n r]] eqn:E; [done|]. cbn.
  intros E2%get_slice_rest. apply get_varint_shorter in E. lia.
Qed.
Lemma get_packed_rest fuel k stop data acc l rest :
  get_packed fuel k stop data acc = inr (l, rest) -> (length rest <= length data)%nat.
Proof.
  revert data acc. induction fuel as [|fuel IH]; intros data acc; cbn [get_packed].
  - destruct (_ <=? _)%nat; [|done]. by intros [= _ <-].
  - destruct (_ <=? _)%nat; [by intros [= _ <-]|].
    destruct (get_scalar k data) as [|[z r]] eqn:E; [done|]. cbn. intros E2%IH.
    apply get_scalar_shorter in E. lia.
Qed.

Lemma decode_field_rest t wire v l data v' rest :
  decode_field t wire v l data = inr (v', rest) -> (length rest <= length data)%nat.
Proof.
  destruct t; cbn [decode_field].
  - intros [_ ([z r] & E%get_scalar_shorter & [= _ <-])%bind_inr]%then_inr. cbn. lia.
  - intros [_ ([b r] & E%get_bytes_shorter & [= _ <-])%bind_inr]%then_inr. cbn. lia.
  - intros [_ ([b r] & E%get_bytes_shorter & (vs & _ & [= _ <-])%bind_inr)%bind_inr]%then_inr. cbn. lia.
  - intros [_ ([b r] & E%get_bytes_shorter & (vs & _ & [= _ <-])%bind_inr)%bind_inr]%then_inr. cbn. lia.
  - cbn zeta. destruct (wire =? wire_type k).
    + intros ([z r] & E%get_scalar_shorter & [= _ <-])%bind_inr. cbn. lia.
    + intros [_ ([n r] & E%get_varint_shorter & (b & _ & ([ns r'] & E3%get_packed_rest & [= _ <-])%bind_inr)%bind_inr)%bind_inr]%then_inr.
      cbn in *. lia.
Qed.

(** ** The loop *)

(** One iteration: a field is read into the message, or skipped. *)
Definition decode_step (fs : Desc) (l : Z) (data : bytes) (cur : list Val) : PRes (list Val * bytes) :=
  p ← get_varint u64 data;
  let fieldNum := i32 (Z.shiftr p.1 3) in
  let wireType := Z.land p.1 7 in
  if wireType =? 4 then inl ErrEndGroup
  else if fieldNum <=? 0 then inl ErrIllegalTag
  else
    match switch_with decode_field fieldNum wireType l p.2 fs cur with
    | Some r => r
    | None =>
        skippy ← skip data;
        if (skippy <? 0) || (i64 (l - len data + skippy) <? 0) then inl ErrInvalidLength
        else if i64 (l - len data + skippy) >? l then inl ErrUnexpectedEOF
        else inr (cur, drop (Z.to_nat skippy) data)
    end.

Lemma decode_loop_step fs fuel l data cur :
  data <> [] ->
  decode_loop fs (S fuel) l data cur = p ← decode_step fs l data cur; decode_loop fs fuel l p.2 p.1.
Proof.
  intros Hd. unfold decode_loop at 1. cbn [decode_loop_with]. destruct data as [|b data]; [done|].
  unfold decode_step. destruct (get_varint u64 (b :: data)) as [|[w r]]; [done|]. cbn [mbind PRes_bind fst snd].
  cbn zeta. destruct (_ =? 4); [done|]. destruct (_ <=? 0); [done|].
  destruct (switch_with _ _ _ _ _ _ _) as [q|]; [done|].
  destruct (skip (b :: data)); [done|]. cbn [mbind PRes_bind]. destruct (_ || _); [done|].
  destruct (_ >? _); done.
Qed.

Lemma decode_loop_nil fs fuel l cur : decode_loop fs fuel l [] cur = inr cur.
Proof. by destruct fuel. Qed.

Lemma switch_rest n wire l data fs vs vs' rest :
  switch_with decode_field n wire l data fs vs = Some (inr (vs', rest)) -> (length rest <= length data)%nat.
Proof.
  revert vs vs'. induction fs as [|f fs IH]; intros [|v vs] vs'; cbn [switch_with]; try done.
  destruct (f.1 =? n).
  - intros [= ([v' r] & E & [= _ <-])%bind_inr]. by apply decode_field_rest in E.
  - intros (r & E & Er)%fmap_Some. symmetry in Er. apply bind_inr in Er as ([vs1 r1] & -> & [= _ <-]). by apply IH in E.
Qed.

Lemma decode_step_shorter fs l data cur cur' rest :
  data <> [] -> decode_step fs l data cur = inr (cur', rest) -> (length rest < length data)%nat.
Proof.
  intros Hd. unfold decode_step. intros ([w r] & E%get_varint_shorter & Es)%bind_inr. cbn [fst snd] in *.
  cbn zeta in Es. destruct (_ =? 4); [done|]. destruct (_ <=? 0); [done|].
  destruct (switch_with _ _ _ _ _ _ _) as [q|] eqn:Eq; [|].
  - subst q. apply switch_rest in Eq. lia.
  - apply bind_inr in Es as (n & En & Es). unfold skip in En.
    destruct (Skip data) as [m|] eqn:Em; [|done]. injection En as ->. apply Skip_forward in Em. destruct (_ || _); [done|]. destruct (_ >? _); [done|].
    injection Es as _ <-. rewrite length_drop. destruct data; [done|]. cbn [length]. lia.
Qed.

(** The bound of the loop does not matter once it is the length of the input. *)
Lemma decode_loop_fuel fs fuel l data cur :
  (length data <= fuel)%nat -> decode_loop fs fuel l data cur = decode_loop fs (length data) l data cur.
Proof.
  revert data cur. induction fuel as [fuel IH] using lt_wf_ind; intros data cur Hf.
  destruct data as [|b data]; [by rewrite !decode_loop_nil|]. destruct fuel as [|fuel]; [cbn in Hf; lia|].
  cbn [length]. rewrite !decode_loop_step by done.
  destruct (decode_step fs l (b :: data) cur) as [e|[cur' rest]] eqn:E; [done|]. cbn [mbind PRes_bind fst snd].
  apply decode_step_shorter in E; [|done]. cbn [length] in *.
  destruct (decide (length data = fuel)) as [->|]; [done|].
  rewrite (IH fuel) by lia. by rewrite (IH (length data)) by lia.
Qed.

Definition run (fs : Desc) (l : Z) (data : bytes) (cur : list Val) : PRes (list Val) :=
  decode_loop fs (length data) l data cur.

Lemma run_step fs l data cur cur' rest :
  data <> [] -> decode_step fs l data cur = inr (cur', rest) -> run fs l data cur = run fs l rest cur'.
Proof.
  intros Hd E. unfold run. destruct data as [|b data]; [done|]. cbn [length].
  rewrite decode_loop_step, E by done. cbn [mbind PRes_bind fst snd].
  apply decode_step_shorter in E; [|done]. apply decode_loop_fuel. cbn in E. lia.
Qed.

(** ** Any input is decoded in the bound *)

Lemma get_varint_bound conv data : get_varint conv data <> inl ErrLoopBound.
Proof.
  unfold get_varint. enough (Hloop : forall fuel shift v, 71 <= shift + 7 * Z.of_nat fuel ->
    forall data, get_varint_loop fuel conv shift v data <> inl ErrLoopBound \/ fuel = 0%nat) by (by destruct (Hloop 11%nat 0 0 ltac:(lia) data)).
  induction fuel as [|fuel IH]; intros shift v Hs d; [by right|left]. cbn [get_varint_loop].
  rewrite Z.geb_leb. destruct (Z.leb_spec 64 shift); [done|]. destruct d as [|b d]; [done|]. cbn zeta.
  destruct (b <? 128); [done|]. edestruct (IH (shift + 7)) as [Hd| ->]; [lia|exact Hd|]. lia.
Qed.

Lemma bind_bound {A B} (r : PRes A) (f : A -> PRes B) :
  r <> inl ErrLoopBound -> (forall a, r = inr a -> f a <> inl ErrLoopBound) -> r ≫= f <> inl ErrLoopBound.
Proof. destruct r; cbn; auto. congruence. Qed.

Lemma get_scalar_bound k data : get_scalar k data <> inl ErrLoopBound.
Proof.
  assert (get_fixed64 data <> inl ErrLoopBound) by (unfold get_fixed64; by destruct (_ <? _)%nat).
  destruct k; cbn [get_scalar]; try apply get_varint_bound; try done; apply bind_bound; try done; apply get_varint_bound.
Qed.
Lemma get_slice_bound l n data : get_slice l n data <> inl ErrLoopBound.
Proof. unfold get_slice. destruct (n <? 0); [done|]. cbn zeta. destruct (_ <? 0); [done|]. by destruct (_ >? _). Qed.
Lemma get_bytes_bound l data : get_bytes l data <> inl ErrLoopBound.
Proof. apply bind_bound; [apply get_varint_bound|]. intros p _. apply get_slice_bound. Qed.
Lemma get_packed_bound fuel k stop data acc :
  (length data <= fuel)%nat -> get_packed fuel k stop data acc <> inl ErrLoopBound.
Proof.
  revert data acc. induction fuel as [|fuel IH]; intros data acc Hf; cbn [get_packed].
  - destruct data; [done|cbn in Hf; lia].
  - destruct (_ <=? _)%nat; [done|]. apply bind_bound; [apply get_scalar_bound|].
    intros [z r] E%get_scalar_shorter. apply IH. cbn. lia.
Qed.
Lemma expect_bound b : expect b <> inl ErrLoopBound.
Proof. by destruct b. Qed.

Lemma switch_bound n wire l data fs vs r :
  Forall (fun f => forall wire v l data, decode_field f.2 wire v l data <> inl ErrLoopBound) fs ->
  switch_with decode_field n wire l data fs vs = Some r -> r <> inl ErrLoopBound.
Proof.
  intros Hfs. revert vs r. induction Hfs as [|f fs Hf Hfs IH]; intros [|v vs] r; cbn [switch_with]; try done.
  destruct (f.1 =? n).
  - intros [= <-]. apply bind_bound; [apply Hf|done].
  - intros (r' & E & ->)%fmap_Some. apply bind_bound; [by eapply IH|done].
Qed.

Lemma decode_loop_bound fs l data cur :
  Forall (fun f => forall wire v l data, decode_field f.2 wire v l data <> inl ErrLoopBound) fs ->
  run fs l data cur <> inl ErrLoopBound.
Proof.
  intros Hfs. remember (length data) as n eqn:En. revert data cur En.
  induction n as [n IH] using lt_wf_ind; intros data cur ->. unfold run.
  destruct data as [|b data]; [by rewrite decode_loop_nil|]. cbn [length]. rewrite decode_loop_step by done.
  apply bind_bound.
  - unfold decode_step. apply bind_bound; [apply get_varint_bound|]. intros p _. cbn zeta.
    destruct (_ =? 4); [done|]. destruct (_ <=? 0); [done|].
    destruct (switch_with _ _ _ _ _ _ _) as [q|] eqn:Eq; [by eapply switch_bound|].
    apply bind_bound; [unfold skip; by destruct (Skip _)|]. intros s _. destruct (_ || _); [done|]. by destruct (_ >? _).
  - intros [cur' rest] E. apply decode_step_shorter in E; [|done]. cbn [fst snd].
    rewrite decode_loop_fuel by (cbn in E; lia). by apply (IH (length rest)).
Qed.

Lemma decode_field_bound t wire v l data : decode_field t wire v l data <> inl ErrLoopBound.
Proof.
  revert wire v l data. induction t as [k| |k|fs IH|fs IH] using FieldType_ind; intros wire v l data; cbn [decode_field].
  - apply bind_bound; [apply expect_bound|]. intros _ _. apply bind_bound; [apply get_scalar_bound|done].
  - apply bind_bound; [apply expect_bound|]. intros _ _. apply bind_bound; [apply get_bytes_bound|done].
  - cbn zeta. destruct (wire =? wire_type k); [apply bind_bound; [apply get_scalar_bound|done]|].
    apply bind_bound; [apply expect_bound|]. intros _ _. apply bind_bound; [apply get_varint_bound|]. intros n _.
    apply bind_bound; [apply get_slice_bound|]. intros b _. apply bind_bound; [by apply get_packed_bound|done].
  - apply bind_bound; [apply expect_bound|]. intros _ _. apply bind_bound; [apply get_bytes_bound|]. intros p _.
    apply bind_bound; [|done]. by apply (decode_loop_bound fs (len p.1) p.1).
  - apply bind_bound; [apply expect_bound|]. intros _ _. apply bind_bound; [apply get_bytes_bound|]. intros p _.
    apply bind_bound; [|done]. by apply (decode_loop_bound fs (len p.1) p.1).
Qed.

(** Decoding any bytes ends. *)
Lemma decode_message_bound d data : decode_message d data <> inl ErrLoopBound.
Proof.
  apply decode_loop_bound. apply Forall_forall. intros f _. apply decode_field_bound.
Qed.

(** ** Values of a message's Go type *)

Definition typed_fields_with (typed : FieldType -> Val -> Prop) : Desc -> list Val -> Prop :=
  fix go fs vs :=
    match fs, vs with
    | [], [] => True
    | f :: fs, v :: vs => typed f.2 v /\ go fs vs
    | _, _ => False
    end.
Fixpoint typed_field (t : FieldType) (v : Val) : Prop :=
  match t, v with
  | TScalar k, VNum z => scalar_ok k z
  | TBytes, VBytes _ => True
  | TMessage fs, VMsg None => True
  | TMessage fs, VMsg (Some vs) => typed_fields_with typed_field fs vs
  | TRepeated fs, VMsgs l => Forall (typed_fields_with typed_field fs) l
  | TPacked k, VNums l => Forall (scalar_ok k) l
  | _, _ => False
  end.
Definition typed_fields : Desc -> list Val -> Prop := typed_fields_with typed_field.

(** Distinct field numbers below 16. *)
Fixpoint wf_type (t : FieldType) : bool :=
  match t with
  | TMessage fs | TRepeated fs =>
      bool_decide (NoDup fs.*1) && forallb (fun f => (1 <=? f.1) && (f.1 <? 16) && wf_type f.2) fs
  | _ => true
  end.
Definition wf_desc (d : Desc) : bool := wf_type (TMessage d).

Lemma wf_desc_spec d :
  wf_desc d = true -> NoDup d.*1 /\ Forall (fun f => 1 <= f.1 < 16 /\ wf_type f.2 = true) d.
Proof.
  unfold wf_desc. cbn [wf_type]. intros [Hn Hf]%andb_true_iff. apply bool_decide_eq_true in Hn. split; [done|].
  apply Forall_forall. intros f Hin. rewrite forallb_forall in Hf.
  specialize (Hf f (proj1 (list_elem_of_In _ _) Hin)). rewrite !andb_true_iff in Hf.
  destruct Hf as [[? ?] ?]. split; [lia|done].
Qed.

(** ** Round trip *)

Lemma get_tag n wire data :
  1 <= n < 16 -> 0 <= wire <= 2 -> get_varint u64 (tag n wire ++ data) = inr (8 * n + wire, data).
Proof.
  intros Hn Hw. unfold tag. assert (is_u64 (8 * n + wire)) by (unfold is_u64; change two64 with (2 ^ 64); lia).
  rewrite Z.lor_comm, Z.shiftl_mul_pow2, lor_digits by lia.
  replace (wire + n * 2 ^ 3) with (8 * n + wire) by lia.
  by rewrite <-(put_varint_byte (8 * n + wire)), (get_put_varint u64), u64_id by (done || lia).
Qed.
Lemma tag_parts n wire :
  1 <= n < 16 -> 0 <= wire <= 2 -> i32 (Z.shiftr (8 * n + wire) 3) = n /\ Z.land (8 * n + wire) 7 = wire.
Proof.
  intros Hn Hw. rewrite Z.shiftr_div_pow2 by lia. change 7 with (Z.ones 3). rewrite Z.land_ones by lia.
  change (2 ^ 3) with 8. rewrite Z.mul_comm, Z.div_add_l, Z.div_small, Z.add_0_r by lia.
  rewrite i32_id by lia. split; [done|]. rewrite Z.add_comm, Z.mod_add, Z.mod_small by lia. done.
Qed.

Lemma get_bytes_put l body rest :
  len (with_length body ++ rest) <= l < two63 -> get_bytes l (with_length body ++ rest) = inr (body, rest).
Proof.
  intros Hl. unfold get_bytes, with_length in *. unfold len in Hl. rewrite !length_app in Hl.
  assert (is_u64 (len body) /\ is_i64 (len body)) as [Hu Hi]
    by (unfold is_u64, is_i64, len; change two64 with (2 * two63); lia).
  rewrite EncodeVarint_spec, <-app_assoc, (get_put_varint i64) by done. cbn [mbind PRes_bind fst snd].
  rewrite i64_id by done. unfold get_slice. rewrite (proj2 (Z.ltb_ge _ _)) by (unfold len; lia). cbn zeta.
  rewrite i64_id by (unfold is_i64, len; rewrite length_app; lia).
  rewrite (proj2 (Z.ltb_ge _ _)), Z.gtb_ltb, (proj2 (Z.ltb_ge _ _)) by (unfold len; rewrite length_app; lia).
  unfold len. by rewrite Nat2Z.id, take_app_length, drop_app_length.
Qed.

Lemma switch_at n t wire l data fd fr vd v vr :
  n ∉ fd.*1 -> length vd = length fd ->
  switch_with decode_field n wire l data (fd ++ (n, t) :: fr) (vd ++ v :: vr) =
    Some (p ← decode_field t wire v l data; inr (vd ++ p.1 :: vr, p.2)).
Proof.
  revert vd. induction fd as [|f fd IH]; intros [|x vd] Hn Hl; try done; cbn [app switch_with fst snd].
  - by rewrite Z.eqb_refl.
  - cbn in Hn. apply not_elem_of_cons in Hn as [Hne Hn]. rewrite (proj2 (Z.eqb_neq _ _)) by done.
    rewrite IH by (done || (cbn in Hl; lia)). cbn. by destruct (decode_field t wire v l data).
Qed.

(** A field read at the front of the input. *)
Lemma run_field n t wire payload rest l fd fr vd v v' vr :
  1 <= n < 16 -> 0 <= wire <= 2 -> n ∉ fd.*1 -> length vd = length fd ->
  decode_field t wire v l (payload ++ rest) = inr (v', rest) ->
  run (fd ++ (n, t) :: fr) l ((tag n wire ++ payload) ++ rest) (vd ++ v :: vr) =
  run (fd ++ (n, t) :: fr) l rest (vd ++ v' :: vr).
Proof.
  intros Hn Hw Hfd Hl Hd. apply run_step; [done|]. unfold decode_step. rewrite <-app_assoc, get_tag by done.
  cbn [mbind PRes_bind fst snd]. cbn zeta. destruct (tag_parts n wire Hn Hw) as [-> ->].
  rewrite (proj2 (Z.eqb_neq _ _)), (proj2 (Z.leb_gt _ _)) by lia. rewrite switch_at by done.
  rewrite Hd. done.
Qed.

Lemma len_app {A} (a b : list A) : len (a ++ b) = len a + len b.
Proof. unfold len. rewrite length_app. lia. Qed.
Lemma len_nonneg {A} (a : list A) : 0 <= len a.
Proof. unfold len. lia. Qed.

Lemma framed_len n body rest l :
  len ((tag n 2 ++ with_length body) ++ rest) <= l < two63 ->
  len (with_length body ++ rest) <= l < two63 /\ 0 <= len body < two63.
Proof.
  unfold with_length. rewrite !len_app. pose proof (len_nonneg (tag n 2)).
  pose proof (len_nonneg (EncodeVarint (len body))). pose proof (len_nonneg rest). pose proof (len_nonneg body). lia.
Qed.

(** The field's encoding, in front of anything, sets the field from zero to [v]. *)
Definition reads_as (t : FieldType) (v : Val) : Prop := forall n fd fr vd vr rest l,
  1 <= n < 16 -> n ∉ fd.*1 -> length vd = length fd ->
  len (encode_field n t v ++ rest) <= l < two63 ->
  run (fd ++ (n, t) :: fr) l (encode_field n t v ++ rest) (vd ++ zero_val t :: vr) =
  run (fd ++ (n, t) :: fr) l rest (vd ++ v :: vr).

Lemma reads_scalar k z : scalar_ok k z -> reads_as (TScalar k) (VNum z).
Proof.
  intros Hz n fd fr vd vr rest l Hn Hfd Hl Hlen. cbn [encode_field zero_val] in *.
  destruct (Z.eqb_spec z 0) as [->|Hne]; [done|]. apply run_field; try done; [by destruct k|].
  cbn [decode_field]. by rewrite Z.eqb_refl, get_put_scalar.
Qed.

Lemma reads_bytes b : reads_as TBytes (VBytes b).
Proof.
  intros n fd fr vd vr rest l Hn Hfd Hl Hlen. cbn [encode_field zero_val] in *. rewrite Z.gtb_ltb in *.
  destruct (Z.ltb_spec 0 (len b)) as [Hb|Hb].
  - apply run_field; try done. cbn [decode_field]. rewrite get_bytes_put; [done|].
    by apply framed_len in Hlen as [??].
  - by destruct b; [|unfold len in Hb; cbn in Hb; lia].
Qed.

Lemma get_packed_put k l rest acc fuel :
  Forall (scalar_ok k) l -> (length (concat (put_element k <$> l) ++ rest) <= fuel)%nat ->
  get_packed fuel k (length rest) (concat (put_element k <$> l) ++ rest) acc = inr (acc ++ l, rest).
Proof.
  intros Hl. revert acc fuel. induction Hl as [|z l Hz Hl IH]; intros acc fuel Hf.
  - cbn [fmap list_fmap concat app] in *. destruct fuel; cbn [get_packed]; by rewrite Nat.leb_refl, app_nil_r.
  - cbn [fmap list_fmap concat] in *. rewrite <-app_assoc in *.
    pose proof (get_put_element k z (concat (put_element k <$> l) ++ rest) Hz) as Eg.
    pose proof (get_scalar_shorter _ _ _ _ Eg) as Hs. rewrite !length_app in Hf. repeat rewrite length_app in Hs.
    destruct fuel as [|fuel]; [lia|]. cbn [get_packed].
    rewrite (proj2 (Nat.leb_gt _ _)) by (rewrite !length_app; lia). rewrite Eg. cbn [mbind PRes_bind fst snd].
    rewrite IH; [by rewrite <-app_assoc|]. rewrite length_app. lia.
Qed.

Lemma reads_packed k ns : Forall (scalar_ok k) ns -> reads_as (TPacked k) (VNums ns).
Proof.
  intros Hns n fd fr vd vr rest l Hn Hfd Hl Hlen. cbn [encode_field zero_val] in *. rewrite Z.gtb_ltb in *.
  destruct (Z.ltb_spec 0 (len ns)) as [Hb|Hb]; [|by destruct ns; [|unfold len in Hb; cbn in Hb; lia]].
  set (body := concat (put_element k <$> ns)) in *. apply run_field; try done. cbn [decode_field]. cbn zeta.
  replace (2 =? wire_type k) with false by (by destruct k). cbn [expect mbind PRes_bind].
  apply framed_len in Hlen as [Hlen2 Hb2].
  pose proof (get_bytes_put l body rest Hlen2) as Eg. unfold get_bytes in Eg.
  apply bind_inr in Eg as ([m r] & E1 & E2). rewrite E1. cbn [mbind PRes_bind fst snd] in *. rewrite E2.
  cbn [mbind PRes_bind fst snd].
  assert (r = body ++ rest) as ->.
  { unfold with_length in E1. assert (is_u64 (len body)) by (unfold is_u64; change two64 with (2 * two63); lia).
    rewrite EncodeVarint_spec, <-app_assoc, (get_put_varint i64) in E1 by done. by injection E1. }
  unfold body. by rewrite get_packed_put.
Qed.

(** *** Messages *)

Lemma encode_fields_cons f fs v vs :
  encode_fields (f :: fs) (v :: vs) = encode_field f.1 f.2 v ++ encode_fields fs vs.
Proof. done. Qed.

Lemma run_fields fd vd fs vs l :
  Forall (fun f => wf_type f.2 = true -> forall v, typed_field f.2 v -> reads_as f.2 v) fs ->
  Forall (fun f => 1 <= f.1 < 16 /\ wf_type f.2 = true) fs ->
  NoDup (fd ++ fs).*1 -> length vd = length fd -> typed_fields fs vs ->
  len (encode_fields fs vs) <= l < two63 ->
  run (fd ++ fs) l (encode_fields fs vs) (vd ++ zero_message fs) = inr (vd ++ vs).
Proof.
  revert fd vd vs. induction fs as [|[n t] fs IH]; intros fd vd vs Hr Hw Hnd Hl Ht Hlen.
  - destruct vs; [|done]. by rewrite app_nil_r.
  - destruct vs as [|v vs]; [done|]. destruct Ht as [Hv Hvs]. rewrite encode_fields_cons in *. cbn [fst snd] in *.
    apply Forall_cons in Hr as [Hr Hrs], Hw as [[Hn Hwt] Hws]. cbn [zero_message fmap list_fmap fst snd] in *.
    rewrite (Hr Hwt v Hv); [|done| |done|done].
    + change (fd ++ (n, t) :: fs) with (fd ++ [(n, t)] ++ fs). rewrite (app_assoc fd).
      change (vd ++ v :: ?x) with (vd ++ [v] ++ x). rewrite (app_assoc vd).
      rewrite IH; [by rewrite <-app_assoc|done|done|by rewrite <-app_assoc| |done|].
      * rewrite !length_app, Hl. done.
      * rewrite len_app in Hlen. pose proof (len_nonneg (encode_field n t v)). lia.
    + rewrite fmap_app in Hnd. apply NoDup_app in Hnd as (_ & Hd & _). intros Hin. apply (Hd n Hin). left.
Qed.

Lemma decode_encode_fields fs vs :
  Forall (fun f => wf_type f.2 = true -> forall v, typed_field f.2 v -> reads_as f.2 v) fs ->
  wf_desc fs = true -> typed_fields fs vs -> len (encode_fields fs vs) < two63 ->
  run fs (len (encode_fields fs vs)) (encode_fields fs vs) (zero_message fs) = inr vs.
Proof.
  intros Hr [Hnd Hw]%wf_desc_spec Ht Hlen. apply (run_fields [] []); try done.
Qed.

Lemma reads_message fs vs :
  Forall (fun f => wf_type f.2 = true -> forall v, typed_field f.2 v -> reads_as f.2 v) fs ->
  wf_desc fs = true -> typed_fields fs vs -> reads_as (TMessage fs) (VMsg (Some vs)).
Proof.
  intros Hr Hw Ht n fd fr vd vr rest l Hn Hfd Hl Hlen. cbn [encode_field zero_val] in *.
  fold (encode_fields fs vs) in *. apply run_field; try done. cbn [decode_field expect].
  apply framed_len in Hlen as [Hlen2 Hb].
  cbn [mbind PRes_bind Z.eqb Pos.eqb]. rewrite get_bytes_put by done. cbn [mbind PRes_bind fst snd].
  pose proof (decode_encode_fields fs vs Hr Hw Ht (proj2 Hb)) as E. unfold run, decode_loop in E.
  by rewrite E.
Qed.

Lemma run_repeated fs ms ms0 n fd fr vd vr rest l :
  Forall (fun f => wf_type f.2 = true -> forall v, typed_field f.2 v -> reads_as f.2 v) fs ->
  wf_desc fs = true -> Forall (typed_fields fs) ms ->
  1 <= n < 16 -> n ∉ fd.*1 -> length vd = length fd ->
  len (encode_field n (TRepeated fs) (VMsgs ms) ++ rest) <= l < two63 ->
  run (fd ++ (n, TRepeated fs) :: fr) l (encode_field n (TRepeated fs) (VMsgs ms) ++ rest) (vd ++ VMsgs ms0 :: vr) =
  run (fd ++ (n, TRepeated fs) :: fr) l rest (vd ++ VMsgs (ms0 ++ ms) :: vr).
Proof.
  intros Hr Hw Hms Hn Hfd Hl. revert ms0. induction Hms as [|vs ms Ht Hms IH]; intros ms0 Hlen.
  - by rewrite app_nil_r.
  - cbn [encode_field fmap list_fmap concat] in *. fold (encode_fields fs vs) in *. rewrite <-app_assoc in *.
    rewrite (run_field n _ 2 _ _ l fd fr vd (VMsgs ms0) (VMsgs (ms0 ++ [vs])) vr); try done.
    + rewrite IH; [by rewrite <-app_assoc|]. rewrite len_app in Hlen.
      pose proof (len_nonneg (tag n 2 ++ with_length (encode_fields fs vs))). lia.
    + apply framed_len in Hlen as [Hlen2 Hb].
      cbn [decode_field expect mbind PRes_bind Z.eqb Pos.eqb]. rewrite get_bytes_put by done. cbn [mbind PRes_bind fst snd].
      pose proof (decode_encode_fields fs vs Hr Hw Ht (proj2 Hb)) as E. unfold run, decode_loop in E. by rewrite E.
Qed.

(** Every typed value of a well-formed field survives. *)
Lemma field_reads t v : wf_type t = true -> typed_field t v -> reads_as t v.
Proof.
  revert v. induction t as [k| |k|fs IH|fs IH] using FieldType_ind; intros v Hw Ht.
  - destruct v; try done. by apply reads_scalar.
  - destruct v; try done. by apply reads_bytes.
  - destruct v; try done. by apply reads_packed.
  - destruct v as [| |[vs|]| |]; try done. apply reads_message; [|done|done].
    eapply Forall_impl; [exact IH|]. intros f H Hf v. by apply H.
  - destruct v as [| | |ms|]; try done. intros n fd fr vd vr rest l Hn Hfd Hl Hlen. cbn [zero_val].
    rewrite run_repeated; try done. eapply Forall_impl; [exact IH|]. intros f H Hf v. by apply H.
Qed.

(** Decoding gives back every typed message that fits a Go slice. *)
Lemma decode_encode d vs :
  wf_desc d = true -> typed_fields d vs -> len (encode_fields d vs) < two63 ->
  decode_message d (encode_fields d vs) = inr vs.
Proof.
  intros. apply decode_encode_fields; try done. apply Forall_forall. intros f _ Hw v. by apply field_reads.
Qed.

(** ** Filling the buffer from the back gives the encoding *)

Definition fills (t : FieldType) : Prop := forall n v buf, fill_field n t v buf = encode_field n t v ++ buf.

Lemma close_field_eq n body buf : close_field n buf (body ++ buf) = (tag n 2 ++ with_length body) ++ buf.
Proof.
  unfold close_field, with_length. rewrite len_app. replace (len body + len buf - len buf) with (len body) by lia.
  by rewrite !app_assoc.
Qed.

Lemma fill_fields_eq_of fs vs buf :
  Forall (fun f => fills f.2) fs -> fill_fields fs vs buf = encode_fields fs vs ++ buf.
Proof.
  intros Hf. revert vs. induction Hf as [|f fs Hf Hfs IH]; intros [|v vs]; try done.
  rewrite encode_fields_cons, <-app_assoc, <-IH. apply Hf.
Qed.

Lemma fill_field_eq t : fills t.
Proof.
  induction t as [k| |k|fs IH|fs IH] using FieldType_ind; intros n v buf; destruct v; try done;
    cbn [fill_field encode_field].
  - by destruct (z =? 0); rewrite <-?app_assoc.
  - by destruct (len b >? 0); unfold with_length; rewrite <-?app_assoc.
  - destruct (len l >? 0); [|done]. apply close_field_eq.
  - destruct m as [vs|]; [|done]. fold (fill_fields fs vs buf). rewrite fill_fields_eq_of by done. apply close_field_eq.
  - induction l as [|vs l IHl]; [done|]. cbn [fold_right fmap list_fmap concat]. rewrite IHl.
    fold (fill_fields fs vs (concat ((fun vs => tag n 2 ++ with_length (encode_fields_with encode_field fs vs)) <$> l) ++ buf)).
    rewrite fill_fields_eq_of, close_field_eq by done. apply (app_assoc (tag n 2 ++ _)).
Qed.

(** [MarshalToSizedBufferVT] on an empty buffer writes the encoding. *)
Lemma fill_fields_eq d vs : fill_fields d vs [] = encode_fields d vs.
Proof.
  rewrite fill_fields_eq_of, app_nil_r; [done|]. apply Forall_forall. intros f _. apply fill_field_eq.
Qed.

(** ** [SizeVT] is the length of the encoding *)

Lemma be64_len z : len (LittleEndian_PutUint64 z) = 8.
Proof. unfold LittleEndian_PutUint64, len. by rewrite length_reverse, length_be64. Qed.

Lemma size_element_len k z : scalar_ok k z -> size_element k z = len (put_element k z).
Proof.
  destruct k; cbn [scalar_ok size_element put_element]; intros Hz; rewrite ?be64_len; try done;
    try (apply SizeOfVarint_spec, is_u64_u64). by destruct Hz as [-> | ->].
Qed.

Lemma framed_size body :
  len body < two63 -> len body + SizeOfVarint (len body) = len (with_length body).
Proof.
  intros. pose proof (len_nonneg body). unfold with_length.
  assert (is_u64 (len body)) by (unfold is_u64; change two64 with (2 * two63); lia).
  rewrite len_app, EncodeVarint_spec, SizeOfVarint_spec by done. lia.
Qed.

Lemma tag_len n w : len (tag n w) = 1.
Proof. done. Qed.

Lemma total_len {A} (f : A -> Z) (g : A -> bytes) (l : list A) :
  Forall (fun a => f a = len (g a)) l -> total (f <$> l) = len (concat (g <$> l)).
Proof.
  induction 1 as [|a l Ha _ IH]; [done|]. cbn [fmap list_fmap total fold_right concat].
  rewrite len_app, <-Ha, <-IH. done.
Qed.

Lemma len_concat_le {A} (g : A -> bytes) (l : list A) x : x ∈ l -> len (g x) <= len (concat (g <$> l)).
Proof.
  induction 1 as [x l|x y l _ IH]; cbn [fmap list_fmap concat]; rewrite len_app.
  - pose proof (len_nonneg (concat (g <$> l))). lia.
  - pose proof (len_nonneg (g y)). lia.
Qed.

Definition sized (t : FieldType) : Prop := forall n v,
  typed_field t v -> len (encode_field n t v) < two63 -> size_field t v = len (encode_field n t v).

Lemma size_fields_len fs vs :
  Forall (fun f => sized f.2) fs -> typed_fields fs vs -> len (encode_fields fs vs) < two63 ->
  size_fields fs vs = len (encode_fields fs vs).
Proof.
  intros Hs. revert vs. induction Hs as [|f fs Hf Hs IH]; intros [|v vs] Ht Hl; try done.
  destruct Ht as [Hv Hvs]. rewrite encode_fields_cons, len_app in *.
  pose proof (len_nonneg (encode_field f.1 f.2 v)). pose proof (len_nonneg (encode_fields fs vs)).
  change (size_fields (f :: fs) (v :: vs)) with (size_field f.2 v + size_fields fs vs).
  rewrite (Hf f.1), IH; [done|done|lia|done|lia].
Qed.

Lemma size_message fs n vs :
  Forall (fun f => sized f.2) fs -> typed_fields fs vs ->
  len (tag n 2 ++ with_length (encode_fields fs vs)) < two63 ->
  1 + size_fields fs vs + SizeOfVarint (size_fields fs vs) = len (tag n 2 ++ with_length (encode_fields fs vs)).
Proof.
  intros Hs Ht Hl. assert (Hb : len (encode_fields fs vs) < two63).
  { rewrite len_app, tag_len in Hl. unfold with_length in Hl. rewrite len_app in Hl.
    pose proof (len_nonneg (EncodeVarint (len (encode_fields fs vs)))). lia. }
  rewrite size_fields_len, len_app, tag_len, <-framed_size by done. lia.
Qed.

Lemma size_field_len t : sized t.
Proof.
  induction t as [k| |k|fs IH|fs IH] using FieldType_ind; intros n v Ht Hl; destruct v; try done;
    cbn [size_field encode_field typed_field] in *.
  - destruct (z =? 0); [done|]. rewrite len_app, tag_len, size_element_len, put_scalar_element by done. done.
  - destruct (len b >? 0) eqn:Eb; [|done]. rewrite len_app, tag_len in *. unfold with_length in Hl.
    rewrite len_app in Hl. pose proof (len_nonneg (EncodeVarint (len b))). rewrite <-framed_size by lia. lia.
  - destruct (len l >? 0) eqn:El; [|done]. rewrite len_app, tag_len in *.
    assert (total (size_element k <$> l) = len (concat (put_element k <$> l))) as Et.
    { apply total_len. eapply Forall_impl; [exact Ht|]. apply size_element_len. }
    cbn zeta. rewrite Et. unfold with_length in Hl. rewrite len_app in Hl.
    pose proof (len_nonneg (EncodeVarint (len (concat (put_element k <$> l))))). rewrite <-framed_size by lia. lia.
  - destruct m as [vs|]; [|done]. apply (size_message fs n vs); done.
  - apply total_len. apply Forall_forall. intros vs Hin. apply (size_message fs n vs); [done| |].
    + by eapply Forall_forall in Ht.
    + eapply Z.le_lt_trans; [|exact Hl].
      by apply (len_concat_le (fun vs => tag n 2 ++ with_length (encode_fields_with encode_field fs vs))).
Qed.

(** [SizeVT] is the length of [MarshalVT]. *)
Lemma size_fields_length d vs :
  typed_fields d vs -> len (encode_fields d vs) < two63 -> size_fields d vs = len (encode_fields d vs).
Proof.
  intros. apply size_fields_len; try done. apply Forall_forall. intros f _. apply size_field_len.
Qed.
End wire.
