(* ===== verification/Codecs.v ===== *)
(** * Message types and their encoding

    A [Codec] relates a message type of the model with its descriptor: how a value is the list
    of its fields, how the fields give the value, and which values are those of the Go type
    ([go_value]: every number within its width, an enum value named by its constructor).  A
    codec is put together field by field; its laws follow from those of the fields. *)

From S2P Require Export ProtowireProps.

Record FieldCodec (A : Type) := mkFieldCodec {
  field_type : FieldType;
  to_val : A -> Val;
  of_val : Val -> option A;
  go_field : A -> Prop;
}.
Arguments mkFieldCodec {A} _ _ _ _.
Arguments field_type {A} _.
Arguments to_val {A} _ _.
Arguments of_val {A} _ _.
Arguments go_field {A} _ _.

Record Codec (A : Type) := mkCodec {
  desc : Desc;
  to_vals : A -> list Val;
  of_vals : list Val -> option A;
  go_value : A -> Prop;
}.
Arguments mkCodec {A} _ _ _ _.
Arguments desc {A} _.
Arguments to_vals {A} _ _.
Arguments of_vals {A} _ _.
Arguments go_value {A} _ _.

(** ** Fields *)

Definition num (k : Kind) : FieldCodec Z :=
  mkFieldCodec (TScalar k) VNum (fun v => match v with VNum z => Some z | _ => None end) (scalar_ok k).
Definition boolean : FieldCodec bool :=
  mkFieldCodec (TScalar Bool) (fun b : bool => VNum (if b then 1 else 0))
    (fun v => match v with VNum z => Some (negb (z =? 0)) | _ => None end) (fun _ => True).
(** [bytes] and [string] *)
Definition octets : FieldCodec bytes :=
  mkFieldCodec TBytes VBytes (fun v => match v with VBytes b => Some b | _ => None end) (fun _ => True).
Definition packed (k : Kind) : FieldCodec (list Z) :=
  mkFieldCodec (TPacked k) VNums (fun v => match v with VNums l => Some l | _ => None end) (Forall (scalar_ok k)).

(** An enum is its number, an [int32]. *)
Class Enum (A : Type) : Type := { number : A -> Z; of_number : Z -> option A }.
Definition go_enum {A} {E : Enum A} (a : A) : Prop := is_i32 (number a) /\ of_number (number a) = Some a.
Definition enum {A} {E : Enum A} : FieldCodec A :=
  mkFieldCodec (TScalar Int32) (fun a => VNum (number a))
    (fun v => match v with VNum z => of_number z | _ => None end) go_enum.
Definition packed_enum {A} {E : Enum A} : FieldCodec (list A) :=
  mkFieldCodec (TPacked Int32) (fun l => VNums (number <$> l))
    (fun v => match v with VNums l => mapM of_number l | _ => None end) (Forall go_enum).

(** A pointer to a message.  [pointer_set] is one that the model's type holds as a plain value: a
    nil pointer has no value of that type. *)
Definition pointer {A} (c : Codec A) : FieldCodec (option A) :=
  mkFieldCodec (TMessage (desc c)) (fun o => VMsg (to_vals c <$> o))
    (fun v => match v with VMsg None => Some None | VMsg (Some vs) => Some <$> of_vals c vs | _ => None end)
    (fun o => match o with None => True | Some a => go_value c a end).
Definition pointer_set {A} (c : Codec A) : FieldCodec A :=
  mkFieldCodec (TMessage (desc c)) (fun a => VMsg (Some (to_vals c a)))
    (fun v => match v with VMsg (Some vs) => of_vals c vs | _ => None end) (go_value c).
Definition repeated {A} (c : Codec A) : FieldCodec (list A) :=
  mkFieldCodec (TRepeated (desc c)) (fun l => VMsgs (to_vals c <$> l))
    (fun v => match v with VMsgs ms => mapM (of_vals c) ms | _ => None end) (Forall (go_value c)).
(** A field the model's type leaves out: never set, and dropped when read. *)
Definition unused : FieldCodec unit :=
  mkFieldCodec TBytes (fun _ => VBytes []) (fun _ => Some tt) (fun _ => True).

(** ** Messages *)

Definition no_fields : Codec unit :=
  mkCodec [] (fun _ => []) (fun vs => match vs with [] => Some tt | _ => None end) (fun _ => True).
Definition field {A B} (n : Z) (f : FieldCodec A) (c : Codec B) : Codec (A * B) :=
  mkCodec ((n, field_type f) :: desc c) (fun p => to_val f p.1 :: to_vals c p.2)
    (fun vs => match vs with
       | v :: vs => a ← of_val f v; b ← of_vals c vs; Some (a, b)
       | [] => None end)
    (fun p => go_field f p.1 /\ go_value c p.2).
(** The message type [B] has the fields of [A]. *)
Definition message {A B} (c : Codec A) (fields : B -> A) (build : A -> B) : Codec B :=
  mkCodec (desc c) (fun b => to_vals c (fields b)) (fun vs => build <$> of_vals c vs) (fun b => go_value c (fields b)).

(** ** Laws *)

(** Every value of the Go type is typed and read back; typed fields give a value of the Go type. *)
Class FieldOk {A} (f : FieldCodec A) : Prop := {
  field_ok a : go_field f a -> typed_field (field_type f) (to_val f a) /\ of_val f (to_val f a) = Some a;
  field_sound v a : typed_field (field_type f) v -> of_val f v = Some a -> go_field f a;
}.
Class CodecOk {A} (c : Codec A) : Prop := {
  codec_ok a : go_value c a -> typed_fields (desc c) (to_vals c a) /\ of_vals c (to_vals c a) = Some a;
  codec_sound vs a : typed_fields (desc c) vs -> of_vals c vs = Some a -> go_value c a;
}.
Class EnumOk {A} (E : Enum A) : Prop := number_of z a : of_number z = Some a -> number a = z.

#[export] Instance num_ok k : FieldOk (num k).
Proof. split; [done|]. intros [] a; cbn; naive_solver. Qed.
#[export] Instance boolean_ok : FieldOk boolean.
Proof. split; [intros [] _; cbn; auto|done]. Qed.
#[export] Instance octets_ok : FieldOk octets.
Proof. done. Qed.
#[export] Instance packed_ok k : FieldOk (packed k).
Proof. split; [done|]. intros [] a; cbn; naive_solver. Qed.
#[export] Instance unused_ok : FieldOk unused.
Proof. split; [by intros []|done]. Qed.

Lemma mapM_fmap_id {A B} (to : A -> B) (from : B -> option A) l :
  Forall (fun a => from (to a) = Some a) l -> mapM from (to <$> l) = Some l.
Proof. intros Hl. apply mapM_Some. induction Hl; by constructor. Qed.
Lemma mapM_sound {A B} (P : A -> Prop) (Q : B -> Prop) (from : A -> option B) l k :
  (forall a b, P a -> from a = Some b -> Q b) -> Forall P l -> mapM from l = Some k -> Forall Q k.
Proof.
  intros Hi Hl Hk%mapM_Some. induction Hk; [done|]. apply Forall_cons in Hl as [? ?]. constructor; eauto.
Qed.

Section laws.
Context {A B : Type}.

Lemma enum_sound {E : Enum A} {EO : EnumOk E} z a : is_i32 z -> of_number z = Some a -> go_enum a.
Proof. intros Hz Ez. unfold go_enum. by rewrite (number_of z a Ez). Qed.
#[export] Instance enum_field_ok {E : Enum A} {EO : EnumOk E} : FieldOk (@enum A E).
Proof. split; [intros a [??]; by split|]. intros [] a; cbn; try done. apply enum_sound. Qed.
#[export] Instance packed_enum_ok {E : Enum A} {EO : EnumOk E} : FieldOk (@packed_enum A E).
Proof.
  split.
  - intros l Hl. split; cbn.
    + apply Forall_fmap. eapply Forall_impl; [exact Hl|]. by intros a [].
    + apply mapM_fmap_id. eapply Forall_impl; [exact Hl|]. by intros a [].
  - intros [] a; cbn; try done. apply mapM_sound, enum_sound.
Qed.
#[export] Instance pointer_ok (c : Codec A) {O : CodecOk c} : FieldOk (pointer c).
Proof.
  split.
  - intros [a|] Ha; [|done]. destruct (codec_ok a Ha) as [Ht E]. split; [done|]. cbn. by rewrite E.
  - intros [| |[vs|]| |] a Ht; cbn; try done; [|by intros [= <-]]. intros (x & E & ->)%fmap_Some. exact (codec_sound vs x Ht E).
Qed.
#[export] Instance pointer_set_ok (c : Codec A) {O : CodecOk c} : FieldOk (pointer_set c).
Proof.
  split; [intros a Ha; by apply codec_ok|]. intros [| |[vs|]| |] a Ht; cbn; try done. by apply codec_sound.
Qed.
#[export] Instance repeated_ok (c : Codec A) {O : CodecOk c} : FieldOk (repeated c).
Proof.
  split.
  - intros l Hl. split; cbn.
    + apply Forall_fmap. eapply Forall_impl; [exact Hl|]. intros a Ha. by apply codec_ok.
    + apply mapM_fmap_id. eapply Forall_impl; [exact Hl|]. intros a Ha. by apply codec_ok.
  - intros [] a; cbn; try done. apply mapM_sound, codec_sound.
Qed.
#[export] Instance no_fields_ok : CodecOk no_fields.
Proof. split; [by intros []|done]. Qed.
#[export] Instance field_cons_ok n (f : FieldCodec A) (c : Codec B) {F : FieldOk f} {O : CodecOk c} :
  CodecOk (field n f c).
Proof.
  split.
  - intros [a b] [Ha Hb]. destruct (field_ok a Ha) as [Hta Ea], (codec_ok b Hb) as [Htb Eb].
    split; [done|]. cbn in *. rewrite Ea. cbn. by rewrite Eb.
  - intros [|v vs] [a b]; cbn; [done|]. intros [Hv Hvs] E. destruct (of_val f v) eqn:Ea; [|done]. cbn in E.
    destruct (of_vals c vs) eqn:Eb; [|done]. injection E as <- <-. split; [exact (field_sound v _ Hv Ea)|exact (codec_sound vs _ Hvs Eb)].
Qed.
Lemma message_ok (c : Codec A) (fields : B -> A) build {O : CodecOk c} :
  (forall b, build (fields b) = b) -> (forall a, fields (build a) = a) -> CodecOk (message c fields build).
Proof.
  intros E1 E2. split.
  - intros b Hb. destruct (codec_ok (c := c) _ Hb) as [Ht Eb]. split; [done|]. cbn. by rewrite Eb; cbn; rewrite E1.
  - intros vs b Ht (a & Ea & ->)%fmap_Some. unfold go_value, message. rewrite E2. exact (codec_sound vs a Ht Ea).
Qed.
End laws.

(** A message has its fields and nothing else. *)
Ltac same_fields :=
  apply message_ok; [apply _|by intros []|];
  intros; repeat match goal with p : _ * _ |- _ => destruct p | u : unit |- _ => destruct u end; reflexivity.

(** ** [MarshalBinary] and [UnmarshalBinary] *)

Record Binary (A : Type) := mkBinary {
  MarshalBinary : A -> bytes;
  UnmarshalBinary : bytes -> option A;
}.
Arguments mkBinary {A} _ _.
Arguments MarshalBinary {A} _ _.
Arguments UnmarshalBinary {A} _ _.

Section binary.
Context {PH : Protohelpers}.

(** [dAtA = make([]byte, m.SizeVT())], filled by [MarshalToSizedBufferVT] *)
Definition MarshalVT {A} (c : Codec A) (m : A) : bytes := fill_fields (desc c) (to_vals c m) [].
Definition SizeVT {A} (c : Codec A) (m : A) : Z := size_fields (desc c) (to_vals c m).
Definition UnmarshalVT {A} (c : Codec A) (dAtA : bytes) : option A :=
  match decode_message (desc c) dAtA with inl _ => None | inr vs => of_vals c vs end.

Definition vt {A} (c : Codec A) : Binary A := mkBinary (MarshalVT c) (UnmarshalVT c).

(** The values of the message's Go type whose encoding fits a slice. *)
Definition fits {A} (c : Codec A) (m : A) : Prop := go_value c m /\ len (MarshalVT c m) < two63.

Context {PO : ProtohelpersOk PH}.

Lemma vt_roundtrip {A} (c : Codec A) {O : CodecOk c} m :
  wf_desc (desc c) = true -> fits c m -> UnmarshalBinary (vt c) (MarshalBinary (vt c) m) = Some m.
Proof.
  intros Hw [Hg Hl]. destruct (codec_ok m Hg) as [Ht E]. cbn. unfold UnmarshalVT, MarshalVT in *.
  rewrite fill_fields_eq in *. by rewrite decode_encode.
Qed.
Lemma vt_size {A} (c : Codec A) {O : CodecOk c} m : fits c m -> SizeVT c m = len (MarshalVT c m).
Proof.
  intros [Hg Hl]. destruct (codec_ok m Hg) as [Ht _]. unfold MarshalVT in *. rewrite fill_fields_eq in *.
  by apply size_fields_length.
Qed.
End binary.
