(* ===== verification/Messages.v ===== *)
(** * The protobuf messages ([pkg/corepb/*.proto], [marshal_gen.go])

    One codec per message: its fields with their numbers and types, in the order of the
    declaration, which is that of the numbers.  [<Message>_binary] is the message's
    [MarshalBinary] and [UnmarshalBinary] of [marshal_gen.go], which call [MarshalVT] and
    [UnmarshalVT].  Messages with the same fields share a type of the model; a response with
    one field is that field. *)

From S2P Require Export Codecs CoreApi.

(** ** Enums *)

#[local] Ltac enum_numbers := intros z a; cbn; repeat case_match; intros E; by inversion E; subst.

#[export] Instance TaskState_enum : Enum TaskState := {|
  number v := match v with TASK_STATE_INVALID => 0 | TASK_STATE_ENQUEUED => 1 | TASK_STATE_IN_PROGRESS => 2 | TASK_STATE_DEAD => 3 | TASK_STATE_OTHER z => z end;
  of_number z := match z with 0 => Some TASK_STATE_INVALID | 1 => Some TASK_STATE_ENQUEUED | 2 => Some TASK_STATE_IN_PROGRESS | 3 => Some TASK_STATE_DEAD | _ => Some (TASK_STATE_OTHER z) end;
|}.
#[export] Instance TaskState_enum_ok : EnumOk TaskState_enum.
Proof. enum_numbers. Qed.
#[export] Instance IntervalUnit_enum : Enum IntervalUnit := {|
  number v := match v with INTERVAL_UNIT_INVALID => 0 | INTERVAL_UNIT_SECONDS => 1 | INTERVAL_UNIT_MINUTES => 2 | INTERVAL_UNIT_HOURS => 3 | INTERVAL_UNIT_OTHER z => z end;
  of_number z := match z with 0 => Some INTERVAL_UNIT_INVALID | 1 => Some INTERVAL_UNIT_SECONDS | 2 => Some INTERVAL_UNIT_MINUTES | 3 => Some INTERVAL_UNIT_HOURS | _ => Some (INTERVAL_UNIT_OTHER z) end;
|}.
#[export] Instance IntervalUnit_enum_ok : EnumOk IntervalUnit_enum.
Proof. enum_numbers. Qed.
#[export] Instance OverwriteOnDuplicate_enum : Enum OverwriteOnDuplicate := {|
  number v := match v with OVERWRITE_ON_DUPLICATE_INVALID => 0 | OVERWRITE_ON_DUPLICATE_PAYLOAD => 1 | OVERWRITE_ON_DUPLICATE_SCHEDULED_AT => 2 | OVERWRITE_ON_DUPLICATE_EXPIRES_AT => 3 | OVERWRITE_ON_DUPLICATE_OTHER z => z end;
  of_number z := match z with 0 => Some OVERWRITE_ON_DUPLICATE_INVALID | 1 => Some OVERWRITE_ON_DUPLICATE_PAYLOAD | 2 => Some OVERWRITE_ON_DUPLICATE_SCHEDULED_AT | 3 => Some OVERWRITE_ON_DUPLICATE_EXPIRES_AT | _ => Some (OVERWRITE_ON_DUPLICATE_OTHER z) end;
|}.
#[export] Instance OverwriteOnDuplicate_enum_ok : EnumOk OverwriteOnDuplicate_enum.
Proof. enum_numbers. Qed.
#[export] Instance Status_enum : Enum Status := {|
  number v := match v with STATUS_INVALID => 0 | STATUS_SUCCEEDED => 1 | STATUS_IN_PROGRESS => 2 | STATUS_FAILED => 3 | STATUS_OTHER z => z end;
  of_number z := match z with 0 => Some STATUS_INVALID | 1 => Some STATUS_SUCCEEDED | 2 => Some STATUS_IN_PROGRESS | 3 => Some STATUS_FAILED | _ => Some (STATUS_OTHER z) end;
|}.
#[export] Instance Status_enum_ok : EnumOk Status_enum.
Proof. enum_numbers. Qed.
#[export] Instance ReportResult_enum : Enum ReportResult := {|
  number v := match v with RESULT_INVALID => 0 | RESULT_OK => 1 | RESULT_NOT_FOUND => 2 | RESULT_NOT_IN_PROGRESS => 3 | RESULT_STALE_ATTEMPT => 4 | RESULT_OTHER z => z end;
  of_number z := match z with 0 => Some RESULT_INVALID | 1 => Some RESULT_OK | 2 => Some RESULT_NOT_FOUND | 3 => Some RESULT_NOT_IN_PROGRESS | 4 => Some RESULT_STALE_ATTEMPT | _ => Some (RESULT_OTHER z) end;
|}.
#[export] Instance ReportResult_enum_ok : EnumOk ReportResult_enum.
Proof. enum_numbers. Qed.
#[export] Instance RestartResult_enum : Enum RestartResult := {|
  number v := match v with RESTART_INVALID => 0 | RESTART_RESTARTED => 1 | RESTART_NOT_FOUND => 2 | RESTART_NOT_DEAD => 3 | RESTART_DEDUPE_CONFLICT => 4 | RESTART_OTHER z => z end;
  of_number z := match z with 0 => Some RESTART_INVALID | 1 => Some RESTART_RESTARTED | 2 => Some RESTART_NOT_FOUND | 3 => Some RESTART_NOT_DEAD | 4 => Some RESTART_DEDUPE_CONFLICT | _ => Some (RESTART_OTHER z) end;
|}.
#[export] Instance RestartResult_enum_ok : EnumOk RestartResult_enum.
Proof. enum_numbers. Qed.
#[export] Instance PaginationToken_Type_enum : Enum CorePaginationToken.Type_ := {|
  number v := match v with CorePaginationToken.INVALID => 0 | CorePaginationToken.NEXT => 1 | CorePaginationToken.PREVIOUS => 2 | CorePaginationToken.OTHER z => z end;
  of_number z := match z with 0 => Some CorePaginationToken.INVALID | 1 => Some CorePaginationToken.NEXT | 2 => Some CorePaginationToken.PREVIOUS | _ => Some (CorePaginationToken.OTHER z) end;
|}.
#[export] Instance PaginationToken_Type_enum_ok : EnumOk PaginationToken_Type_enum.
Proof. enum_numbers. Qed.

(** ** Common messages ([common.proto]) *)

Definition PaginationToken_codec : Codec CorePaginationToken.t := message
  (field 1 enum $ field 2 octets $ no_fields)
  (fun '(CorePaginationToken.mk x1 x2) => (x1, (x2, tt)))
  (fun '(x1, (x2, _)) => CorePaginationToken.mk x1 x2).
#[export] Instance PaginationToken_codec_ok : CodecOk PaginationToken_codec.
Proof. same_fields. Qed.
Definition RetryStrategy_codec : Codec RetryStrategy.t := message
  (field 1 (packed Int64) $ no_fields)
  (fun '(RetryStrategy.mk x1) => (x1, tt))
  (fun '(x1, _) => RetryStrategy.mk x1).
#[export] Instance RetryStrategy_codec_ok : CodecOk RetryStrategy_codec.
Proof. same_fields. Qed.

(** ** Queues ([queues.proto]) *)

Definition QueueId_codec : Codec QueueId.t := message
  (field 1 (num Fixed64) $ field 2 (num Fixed64) $ no_fields)
  (fun '(QueueId.mk x1 x2) => (x1, (x2, tt)))
  (fun '(x1, (x2, _)) => QueueId.mk x1 x2).
#[export] Instance QueueId_codec_ok : CodecOk QueueId_codec.
Proof. same_fields. Qed.
Definition TokenBucketRateLimiting_codec : Codec TokenBucketRateLimiting.t := message
  (field 1 (num Int64) $ field 2 (num Int64) $ field 3 enum $ no_fields)
  (fun '(TokenBucketRateLimiting.mk x1 x2 x3) => (x1, (x2, (x3, tt))))
  (fun '(x1, (x2, (x3, _))) => TokenBucketRateLimiting.mk x1 x2 x3).
#[export] Instance TokenBucketRateLimiting_codec_ok : CodecOk TokenBucketRateLimiting_codec.
Proof. same_fields. Qed.
Definition DequeuingSettings_codec : Codec DequeuingSettings.t := message
  (field 1 (num Int64) $ field 2 (pointer TokenBucketRateLimiting_codec) $ field 3 boolean $
    no_fields)
  (fun '(DequeuingSettings.mk x1 x2 x3) => (x1, (x2, (x3, tt))))
  (fun '(x1, (x2, (x3, _))) => DequeuingSettings.mk x1 x2 x3).
#[export] Instance DequeuingSettings_codec_ok : CodecOk DequeuingSettings_codec.
Proof. same_fields. Qed.
Definition DeadLetterQueueConfig_codec : Codec DeadLetterQueueConfig.t := message
  (field 1 boolean $ field 2 (num Int64) $ field 3 (num Int64) $ no_fields)
  (fun '(DeadLetterQueueConfig.mk x1 x2 x3) => (x1, (x2, (x3, tt))))
  (fun '(x1, (x2, (x3, _))) => DeadLetterQueueConfig.mk x1 x2 x3).
#[export] Instance DeadLetterQueueConfig_codec_ok : CodecOk DeadLetterQueueConfig_codec.
Proof. same_fields. Qed.
Definition Queue_codec : Codec Queue.t := message
  (field 1 (pointer_set QueueId_codec) $ field 2 octets $ field 3 octets $
    field 4 (num Sfixed64) $ field 5 (num Sfixed64) $ field 6 (num Int64) $ field 7 (num Int64) $
    field 8 (pointer RetryStrategy_codec) $ field 9 (pointer DequeuingSettings_codec) $
    field 10 (pointer DeadLetterQueueConfig_codec) $ field 11 (num Int64) $ field 12 (num Int64) $
    no_fields)
  (fun '(Queue.mk x1 x2 x3 x4 x5 x6 x7 x8 x9 x10 x11 x12) => (x1, (x2, (x3, (x4, (x5, (x6, (x7, (x8, (x9, (x10, (x11, (x12, tt)))))))))))))
  (fun '(x1, (x2, (x3, (x4, (x5, (x6, (x7, (x8, (x9, (x10, (x11, (x12, _)))))))))))) => Queue.mk x1 x2 x3 x4 x5 x6 x7 x8 x9 x10 x11 x12).
#[export] Instance Queue_codec_ok : CodecOk Queue_codec.
Proof. same_fields. Qed.
Definition ScheduleId_codec : Codec ScheduleId.t := message
  (field 1 (num Fixed64) $ field 2 (num Fixed64) $ field 3 (num Fixed64) $ no_fields)
  (fun '(ScheduleId.mk x1 x2 x3) => (x1, (x2, (x3, tt))))
  (fun '(x1, (x2, (x3, _))) => ScheduleId.mk x1 x2 x3).
#[export] Instance ScheduleId_codec_ok : CodecOk ScheduleId_codec.
Proof. same_fields. Qed.
Definition Schedule_codec : Codec Schedule.t := message
  (field 1 (pointer_set ScheduleId_codec) $ field 2 octets $ field 3 octets $
    field 4 (num Sfixed64) $ field 5 (num Sfixed64) $ field 6 (num Int64) $ field 7 octets $
    field 8 octets $ field 9 octets $ field 10 (num Int64) $
    field 11 (pointer RetryStrategy_codec) $ field 12 octets $ field 13 (num Sfixed64) $
    field 14 (num Sfixed64) $ field 15 (num Sfixed64) $ no_fields)
  (fun '(Schedule.mk x1 x2 x3 x4 x5 x6 x7 x8 x9 x10 x11 x12 x13 x14 x15) => (x1, (x2, (x3, (x4, (x5, (x6, (x7, (x8, (x9, (x10, (x11, (x12, (x13, (x14, (x15, tt))))))))))))))))
  (fun '(x1, (x2, (x3, (x4, (x5, (x6, (x7, (x8, (x9, (x10, (x11, (x12, (x13, (x14, (x15, _))))))))))))))) => Schedule.mk x1 x2 x3 x4 x5 x6 x7 x8 x9 x10 x11 x12 x13 x14 x15).
#[export] Instance Schedule_codec_ok : CodecOk Schedule_codec.
Proof. same_fields. Qed.
Definition CreateQueueRequest_codec : Codec Wire.CreateQueueRequest.t := message
  (field 1 (pointer QueueId_codec) $ field 2 octets $ field 3 octets $ field 4 (num Int64) $
    field 5 (pointer RetryStrategy_codec) $ field 6 (pointer DequeuingSettings_codec) $
    field 7 (pointer DeadLetterQueueConfig_codec) $ field 8 (num Int64) $ field 9 (num Int64) $
    no_fields)
  (fun '(Wire.CreateQueueRequest.mk x1 x2 x3 x4 x5 x6 x7 x8 x9) => (x1, (x2, (x3, (x4, (x5, (x6, (x7, (x8, (x9, tt))))))))))
  (fun '(x1, (x2, (x3, (x4, (x5, (x6, (x7, (x8, (x9, _))))))))) => Wire.CreateQueueRequest.mk x1 x2 x3 x4 x5 x6 x7 x8 x9).
#[export] Instance CreateQueueRequest_codec_ok : CodecOk CreateQueueRequest_codec.
Proof. same_fields. Qed.
Definition CreateQueueResponse_codec : Codec (option Queue.t) := message
  (field 1 (pointer Queue_codec) $ no_fields)
  (fun x => (x, tt))
  fst.
#[export] Instance CreateQueueResponse_codec_ok : CodecOk CreateQueueResponse_codec.
Proof. same_fields. Qed.
Definition GetQueueRequest_codec : Codec Wire.QueueIdRequest.t := message
  (field 1 (pointer QueueId_codec) $ no_fields)
  (fun '(Wire.QueueIdRequest.mk x1) => (x1, tt))
  (fun '(x1, _) => Wire.QueueIdRequest.mk x1).
#[export] Instance GetQueueRequest_codec_ok : CodecOk GetQueueRequest_codec.
Proof. same_fields. Qed.
Definition GetQueueResponse_codec : Codec (option Queue.t) := message
  (field 1 (pointer Queue_codec) $ no_fields)
  (fun x => (x, tt))
  fst.
#[export] Instance GetQueueResponse_codec_ok : CodecOk GetQueueResponse_codec.
Proof. same_fields. Qed.
Definition GetQueueByNameRequest_codec : Codec QueueNameRequest.t := message
  (field 1 (num Fixed64) $ field 2 octets $ no_fields)
  (fun '(QueueNameRequest.mk x1 x2) => (x1, (x2, tt)))
  (fun '(x1, (x2, _)) => QueueNameRequest.mk x1 x2).
#[export] Instance GetQueueByNameRequest_codec_ok : CodecOk GetQueueByNameRequest_codec.
Proof. same_fields. Qed.
Definition GetQueueByNameResponse_codec : Codec (option Queue.t) := message
  (field 1 (pointer Queue_codec) $ no_fields)
  (fun x => (x, tt))
  fst.
#[export] Instance GetQueueByNameResponse_codec_ok : CodecOk GetQueueByNameResponse_codec.
Proof. same_fields. Qed.
Definition UpdateQueueRequest_codec : Codec UpdateQueueRequest.t := message
  (field 1 (num Fixed64) $ field 2 octets $ field 3 octets $ field 4 (num Int64) $
    field 5 (pointer RetryStrategy_codec) $ field 6 (pointer DequeuingSettings_codec) $
    field 7 (pointer DeadLetterQueueConfig_codec) $ field 8 (num Int64) $ field 9 (num Int64) $
    no_fields)
  (fun '(UpdateQueueRequest.mk x1 x2 x3 x4 x5 x6 x7 x8 x9) => (x1, (x2, (x3, (x4, (x5, (x6, (x7, (x8, (x9, tt))))))))))
  (fun '(x1, (x2, (x3, (x4, (x5, (x6, (x7, (x8, (x9, _))))))))) => UpdateQueueRequest.mk x1 x2 x3 x4 x5 x6 x7 x8 x9).
#[export] Instance UpdateQueueRequest_codec_ok : CodecOk UpdateQueueRequest_codec.
Proof. same_fields. Qed.
Definition UpdateQueueResponse_codec : Codec (option Queue.t) := message
  (field 1 (pointer Queue_codec) $ no_fields)
  (fun x => (x, tt))
  fst.
#[export] Instance UpdateQueueResponse_codec_ok : CodecOk UpdateQueueResponse_codec.
Proof. same_fields. Qed.
Definition DeleteQueueRequest_codec : Codec QueueNameRequest.t := message
  (field 1 (num Fixed64) $ field 2 octets $ no_fields)
  (fun '(QueueNameRequest.mk x1 x2) => (x1, (x2, tt)))
  (fun '(x1, (x2, _)) => QueueNameRequest.mk x1 x2).
#[export] Instance DeleteQueueRequest_codec_ok : CodecOk DeleteQueueRequest_codec.
Proof. same_fields. Qed.
Definition DeleteQueueResponse_codec : Codec (option QueueId.t) := message
  (field 1 (pointer QueueId_codec) $ no_fields)
  (fun x => (x, tt))
  fst.
#[export] Instance DeleteQueueResponse_codec_ok : CodecOk DeleteQueueResponse_codec.
Proof. same_fields. Qed.
Definition SwapQueueIdRequest_codec : Codec SwapQueueIdRequest.t := message
  (field 1 (num Fixed64) $ field 2 octets $ field 3 (num Fixed64) $ no_fields)
  (fun '(SwapQueueIdRequest.mk x1 x2 x3) => (x1, (x2, (x3, tt))))
  (fun '(x1, (x2, (x3, _))) => SwapQueueIdRequest.mk x1 x2 x3).
#[export] Instance SwapQueueIdRequest_codec_ok : CodecOk SwapQueueIdRequest_codec.
Proof. same_fields. Qed.
Definition SwapQueueIdResponse_codec : Codec (option Queue.t * option QueueId.t) := message
  (field 1 (pointer Queue_codec) $ field 2 (pointer QueueId_codec) $ no_fields)
  (fun p => (p.1, (p.2, tt)))
  (fun t => (t.1, t.2.1)).
#[export] Instance SwapQueueIdResponse_codec_ok : CodecOk SwapQueueIdResponse_codec.
Proof. same_fields. Qed.
Definition ListQueuesRequest_codec : Codec ListQueuesRequest.t := message
  (field 1 (num Fixed64) $ field 2 (pointer PaginationToken_codec) $ field 3 (num Int32) $
    no_fields)
  (fun '(ListQueuesRequest.mk x1 x2 x3) => (x1, (x2, (x3, tt))))
  (fun '(x1, (x2, (x3, _))) => ListQueuesRequest.mk x1 x2 x3).
#[export] Instance ListQueuesRequest_codec_ok : CodecOk ListQueuesRequest_codec.
Proof. same_fields. Qed.
Definition ListQueuesResponse_codec : Codec listQueuesResult := message
  (field 1 (repeated Queue_codec) $ field 2 (pointer PaginationToken_codec) $
    field 3 (pointer PaginationToken_codec) $ no_fields)
  (fun '(mkListQueuesResult x1 x2 x3) => (x1, (x2, (x3, tt))))
  (fun '(x1, (x2, (x3, _))) => mkListQueuesResult x1 x2 x3).
#[export] Instance ListQueuesResponse_codec_ok : CodecOk ListQueuesResponse_codec.
Proof. same_fields. Qed.
Definition CreateScheduleRequest_codec : Codec CreateScheduleRequest.t := message
  (field 1 (num Fixed64) $ field 2 octets $ field 3 (num Fixed64) $ field 4 octets $
    field 5 octets $ field 6 octets $ field 7 octets $ field 8 octets $ field 9 (num Int64) $
    field 10 (pointer RetryStrategy_codec) $ field 11 octets $ field 12 (num Int64) $ no_fields)
  (fun '(CreateScheduleRequest.mk x1 x2 x3 x4 x5 x6 x7 x8 x9 x10 x11 x12) => (x1, (x2, (x3, (x4, (x5, (x6, (x7, (x8, (x9, (x10, (x11, (x12, tt)))))))))))))
  (fun '(x1, (x2, (x3, (x4, (x5, (x6, (x7, (x8, (x9, (x10, (x11, (x12, _)))))))))))) => CreateScheduleRequest.mk x1 x2 x3 x4 x5 x6 x7 x8 x9 x10 x11 x12).
#[export] Instance CreateScheduleRequest_codec_ok : CodecOk CreateScheduleRequest_codec.
Proof. same_fields. Qed.
Definition CreateScheduleResponse_codec : Codec (option Schedule.t) := message
  (field 1 (pointer Schedule_codec) $ no_fields)
  (fun x => (x, tt))
  fst.
#[export] Instance CreateScheduleResponse_codec_ok : CodecOk CreateScheduleResponse_codec.
Proof. same_fields. Qed.
Definition GetScheduleRequest_codec : Codec ScheduleNameRequest.t := message
  (field 1 (num Fixed64) $ field 2 octets $ field 3 octets $ no_fields)
  (fun '(ScheduleNameRequest.mk x1 x2 x3) => (x1, (x2, (x3, tt))))
  (fun '(x1, (x2, (x3, _))) => ScheduleNameRequest.mk x1 x2 x3).
#[export] Instance GetScheduleRequest_codec_ok : CodecOk GetScheduleRequest_codec.
Proof. same_fields. Qed.
Definition GetScheduleResponse_codec : Codec (option Schedule.t) := message
  (field 1 (pointer Schedule_codec) $ no_fields)
  (fun x => (x, tt))
  fst.
#[export] Instance GetScheduleResponse_codec_ok : CodecOk GetScheduleResponse_codec.
Proof. same_fields. Qed.
Definition ListSchedulesRequest_codec : Codec Wire.ListSchedulesRequest.t := message
  (field 1 (pointer QueueId_codec) $ field 2 (pointer PaginationToken_codec) $
    field 3 (num Int32) $ no_fields)
  (fun '(Wire.ListSchedulesRequest.mk x1 x2 x3) => (x1, (x2, (x3, tt))))
  (fun '(x1, (x2, (x3, _))) => Wire.ListSchedulesRequest.mk x1 x2 x3).
#[export] Instance ListSchedulesRequest_codec_ok : CodecOk ListSchedulesRequest_codec.
Proof. same_fields. Qed.
Definition ListSchedulesResponse_codec : Codec listSchedulesResult := message
  (field 1 (repeated Schedule_codec) $ field 2 (pointer PaginationToken_codec) $
    field 3 (pointer PaginationToken_codec) $ no_fields)
  (fun '(mkListSchedulesResult x1 x2 x3) => (x1, (x2, (x3, tt))))
  (fun '(x1, (x2, (x3, _))) => mkListSchedulesResult x1 x2 x3).
#[export] Instance ListSchedulesResponse_codec_ok : CodecOk ListSchedulesResponse_codec.
Proof. same_fields. Qed.
Definition UpdateScheduleRequest_codec : Codec UpdateScheduleRequest.t := message
  (field 1 (num Fixed64) $ field 2 octets $ field 3 octets $ field 4 octets $ field 5 octets $
    field 6 octets $ field 7 octets $ field 8 (num Int64) $ field 9 (pointer RetryStrategy_codec) $
    field 10 octets $ field 11 (num Int64) $ no_fields)
  (fun '(UpdateScheduleRequest.mk x1 x2 x3 x4 x5 x6 x7 x8 x9 x10 x11) => (x1, (x2, (x3, (x4, (x5, (x6, (x7, (x8, (x9, (x10, (x11, tt))))))))))))
  (fun '(x1, (x2, (x3, (x4, (x5, (x6, (x7, (x8, (x9, (x10, (x11, _))))))))))) => UpdateScheduleRequest.mk x1 x2 x3 x4 x5 x6 x7 x8 x9 x10 x11).
#[export] Instance UpdateScheduleRequest_codec_ok : CodecOk UpdateScheduleRequest_codec.
Proof. same_fields. Qed.
Definition UpdateScheduleResponse_codec : Codec (option Schedule.t) := message
  (field 1 (pointer Schedule_codec) $ no_fields)
  (fun x => (x, tt))
  fst.
#[export] Instance UpdateScheduleResponse_codec_ok : CodecOk UpdateScheduleResponse_codec.
Proof. same_fields. Qed.
Definition DeleteScheduleRequest_codec : Codec ScheduleNameRequest.t := message
  (field 1 (num Fixed64) $ field 2 octets $ field 3 octets $ no_fields)
  (fun '(ScheduleNameRequest.mk x1 x2 x3) => (x1, (x2, (x3, tt))))
  (fun '(x1, (x2, (x3, _))) => ScheduleNameRequest.mk x1 x2 x3).
#[export] Instance DeleteScheduleRequest_codec_ok : CodecOk DeleteScheduleRequest_codec.
Proof. same_fields. Qed.
Definition DeleteScheduleResponse_codec : Codec unit := message
  (no_fields)
  id
  id.
#[export] Instance DeleteScheduleResponse_codec_ok : CodecOk DeleteScheduleResponse_codec.
Proof. same_fields. Qed.
Definition DequeSchedulesRequest_codec : Codec Z := message
  (field 1 (num Int64) $ no_fields)
  (fun x => (x, tt))
  fst.
#[export] Instance DequeSchedulesRequest_codec_ok : CodecOk DequeSchedulesRequest_codec.
Proof. same_fields. Qed.
Definition DequeSchedulesResponseEntry_codec : Codec (Schedule.t * Queue.t) := message
  (field 1 (pointer_set Schedule_codec) $ field 2 (pointer_set Queue_codec) $ no_fields)
  (fun p => (p.1, (p.2, tt)))
  (fun t => (t.1, t.2.1)).
#[export] Instance DequeSchedulesResponseEntry_codec_ok : CodecOk DequeSchedulesResponseEntry_codec.
Proof. same_fields. Qed.
Definition DequeSchedulesResponse_codec : Codec (list (Schedule.t * Queue.t)) := message
  (field 1 (repeated DequeSchedulesResponseEntry_codec) $ no_fields)
  (fun x => (x, tt))
  fst.
#[export] Instance DequeSchedulesResponse_codec_ok : CodecOk DequeSchedulesResponse_codec.
Proof. same_fields. Qed.
Definition ReportSchedulesStatusRequest_codec : Codec Wire.ReportSchedulesStatusRequest.t := message
  (field 1 (pointer ScheduleId_codec) $ field 2 (num Sfixed64) $ field 3 (num Sfixed64) $
    no_fields)
  (fun '(Wire.ReportSchedulesStatusRequest.mk x1 x2 x3) => (x1, (x2, (x3, tt))))
  (fun '(x1, (x2, (x3, _))) => Wire.ReportSchedulesStatusRequest.mk x1 x2 x3).
#[export] Instance ReportSchedulesStatusRequest_codec_ok : CodecOk ReportSchedulesStatusRequest_codec.
Proof. same_fields. Qed.
Definition ReportSchedulesStatusResponse_codec : Codec unit := message
  (no_fields)
  id
  id.
#[export] Instance ReportSchedulesStatusResponse_codec_ok : CodecOk ReportSchedulesStatusResponse_codec.
Proof. same_fields. Qed.
Definition QueuesCounter_codec : Codec QueuesCounter.t := message
  (field 1 (num Int64) $ no_fields)
  (fun '(QueuesCounter.mk x1) => (x1, tt))
  (fun '(x1, _) => QueuesCounter.mk x1).
#[export] Instance QueuesCounter_codec_ok : CodecOk QueuesCounter_codec.
Proof. same_fields. Qed.
Definition QueuesGarbageCollectionRecord_codec : Codec QueuesGarbageCollectionRecord.t := message
  (field 1 (pointer_set QueueId_codec) $ no_fields)
  (fun '(QueuesGarbageCollectionRecord.mk x1) => (x1, tt))
  (fun '(x1, _) => QueuesGarbageCollectionRecord.mk x1).
#[export] Instance QueuesGarbageCollectionRecord_codec_ok : CodecOk QueuesGarbageCollectionRecord_codec.
Proof. same_fields. Qed.
Definition RunQueuesGarbageCollectionRequest_codec : Codec RunQueuesGarbageCollectionRequest.t := message
  (field 1 (num Int32) $ field 2 (num Int32) $ field 3 (num Int32) $ no_fields)
  (fun '(RunQueuesGarbageCollectionRequest.mk x1 x2 x3) => (x1, (x2, (x3, tt))))
  (fun '(x1, (x2, (x3, _))) => RunQueuesGarbageCollectionRequest.mk x1 x2 x3).
#[export] Instance RunQueuesGarbageCollectionRequest_codec_ok : CodecOk RunQueuesGarbageCollectionRequest_codec.
Proof. same_fields. Qed.
Definition RunQueuesGarbageCollectionResponse_codec : Codec unit := message
  (no_fields)
  id
  id.
#[export] Instance RunQueuesGarbageCollectionResponse_codec_ok : CodecOk RunQueuesGarbageCollectionResponse_codec.
Proof. same_fields. Qed.

(** ** Tasks ([tasks.proto]) *)

Definition TaskId_codec : Codec TaskId.t := message
  (field 1 (num Fixed64) $ field 2 (num Fixed64) $ field 3 (num Fixed64) $ no_fields)
  (fun '(TaskId.mk x1 x2 x3) => (x1, (x2, (x3, tt))))
  (fun '(x1, (x2, (x3, _))) => TaskId.mk x1 x2 x3).
#[export] Instance TaskId_codec_ok : CodecOk TaskId_codec.
Proof. same_fields. Qed.
Definition Task_codec : Codec Task.t := message
  (field 1 (pointer_set TaskId_codec) $ field 2 octets $ field 3 (num Sfixed64) $
    field 4 (num Sfixed64) $ field 5 (num Sfixed64) $ field 6 octets $ field 7 enum $
    field 8 (num Int32) $ field 9 (num Sfixed64) $ field 10 (num Sfixed64) $ field 11 unused $
    field 12 (pointer RetryStrategy_codec) $ field 13 octets $ no_fields)
  (fun '(Task.mk x1 x2 x3 x4 x5 x6 x7 x8 x9 x10 x12 x13) => (x1, (x2, (x3, (x4, (x5, (x6, (x7, (x8, (x9, (x10, (tt, (x12, (x13, tt))))))))))))))
  (fun '(x1, (x2, (x3, (x4, (x5, (x6, (x7, (x8, (x9, (x10, (_, (x12, (x13, _))))))))))))) => Task.mk x1 x2 x3 x4 x5 x6 x7 x8 x9 x10 x12 x13).
#[export] Instance Task_codec_ok : CodecOk Task_codec.
Proof. same_fields. Qed.
Definition ExpirationIndexRecord_codec : Codec (TaskId.t * Z) := message
  (field 1 (pointer_set TaskId_codec) $ field 2 (num Sfixed64) $ no_fields)
  (fun p => (p.1, (p.2, tt)))
  (fun t => (t.1, t.2.1)).
#[export] Instance ExpirationIndexRecord_codec_ok : CodecOk ExpirationIndexRecord_codec.
Proof. same_fields. Qed.
Definition Thread_codec : Codec Thread.t := message
  (field 1 octets $ field 2 (pointer_set TaskId_codec) $ field 3 (num Sfixed64) $
    field 4 (num Sfixed64) $ no_fields)
  (fun '(Thread.mk x1 x2 x3 x4) => (x1, (x2, (x3, (x4, tt)))))
  (fun '(x1, (x2, (x3, (x4, _)))) => Thread.mk x1 x2 x3 x4).
#[export] Instance Thread_codec_ok : CodecOk Thread_codec.
Proof. same_fields. Qed.
Definition EnqueueRequestEntry_codec : Codec EnqueueRequestEntry.t := message
  (field 1 octets $ field 2 (num Sfixed64) $ field 3 (num Sfixed64) $ field 4 octets $
    field 5 (pointer RetryStrategy_codec) $ field 6 packed_enum $ field 7 octets $ no_fields)
  (fun '(EnqueueRequestEntry.mk x1 x2 x3 x4 x5 x6 x7) => (x1, (x2, (x3, (x4, (x5, (x6, (x7, tt))))))))
  (fun '(x1, (x2, (x3, (x4, (x5, (x6, (x7, _))))))) => EnqueueRequestEntry.mk x1 x2 x3 x4 x5 x6 x7).
#[export] Instance EnqueueRequestEntry_codec_ok : CodecOk EnqueueRequestEntry_codec.
Proof. same_fields. Qed.
Definition EnqueueRequest_codec : Codec Wire.EnqueueRequest.t := message
  (field 1 (pointer QueueId_codec) $ field 2 (repeated EnqueueRequestEntry_codec) $ no_fields)
  (fun '(Wire.EnqueueRequest.mk x1 x2) => (x1, (x2, tt)))
  (fun '(x1, (x2, _)) => Wire.EnqueueRequest.mk x1 x2).
#[export] Instance EnqueueRequest_codec_ok : CodecOk EnqueueRequest_codec.
Proof. same_fields. Qed.
Definition EnqueueResponse_codec : Codec (list Task.t) := message
  (field 1 (repeated Task_codec) $ no_fields)
  (fun x => (x, tt))
  fst.
#[export] Instance EnqueueResponse_codec_ok : CodecOk EnqueueResponse_codec.
Proof. same_fields. Qed.
Definition DequeueRequest_codec : Codec Wire.DequeueRequest.t := message
  (field 1 (pointer QueueId_codec) $ field 2 (pointer DequeuingSettings_codec) $
    field 3 (num Int32) $ field 4 (pointer DeadLetterQueueConfig_codec) $ field 5 (num Int64) $
    no_fields)
  (fun '(Wire.DequeueRequest.mk x1 x2 x3 x4 x5) => (x1, (x2, (x3, (x4, (x5, tt))))))
  (fun '(x1, (x2, (x3, (x4, (x5, _))))) => Wire.DequeueRequest.mk x1 x2 x3 x4 x5).
#[export] Instance DequeueRequest_codec_ok : CodecOk DequeueRequest_codec.
Proof. same_fields. Qed.
Definition DequeueResponse_codec : Codec (list Task.t) := message
  (field 1 (repeated Task_codec) $ no_fields)
  (fun x => (x, tt))
  fst.
#[export] Instance DequeueResponse_codec_ok : CodecOk DequeueResponse_codec.
Proof. same_fields. Qed.
Definition ReportStatusRequestEntry_codec : Codec Wire.ReportStatusRequestEntry.t := message
  (field 1 (pointer TaskId_codec) $ field 2 (num Int32) $ field 3 enum $ field 4 (num Int64) $
    no_fields)
  (fun '(Wire.ReportStatusRequestEntry.mk x1 x3 x2 x4) => (x1, (x2, (x3, (x4, tt)))))
  (fun '(x1, (x2, (x3, (x4, _)))) => Wire.ReportStatusRequestEntry.mk x1 x3 x2 x4).
#[export] Instance ReportStatusRequestEntry_codec_ok : CodecOk ReportStatusRequestEntry_codec.
Proof. same_fields. Qed.
Definition ReportStatusRequest_codec : Codec Wire.ReportStatusRequest.t := message
  (field 1 (pointer QueueId_codec) $ field 2 (repeated ReportStatusRequestEntry_codec) $
    field 3 (pointer DeadLetterQueueConfig_codec) $ no_fields)
  (fun '(Wire.ReportStatusRequest.mk x1 x2 x3) => (x1, (x2, (x3, tt))))
  (fun '(x1, (x2, (x3, _))) => Wire.ReportStatusRequest.mk x1 x2 x3).
#[export] Instance ReportStatusRequest_codec_ok : CodecOk ReportStatusRequest_codec.
Proof. same_fields. Qed.
Definition ReportStatusResponseEntry_codec : Codec ReportStatusResponseEntry.t := message
  (field 1 (pointer_set TaskId_codec) $ field 2 enum $ no_fields)
  (fun '(ReportStatusResponseEntry.mk x1 x2) => (x1, (x2, tt)))
  (fun '(x1, (x2, _)) => ReportStatusResponseEntry.mk x1 x2).
#[export] Instance ReportStatusResponseEntry_codec_ok : CodecOk ReportStatusResponseEntry_codec.
Proof. same_fields. Qed.
Definition ReportStatusResponse_codec : Codec (list ReportStatusResponseEntry.t) := message
  (field 1 (repeated ReportStatusResponseEntry_codec) $ no_fields)
  (fun x => (x, tt))
  fst.
#[export] Instance ReportStatusResponse_codec_ok : CodecOk ReportStatusResponse_codec.
Proof. same_fields. Qed.
Definition DeleteTasksRequest_codec : Codec Wire.DeleteTasksRequest.t := message
  (field 1 (pointer QueueId_codec) $ field 2 (packed Fixed64) $ no_fields)
  (fun '(Wire.DeleteTasksRequest.mk x1 x2) => (x1, (x2, tt)))
  (fun '(x1, (x2, _)) => Wire.DeleteTasksRequest.mk x1 x2).
#[export] Instance DeleteTasksRequest_codec_ok : CodecOk DeleteTasksRequest_codec.
Proof. same_fields. Qed.
Definition DeleteTasksResponse_codec : Codec unit := message
  (no_fields)
  id
  id.
#[export] Instance DeleteTasksResponse_codec_ok : CodecOk DeleteTasksResponse_codec.
Proof. same_fields. Qed.
Definition RestartTasksRequestEntry_codec : Codec RestartTasksRequestEntry.t := message
  (field 1 (num Fixed64) $ field 2 (num Sfixed64) $ field 3 (num Sfixed64) $ no_fields)
  (fun '(RestartTasksRequestEntry.mk x1 x2 x3) => (x1, (x2, (x3, tt))))
  (fun '(x1, (x2, (x3, _))) => RestartTasksRequestEntry.mk x1 x2 x3).
#[export] Instance RestartTasksRequestEntry_codec_ok : CodecOk RestartTasksRequestEntry_codec.
Proof. same_fields. Qed.
Definition RestartTasksRequest_codec : Codec Wire.RestartTasksRequest.t := message
  (field 1 (pointer QueueId_codec) $ field 2 (repeated RestartTasksRequestEntry_codec) $ no_fields)
  (fun '(Wire.RestartTasksRequest.mk x1 x2) => (x1, (x2, tt)))
  (fun '(x1, (x2, _)) => Wire.RestartTasksRequest.mk x1 x2).
#[export] Instance RestartTasksRequest_codec_ok : CodecOk RestartTasksRequest_codec.
Proof. same_fields. Qed.
Definition RestartTasksResponseEntry_codec : Codec RestartTasksResponseEntry.t := message
  (field 1 (num Fixed64) $ field 2 enum $ field 3 (pointer Task_codec) $ no_fields)
  (fun '(RestartTasksResponseEntry.mk x1 x2 x3) => (x1, (x2, (x3, tt))))
  (fun '(x1, (x2, (x3, _))) => RestartTasksResponseEntry.mk x1 x2 x3).
#[export] Instance RestartTasksResponseEntry_codec_ok : CodecOk RestartTasksResponseEntry_codec.
Proof. same_fields. Qed.
Definition RestartTasksResponse_codec : Codec (list RestartTasksResponseEntry.t) := message
  (field 1 (repeated RestartTasksResponseEntry_codec) $ no_fields)
  (fun x => (x, tt))
  fst.
#[export] Instance RestartTasksResponse_codec_ok : CodecOk RestartTasksResponse_codec.
Proof. same_fields. Qed.
Definition GetStatisticsRequest_codec : Codec Wire.QueueIdRequest.t := message
  (field 1 (pointer QueueId_codec) $ no_fields)
  (fun '(Wire.QueueIdRequest.mk x1) => (x1, tt))
  (fun '(x1, _) => Wire.QueueIdRequest.mk x1).
#[export] Instance GetStatisticsRequest_codec_ok : CodecOk GetStatisticsRequest_codec.
Proof. same_fields. Qed.
Definition GetStatisticsResponse_codec : Codec GetStatisticsResponse.t := message
  (field 1 (num Int64) $ field 2 (num Int64) $ field 3 (num Int64) $ field 4 (num Int64) $
    field 5 (num Int64) $ field 6 (num Int64) $ field 7 (num Int64) $ no_fields)
  (fun '(GetStatisticsResponse.mk x1 x2 x3 x4 x5 x6 x7) => (x1, (x2, (x3, (x4, (x5, (x6, (x7, tt))))))))
  (fun '(x1, (x2, (x3, (x4, (x5, (x6, (x7, _))))))) => GetStatisticsResponse.mk x1 x2 x3 x4 x5 x6 x7).
#[export] Instance GetStatisticsResponse_codec_ok : CodecOk GetStatisticsResponse_codec.
Proof. same_fields. Qed.
Definition GetTaskRequest_codec : Codec Wire.GetTaskRequest.t := message
  (field 1 (pointer TaskId_codec) $ no_fields)
  (fun '(Wire.GetTaskRequest.mk x1) => (x1, tt))
  (fun '(x1, _) => Wire.GetTaskRequest.mk x1).
#[export] Instance GetTaskRequest_codec_ok : CodecOk GetTaskRequest_codec.
Proof. same_fields. Qed.
Definition GetTaskResponse_codec : Codec (option Task.t) := message
  (field 1 (pointer Task_codec) $ no_fields)
  (fun x => (x, tt))
  fst.
#[export] Instance GetTaskResponse_codec_ok : CodecOk GetTaskResponse_codec.
Proof. same_fields. Qed.
Definition PurgeQueueRequest_codec : Codec Wire.QueueIdRequest.t := message
  (field 1 (pointer QueueId_codec) $ no_fields)
  (fun '(Wire.QueueIdRequest.mk x1) => (x1, tt))
  (fun '(x1, _) => Wire.QueueIdRequest.mk x1).
#[export] Instance PurgeQueueRequest_codec_ok : CodecOk PurgeQueueRequest_codec.
Proof. same_fields. Qed.
Definition PurgeQueueResponse_codec : Codec unit := message
  (no_fields)
  id
  id.
#[export] Instance PurgeQueueResponse_codec_ok : CodecOk PurgeQueueResponse_codec.
Proof. same_fields. Qed.
Definition PurgeQueueGarbageCollectionRecord_codec : Codec PurgeQueueGarbageCollectionRecord.t := message
  (field 1 (pointer_set QueueId_codec) $ no_fields)
  (fun '(PurgeQueueGarbageCollectionRecord.mk x1) => (x1, tt))
  (fun '(x1, _) => PurgeQueueGarbageCollectionRecord.mk x1).
#[export] Instance PurgeQueueGarbageCollectionRecord_codec_ok : CodecOk PurgeQueueGarbageCollectionRecord_codec.
Proof. same_fields. Qed.
Definition RunPurgeQueueGarbageCollectionRequest_codec : Codec RunPurgeQueueGarbageCollectionRequest.t := message
  (field 1 (num Int32) $ field 2 (num Int32) $ field 3 (num Int32) $ no_fields)
  (fun '(RunPurgeQueueGarbageCollectionRequest.mk x1 x2 x3) => (x1, (x2, (x3, tt))))
  (fun '(x1, (x2, (x3, _))) => RunPurgeQueueGarbageCollectionRequest.mk x1 x2 x3).
#[export] Instance RunPurgeQueueGarbageCollectionRequest_codec_ok : CodecOk RunPurgeQueueGarbageCollectionRequest_codec.
Proof. same_fields. Qed.
Definition RunPurgeQueueGarbageCollectionResponse_codec : Codec unit := message
  (no_fields)
  id
  id.
#[export] Instance RunPurgeQueueGarbageCollectionResponse_codec_ok : CodecOk RunPurgeQueueGarbageCollectionResponse_codec.
Proof. same_fields. Qed.
Definition ListTasksRequest_codec : Codec Wire.ListTasksRequest.t := message
  (field 1 (pointer QueueId_codec) $ field 2 (pointer PaginationToken_codec) $
    field 3 (num Int32) $ field 4 enum $ no_fields)
  (fun '(Wire.ListTasksRequest.mk x1 x4 x2 x3) => (x1, (x2, (x3, (x4, tt)))))
  (fun '(x1, (x2, (x3, (x4, _)))) => Wire.ListTasksRequest.mk x1 x4 x2 x3).
#[export] Instance ListTasksRequest_codec_ok : CodecOk ListTasksRequest_codec.
Proof. same_fields. Qed.
Definition ListTasksResponse_codec : Codec listTasksResult := message
  (field 1 (repeated Task_codec) $ field 2 (pointer PaginationToken_codec) $
    field 3 (pointer PaginationToken_codec) $ no_fields)
  (fun '(mkListTasksResult x1 x2 x3) => (x1, (x2, (x3, tt))))
  (fun '(x1, (x2, (x3, _))) => mkListTasksResult x1 x2 x3).
#[export] Instance ListTasksResponse_codec_ok : CodecOk ListTasksResponse_codec.
Proof. same_fields. Qed.
Definition RunTasksGarbageCollectionRequest_codec : Codec RunTasksGarbageCollectionRequest.t := message
  (field 1 (num Int32) $ field 2 (num Int32) $ no_fields)
  (fun '(RunTasksGarbageCollectionRequest.mk x1 x2) => (x1, (x2, tt)))
  (fun '(x1, (x2, _)) => RunTasksGarbageCollectionRequest.mk x1 x2).
#[export] Instance RunTasksGarbageCollectionRequest_codec_ok : CodecOk RunTasksGarbageCollectionRequest_codec.
Proof. same_fields. Qed.
Definition RunTasksGarbageCollectionResponse_codec : Codec unit := message
  (no_fields)
  id
  id.
#[export] Instance RunTasksGarbageCollectionResponse_codec_ok : CodecOk RunTasksGarbageCollectionResponse_codec.
Proof. same_fields. Qed.
Definition TasksCounter_codec : Codec TasksCounter.t := message
  (field 1 (num Int64) $ field 2 (num Int64) $ field 3 (num Int64) $ field 4 (num Int64) $
    field 5 (num Int64) $ no_fields)
  (fun '(TasksCounter.mk x1 x2 x3 x4 x5) => (x1, (x2, (x3, (x4, (x5, tt))))))
  (fun '(x1, (x2, (x3, (x4, (x5, _))))) => TasksCounter.mk x1 x2 x3 x4 x5).
#[export] Instance TasksCounter_codec_ok : CodecOk TasksCounter_codec.
Proof. same_fields. Qed.
Definition QueueState_codec : Codec QueueState.t := message
  (field 1 (num Fixed64) $ field 2 (num Int64) $ field 3 (num Int64) $ no_fields)
  (fun '(QueueState.mk x1 x2 x3) => (x1, (x2, (x3, tt))))
  (fun '(x1, (x2, (x3, _))) => QueueState.mk x1 x2 x3).
#[export] Instance QueueState_codec_ok : CodecOk QueueState_codec.
Proof. same_fields. Qed.
Definition RateLimiterState_codec : Codec RateLimiterState.t := message
  (field 1 (num Int64) $ field 2 (num Sfixed64) $ no_fields)
  (fun '(RateLimiterState.mk x1 x2) => (x1, (x2, tt)))
  (fun '(x1, (x2, _)) => RateLimiterState.mk x1 x2).
#[export] Instance RateLimiterState_codec_ok : CodecOk RateLimiterState_codec.
Proof. same_fields. Qed.

(** ** [MarshalBinary] and [UnmarshalBinary] ([marshal_gen.go]) *)

Section binaries.
Context {PH : Protohelpers}.

Definition CreateQueueRequest_binary : Binary Wire.CreateQueueRequest.t := vt CreateQueueRequest_codec.
Definition CreateQueueResponse_binary : Binary (option Queue.t) := vt CreateQueueResponse_codec.
Definition CreateScheduleRequest_binary : Binary CreateScheduleRequest.t := vt CreateScheduleRequest_codec.
Definition CreateScheduleResponse_binary : Binary (option Schedule.t) := vt CreateScheduleResponse_codec.
Definition DeadLetterQueueConfig_binary : Binary DeadLetterQueueConfig.t := vt DeadLetterQueueConfig_codec.
Definition DeleteQueueRequest_binary : Binary QueueNameRequest.t := vt DeleteQueueRequest_codec.
Definition DeleteQueueResponse_binary : Binary (option QueueId.t) := vt DeleteQueueResponse_codec.
Definition DeleteScheduleRequest_binary : Binary ScheduleNameRequest.t := vt DeleteScheduleRequest_codec.
Definition DeleteScheduleResponse_binary : Binary unit := vt DeleteScheduleResponse_codec.
Definition DeleteTasksRequest_binary : Binary Wire.DeleteTasksRequest.t := vt DeleteTasksRequest_codec.
Definition DeleteTasksResponse_binary : Binary unit := vt DeleteTasksResponse_codec.
Definition DequeSchedulesRequest_binary : Binary Z := vt DequeSchedulesRequest_codec.
Definition DequeSchedulesResponse_binary : Binary (list (Schedule.t * Queue.t)) := vt DequeSchedulesResponse_codec.
Definition DequeSchedulesResponseEntry_binary : Binary (Schedule.t * Queue.t) := vt DequeSchedulesResponseEntry_codec.
Definition DequeueRequest_binary : Binary Wire.DequeueRequest.t := vt DequeueRequest_codec.
Definition DequeueResponse_binary : Binary (list Task.t) := vt DequeueResponse_codec.
Definition DequeuingSettings_binary : Binary DequeuingSettings.t := vt DequeuingSettings_codec.
Definition EnqueueRequest_binary : Binary Wire.EnqueueRequest.t := vt EnqueueRequest_codec.
Definition EnqueueRequestEntry_binary : Binary EnqueueRequestEntry.t := vt EnqueueRequestEntry_codec.
Definition EnqueueResponse_binary : Binary (list Task.t) := vt EnqueueResponse_codec.
Definition ExpirationIndexRecord_binary : Binary (TaskId.t * Z) := vt ExpirationIndexRecord_codec.
Definition GetQueueByNameRequest_binary : Binary QueueNameRequest.t := vt GetQueueByNameRequest_codec.
Definition GetQueueByNameResponse_binary : Binary (option Queue.t) := vt GetQueueByNameResponse_codec.
Definition GetQueueRequest_binary : Binary Wire.QueueIdRequest.t := vt GetQueueRequest_codec.
Definition GetQueueResponse_binary : Binary (option Queue.t) := vt GetQueueResponse_codec.
Definition GetScheduleRequest_binary : Binary ScheduleNameRequest.t := vt GetScheduleRequest_codec.
Definition GetScheduleResponse_binary : Binary (option Schedule.t) := vt GetScheduleResponse_codec.
Definition GetStatisticsRequest_binary : Binary Wire.QueueIdRequest.t := vt GetStatisticsRequest_codec.
Definition GetStatisticsResponse_binary : Binary GetStatisticsResponse.t := vt GetStatisticsResponse_codec.
Definition GetTaskRequest_binary : Binary Wire.GetTaskRequest.t := vt GetTaskRequest_codec.
Definition GetTaskResponse_binary : Binary (option Task.t) := vt GetTaskResponse_codec.
Definition ListQueuesRequest_binary : Binary ListQueuesRequest.t := vt ListQueuesRequest_codec.
Definition ListQueuesResponse_binary : Binary listQueuesResult := vt ListQueuesResponse_codec.
Definition ListSchedulesRequest_binary : Binary Wire.ListSchedulesRequest.t := vt ListSchedulesRequest_codec.
Definition ListSchedulesResponse_binary : Binary listSchedulesResult := vt ListSchedulesResponse_codec.
Definition ListTasksRequest_binary : Binary Wire.ListTasksRequest.t := vt ListTasksRequest_codec.
Definition ListTasksResponse_binary : Binary listTasksResult := vt ListTasksResponse_codec.
Definition PaginationToken_binary : Binary CorePaginationToken.t := vt PaginationToken_codec.
Definition PurgeQueueGarbageCollectionRecord_binary : Binary PurgeQueueGarbageCollectionRecord.t := vt PurgeQueueGarbageCollectionRecord_codec.
Definition PurgeQueueRequest_binary : Binary Wire.QueueIdRequest.t := vt PurgeQueueRequest_codec.
Definition PurgeQueueResponse_binary : Binary unit := vt PurgeQueueResponse_codec.
Definition Queue_binary : Binary Queue.t := vt Queue_codec.
Definition QueueId_binary : Binary QueueId.t := vt QueueId_codec.
Definition QueueState_binary : Binary QueueState.t := vt QueueState_codec.
Definition QueuesCounter_binary : Binary QueuesCounter.t := vt QueuesCounter_codec.
Definition QueuesGarbageCollectionRecord_binary : Binary QueuesGarbageCollectionRecord.t := vt QueuesGarbageCollectionRecord_codec.
Definition RateLimiterState_binary : Binary RateLimiterState.t := vt RateLimiterState_codec.
Definition ReportSchedulesStatusRequest_binary : Binary Wire.ReportSchedulesStatusRequest.t := vt ReportSchedulesStatusRequest_codec.
Definition ReportSchedulesStatusResponse_binary : Binary unit := vt ReportSchedulesStatusResponse_codec.
Definition ReportStatusRequest_binary : Binary Wire.ReportStatusRequest.t := vt ReportStatusRequest_codec.
Definition ReportStatusRequestEntry_binary : Binary Wire.ReportStatusRequestEntry.t := vt ReportStatusRequestEntry_codec.
Definition ReportStatusResponse_binary : Binary (list ReportStatusResponseEntry.t) := vt ReportStatusResponse_codec.
Definition ReportStatusResponseEntry_binary : Binary ReportStatusResponseEntry.t := vt ReportStatusResponseEntry_codec.
Definition RestartTasksRequest_binary : Binary Wire.RestartTasksRequest.t := vt RestartTasksRequest_codec.
Definition RestartTasksRequestEntry_binary : Binary RestartTasksRequestEntry.t := vt RestartTasksRequestEntry_codec.
Definition RestartTasksResponse_binary : Binary (list RestartTasksResponseEntry.t) := vt RestartTasksResponse_codec.
Definition RestartTasksResponseEntry_binary : Binary RestartTasksResponseEntry.t := vt RestartTasksResponseEntry_codec.
Definition RetryStrategy_binary : Binary RetryStrategy.t := vt RetryStrategy_codec.
Definition RunPurgeQueueGarbageCollectionRequest_binary : Binary RunPurgeQueueGarbageCollectionRequest.t := vt RunPurgeQueueGarbageCollectionRequest_codec.
Definition RunPurgeQueueGarbageCollectionResponse_binary : Binary unit := vt RunPurgeQueueGarbageCollectionResponse_codec.
Definition RunQueuesGarbageCollectionRequest_binary : Binary RunQueuesGarbageCollectionRequest.t := vt RunQueuesGarbageCollectionRequest_codec.
Definition RunQueuesGarbageCollectionResponse_binary : Binary unit := vt RunQueuesGarbageCollectionResponse_codec.
Definition RunTasksGarbageCollectionRequest_binary : Binary RunTasksGarbageCollectionRequest.t := vt RunTasksGarbageCollectionRequest_codec.
Definition RunTasksGarbageCollectionResponse_binary : Binary unit := vt RunTasksGarbageCollectionResponse_codec.
Definition Schedule_binary : Binary Schedule.t := vt Schedule_codec.
Definition ScheduleId_binary : Binary ScheduleId.t := vt ScheduleId_codec.
Definition SwapQueueIdRequest_binary : Binary SwapQueueIdRequest.t := vt SwapQueueIdRequest_codec.
Definition SwapQueueIdResponse_binary : Binary (option Queue.t * option QueueId.t) := vt SwapQueueIdResponse_codec.
Definition Task_binary : Binary Task.t := vt Task_codec.
Definition TaskId_binary : Binary TaskId.t := vt TaskId_codec.
Definition TasksCounter_binary : Binary TasksCounter.t := vt TasksCounter_codec.
Definition Thread_binary : Binary Thread.t := vt Thread_codec.
Definition TokenBucketRateLimiting_binary : Binary TokenBucketRateLimiting.t := vt TokenBucketRateLimiting_codec.
Definition UpdateQueueRequest_binary : Binary UpdateQueueRequest.t := vt UpdateQueueRequest_codec.
Definition UpdateQueueResponse_binary : Binary (option Queue.t) := vt UpdateQueueResponse_codec.
Definition UpdateScheduleRequest_binary : Binary UpdateScheduleRequest.t := vt UpdateScheduleRequest_codec.
Definition UpdateScheduleResponse_binary : Binary (option Schedule.t) := vt UpdateScheduleResponse_codec.
End binaries.

(** ** All messages *)

Record AnyMessage := any { message_type : Type; message_codec : Codec message_type; message_binary : Binary message_type }.

Section all.
Context {PH : Protohelpers}.

Definition all_messages : list AnyMessage :=
  [any _ CreateQueueRequest_codec CreateQueueRequest_binary;
   any _ CreateQueueResponse_codec CreateQueueResponse_binary;
   any _ CreateScheduleRequest_codec CreateScheduleRequest_binary;
   any _ CreateScheduleResponse_codec CreateScheduleResponse_binary;
   any _ DeadLetterQueueConfig_codec DeadLetterQueueConfig_binary;
   any _ DeleteQueueRequest_codec DeleteQueueRequest_binary;
   any _ DeleteQueueResponse_codec DeleteQueueResponse_binary;
   any _ DeleteScheduleRequest_codec DeleteScheduleRequest_binary;
   any _ DeleteScheduleResponse_codec DeleteScheduleResponse_binary;
   any _ DeleteTasksRequest_codec DeleteTasksRequest_binary;
   any _ DeleteTasksResponse_codec DeleteTasksResponse_binary;
   any _ DequeSchedulesRequest_codec DequeSchedulesRequest_binary;
   any _ DequeSchedulesResponse_codec DequeSchedulesResponse_binary;
   any _ DequeSchedulesResponseEntry_codec DequeSchedulesResponseEntry_binary;
   any _ DequeueRequest_codec DequeueRequest_binary;
   any _ DequeueResponse_codec DequeueResponse_binary;
   any _ DequeuingSettings_codec DequeuingSettings_binary;
   any _ EnqueueRequest_codec EnqueueRequest_binary;
   any _ EnqueueRequestEntry_codec EnqueueRequestEntry_binary;
   any _ EnqueueResponse_codec EnqueueResponse_binary;
   any _ ExpirationIndexRecord_codec ExpirationIndexRecord_binary;
   any _ GetQueueByNameRequest_codec GetQueueByNameRequest_binary;
   any _ GetQueueByNameResponse_codec GetQueueByNameResponse_binary;
   any _ GetQueueRequest_codec GetQueueRequest_binary;
   any _ GetQueueResponse_codec GetQueueResponse_binary;
   any _ GetScheduleRequest_codec GetScheduleRequest_binary;
   any _ GetScheduleResponse_codec GetScheduleResponse_binary;
   any _ GetStatisticsRequest_codec GetStatisticsRequest_binary;
   any _ GetStatisticsResponse_codec GetStatisticsResponse_binary;
   any _ GetTaskRequest_codec GetTaskRequest_binary;
   any _ GetTaskResponse_codec GetTaskResponse_binary;
   any _ ListQueuesRequest_codec ListQueuesRequest_binary;
   any _ ListQueuesResponse_codec ListQueuesResponse_binary;
   any _ ListSchedulesRequest_codec ListSchedulesRequest_binary;
   any _ ListSchedulesResponse_codec ListSchedulesResponse_binary;
   any _ ListTasksRequest_codec ListTasksRequest_binary;
   any _ ListTasksResponse_codec ListTasksResponse_binary;
   any _ PaginationToken_codec PaginationToken_binary;
   any _ PurgeQueueGarbageCollectionRecord_codec PurgeQueueGarbageCollectionRecord_binary;
   any _ PurgeQueueRequest_codec PurgeQueueRequest_binary;
   any _ PurgeQueueResponse_codec PurgeQueueResponse_binary;
   any _ Queue_codec Queue_binary;
   any _ QueueId_codec QueueId_binary;
   any _ QueueState_codec QueueState_binary;
   any _ QueuesCounter_codec QueuesCounter_binary;
   any _ QueuesGarbageCollectionRecord_codec QueuesGarbageCollectionRecord_binary;
   any _ RateLimiterState_codec RateLimiterState_binary;
   any _ ReportSchedulesStatusRequest_codec ReportSchedulesStatusRequest_binary;
   any _ ReportSchedulesStatusResponse_codec ReportSchedulesStatusResponse_binary;
   any _ ReportStatusRequest_codec ReportStatusRequest_binary;
   any _ ReportStatusRequestEntry_codec ReportStatusRequestEntry_binary;
   any _ ReportStatusResponse_codec ReportStatusResponse_binary;
   any _ ReportStatusResponseEntry_codec ReportStatusResponseEntry_binary;
   any _ RestartTasksRequest_codec RestartTasksRequest_binary;
   any _ RestartTasksRequestEntry_codec RestartTasksRequestEntry_binary;
   any _ RestartTasksResponse_codec RestartTasksResponse_binary;
   any _ RestartTasksResponseEntry_codec RestartTasksResponseEntry_binary;
   any _ RetryStrategy_codec RetryStrategy_binary;
   any _ RunPurgeQueueGarbageCollectionRequest_codec RunPurgeQueueGarbageCollectionRequest_binary;
   any _ RunPurgeQueueGarbageCollectionResponse_codec RunPurgeQueueGarbageCollectionResponse_binary;
   any _ RunQueuesGarbageCollectionRequest_codec RunQueuesGarbageCollectionRequest_binary;
   any _ RunQueuesGarbageCollectionResponse_codec RunQueuesGarbageCollectionResponse_binary;
   any _ RunTasksGarbageCollectionRequest_codec RunTasksGarbageCollectionRequest_binary;
   any _ RunTasksGarbageCollectionResponse_codec RunTasksGarbageCollectionResponse_binary;
   any _ Schedule_codec Schedule_binary;
   any _ ScheduleId_codec ScheduleId_binary;
   any _ SwapQueueIdRequest_codec SwapQueueIdRequest_binary;
   any _ SwapQueueIdResponse_codec SwapQueueIdResponse_binary;
   any _ Task_codec Task_binary;
   any _ TaskId_codec TaskId_binary;
   any _ TasksCounter_codec TasksCounter_binary;
   any _ Thread_codec Thread_binary;
   any _ TokenBucketRateLimiting_codec TokenBucketRateLimiting_binary;
   any _ UpdateQueueRequest_codec UpdateQueueRequest_binary;
   any _ UpdateQueueResponse_codec UpdateQueueResponse_binary;
   any _ UpdateScheduleRequest_codec UpdateScheduleRequest_binary;
   any _ UpdateScheduleResponse_codec UpdateScheduleResponse_binary].

Lemma all_messages_codecs :
  Forall (fun m => message_binary m = vt (message_codec m) /\ CodecOk (message_codec m) /\
                   wf_desc (desc (message_codec m)) = true) all_messages.
Proof.
  unfold all_messages. repeat (apply Forall_cons; split; [split; [reflexivity|split; [apply _|reflexivity]]|]).
  by apply Forall_nil.
Qed.
End all.
