(* ===== verification/MessagesProps.v ===== *)
(** * Theorems on the messages

    Every message of [marshal_gen.go] survives its encoding, and decoding any bytes ends. *)

From S2P Require Export Messages.

Section theorems.
Context {PH : Protohelpers} {PO : ProtohelpersOk PH}.

(** C26: for each of the messages of [marshal_gen.go] and every value of its Go type whose
    encoding fits a slice (numbers at their width, nested and repeated messages included),
    [UnmarshalBinary] reads back from [MarshalBinary] the value itself, and [SizeVT], the
    size of the buffer [MarshalVT] allocates and fills from the back, is the exact length of
    the encoding. *)
Theorem messages_roundtrip :
  Forall (fun m => forall v, fits (message_codec m) v ->
    UnmarshalBinary (message_binary m) (MarshalBinary (message_binary m) v) = Some v /\
    SizeVT (message_codec m) v = len (MarshalBinary (message_binary m) v)) all_messages.
Proof.
  eapply Forall_impl; [apply all_messages_codecs|]. intros m (E & Hc & Hw) v Hv. rewrite E.
  split; [by apply vt_roundtrip|by apply vt_size].
Qed.

(** C27: [UnmarshalVT] ends on every input, for every message: no loop of the decoder (over the
    fields, over the bytes of a varint, over a packed field, in a nested message) runs out of
    the bound the model gives it, which is the length of its input, or 10 bytes for a varint. *)
Theorem decoding_ends data :
  Forall (fun m => decode_message (desc (message_codec m)) data <> inl ErrLoopBound) all_messages.
Proof. apply Forall_forall. intros m _. apply decode_message_bound. Qed.
End theorems.

(** ** A reference for [protohelpers] *)

(** A field of wire type 0, 1, 2 or 5 is skipped; groups are an error. *)
Definition skip_field (data : bytes) : option Z :=
  match get_varint u64 data with
  | inl _ => None
  | inr (t, rest) =>
      let body := match Z.land t 7 with
        | 0 => match get_varint u64 rest with inl _ => None | inr (_, rest') => Some (len rest - len rest') end
        | 1 => Some 8
        | 2 => match get_varint i64 rest with
               | inl _ => None
               | inr (n, rest') => if n <? 0 then None else Some (len rest - len rest' + n)
               end
        | 5 => Some 4
        | _ => None
        end in
      (fun n => len data - len rest + n) <$> body
  end.
Definition protohelpers_ref : Protohelpers := {|
  EncodeVarint := put_varint; SizeOfVarint v := len (put_varint v); Skip := skip_field |}.
#[export] Instance protohelpers_ref_ok : ProtohelpersOk protohelpers_ref.
Proof.
  split; [done..|]. intros data n. cbn. unfold skip_field. destruct (get_varint u64 data) as [|[t rest]] eqn:E; [done|].
  apply get_varint_shorter in E. cbn zeta. intros (b & Eb & ->)%fmap_Some. assert (0 <= b); [|unfold len; lia].
  destruct (Z.land t 7) as [|[[[]|[]|]|[]|]|]; try done; try (injection Eb as <-; done).
  - destruct (get_varint u64 rest) as [|[z r]] eqn:E2; [done|]. apply get_varint_shorter in E2. injection Eb as <-.
    unfold len. lia.
  - destruct (get_varint i64 rest) as [|[z r]] eqn:E2; [done|]. apply get_varint_shorter in E2.
    destruct (Z.ltb_spec z 0); [done|]. injection Eb as <-. unfold len. lia.
Qed.


(** ** Witnesses *)

Module MRun.
#[export] Existing Instance protohelpers_ref.
Definition task : Task.t :=
  Task.mk (TaskId.mk 7 3 (two64 - 1)) (str "payload") 1700000000 (-5) 0 [] TASK_STATE_IN_PROGRESS 3 9 0
    (Some (RetryStrategy.mk [5; 300; -1])) (str "t").
Lemma task_fits : fits Task_codec task.
Proof.
  split; [|vm_compute; reflexivity].
  cbn -[two63 two64 is_i64 is_u64 is_i32 scalar_ok]. repeat (apply conj); rewrite ?Forall_cons, ?Forall_nil;
  repeat (apply conj); first [exact I|reflexivity|vm_compute; intros [=]].
Qed.
(** [id] first: field 1, 27 bytes, three little-endian ids. *)
Example task_bytes : take 4 (MarshalBinary Task_binary task) = [10; 27; 9; 7].
Proof. vm_compute. reflexivity. Qed.
End MRun.
Import MRun.

Lemma messages_roundtrip_witness :
  UnmarshalBinary Task_binary (MarshalBinary Task_binary MRun.task) = Some MRun.task /\
  SizeVT Task_codec MRun.task = len (MarshalBinary Task_binary MRun.task).
Proof.
  assert (Hin : any _ Task_codec Task_binary ∈ all_messages) by (apply list_elem_of_In; repeat (first [left; reflexivity|right])).
  exact (proj1 (Forall_forall _ _) messages_roundtrip _ Hin MRun.task MRun.task_fits).
Defined.

Lemma decoding_ends_witness : decode_message (desc Task_codec) [255; 255; 255] <> inl ErrLoopBound.
Proof.
  assert (Hin : any _ Task_codec Task_binary ∈ all_messages) by (apply list_elem_of_In; repeat (first [left; reflexivity|right])).
  exact (proj1 (Forall_forall _ _) (decoding_ends [255; 255; 255]) _ Hin).
Defined.
