(* ===== verification/Adapters.v ===== *)
(** * The core adapters ([pkg/coreapis/adapters.go])

    A node hands the bytes of a call to the adapter of a replica, which decodes the envelope
    ([mrpc.Request]), picks the handler by its method number, decodes the request, checks
    that its key lies within the shard's bounds, calls the core and encodes the answer.
    [Message] lists the messages of a call, indexed by the type that models them; [Mrpc] is
    the encoding of the two envelopes, which the Monstera library defines.  Handler and encoder run in
    this order: what the core committed stays even if its answer cannot be encoded. *)

From S2P Require Export Messages.

(** ** Messages *)

(** The messages of a call.  A field that is a pointer in a response may be nil. *)
Inductive Message : Type -> Type :=
  | GetQueueRequest : Message Wire.QueueIdRequest.t
  | GetQueueResponse : Message (option Queue.t)
  | GetQueueByNameRequest : Message QueueNameRequest.t
  | GetQueueByNameResponse : Message (option Queue.t)
  | ListQueuesRequest : Message ListQueuesRequest.t
  | ListQueuesResponse : Message listQueuesResult
  | GetScheduleRequest : Message ScheduleNameRequest.t
  | GetScheduleResponse : Message (option Schedule.t)
  | DequeSchedulesRequest : Message Z
  | DequeSchedulesResponse : Message (list (Schedule.t * Queue.t))
  | ListSchedulesRequest : Message Wire.ListSchedulesRequest.t
  | ListSchedulesResponse : Message listSchedulesResult
  | CreateQueueRequest : Message Wire.CreateQueueRequest.t
  | CreateQueueResponse : Message (option Queue.t)
  | UpdateQueueRequest : Message UpdateQueueRequest.t
  | UpdateQueueResponse : Message (option Queue.t)
  | DeleteQueueRequest : Message QueueNameRequest.t
  | DeleteQueueResponse : Message (option QueueId.t)
  | CreateScheduleRequest : Message CreateScheduleRequest.t
  | CreateScheduleResponse : Message (option Schedule.t)
  | UpdateScheduleRequest : Message UpdateScheduleRequest.t
  | UpdateScheduleResponse : Message (option Schedule.t)
  | DeleteScheduleRequest : Message ScheduleNameRequest.t
  | DeleteScheduleResponse : Message unit
  | ReportSchedulesStatusRequest : Message Wire.ReportSchedulesStatusRequest.t
  | ReportSchedulesStatusResponse : Message unit
  | RunQueuesGarbageCollectionRequest : Message RunQueuesGarbageCollectionRequest.t
  | RunQueuesGarbageCollectionResponse : Message unit
  | SwapQueueIdRequest : Message SwapQueueIdRequest.t
  | SwapQueueIdResponse : Message (option Queue.t * option QueueId.t)
  | GetTaskRequest : Message Wire.GetTaskRequest.t
  | GetTaskResponse : Message (option Task.t)
  | GetStatisticsRequest : Message Wire.QueueIdRequest.t
  | GetStatisticsResponse : Message GetStatisticsResponse.t
  | ListTasksRequest : Message Wire.ListTasksRequest.t
  | ListTasksResponse : Message listTasksResult
  | EnqueueRequest : Message Wire.EnqueueRequest.t
  | EnqueueResponse : Message (list Task.t)
  | DequeueRequest : Message Wire.DequeueRequest.t
  | DequeueResponse : Message (list Task.t)
  | ReportStatusRequest : Message Wire.ReportStatusRequest.t
  | ReportStatusResponse : Message (list ReportStatusResponseEntry.t)
  | DeleteTasksRequest : Message Wire.DeleteTasksRequest.t
  | DeleteTasksResponse : Message unit
  | RestartTasksRequest : Message Wire.RestartTasksRequest.t
  | RestartTasksResponse : Message (list RestartTasksResponseEntry.t)
  | PurgeQueueRequest : Message Wire.QueueIdRequest.t
  | PurgeQueueResponse : Message unit
  | RunTasksGarbageCollectionRequest : Message RunTasksGarbageCollectionRequest.t
  | RunTasksGarbageCollectionResponse : Message unit
  | RunPurgeQueueGarbageCollectionRequest : Message RunPurgeQueueGarbageCollectionRequest.t
  | RunPurgeQueueGarbageCollectionResponse : Message unit.

Definition swap_response (p : Queue.t * QueueId.t) : option Queue.t * option QueueId.t := (Some p.1, Some p.2).
Definition swap_payload (r : option Queue.t * option QueueId.t) : option (Queue.t * QueueId.t) :=
  match r with (Some q, Some i) => Some (q, i) | _ => None end.

(** The message's fields, its [MarshalBinary] and [UnmarshalBinary], and its values that fit. *)
Definition codec {A} (m : Message A) : Codec A :=
  match m with
  | GetQueueRequest => GetQueueRequest_codec
  | GetQueueResponse => GetQueueResponse_codec
  | GetQueueByNameRequest => GetQueueByNameRequest_codec
  | GetQueueByNameResponse => GetQueueByNameResponse_codec
  | ListQueuesRequest => ListQueuesRequest_codec
  | ListQueuesResponse => ListQueuesResponse_codec
  | GetScheduleRequest => GetScheduleRequest_codec
  | GetScheduleResponse => GetScheduleResponse_codec
  | DequeSchedulesRequest => DequeSchedulesRequest_codec
  | DequeSchedulesResponse => DequeSchedulesResponse_codec
  | ListSchedulesRequest => ListSchedulesRequest_codec
  | ListSchedulesResponse => ListSchedulesResponse_codec
  | CreateQueueRequest => CreateQueueRequest_codec
  | CreateQueueResponse => CreateQueueResponse_codec
  | UpdateQueueRequest => UpdateQueueRequest_codec
  | UpdateQueueResponse => UpdateQueueResponse_codec
  | DeleteQueueRequest => DeleteQueueRequest_codec
  | DeleteQueueResponse => DeleteQueueResponse_codec
  | CreateScheduleRequest => CreateScheduleRequest_codec
  | CreateScheduleResponse => CreateScheduleResponse_codec
  | UpdateScheduleRequest => UpdateScheduleRequest_codec
  | UpdateScheduleResponse => UpdateScheduleResponse_codec
  | DeleteScheduleRequest => DeleteScheduleRequest_codec
  | DeleteScheduleResponse => DeleteScheduleResponse_codec
  | ReportSchedulesStatusRequest => ReportSchedulesStatusRequest_codec
  | ReportSchedulesStatusResponse => ReportSchedulesStatusResponse_codec
  | RunQueuesGarbageCollectionRequest => RunQueuesGarbageCollectionRequest_codec
  | RunQueuesGarbageCollectionResponse => RunQueuesGarbageCollectionResponse_codec
  | SwapQueueIdRequest => SwapQueueIdRequest_codec
  | SwapQueueIdResponse => SwapQueueIdResponse_codec
  | GetTaskRequest => GetTaskRequest_codec
  | GetTaskResponse => GetTaskResponse_codec
  | GetStatisticsRequest => GetStatisticsRequest_codec
  | GetStatisticsResponse => GetStatisticsResponse_codec
  | ListTasksRequest => ListTasksRequest_codec
  | ListTasksResponse => ListTasksResponse_codec
  | EnqueueRequest => EnqueueRequest_codec
  | EnqueueResponse => EnqueueResponse_codec
  | DequeueRequest => DequeueRequest_codec
  | DequeueResponse => DequeueResponse_codec
  | ReportStatusRequest => ReportStatusRequest_codec
  | ReportStatusResponse => ReportStatusResponse_codec
  | DeleteTasksRequest => DeleteTasksRequest_codec
  | DeleteTasksResponse => DeleteTasksResponse_codec
  | RestartTasksRequest => RestartTasksRequest_codec
  | RestartTasksResponse => RestartTasksResponse_codec
  | PurgeQueueRequest => PurgeQueueRequest_codec
  | PurgeQueueResponse => PurgeQueueResponse_codec
  | RunTasksGarbageCollectionRequest => RunTasksGarbageCollectionRequest_codec
  | RunTasksGarbageCollectionResponse => RunTasksGarbageCollectionResponse_codec
  | RunPurgeQueueGarbageCollectionRequest => RunPurgeQueueGarbageCollectionRequest_codec
  | RunPurgeQueueGarbageCollectionResponse => RunPurgeQueueGarbageCollectionResponse_codec
  end.

Section marshalling.
Context {PH : Protohelpers}.

Definition binary {A} (m : Message A) : Binary A :=
  match m with
  | GetQueueRequest => GetQueueRequest_binary
  | GetQueueResponse => GetQueueResponse_binary
  | GetQueueByNameRequest => GetQueueByNameRequest_binary
  | GetQueueByNameResponse => GetQueueByNameResponse_binary
  | ListQueuesRequest => ListQueuesRequest_binary
  | ListQueuesResponse => ListQueuesResponse_binary
  | GetScheduleRequest => GetScheduleRequest_binary
  | GetScheduleResponse => GetScheduleResponse_binary
  | DequeSchedulesRequest => DequeSchedulesRequest_binary
  | DequeSchedulesResponse => DequeSchedulesResponse_binary
  | ListSchedulesRequest => ListSchedulesRequest_binary
  | ListSchedulesResponse => ListSchedulesResponse_binary
  | CreateQueueRequest => CreateQueueRequest_binary
  | CreateQueueResponse => CreateQueueResponse_binary
  | UpdateQueueRequest => UpdateQueueRequest_binary
  | UpdateQueueResponse => UpdateQueueResponse_binary
  | DeleteQueueRequest => DeleteQueueRequest_binary
  | DeleteQueueResponse => DeleteQueueResponse_binary
  | CreateScheduleRequest => CreateScheduleRequest_binary
  | CreateScheduleResponse => CreateScheduleResponse_binary
  | UpdateScheduleRequest => UpdateScheduleRequest_binary
  | UpdateScheduleResponse => UpdateScheduleResponse_binary
  | DeleteScheduleRequest => DeleteScheduleRequest_binary
  | DeleteScheduleResponse => DeleteScheduleResponse_binary
  | ReportSchedulesStatusRequest => ReportSchedulesStatusRequest_binary
  | ReportSchedulesStatusResponse => ReportSchedulesStatusResponse_binary
  | RunQueuesGarbageCollectionRequest => RunQueuesGarbageCollectionRequest_binary
  | RunQueuesGarbageCollectionResponse => RunQueuesGarbageCollectionResponse_binary
  | SwapQueueIdRequest => SwapQueueIdRequest_binary
  | SwapQueueIdResponse => SwapQueueIdResponse_binary
  | GetTaskRequest => GetTaskRequest_binary
  | GetTaskResponse => GetTaskResponse_binary
  | GetStatisticsRequest => GetStatisticsRequest_binary
  | GetStatisticsResponse => GetStatisticsResponse_binary
  | ListTasksRequest => ListTasksRequest_binary
  | ListTasksResponse => ListTasksResponse_binary
  | EnqueueRequest => EnqueueRequest_binary
  | EnqueueResponse => EnqueueResponse_binary
  | DequeueRequest => DequeueRequest_binary
  | DequeueResponse => DequeueResponse_binary
  | ReportStatusRequest => ReportStatusRequest_binary
  | ReportStatusResponse => ReportStatusResponse_binary
  | DeleteTasksRequest => DeleteTasksRequest_binary
  | DeleteTasksResponse => DeleteTasksResponse_binary
  | RestartTasksRequest => RestartTasksRequest_binary
  | RestartTasksResponse => RestartTasksResponse_binary
  | PurgeQueueRequest => PurgeQueueRequest_binary
  | PurgeQueueResponse => PurgeQueueResponse_binary
  | RunTasksGarbageCollectionRequest => RunTasksGarbageCollectionRequest_binary
  | RunTasksGarbageCollectionResponse => RunTasksGarbageCollectionResponse_binary
  | RunPurgeQueueGarbageCollectionRequest => RunPurgeQueueGarbageCollectionRequest_binary
  | RunPurgeQueueGarbageCollectionResponse => RunPurgeQueueGarbageCollectionResponse_binary
  end.
(** [MarshalVT] never returns an error. *)
Definition Marshal {A} (m : Message A) (a : A) : option bytes := Some (MarshalBinary (binary m) a).
Definition Unmarshal {A} (m : Message A) (b : bytes) : option A := UnmarshalBinary (binary m) b.
Definition Fits {A} (m : Message A) (a : A) : Prop := fits (codec m) a.

Lemma codec_laws {A} (m : Message A) :
  binary m = vt (codec m) /\ CodecOk (codec m) /\ wf_desc (desc (codec m)) = true.
Proof. destruct m; (split; [reflexivity|split; [apply _|reflexivity]]). Qed.

Lemma Marshal_total {A} (m : Message A) a {PO : ProtohelpersOk PH} :
  Fits m a -> exists b, Marshal m a = Some b /\ Unmarshal m b = Some a.
Proof.
  destruct (codec_laws m) as (E & ? & ?). intros Ha. eexists. split; [done|]. unfold Unmarshal. rewrite E.
  by apply vt_roundtrip.
Qed.
(** No bytes at all decode, to the message with no field set. *)
Lemma Unmarshal_empty {A} (m : Message A) : is_Some (Unmarshal m []).
Proof. destruct m; by eexists. Qed.
End marshalling.

(** [mrpc.Request] and [mrpc.Response] *)
Record Request := mkRequest { Data : bytes; IdempotencyToken : bytes; MethodNumber : Z; Now : Z }.
Record RpcResponse := mkRpcResponse { resp_Data : bytes; resp_Error : option mrpcError }.

Class Mrpc : Type := {
  Request_Marshal : Request -> option bytes;
  Request_Unmarshal : bytes -> option Request;
  Response_Marshal : RpcResponse -> option bytes;
  Response_Unmarshal : bytes -> option RpcResponse;
}.
(** The numbers of a request are within their Go types, whatever the type of the first. *)
Definition go_request (r : Request) : Prop := 0 <= MethodNumber r < 2 ^ 31 /\ is_i64 (Now r).

(** Protobuf encodings read back.  An error carries a code, a message and a map of strings:
    the numbers of an error were formatted before. *)
Class MrpcOk (R : Mrpc) : Prop := {
  Request_total r : go_request r -> exists b, Request_Marshal r = Some b /\ Request_Unmarshal b = Some r;
  Response_total r : exists b, Response_Marshal r = Some b /\ Response_Unmarshal b = Some r;
}.

(** ** One method *)

Section adapters.
Context {U : Utils} {K : Keyspace} {PH : Protohelpers} {R : Mrpc}.

Definition checkShardBounds (shardKey lowerBound upperBound : Z) : Res unit :=
  if (shardKey <? lowerBound) || (shardKey >? upperBound) then Fail ErrRoutingViolation else Ok tt.

(** The check of a sharded method; [ShardKey] panics on a nil id. *)
Definition check_key {A} (ShardKey : A -> option Z) (methodReq : A) (lower upper : Z) : Res unit :=
  match ShardKey methodReq with
  | None => Fail (ErrPanic NilDereference)
  | Some shardKey => checkShardBounds shardKey lower upper
  end.
Definition no_check {A} (methodReq : A) (lower upper : Z) : Res unit := Ok tt.

Section serve.
Context {S A B X : Type}.
Context (reqMsg : Message A) (check : A -> Z -> Z -> Res unit).
Context (call : A -> Z -> M S (Outcome X)) (respMsg : Message B) (payload : X -> B).

Definition serve (ad : Adapter S) (rpcReq : Request) : Res RpcResponse * S :=
  match Unmarshal reqMsg (Data rpcReq) with
  | None => (Fail ErrUnmarshal, core ad)
  | Some methodReq =>
      match check methodReq (lowerBound ad) (upperBound ad) with
      | Fail e => (Fail e, core ad)
      | Ok _ =>
          match rpc (call methodReq (Now rpcReq)) (core ad) with
          | (Fail e, s) => (Fail e, s)
          | (Ok (inl e), s) => (Ok (mkRpcResponse [] (Some e)), s)
          | (Ok (inr p), s) =>
              match Marshal respMsg (payload p) with
              | None => (Fail ErrMarshal, s)
              | Some methodRespBytes => (Ok (mkRpcResponse methodRespBytes None), s)
              end
          end
      end
  end.
End serve.

(** The envelope around the switch. *)
Definition with_envelope {S} (switch : Request -> Res RpcResponse * S) (ad : Adapter S) (rpcReqBytes : bytes)
    : Res bytes * S :=
  match Request_Unmarshal rpcReqBytes with
  | None => (Fail ErrUnmarshal, core ad)
  | Some rpcReq =>
      match switch rpcReq with
      | (Fail e, s) => (Fail e, s)
      | (Ok rpcResp, s) =>
          match Response_Marshal rpcResp with
          | None => (Fail ErrMarshal, s)
          | Some rpcRespBytes => (Ok rpcRespBytes, s)
          end
      end
  end.

(** ** [MoabQueuesCoreAdapter] *)

Section queues_adapter.
Context {S : Type} (api : MoabQueuesCoreApi S).
Implicit Types ad : Adapter S.

Definition adapter_GetQueue : Adapter S -> Request -> Res RpcResponse * S :=
  serve GetQueueRequest (check_key GetQueueRequest_ShardKey) (core_GetQueue api) GetQueueResponse Some.
Definition adapter_GetQueueByName : Adapter S -> Request -> Res RpcResponse * S :=
  serve GetQueueByNameRequest (check_key GetQueueByNameRequest_ShardKey) (core_GetQueueByName api) GetQueueByNameResponse Some.
Definition adapter_ListQueues : Adapter S -> Request -> Res RpcResponse * S :=
  serve ListQueuesRequest (check_key ListQueuesRequest_ShardKey) (core_ListQueues api) ListQueuesResponse id.
Definition adapter_GetSchedule : Adapter S -> Request -> Res RpcResponse * S :=
  serve GetScheduleRequest (check_key GetScheduleRequest_ShardKey) (core_GetSchedule api) GetScheduleResponse Some.
Definition adapter_DequeSchedules : Adapter S -> Request -> Res RpcResponse * S :=
  serve DequeSchedulesRequest no_check (core_DequeSchedules api) DequeSchedulesResponse id.
Definition adapter_ListSchedules : Adapter S -> Request -> Res RpcResponse * S :=
  serve ListSchedulesRequest (check_key ListSchedulesRequest_ShardKey) (core_ListSchedules api) ListSchedulesResponse id.
Definition adapter_CreateQueue : Adapter S -> Request -> Res RpcResponse * S :=
  serve CreateQueueRequest (check_key CreateQueueRequest_ShardKey) (core_CreateQueue api) CreateQueueResponse Some.
Definition adapter_UpdateQueue : Adapter S -> Request -> Res RpcResponse * S :=
  serve UpdateQueueRequest (check_key UpdateQueueRequest_ShardKey) (core_UpdateQueue api) UpdateQueueResponse Some.
Definition adapter_DeleteQueue : Adapter S -> Request -> Res RpcResponse * S :=
  serve DeleteQueueRequest (check_key DeleteQueueRequest_ShardKey) (core_DeleteQueue api) DeleteQueueResponse Some.
Definition adapter_CreateSchedule : Adapter S -> Request -> Res RpcResponse * S :=
  serve CreateScheduleRequest (check_key CreateScheduleRequest_ShardKey) (core_CreateSchedule api) CreateScheduleResponse Some.
Definition adapter_UpdateSchedule : Adapter S -> Request -> Res RpcResponse * S :=
  serve UpdateScheduleRequest (check_key UpdateScheduleRequest_ShardKey) (core_UpdateSchedule api) UpdateScheduleResponse Some.
Definition adapter_DeleteSchedule : Adapter S -> Request -> Res RpcResponse * S :=
  serve DeleteScheduleRequest (check_key DeleteScheduleRequest_ShardKey) (core_DeleteSchedule api) DeleteScheduleResponse id.
Definition adapter_ReportSchedulesStatus : Adapter S -> Request -> Res RpcResponse * S :=
  serve ReportSchedulesStatusRequest no_check (core_ReportSchedulesStatus api) ReportSchedulesStatusResponse id.
Definition adapter_RunQueuesGarbageCollection : Adapter S -> Request -> Res RpcResponse * S :=
  serve RunQueuesGarbageCollectionRequest no_check (core_RunQueuesGarbageCollection api) RunQueuesGarbageCollectionResponse id.
Definition adapter_SwapQueueId : Adapter S -> Request -> Res RpcResponse * S :=
  serve SwapQueueIdRequest (check_key SwapQueueIdRequest_ShardKey) (core_SwapQueueId api) SwapQueueIdResponse swap_response.

Definition queuesAdapter_Update ad (rpcReqBytes : bytes) : Res bytes * S :=
  with_envelope (fun rpcReq =>
    match MethodNumber rpcReq with
    | 1 => adapter_CreateQueue ad rpcReq
    | 2 => adapter_UpdateQueue ad rpcReq
    | 3 => adapter_DeleteQueue ad rpcReq
    | 4 => adapter_CreateSchedule ad rpcReq
    | 5 => adapter_UpdateSchedule ad rpcReq
    | 6 => adapter_DeleteSchedule ad rpcReq
    | 7 => adapter_ReportSchedulesStatus ad rpcReq
    | 8 => adapter_RunQueuesGarbageCollection ad rpcReq
    | 9 => adapter_SwapQueueId ad rpcReq
    | _ => (Fail ErrNoHandler, core ad)
    end) ad rpcReqBytes.

Definition queuesAdapter_Read ad (rpcReqBytes : bytes) : Res bytes * S :=
  with_envelope (fun rpcReq =>
    match MethodNumber rpcReq with
    | 1 => adapter_GetQueue ad rpcReq
    | 2 => adapter_GetQueueByName ad rpcReq
    | 3 => adapter_ListQueues ad rpcReq
    | 4 => adapter_GetSchedule ad rpcReq
    | 5 => adapter_DequeSchedules ad rpcReq
    | 6 => adapter_ListSchedules ad rpcReq
    | _ => (Fail ErrNoHandler, core ad)
    end) ad rpcReqBytes.

Definition queuesAdapter_Snapshot ad : Stream QEntity := queuesCore_Snapshot api (core ad).
Definition queuesAdapter_Restore (readers : list (Stream QEntity)) : M S unit := queuesCore_Restore api readers.
End queues_adapter.

(** ** [MoabTasksCoreAdapter] *)

Section tasks_adapter.
Context {S : Type} (api : MoabTasksCoreApi S).
Implicit Types ad : Adapter S.

Definition adapter_GetTask : Adapter S -> Request -> Res RpcResponse * S :=
  serve GetTaskRequest (check_key GetTaskRequest_ShardKey) (core_GetTask api) GetTaskResponse Some.
Definition adapter_GetStatistics : Adapter S -> Request -> Res RpcResponse * S :=
  serve GetStatisticsRequest (check_key GetStatisticsRequest_ShardKey) (core_GetStatistics api) GetStatisticsResponse id.
Definition adapter_ListTasks : Adapter S -> Request -> Res RpcResponse * S :=
  serve ListTasksRequest (check_key ListTasksRequest_ShardKey) (core_ListTasks api) ListTasksResponse id.
Definition adapter_Enqueue : Adapter S -> Request -> Res RpcResponse * S :=
  serve EnqueueRequest (check_key EnqueueRequest_ShardKey) (core_Enqueue api) EnqueueResponse id.
Definition adapter_Dequeue : Adapter S -> Request -> Res RpcResponse * S :=
  serve DequeueRequest (check_key DequeueRequest_ShardKey) (core_Dequeue api) DequeueResponse id.
Definition adapter_ReportStatus : Adapter S -> Request -> Res RpcResponse * S :=
  serve ReportStatusRequest (check_key ReportStatusRequest_ShardKey) (core_ReportStatus api) ReportStatusResponse id.
Definition adapter_DeleteTasks : Adapter S -> Request -> Res RpcResponse * S :=
  serve DeleteTasksRequest (check_key DeleteTasksRequest_ShardKey) (core_DeleteTasks api) DeleteTasksResponse id.
Definition adapter_RestartTasks : Adapter S -> Request -> Res RpcResponse * S :=
  serve RestartTasksRequest (check_key RestartTasksRequest_ShardKey) (core_RestartTasks api) RestartTasksResponse id.
Definition adapter_PurgeQueue : Adapter S -> Request -> Res RpcResponse * S :=
  serve PurgeQueueRequest (check_key PurgeQueueRequest_ShardKey) (core_PurgeQueue api) PurgeQueueResponse id.
Definition adapter_RunTasksGarbageCollection : Adapter S -> Request -> Res RpcResponse * S :=
  serve RunTasksGarbageCollectionRequest no_check (core_RunTasksGarbageCollection api) RunTasksGarbageCollectionResponse id.
Definition adapter_RunPurgeQueueGarbageCollection : Adapter S -> Request -> Res RpcResponse * S :=
  serve RunPurgeQueueGarbageCollectionRequest no_check (core_RunPurgeQueueGarbageCollection api) RunPurgeQueueGarbageCollectionResponse id.

Definition tasksAdapter_Update ad (rpcReqBytes : bytes) : Res bytes * S :=
  with_envelope (fun rpcReq =>
    match MethodNumber rpcReq with
    | 1 => adapter_Enqueue ad rpcReq
    | 2 => adapter_Dequeue ad rpcReq
    | 3 => adapter_ReportStatus ad rpcReq
    | 4 => adapter_DeleteTasks ad rpcReq
    | 5 => adapter_RestartTasks ad rpcReq
    | 6 => adapter_PurgeQueue ad rpcReq
    | 7 => adapter_RunTasksGarbageCollection ad rpcReq
    | 8 => adapter_RunPurgeQueueGarbageCollection ad rpcReq
    | _ => (Fail ErrNoHandler, core ad)
    end) ad rpcReqBytes.

Definition tasksAdapter_Read ad (rpcReqBytes : bytes) : Res bytes * S :=
  with_envelope (fun rpcReq =>
    match MethodNumber rpcReq with
    | 1 => adapter_GetTask ad rpcReq
    | 2 => adapter_GetStatistics ad rpcReq
    | 3 => adapter_ListTasks ad rpcReq
    | _ => (Fail ErrNoHandler, core ad)
    end) ad rpcReqBytes.

Definition tasksAdapter_Snapshot ad : Stream TEntity := tasksCore_Snapshot api (core ad).
Definition tasksAdapter_Restore (readers : list (Stream TEntity)) : M S unit := tasksCore_Restore api readers.
End tasks_adapter.

End adapters.
