(* ===== verification/Types.v ===== *)
(** * Typing of the cores: rules and values

    A core computes with unbounded integers in the model; in Go every stored field has a
    width.  [gives I m Q]: from a store that satisfies [I], [m] fails or ends in a store that
    satisfies [I] with a result that satisfies [Q].  Here are its rules, and which values the
    messages of the Go types hold ([go_value] of their codecs). *)

From S2P Require Export Adapters.

Section rules.
Context {S : Type} (I : S -> Prop).

Definition gives {A} (m : M S A) (Q : A -> Prop) : Prop := forall s, I s ->
  match m s with Ok (a, s') => I s' /\ Q a | Fail _ => True end.

Lemma gives_ret {A} (a : A) (Q : A -> Prop) : Q a -> gives (mret a) Q.
Proof. by intros HQ s Hs. Qed.
Lemma gives_fail {A} e (Q : A -> Prop) : gives (fail e) Q.
Proof. done. Qed.
Lemma gives_bind {A B} (m : M S A) (f : A -> M S B) (R : A -> Prop) (Q : B -> Prop) :
  gives m R -> (forall a, R a -> gives (f a) Q) -> gives (m ≫= f) Q.
Proof.
  intros Hm Hf s Hs. unfold mbind, M_bind. specialize (Hm s Hs). destruct (m s) as [[a s']|]; [|done].
  destruct Hm as [Hs' HR]. by apply Hf.
Qed.
Lemma gives_mono {A} (m : M S A) (R Q : A -> Prop) : gives m R -> (forall a, R a -> Q a) -> gives m Q.
Proof. intros Hm Hi s Hs. specialize (Hm s Hs). destruct (m s) as [[a s']|]; naive_solver. Qed.
Lemma gives_gets {A} (f : S -> A) (Q : A -> Prop) : (forall s, I s -> Q (f s)) -> gives (gets f) Q.
Proof. intros Hf s Hs. split; [done|by apply Hf]. Qed.
Lemma gives_modify (f : S -> S) : (forall s, I s -> I (f s)) -> gives (modify f) (fun _ => True).
Proof. intros Hf s Hs. split; [by apply Hf|done]. Qed.
Lemma gives_deref {A} (o : option A) (Q : A -> Prop) : (forall a, o = Some a -> Q a) -> gives (deref o) Q.
Proof. intros Ho. destruct o; [apply gives_ret; auto|done]. Qed.
Lemma gives_orNotFound {A} (o : option A) (Q : A -> Prop) : (forall a, o = Some a -> Q a) -> gives (orNotFound o) Q.
Proof. intros Ho. destruct o; [apply gives_ret; auto|done]. Qed.
Lemma gives_when b m : gives m (fun _ => True) -> gives (when b m) (fun _ => True).
Proof. intros Hm. destruct b; [done|by apply gives_ret]. Qed.
Lemma gives_for_each {A} (l : list A) f :
  (forall a, a ∈ l -> gives (f a) (fun _ => True)) -> gives (for_each l f) (fun _ => True).
Proof.
  induction l as [|x l IH]; intros Hf; cbn; [by apply gives_ret|].
  eapply gives_bind; [apply Hf; left|]. intros _ _. apply IH. intros a Ha. apply Hf. by right.
Qed.
Lemma gives_for_map {A B} (l : list A) (f : A -> M S B) (Q : B -> Prop) :
  (forall a, a ∈ l -> gives (f a) Q) -> gives (for_map l f) (Forall Q).
Proof.
  induction l as [|x l IH]; intros Hf; cbn; [by apply gives_ret, Forall_nil_2|].
  eapply gives_bind; [apply Hf; left|]. intros y Hy. eapply gives_bind; [apply IH; intros a Ha; apply Hf; by right|].
  intros ys Hys. apply gives_ret. by constructor.
Qed.
Lemma gives_any {A} (m : M S A) (Q : A -> Prop) : gives m Q -> gives m (fun _ => True).
Proof. intros Hm. by eapply gives_mono. Qed.

(** One transaction: a failure leaves the store as it was. *)
Lemma gives_rpc {A} (m : M S A) Q s : gives m Q -> I s -> I (rpc m s).2.
Proof. intros Hm Hs. unfold rpc. specialize (Hm s Hs). destruct (m s) as [[a s']|]; [by destruct Hm|done]. Qed.
End rules.

(** Rows of one table. *)
Section rows.
Context {H : Honey} {HO : HoneyOk H}.

Definition rows_typed {V} (P : V -> Prop) (t : BinaryTable V) : Prop := forall k v, bt_den t !! k = Some v -> P v.

Context {V : Type} (P : V -> Prop).
Lemma rows_new : rows_typed P (bt_new V).
Proof. intros k v. by rewrite bt_den_new, lookup_empty. Qed.
Lemma rows_Get t k v : rows_typed P t -> bt_Get t k = Some v -> P v.
Proof. rewrite bt_Get_spec. intros Ht Hk. by eapply Ht. Qed.
Lemma rows_Set t k v : rows_typed P t -> P v -> rows_typed P (bt_Set t k v).
Proof. intros Ht Hv k' v'. rewrite bt_Set_spec. intros [[_ <-]|[_ Hk]]%lookup_insert_Some; [done|by eapply Ht]. Qed.
Lemma rows_Delete t k : rows_typed P t -> rows_typed P (bt_Delete t k).
Proof. intros Ht k' v'. rewrite bt_Delete_spec. intros [_ Hk]%lookup_delete_Some. by eapply Ht. Qed.
Lemma rows_ListAll t pk : rows_typed P t -> Forall P (bt_ListAll t pk).
Proof. intros Ht. apply Forall_forall. intros v (k & Hk & _)%bt_ListAll_spec. by eapply Ht. Qed.
Lemma rows_ListPaginated t pk tok limit :
  rows_typed P t -> Forall P (ListPaginatedResult.Items (bt_ListPaginated t pk tok limit)).
Proof.
  intros Ht. apply Forall_forall. intros v (k & Hk & _)%bt_ListPaginated_elem. apply bt_EachEntry_spec in Hk. by eapply Ht.
Qed.
End rows.

(** ** Values *)

Lemma i32_range z : is_i32 (i32 z).
Proof. exact (swrap_range 31 z ltac:(lia)). Qed.
Lemma zero_i64 : is_i64 0.
Proof. split; vm_compute; congruence. Qed.

Create HintDb types discriminated.
#[export] Hint Resolve is_i64_i64 is_u64_u64 i32_range zero_i64 gives_ret gives_fail : types.
#[export] Hint Extern 1 (go_enum _) => split; [split; vm_compute; congruence|reflexivity] : types.
#[export] Hint Extern 1 True => exact I : types.
#[export] Hint Extern 2 (is_i64 (after_seconds _ _)) => apply is_i64_i64 : types.

Section values.
#[local] Notation go_task := (go_value Task_codec).
#[local] Notation go_thread := (go_value Thread_codec).
#[local] Notation go_counter := (go_value TasksCounter_codec).
#[local] Notation go_state := (go_value QueueState_codec).

Lemma go_set_State v t : go_enum v -> go_task t -> go_task (Task.set_State v t).
Proof. destruct t; cbn; tauto. Qed.
Lemma go_set_Payload v t : go_task t -> go_task (Task.set_Payload v t).
Proof. destruct t; cbn; tauto. Qed.
Lemma go_set_ScheduledAt v t : is_i64 v -> go_task t -> go_task (Task.set_ScheduledAt v t).
Proof. destruct t; cbn; tauto. Qed.
Lemma go_set_ExpiresAt v t : is_i64 v -> go_task t -> go_task (Task.set_ExpiresAt v t).
Proof. destruct t; cbn; tauto. Qed.
Lemma go_set_VisibleAt v t : is_i64 v -> go_task t -> go_task (Task.set_VisibleAt v t).
Proof. destruct t; cbn; tauto. Qed.
Lemma go_set_LastFailedAt v t : is_i64 v -> go_task t -> go_task (Task.set_LastFailedAt v t).
Proof. destruct t; cbn; tauto. Qed.
Lemma go_set_Attempts v t : is_i32 v -> go_task t -> go_task (Task.set_Attempts v t).
Proof. destruct t; cbn; tauto. Qed.
Lemma go_task_Id t : go_task t -> go_value TaskId_codec (Task.Id t).
Proof. destruct t; cbn; tauto. Qed.
Lemma go_task_ScheduledAt t : go_task t -> is_i64 (Task.ScheduledAt t).
Proof. destruct t; cbn; tauto. Qed.
Lemma go_task_VisibleAt t : go_task t -> is_i64 (Task.VisibleAt t).
Proof. destruct t; cbn; tauto. Qed.

Lemma go_thread_mk i h s v :
  go_value TaskId_codec h -> is_i64 s -> is_i64 v -> go_thread (Thread.mk i h s v).
Proof. cbn; tauto. Qed.
Lemma go_set_HeadTaskId v t : go_value TaskId_codec v -> go_thread t -> go_thread (Thread.set_HeadTaskId v t).
Proof. destruct t; cbn; tauto. Qed.
Lemma go_thread_set_ScheduledAt v t : is_i64 v -> go_thread t -> go_thread (Thread.set_ScheduledAt v t).
Proof. destruct t; cbn; tauto. Qed.
Lemma go_thread_set_VisibleAt v t : is_i64 v -> go_thread t -> go_thread (Thread.set_VisibleAt v t).
Proof. destruct t; cbn; tauto. Qed.

Lemma go_counter_zero : go_counter TasksCounter.zero.
Proof. cbn. pose proof zero_i64. tauto. Qed.
Lemma go_add_Enqueued n c : go_counter c -> go_counter (TasksCounter.add_Enqueued n c).
Proof. destruct c as [e i d p x]; cbn. pose proof (is_i64_i64 (e + n)). tauto. Qed.
Lemma go_add_InProgress n c : go_counter c -> go_counter (TasksCounter.add_InProgress n c).
Proof. destruct c as [e i d p x]; cbn. pose proof (is_i64_i64 (i + n)). tauto. Qed.
Lemma go_add_Dead n c : go_counter c -> go_counter (TasksCounter.add_Dead n c).
Proof. destruct c as [e i d p x]; cbn. pose proof (is_i64_i64 (d + n)). tauto. Qed.
Lemma go_add_Processed n c : go_counter c -> go_counter (TasksCounter.add_Processed n c).
Proof. destruct c as [e i d p x]; cbn. pose proof (is_i64_i64 (p + n)). tauto. Qed.
Lemma go_add_Expired n c : go_counter c -> go_counter (TasksCounter.add_Expired n c).
Proof. destruct c as [e i d p x]; cbn. pose proof (is_i64_i64 (x + n)). tauto. Qed.

Lemma go_state_zero : go_state QueueState.zero.
Proof.
  assert (is_u64 0) by (split; vm_compute; congruence). pose proof zero_i64. cbn. tauto.
Qed.
Lemma go_set_TaskIdSequence v t : is_u64 v -> go_state t -> go_state (QueueState.set_TaskIdSequence v t).
Proof. destruct t; cbn; tauto. Qed.
Lemma go_set_LastVisitedEnqueued v t : is_i64 v -> go_state t -> go_state (QueueState.set_LastVisitedEnqueued v t).
Proof. destruct t; cbn; tauto. Qed.
Lemma go_set_LastVisitedInProgress v t : is_i64 v -> go_state t -> go_state (QueueState.set_LastVisitedInProgress v t).
Proof. destruct t; cbn; tauto. Qed.
Lemma go_sequence t : go_state t -> is_u64 (QueueState.TaskIdSequence t).
Proof. destruct t; cbn; tauto. Qed.
Lemma go_rate_mk n l : is_i64 n -> is_i64 l -> go_value RateLimiterState_codec (RateLimiterState.mk n l).
Proof. cbn; tauto. Qed.
Lemma go_rate_parts r :
  go_value RateLimiterState_codec r -> is_i64 (RateLimiterState.Tokens r) /\ is_i64 (RateLimiterState.LastRefilledAt r).
Proof. destruct r; cbn; tauto. Qed.

Lemma go_token t : go_field (pointer PaginationToken_codec) (MonsteraToCore t).
Proof.
  destruct t as [t|]; [|done]. unfold MonsteraToCore. destruct (PaginationToken.Reverse t); cbn;
    (split; [split; [split; vm_compute; congruence|reflexivity]|done]).
Qed.
Lemma extracted_time {U : Utils} x : is_i64 (extractTimeFromIndexItem x).
Proof. apply is_i64_i64. Qed.
End values.
#[export] Hint Resolve go_set_State go_set_Payload go_set_ScheduledAt go_set_ExpiresAt go_set_VisibleAt
  go_set_LastFailedAt go_set_Attempts go_task_Id go_task_ScheduledAt go_task_VisibleAt go_thread_mk
  go_set_HeadTaskId go_thread_set_ScheduledAt go_thread_set_VisibleAt go_counter_zero go_add_Enqueued
  go_add_InProgress go_add_Dead go_add_Processed go_add_Expired go_state_zero go_set_TaskIdSequence
  go_set_LastVisitedEnqueued go_set_LastVisitedInProgress go_sequence go_rate_mk go_token extracted_time : types.

(** Walks a body: a step whose typing is known, a branch, a loop, or the end. *)
Ltac ty_one :=
  cbn beta zeta;
  lazymatch goal with
  | |- gives _ (mret _) _ => apply gives_ret
  | |- gives _ (fail _) _ => apply gives_fail
  | |- gives _ (when _ _) _ => apply gives_when
  | |- gives _ (for_each _ _) _ => apply gives_for_each; intros ? ?
  | |- gives _ (@mbind _ _ unit _ _ ?m) _ =>
      apply (gives_bind _ m _ (fun _ => True)); [first [solve [eauto 12 with types]|idtac]|intros [] _]
  | |- gives _ (gets _ ≫= _) _ => apply (gives_bind _ _ _ (fun _ => True)); [by apply gives_gets|intros ? _]
  | |- gives _ (deref ?o ≫= _) _ => apply (gives_bind _ _ _ (fun a => o = Some a)); [by apply gives_deref|intros ? ?]
  | |- gives _ (orNotFound ?o ≫= _) _ => apply (gives_bind _ _ _ (fun a => o = Some a)); [by apply gives_orNotFound|intros ? ?]
  | |- gives _ (_ ≫= _) _ => eapply gives_bind; [solve [eauto 12 with types]|intros ? ?; cbn beta in *]
  | |- gives _ (if ?b then _ else _) _ => destruct b eqn:?
  | |- gives _ (match ?x with _ => _ end) _ => destruct x eqn:?
  end.
Ltac ty := repeat ty_one; eauto 20 with types.
