(* ===== verification/TasksSnapshot.v ===== *)
(** * Restoring a tasks core

    A tasks core restored from a snapshot holds exactly the rows of the queues it owns, with
    every index rebuilt; only the expiration index gets entries the source does not have, those
    of running tasks.  First, the keys of the per-queue tables of a reachable core, which
    [Restore] takes apart. *)

From S2P Require Export QueuesSnapshot TasksSystem Types.

(** ** The keys of the per-queue tables *)

Create HintDb keeps.

Section keys.
Context {U : Utils} {H : Honey} {UO : UtilsOk U} {HO : HoneyOk H}.

(** A key names an account and a queue. *)
Definition queue_keyed {V} (t : BinaryTable V) : Prop :=
  forall k x, bt_den t !! k = Some x -> exists a q, is_u64 a /\ is_u64 q /\ k = queue_tablePK a q.

Record keys_ok (s : Txn) : Prop := {
  ko_counters : queue_keyed (counters s);
  ko_queueState : queue_keyed (queueState s);
  ko_rateLimiters : queue_keyed (rateLimiters s);
}.

Definition keeps {A} (m : M Txn A) : Prop := gives keys_ok m (fun _ => True).

Lemma queue_tablePK_u64 a q : queue_tablePK a q = queue_tablePK (u64 a) (u64 q).
Proof. by rewrite !queue_tablePK_eq, !be64_u64. Qed.

Lemma queue_keyed_Set {V} (t : BinaryTable V) a q x :
  queue_keyed t -> queue_keyed (bt_Set t (queue_tablePK a q) x).
Proof.
  intros Ht k y. rewrite bt_Set_spec. intros [[<- _]|[_ Hk]]%lookup_insert_Some; [|by eapply Ht].
  exists (u64 a), (u64 q). rewrite <-queue_tablePK_u64. auto.
Qed.
Lemma queue_keyed_Delete {V} (t : BinaryTable V) k : queue_keyed t -> queue_keyed (bt_Delete t k).
Proof. intros Ht k' y. rewrite bt_Delete_spec. intros [_ Hk]%lookup_delete_Some. by eapply Ht. Qed.
Lemma queue_keyed_new {V} : queue_keyed (bt_new V).
Proof. intros k x. by rewrite bt_den_new, lookup_empty. Qed.

Lemma keeps_modify f : (forall s, keys_ok s -> keys_ok (f s)) -> keeps (modify f).
Proof. apply gives_modify. Qed.
Lemma keeps_bind {A B} (m : M Txn A) (f : A -> M Txn B) : keeps m -> (forall a, keeps (f a)) -> keeps (m ≫= f).
Proof. intros Hm Hf. eapply gives_bind; [exact Hm|]. intros a _. apply Hf. Qed.

Ltac head_of t := lazymatch t with ?f _ => head_of f | ?f => f end.

(** Walks a body; a step that is not a rule is unfolded. *)
Ltac keep :=
  repeat (intros; cbn beta zeta; first
    [ solve [eauto with keeps nocore]
    | lazymatch goal with
      | |- keeps (_ ≫= _) => apply keeps_bind
      | |- keeps (mret _) => by apply gives_ret
      | |- keeps (fail _) => by apply gives_fail
      | |- keeps (gets _) => by apply gives_gets
      | |- keeps (modify _) =>
          apply keeps_modify; intros ? []; split; cbn; auto using queue_keyed_Set, queue_keyed_Delete
      | |- keeps (when _ _) => apply gives_when
      | |- keeps (deref _) => by apply gives_deref
      | |- keeps (orNotFound _) => by apply gives_orNotFound
      | |- keeps (for_each _ _) => apply gives_for_each
      | |- keeps (for_map _ _) => eapply gives_mono; [apply (gives_for_map _ _ _ (fun _ => True))|done]
      | |- keeps (if ?b then _ else _) => destruct b
      | |- keeps (match ?x with _ => _ end) => destruct x
      | |- gives keys_ok ?m (fun _ => True) => change (keeps m)
      | |- keeps ?m => let h := head_of m in unfold h
      end ]).

Lemma reconcileThreadHead_keeps a q t : keeps (reconcileThreadHead a q t).
Proof. keep. Qed.
#[local] Hint Resolve reconcileThreadHead_keeps : keeps.
Lemma promoteNextThreadHead_keeps a q t : keeps (promoteNextThreadHead a q t).
Proof. keep. Qed.
#[local] Hint Resolve promoteNextThreadHead_keeps : keeps.
Lemma deleteTask_keeps t r : keeps (deleteTask t r).
Proof. keep. Qed.
#[local] Hint Resolve deleteTask_keeps : keeps.
Lemma handleTaskFailure_keeps t now d : keeps (handleTaskFailure t now d).
Proof. keep. Qed.
#[local] Hint Resolve handleTaskFailure_keeps : keeps.

Lemma overwrite_all_keeps sa p e os t : keeps (overwrite_all sa p e os t).
Proof. revert t; induction os as [|o os IH]; intros t; cbn [overwrite_all]; keep; apply IH. Qed.
#[local] Hint Resolve overwrite_all_keeps : keeps.
Lemma enqueue_entry_keeps a q now e st : keeps (enqueue_entry a q now e st).
Proof. keep. Qed.
#[local] Hint Resolve enqueue_entry_keeps : keeps.
Lemma enqueue_entries_keeps a q now es ts st : keeps (enqueue_entries a q now es ts st).
Proof. revert ts st; induction es as [|e es IH]; intros ts st; cbn [enqueue_entries]; keep; apply IH. Qed.
#[local] Hint Resolve enqueue_entries_keeps : keeps.
Lemma scan_queue_keeps a q now l st items sc : keeps (scan_queue a q now l st items sc).
Proof. revert sc; induction items as [|x items IH]; intros sc; cbn [scan_queue]; keep; apply IH. Qed.
#[local] Hint Resolve scan_queue_keeps : keeps.
Lemma purge_page_keeps m page vis : keeps (purge_page m page vis).
Proof. revert vis; induction page as [|t page IH]; intros vis; cbn [purge_page]; keep; apply IH. Qed.
#[local] Hint Resolve purge_page_keeps : keeps.
Lemma purge_record_keeps fuel ps m r vis : keeps (purge_record fuel ps m r vis).
Proof. revert vis; induction fuel as [|fuel IH]; intros vis; cbn [purge_record]; keep; apply IH. Qed.
#[local] Hint Resolve purge_record_keeps : keeps.
Lemma purge_records_keeps ps m rs vis : keeps (purge_records ps m rs vis).
Proof. revert vis; induction rs as [|r rs IH]; intros vis; cbn [purge_records]; keep; apply IH. Qed.
#[local] Hint Resolve purge_records_keeps : keeps.
Lemma gc_loop_keeps fuel now m ps vis : keeps (gc_loop fuel now m ps vis).
Proof. revert vis; induction fuel as [|fuel IH]; intros vis; cbn [gc_loop]; keep; apply IH. Qed.
#[local] Hint Resolve gc_loop_keeps : keeps.

Lemma exec_keeps c : keeps (exec c).
Proof. destruct c; cbn [exec]; keep. Qed.

Lemma keys_ok_reachable s : reachable s -> keys_ok s.
Proof.
  induction 1 as [|s c s' _ IH Hstep]; [split; apply queue_keyed_new|]. destruct Hstep.
  apply (gives_rpc keys_ok _ (fun _ => True)); [apply exec_keeps|done].
Qed.
End keys.

(** ** The run of [Restore] *)

Section tasks_restore.
Context {U : Utils} {H : Honey} {K : Keyspace} {Sn : Snapshots}.
Context {UO : UtilsOk U} {HO : HoneyOk H} {SO : SnapshotsOk Sn}.
Context (owns : Z -> bool).
Implicit Types (t : Task.t) (r : Thread.t) (v : View).

(** What the core owns, row by row. *)
Definition owned_pair (a q : Z) : Prop := owns (ByAccountAndQueue a q) = true.
Definition owned_task t : Prop := owned_pair (TaskId.AccountId (Task.Id t)) (TaskId.QueueId (Task.Id t)).
Definition owned_thread r : Prop :=
  owned_pair (TaskId.AccountId (Thread.HeadTaskId r)) (TaskId.QueueId (Thread.HeadTaskId r)).
Definition owned_mark (p : PurgeQueueGarbageCollectionRecord.t) : Prop :=
  let id := PurgeQueueGarbageCollectionRecord.QueueId p in owned_pair (QueueId.AccountId id) (QueueId.QueueId id).
Definition owned_key {A} (e : bytes * A) : Prop :=
  owned_pair (BytesToUint64 (take 8 e.1)) (BytesToUint64 (take 8 (drop 8 e.1))).

#[export] Instance owned_pair_dec a q : Decision (owned_pair a q).
Proof. unfold owned_pair. apply _. Defined.
#[export] Instance owned_task_dec t : Decision (owned_task t).
Proof. apply owned_pair_dec. Defined.
#[export] Instance owned_thread_dec r : Decision (owned_thread r).
Proof. apply owned_pair_dec. Defined.
#[export] Instance owned_mark_dec p : Decision (owned_mark p).
Proof. apply owned_pair_dec. Defined.
#[export] Instance owned_key_dec {A} (e : bytes * A) : Decision (owned_key e).
Proof. apply owned_pair_dec. Defined.

Definition thr_key r : bytes :=
  threadIndexPK (TaskId.AccountId (Thread.HeadTaskId r)) (TaskId.QueueId (Thread.HeadTaskId r)) (Thread.ThreadId r).

(** [t] is outside any thread or its thread's row names it. *)
Definition in_front v t : bool :=
  bool_decide (Task.ThreadId t = []) ||
  match v_thr v !! threadkey t with
  | Some r => TaskId.TaskId (Thread.HeadTaskId r) =? task_n t
  | None => false
  end.

(** The contents after one task was restored. *)
Definition restore_task v t : View := mkView
  (<[task_key (Task.Id t) := t]> (v_table v))
  (if bool_decide (Task.DedupeKey t <> []) && bool_decide (Task.State t <> TASK_STATE_DEAD)
   then <[task_dedupePK t := task_n t]> (v_dedupe v) else v_dedupe v)
  (if bool_decide (enqueued t) && in_front v t then {[qkey t]} ∪ v_queue v else v_queue v)
  (if bool_decide (in_progress t) then {[inp_key t]} ∪ v_inp v else v_inp v)
  (if bool_decide (dead t) then {[dead_key t]} ∪ v_dead v else v_dead v)
  ({[exp_key t]} ∪ v_exp v) (v_thr v)
  (if bool_decide (Task.ThreadId t = []) then v_tidx v else {[tkey t]} ∪ v_tidx v)
  (v_cnt v) (v_qst v) (v_rl v) (v_purge v).

Definition with_threads (l : list (bytes * Thread.t)) v : View := set_thr (QueuesSnapshot.rows thr_key l) v.
Definition with_tasks (l : list (bytes * Task.t)) v : View := fold_left (fun v e => restore_task v e.2) l v.
Definition with_cnt (l : list (bytes * TasksCounter.t)) v : View := set_cnt (entries l) v.
Definition with_qst (l : list (bytes * QueueState.t)) v : View := set_qst (entries l) v.
Definition with_rl (l : list (bytes * RateLimiterState.t)) v : View := set_rl (entries l) v.
Definition with_marks (l : list (bytes * PurgeQueueGarbageCollectionRecord.t)) v : View :=
  set_purge (QueuesSnapshot.rows rec_key l) v.

Lemma wpv_unmarshal {A} (a : A) v (Q : A -> View -> Prop) : Q a v -> wpv (unmarshal (Some a)) v Q.
Proof. apply wpv_ret. Qed.
Lemma wpv_if_owned (b : bool) (m : M Txn unit) v (Q : bool -> View -> Prop) :
  (b = true -> wpv m v (fun _ v' => Q true v')) -> (b = false -> Q false v) -> wpv (if_owned b m) v Q.
Proof.
  destruct b; intros Hm Hq; [|by apply wpv_ret, Hq]. apply wpv_bind.
  eapply wpv_mono; [by apply Hm|]. intros ? v' HQ. by apply wpv_ret.
Qed.

(** One section of the tasks core. *)
Lemma wpv_restore_section {T} (inj : T -> TEntity) (restore : bytes -> TEntity -> M Txn bool)
    (P : bytes * T -> Prop) `{!forall e, Decision (P e)} (l : list (bytes * T)) (upd : list (bytes * T) -> View) :
  (forall before e, e ∈ l -> P e ->
     wpv (restore e.1 (inj e.2)) (upd before) (fun _ v' => v' = upd (before ++ [e]))) ->
  (forall v e, e ∈ l -> ~ P e -> wpv (restore e.1 (inj e.2)) v (fun _ v' => v' = v)) ->
  wpv (for_each ((fun e => (e.1, inj e.2)) <$> l) (fun e => restore e.1 e.2 ;; mret tt)) (upd [])
    (fun _ v' => v' = upd (filter P l)).
Proof. apply (wp_at_restore_section view). Qed.

Lemma wpv_restore_threads l v :
  v_thr v = ∅ ->
  wpv (for_each ((fun e => (e.1, EThread e.2)) <$> l) (fun e => threads_RestoreEntity owns e.1 e.2 ;; mret tt)) v
    (fun _ v' => v' = with_threads (filter (fun e => owned_thread e.2) l) v).
Proof.
  intros E. assert (Ev : v = with_threads [] v) by (destruct v; cbn in *; by subst). rewrite Ev at 1.
  apply (wpv_restore_section EThread (threads_RestoreEntity owns) _ l (fun l => with_threads l v)).
  - intros before [k x] _ Hp. apply wpv_bind, wpv_unmarshal, wpv_if_owned; intros Eo; cbn in Eo;
      [|by rewrite Hp in Eo]. apply wpv_threads_set.
    unfold with_threads, QueuesSnapshot.rows. by rewrite fold_left_app.
  - intros v' [k x] _ Hp. apply wpv_bind, wpv_unmarshal, wpv_if_owned; intros Eo; [|done]. by destruct Hp.
Qed.

Lemma wpv_restore_marks l v :
  v_purge v = ∅ ->
  wpv (for_each ((fun e => (e.1, EPurgeRecord e.2)) <$> l)
         (fun e => purgeGCRecords_RestoreEntity owns e.1 e.2 ;; mret tt)) v
    (fun _ v' => v' = with_marks (filter (fun e => owned_mark e.2) l) v).
Proof.
  intros E. assert (Ev : v = with_marks [] v) by (destruct v; cbn in *; by subst). rewrite Ev at 1.
  apply (wpv_restore_section EPurgeRecord (purgeGCRecords_RestoreEntity owns) _ l (fun l => with_marks l v)).
  - intros before [k x] _ Hp. apply wpv_bind, wpv_unmarshal, wpv_if_owned; intros Eo; cbn in Eo;
      [|by rewrite Hp in Eo]. vsteps.
    unfold with_marks, QueuesSnapshot.rows. by rewrite fold_left_app.
  - intros v' [k x] _ Hp. apply wpv_bind, wpv_unmarshal, wpv_if_owned; intros Eo; [|done]. by destruct Hp.
Qed.

(** A per-queue key names its queue. *)
Lemma queue_key_parts a q : is_u64 a -> is_u64 q ->
  length (queue_tablePK a q) = 16%nat /\ BytesToUint64 (take 8 (queue_tablePK a q)) = a /\
  BytesToUint64 (take 8 (drop 8 (queue_tablePK a q))) = q.
Proof.
  intros Ha Hq. rewrite queue_tablePK_eq, length_app, !length_be64. split; [done|].
  rewrite take_app_length', drop_app_length', take_ge by (by rewrite length_be64).
  by rewrite !BytesToUint64_spec, !u64_id.
Qed.

(** The three tables that are restored under their key. *)
Lemma wpv_restore_keyed {A} (inj : A -> TEntity) (decode : TEntity -> option A) (set : Z -> Z -> A -> M Txn unit)
    (put : gmap bytes A -> View -> View) (t : BinaryTable A) v :
  (forall x, decode (inj x) = Some x) -> queue_keyed t ->
  (forall a q x m (Q : unit -> View -> Prop), Q tt (put (<[queue_tablePK a q := x]> m) v) -> wpv (set a q x) (put m v) Q) ->
  put ∅ v = v ->
  wpv (for_each ((fun e => (e.1, inj e.2)) <$> bt_EachEntry t)
         (fun e => restore_by_key decode set owns e.1 e.2 ;; mret tt)) v
    (fun _ v' => v' = put (entries (filter owned_key (bt_EachEntry t))) v).
Proof.
  intros Hdec Hk Hset Ev. rewrite <-Ev at 1.
  apply (wpv_restore_section inj (restore_by_key decode set owns) owned_key (bt_EachEntry t)
           (fun l => put (entries l) v)).
  - intros before [k x] Hin Hp. apply bt_EachEntry_spec, Hk in Hin as (a & q & Ha & Hq & ->).
    destruct (queue_key_parts a q Ha Hq) as (E1 & E2 & E3). unfold owned_key, owned_pair in Hp. cbn [fst snd] in *.
    unfold restore_by_key. rewrite E1. cbn [Nat.eqb negb]. rewrite Hp. cbn [negb]. rewrite Hdec.
    apply wpv_bind, wpv_unmarshal, wpv_bind. rewrite E2, E3. apply Hset, wpv_ret.
    unfold entries. by rewrite fold_left_app.
  - intros v' [k x] Hin Hp. apply bt_EachEntry_spec, Hk in Hin as (a & q & Ha & Hq & ->).
    destruct (queue_key_parts a q Ha Hq) as (E1 & E2 & E3). unfold owned_key, owned_pair in Hp. cbn [fst snd] in *.
    unfold restore_by_key. rewrite E1. cbn [Nat.eqb negb].
    rewrite (proj1 (not_true_iff_false _) Hp). by apply wpv_ret.
Qed.

(** A threaded task finds its thread's row. *)
Lemma wpv_taskRestorer k t v :
  owned_task t -> wf_task t -> (threaded t -> is_Some (v_thr v !! threadkey t)) ->
  wpv (taskRestorer_RestoreEntity owns k (ETask t)) v (fun _ v' => v' = restore_task v t).
Proof.
  intros Ho Ht Hthr. unfold taskRestorer_RestoreEntity. apply wpv_bind, wpv_unmarshal.
  unfold owned_task, owned_pair in Ho. rewrite Ho. cbn [negb]. apply wpv_bind.
  apply (wpv_mono _ _ (fun isHead v' => isHead = in_front v t /\
    v' = set_tidx (if bool_decide (Task.ThreadId t = []) then v_tidx v else {[tkey t]} ∪ v_tidx v) v)).
  - unfold in_front. destruct (bool_decide (Task.ThreadId t = [])) eqn:Et.
    + apply wpv_ret. split; [done|]. by destruct v.
    + apply bool_decide_eq_false in Et. destruct (Hthr Et) as [r Hr].
      apply wpv_bind, wpv_threads_AddToIndex, wpv_bind.
      eapply wpv_threads_Get; [exact Hr|]. apply wpv_ret. rewrite Hr. by split.
  - intros isHead v' [-> ->]. unfold restoreIndexes. apply wpv_bind, wpv_bind, wpv_tasks_set, wpv_bind.
    unfold restore_task.
    destruct (wf_State t Ht) as [Es|[Es|Es]]; unfold enqueued, in_progress, dead; rewrite Es;
      rewrite ?(bool_decide_true (_ = _)) by done; rewrite ?(bool_decide_false (_ = _)) by done;
      cbn [andb]; (apply wpv_when; intros Ec; [apply wpv_dedupeKeysIndex_Set|]); rewrite Ec;
      apply wpv_bind.
    all: try (apply wpv_when; intros Eh; rewrite Eh).
    all: try apply wpv_queueIndex_Add.
    all: try apply wpv_inProgressIndex_Add.
    all: try apply wpv_deadTasksIndex_Add.
    all: by apply wpv_expiration_add, wpv_ret.
Qed.

Lemma with_tasks_thr l v : v_thr (with_tasks l v) = v_thr v.
Proof. unfold with_tasks. revert v; induction l as [|e l IH]; intros v; [done|]. cbn. by rewrite IH. Qed.

Lemma wpv_restore_tasks l v :
  (forall e, e ∈ l -> owned_task e.2 -> wf_task e.2 /\ (threaded e.2 -> is_Some (v_thr v !! threadkey e.2))) ->
  wpv (for_each ((fun e => (e.1, ETask e.2)) <$> l)
         (fun e => taskRestorer_RestoreEntity owns e.1 e.2 ;; mret tt)) v
    (fun _ v' => v' = with_tasks (filter (fun e => owned_task e.2) l) v).
Proof.
  intros Hl. apply (wpv_restore_section ETask (taskRestorer_RestoreEntity owns) _ l (fun l => with_tasks l v)).
  - intros before [k t] Hin Hp. destruct (Hl _ Hin Hp) as [Hw Ht].
    unfold with_tasks at 2. rewrite fold_left_app. apply wpv_taskRestorer; [done|done|].
    by rewrite with_tasks_thr.
  - intros v' [k t] _ Hp. unfold taskRestorer_RestoreEntity. apply wpv_bind, wpv_unmarshal.
    unfold owned_task, owned_pair in Hp. cbn [snd] in *. rewrite (proj1 (not_true_iff_false _) Hp).
    by apply wpv_ret.
Qed.

Lemma wpv_clear_all v :
  wpv (for_each tasks_snapshotSections (fun sec => Clear (Table sec))) v (fun _ v' => v' = empty_view).
Proof.
  intros s _. cbn [for_each tasks_snapshotSections Table Clear].
  do 6 (apply wp_bind, wp_modify). apply wp_ret. unfold view, Uint64Table. cbn.
  by rewrite !bt_den_new, !omi_den_new, !si_den_new.
Qed.

(** The contents of a restored core, before they are described by the source's. *)
Definition restored_core (s : Txn) : View :=
  with_marks (filter (fun e => owned_mark e.2) (bt_EachEntry (purgeGCRecords s)))
   (with_rl (filter owned_key (bt_EachEntry (rateLimiters s)))
     (with_qst (filter owned_key (bt_EachEntry (queueState s)))
       (with_cnt (filter owned_key (bt_EachEntry (counters s)))
         (with_tasks (filter (fun e => owned_task e.2) (bt_EachEntry (table (tasks s))))
           (with_threads (filter (fun e => owned_thread e.2) (bt_EachEntry (threads_table (threads s))))
             empty_view))))).
End tasks_restore.

(** ** The restored contents, described by the source's *)

Section tasks_roundtrip.
Context {U : Utils} {H : Honey} {K : Keyspace} {Sn : Snapshots}.
Context {UO : UtilsOk U} {HO : HoneyOk H} {SO : SnapshotsOk Sn}.
Context (owns : Z -> bool).
Implicit Types (t u : Task.t) (r : Thread.t).

(** No dead task carries the id of the thread it left. *)
Definition no_dead_threaded (w : View) : Prop := forall t, has (v_table w) t -> dead t -> ~ threaded t.

Context (s : Txn) (Hs : Good (view s)) (Hk : keys_ok s) (Hdead : no_dead_threaded (view s)).
#[local] Notation v := (view s).
#[local] Notation v' := (restored_core owns s).
#[local] Notation tkeyof := (fun t => task_key (Task.Id t)).

Lemma src_ix : ix_ok (has (v_table v)) v.
Proof. apply (ig_ix _ _ _ (inv_gen _ (proj1 Hs))). Qed.
Lemma src_table : keyed wf_task tkeyof (v_table v).
Proof. exact (ig_table _ _ _ (inv_gen _ (proj1 Hs))). Qed.

(** A thread row is stored under its own key and names a member of its thread. *)
Lemma src_thread k r : v_thr v !! k = Some r ->
  exists h, has (v_table v) h /\ member h /\ threadkey h = k /\ head_row r h /\ thr_key r = k.
Proof.
  intros Hr. pose proof (to_rows _ _ (ix_threads _ _ src_ix) k) as Hrow. rewrite Hr in Hrow.
  destruct Hrow as (h & Hh & Hm & Hkh & Hhr & _). exists h. split_and!; [done..|].
  destruct Hhr as (E1 & E2 & _). unfold thr_key. by rewrite E1, E2.
Qed.

Lemma src_threads : keyed (fun _ => True) thr_key (v_thr v).
Proof. intros k r Hr. destruct (src_thread k r Hr) as (h & _ & _ & _ & _ & <-). done. Qed.

Lemma member_row t : has (v_table v) t -> member t ->
  exists r, v_thr v !! threadkey t = Some r /\ (owned_task owns t <-> owned_thread owns r).
Proof.
  intros Ht Hm. pose proof (to_rows _ _ (ix_threads _ _ src_ix) (threadkey t)) as Hrow.
  destruct (v_thr v !! threadkey t) as [r|] eqn:Er; [|by destruct (Hrow t)].
  exists r. split; [done|]. destruct (src_thread _ _ Er) as (h & Hh & _ & Ek & (_ & Ei & _) & _).
  apply threadkey_inj in Ek as (Ea & Eq & _);
    [|by apply (rows_wf _ (ix_rows _ _ src_ix))|by apply (rows_wf _ (ix_rows _ _ src_ix))].
  unfold owned_thread. rewrite Ei. unfold owned_task. by rewrite Ea, Eq.
Qed.

(** *** The tables *)

Lemma restored_thr : v_thr v' = filter (fun e => owned_thread owns e.2) (v_thr v).
Proof.
  change (v_thr v') with (v_thr (with_tasks (filter (fun e => owned_task owns e.2) (bt_EachEntry (table (tasks s))))
    (with_threads (filter (fun e => owned_thread owns e.2) (bt_EachEntry (threads_table (threads s)))) empty_view))).
  rewrite with_tasks_thr. by apply (rows_stream _ _ _ src_threads _ (owned_thread owns)).
Qed.

Lemma with_tasks_table l w : v_table (with_tasks l w) = fold_left (fun m e => <[tkeyof e.2 := e.2]> m) l (v_table w).
Proof. unfold with_tasks. revert w; induction l as [|e l IH]; intros w; [done|]. cbn. by rewrite IH. Qed.

Lemma restored_tasks : v_table v' = filter (fun e => owned_task owns e.2) (v_table v).
Proof.
  change (v_table v') with (v_table (with_tasks (filter (fun e => owned_task owns e.2) (bt_EachEntry (table (tasks s))))
    (with_threads (filter (fun e => owned_thread owns e.2) (bt_EachEntry (threads_table (threads s)))) empty_view))).
  rewrite with_tasks_table. by apply (rows_stream _ _ _ src_table _ (owned_task owns)).
Qed.

Lemma with_tasks_rest l w :
  v_cnt (with_tasks l w) = v_cnt w /\ v_qst (with_tasks l w) = v_qst w /\
  v_rl (with_tasks l w) = v_rl w /\ v_purge (with_tasks l w) = v_purge w.
Proof. unfold with_tasks. revert w; induction l as [|e l IH]; intros w; [done|].
  cbn [fold_left]. destruct (IH (restore_task w e.2)) as (-> & -> & -> & ->). done. Qed.

Lemma restored_counters : v_cnt v' = filter (owned_key owns) (v_cnt v).
Proof. apply (entries_stream (counters s)). Qed.
Lemma restored_qst : v_qst v' = filter (owned_key owns) (v_qst v).
Proof. apply (entries_stream (queueState s)). Qed.
Lemma restored_rl : v_rl v' = filter (owned_key owns) (v_rl v).
Proof. apply (entries_stream (rateLimiters s)). Qed.
Lemma restored_marks : v_purge v' = filter (fun e => owned_mark owns e.2) (v_purge v).
Proof. by apply (rows_stream wf_rec rec_key _ (proj2 Hs) _ (owned_mark owns)). Qed.

(** *** The run *)

Lemma wpv_tasks_Restore w :
  wpv (tasks_Restore owns [tasks_Snapshot s]) w (fun _ w' => w' = v').
Proof.
  unfold tasks_Restore, tasks_Snapshot. rewrite RestoreSnapshot_spec, NewSnapshot_spec.
  apply wpv_bind. eapply wpv_mono; [apply wpv_clear_all|]. intros ? ? ->.
  cbn [for_each tasks_snapshotSections fmap list_fmap Name Table EachEntity].
  apply wpv_bind. apply wpv_bind.
  eapply wpv_mono; [by apply (wpv_restore_threads owns (bt_EachEntry (threads_table (threads s))))|].
  intros ? ? ->. apply wpv_bind.
  eapply wpv_mono; [apply (wpv_restore_tasks owns (bt_EachEntry (table (tasks s))))|].
  { intros [k t] Hin Ho. cbn [snd] in *. apply bt_EachEntry_spec in Hin.
    destruct (src_table _ _ Hin) as [-> Hw]. split; [done|]. intros Hth.
    assert (Hm : member t) by (split; [done|]; intros Hd; by apply (Hdead t Hin Hd)).
    destruct (member_row t Hin Hm) as (r & Hr & Hor). exists r.
    change (QueuesSnapshot.rows thr_key (filter (fun e => owned_thread owns e.2)
      (bt_EachEntry (threads_table (threads s)))) !! threadkey t = Some r).
    rewrite (rows_stream _ _ _ src_threads _ (owned_thread owns)) by done.
    apply map_lookup_filter_Some. split; [done|]. by apply Hor. }
  intros ? ? ->. apply wpv_bind.
  eapply wpv_mono; [apply (wpv_restore_keyed owns ETasksCounter _ counters_Set set_cnt (counters s));
    [done|apply Hk| |]|].
  { intros ???? Q HQ. by apply wpv_counters_Set. }
  { pose proof (with_tasks_rest (filter (fun e => owned_task owns e.2) (bt_EachEntry (table (tasks s))))
      (with_threads (filter (fun e => owned_thread owns e.2) (bt_EachEntry (threads_table (threads s)))) empty_view))
      as (E & _). destruct (with_tasks _ _). cbn in *. by rewrite E. }
  intros ? ? ->. apply wpv_bind.
  eapply wpv_mono; [apply (wpv_restore_keyed owns EQueueState _ queueState_Set set_qst (queueState s));
    [done|apply Hk| |]|].
  { intros ???? Q HQ. by apply wpv_queueState_Set. }
  { pose proof (with_tasks_rest (filter (fun e => owned_task owns e.2) (bt_EachEntry (table (tasks s))))
      (with_threads (filter (fun e => owned_thread owns e.2) (bt_EachEntry (threads_table (threads s)))) empty_view))
      as (_ & E & _). destruct (with_tasks _ _). cbn in *. by rewrite E. }
  intros ? ? ->. apply wpv_bind.
  eapply wpv_mono; [apply (wpv_restore_keyed owns ERateLimiter _ rateLimiters_Set set_rl (rateLimiters s));
    [done|apply Hk| |]|].
  { intros ???? Q HQ. by apply wpv_rateLimiters_Set. }
  { pose proof (with_tasks_rest (filter (fun e => owned_task owns e.2) (bt_EachEntry (table (tasks s))))
      (with_threads (filter (fun e => owned_thread owns e.2) (bt_EachEntry (threads_table (threads s)))) empty_view))
      as (_ & _ & E & _). destruct (with_tasks _ _). cbn in *. by rewrite E. }
  intros ? ? ->. apply wpv_bind.
  eapply wpv_mono; [apply (wpv_restore_marks owns (bt_EachEntry (purgeGCRecords s)))|].
  { apply with_tasks_rest. }
  intros ? ? ->. apply wpv_ret, wpv_ret. done.
Qed.

(** *** The indexes *)

Lemma with_tasks_snoc l e w : with_tasks (l ++ [e]) w = restore_task (with_tasks l w) e.2.
Proof. unfold with_tasks. by rewrite fold_left_app. Qed.

Lemma exists_snoc {A} (P : A -> Prop) l x :
  (exists y, y ∈ l ++ [x] /\ P y) <-> (exists y, y ∈ l /\ P y) \/ P x.
Proof.
  split.
  - intros (y & [Hy|Hy%list_elem_of_singleton]%elem_of_app & HP); subst; eauto.
  - intros [(y & Hy & HP)|HP]; [exists y|exists x]; rewrite elem_of_app, list_elem_of_singleton; auto.
Qed.

Lemma with_tasks_index (f : View -> gset bytes) (b : Task.t -> bool) (key : Task.t -> bytes) l w :
  (forall w0 t, v_thr w0 = v_thr w -> f (restore_task w0 t) = if b t then {[key t]} ∪ f w0 else f w0) ->
  f w = ∅ -> forall k, k ∈ f (with_tasks l w) <-> exists e, e ∈ l /\ b e.2 = true /\ k = key e.2.
Proof.
  intros Hf Hw k. induction l as [|e l IH] using rev_ind.
  - cbn. rewrite Hw. set_solver.
  - rewrite with_tasks_snoc, Hf by apply with_tasks_thr.
    rewrite (exists_snoc (fun e => b e.2 = true /\ k = key e.2)). destruct (b e.2); [rewrite elem_of_union, elem_of_singleton|]; rewrite IH; intuition congruence.
Qed.

#[local] Notation stream := (filter (fun e => owned_task owns e.2) (bt_EachEntry (table (tasks s)))).
#[local] Notation v0 :=
  (with_threads (filter (fun e => owned_thread owns e.2) (bt_EachEntry (threads_table (threads s)))) empty_view).

Lemma restored_has t : has (v_table v') t <-> has (v_table v) t /\ owned_task owns t.
Proof. unfold has. rewrite restored_tasks. apply map_lookup_filter_Some. Qed.

(** The entries of the stream are the restored rows. *)
Lemma stream_has t : (exists e, e ∈ stream /\ e.2 = t) <-> has (v_table v') t.
Proof.
  rewrite restored_has. split.
  - intros ([k x] & [Ho Hx]%list_elem_of_filter & <-). apply bt_EachEntry_spec in Hx. cbn [snd] in *.
    split; [|done]. by destruct (src_table _ _ Hx) as [-> _].
  - intros [Ht Ho]. exists (task_key (Task.Id t), t). split; [|done]. apply list_elem_of_filter.
    split; [done|]. by apply bt_EachEntry_spec.
Qed.

Lemma restored_image (f : View -> gset bytes) (b : Task.t -> bool) (P : Task.t -> Prop) (key : Task.t -> bytes) :
  f v' = f (with_tasks stream v0) -> f v0 = ∅ ->
  (forall w t, v_thr w = v_thr v' -> f (restore_task w t) = if b t then {[key t]} ∪ f w else f w) ->
  (forall t, has (v_table v') t -> b t = true <-> P t) ->
  image (has (v_table v')) P key (f v').
Proof.
  intros -> E0 Hf Hb k. rewrite (with_tasks_index f b key); [|clear k|done].
  - split.
    + intros (e & He & Hbe & ->). assert (Ht : has (v_table v') e.2) by (apply stream_has; by exists e).
      exists e.2. split_and!; [done|by apply Hb|done].
    + intros (t & Ht & HP & ->). pose proof Ht as (e & He & <-)%stream_has. exists e.
      split_and!; [done|by apply Hb|done].
  - intros w t Ew. apply Hf. rewrite Ew. symmetry. apply (with_tasks_thr stream v0).
Qed.

Lemma restored_inp : image (has (v_table v')) in_progress inp_key (v_inp v').
Proof.
  apply (restored_image v_inp (fun t => bool_decide (in_progress t))); [done..|].
  intros t _. apply bool_decide_eq_true.
Qed.
Lemma restored_dead : image (has (v_table v')) dead dead_key (v_dead v').
Proof.
  apply (restored_image v_dead (fun t => bool_decide (dead t))); [done..|].
  intros t _. apply bool_decide_eq_true.
Qed.
(** Every task gets an expiration entry, a running one too. *)
Lemma restored_exp : image (has (v_table v')) (fun _ => True) exp_key (v_exp v').
Proof. by apply (restored_image v_exp (fun _ => true)). Qed.

Lemma restored_tidx : image (has (v_table v')) member tkey (v_tidx v').
Proof.
  apply (restored_image v_tidx (fun t => negb (bool_decide (Task.ThreadId t = [])))); [done..| |].
  - intros w t _. cbn. by destruct (bool_decide (Task.ThreadId t = [])).
  - intros t [Ht _]%restored_has. rewrite negb_true_iff, bool_decide_eq_false. split; [|by intros []].
    intros Hth. split; [done|]. intros Hd. by apply (Hdead t).
Qed.

(** A restored thread row has its head among the restored tasks. *)
Lemma restored_row k : row_ok (has (v_table v')) (v_thr v' !! k) k.
Proof.
  rewrite restored_thr. pose proof (to_rows _ _ (ix_threads _ _ src_ix) k) as Hrow.
  destruct (filter _ (v_thr v) !! k) as [r|] eqn:Er.
  - apply map_lookup_filter_Some in Er as [Er Ho]. cbn in Ho. rewrite Er in Hrow.
    destruct Hrow as (h & Hh & Hm & Hkh & Hhr & Hip & Hl). exists h. split_and!; [|done..| |].
    + apply restored_has. split; [done|]. destruct Hhr as (_ & E & _). unfold owned_thread in Ho.
      by rewrite E in Ho.
    + intros t [Ht _]%restored_has. by apply Hip.
    + intros He u [Hu _]%restored_has. by apply Hl.
  - intros t [Ht Ho]%restored_has Hm Ek. destruct (member_row t Ht Hm) as (r & Hr & Hor).
    rewrite Ek in Hr. apply map_lookup_filter_None in Er as [Er|Er]; [congruence|].
    apply (Er r Hr). by apply Hor.
Qed.

Lemma in_front_queued t : has (v_table v') t -> enqueued t ->
  in_front v' t = true <-> ~ threaded t \/ is_head (v_thr v') t.
Proof.
  intros Ht He. unfold in_front, is_head. rewrite orb_true_iff, bool_decide_eq_true.
  assert (E : Task.ThreadId t = [] <-> ~ threaded t) by (unfold threaded; destruct (Task.ThreadId t); naive_solver).
  rewrite E. apply Morphisms_Prop.or_iff_morphism; [done|].
  pose proof (restored_row (threadkey t)) as Hrow. destruct (v_thr v' !! threadkey t) as [r|]; [|naive_solver].
  destruct Hrow as (h & Hh & _ & Ek & (_ & Ei & _) & _). rewrite Z.eqb_eq, Ei. split.
  - intros En. exists r. split; [done|]. rewrite Ei.
    apply restored_has in Ht as [Ht _], Hh as [Hh _].
    by apply same_thread_Id; [apply (rows_wf _ (ix_rows _ _ src_ix))..|done|].
  - intros (r' & [= <-] & E'). unfold task_n. by rewrite <-E', Ei.
Qed.

Lemma restored_queue : image (has (v_table v')) (queued (v_thr v')) qkey (v_queue v').
Proof.
  apply (restored_image v_queue (fun t => bool_decide (enqueued t) && in_front v' t)); [done..| |].
  - intros w t Ew. cbn. assert (in_front w t = in_front v' t) as -> by (unfold in_front; by rewrite Ew). done.
  - intros t Ht. rewrite andb_true_iff, bool_decide_eq_true. unfold queued. split.
    + intros [He Hf]. split; [done|]. by apply in_front_queued.
    + intros [He Hf]. split; [done|]. by apply in_front_queued.
Qed.

(** Restoring a claimed key again stores the same task. *)
Lemma with_tasks_dedupe l w :
  (forall e e', e ∈ l -> e' ∈ l -> claims e.2 -> claims e'.2 -> task_dedupePK e.2 = task_dedupePK e'.2 ->
     task_n e.2 = task_n e'.2) ->
  v_dedupe w = ∅ -> forall k n,
  v_dedupe (with_tasks l w) !! k = Some n <-> exists e, e ∈ l /\ claims e.2 /\ k = task_dedupePK e.2 /\ n = task_n e.2.
Proof.
  intros Hl Hw k n. revert n. induction l as [|e l IH] using rev_ind; intros n.
  - cbn. rewrite Hw, lookup_empty. split; [done|]. by intros (e & He%elem_of_nil & _).
  - rewrite with_tasks_snoc. cbn [v_dedupe restore_task].
    assert (Hl' : forall n, v_dedupe (with_tasks l w) !! k = Some n <->
      exists e, e ∈ l /\ claims e.2 /\ k = task_dedupePK e.2 /\ n = task_n e.2).
    { apply IH. intros e1 e2 H1 H2. apply Hl; apply elem_of_app; by left. }
    rewrite (exists_snoc (fun e => claims e.2 /\ k = task_dedupePK e.2 /\ n = task_n e.2)), <-Hl'.
    unfold claims at 1.
    case_bool_decide; case_bool_decide; cbn [andb]; [|tauto..].
    rewrite lookup_insert_Some. split; [naive_solver|]. intros [Hk'|(_ & -> & ->)]; [|by left].
    destruct (decide (task_dedupePK e.2 = k)) as [Ek|Ek]; [left|by right]. split; [done|].
    apply Hl' in Hk' as (e' & He' & Hc & Ek' & ->). apply Hl; [apply elem_of_app; right; by apply list_elem_of_singleton|apply elem_of_app; by left|by split|done|congruence].
Qed.

Lemma restored_dedupe : dedupe_ok (has (v_table v')) (v_dedupe v').
Proof.
  intros k n. change (v_dedupe v') with (v_dedupe (with_tasks stream v0)). rewrite with_tasks_dedupe; [|clear k n|done].
  - split.
    + intros (e & He & Hc & -> & ->). exists e.2. split; [apply stream_has; by exists e|done].
    + intros (t & (e & He & <-)%stream_has & Hc & -> & ->). by exists e.
  - intros e e' He He' Hc Hc' Ek.
    assert (H1 : has (v_table v') e.2) by (apply stream_has; by exists e).
    assert (H2 : has (v_table v') e'.2) by (apply stream_has; by exists e').
    apply restored_has in H1 as [H1 _], H2 as [H2 _].
    by rewrite (dedupe_unique _ _ _ _ (ix_rows _ _ src_ix) (ix_dedupe _ _ src_ix) H1 H2 Hc Hc' Ek).
Qed.

(** *** Counters and sequences *)

Lemma owned_key_pair {A} (m : gmap bytes A) a q : is_u64 a -> is_u64 q ->
  filter (owned_key owns) m !! queue_tablePK a q =
    if decide (owned_pair owns a q) then m !! queue_tablePK a q else None.
Proof.
  intros Ha Hq. destruct (queue_key_parts a q Ha Hq) as (_ & E2 & E3). case_decide as Ho.
  - apply option_eq. intros x. rewrite map_lookup_filter_Some. unfold owned_key. cbn [fst]. rewrite E2, E3. tauto.
  - apply map_lookup_filter_None. right. intros x _. unfold owned_key. cbn [fst]. by rewrite E2, E3.
Qed.

Lemma restored_count a q st :
  count (v_table v') a q st = if decide (owned_pair owns a q) then count (v_table v) a q st else 0.
Proof.
  unfold count. rewrite restored_tasks, map_filter_filter. case_decide as Ho.
  - do 2 f_equal. apply map_filter_ext. intros k t _. cbn. unfold counted, in_queue, owned_task. split; [tauto|].
    intros [[Ea Eq] ?]. rewrite Ea, Eq. auto.
  - rewrite (proj2 (map_empty_filter _ _)), map_size_empty; [done|]. intros k t _ [[[Ea Eq] _] Hot]. cbn in *.
    unfold owned_task in Hot. by rewrite Ea, Eq in Hot.
Qed.

Lemma restored_counts : counts_off v' no_off.
Proof.
  intros a q st Ha Hq Hst. unfold counter_of. rewrite restored_counters, owned_key_pair, restored_count by done.
  case_decide; [by apply (ig_counts _ _ _ (inv_gen _ (proj1 Hs)))|].
  by destruct Hst as [->|[->| ->]].
Qed.

Lemma restored_seq t : has (v_table v') t ->
  task_n t <= seq_of v' (TaskId.AccountId (Task.Id t)) (TaskId.QueueId (Task.Id t)).
Proof.
  intros [Ht Ho]%restored_has. destruct (wf_Id t (rows_wf _ (ix_rows _ _ src_ix) t Ht)) as (Ha & Hq & _).
  unfold seq_of. rewrite restored_qst, owned_key_pair, decide_True by done.
  by apply (ig_seq _ _ _ (inv_gen _ (proj1 Hs))).
Qed.

(** *** The invariant *)

(** The expiration entries the source has too. *)
Lemma restored_deadlines : image (has (v_table v')) has_deadline exp_key (v_exp v ∩ v_exp v').
Proof.
  intros k. rewrite elem_of_intersection, (ix_exp _ _ src_ix k), (restored_exp k). split.
  - intros [(t & Ht & Hd & ->) (u & Hu & _ & E)]. exists u.
    pose proof Hu as [Hu' _]%restored_has. destruct (ix_rows _ _ src_ix) as [Hwf Hfun].
    assert (t = u) as -> by (apply Hfun; [done..|]; apply exp_key_inj; auto). done.
  - intros (t & Ht & Hd & ->). pose proof Ht as [Ht' _]%restored_has. split; by exists t.
Qed.

Lemma restored_good : Good (set_exp (v_exp v ∩ v_exp v') v').
Proof.
  assert (Htab : wf_table (v_table v')).
  { intros k t. rewrite restored_tasks. intros [Ht _]%map_lookup_filter_Some. by apply src_table. }
  split; [split; [split|]|]; cbn [v_table v_qst set_exp].
  - exact Htab.
  - split; cbn; [by apply rows_has| |apply restored_inp|apply restored_dead|apply restored_deadlines|apply restored_dedupe].
    split; cbn; [apply restored_tidx|apply restored_row|apply restored_queue].
  - apply restored_counts.
  - apply restored_seq.
  - intros k st. rewrite restored_qst. intros [Hst _]%map_lookup_filter_Some. by apply (inv_seq_u64 _ (proj1 Hs) k).
  - intros k x. cbn [v_purge set_exp]. rewrite restored_marks. intros [Hx _]%map_lookup_filter_Some. by apply (proj2 Hs).
Qed.

(** *** A core that owns everything *)

Lemma image_unique mem P key S S' : image mem P key S -> image mem P key S' -> S = S'.
Proof. intros H1 H2. apply set_eq. intros k. by rewrite (H1 k), (H2 k). Qed.

Lemma filter_all {A} (m : gmap bytes A) (P : bytes * A -> Prop) `{!forall e, Decision (P e)} :
  (forall e, P e) -> filter P m = m.
Proof. intros HP. apply map_filter_id. auto. Qed.

Lemma restored_core_all : (forall a q, owned_pair owns a q) -> (forall t, has (v_table v) t -> ~ in_progress t) -> v' = v.
Proof.
  intros Ho Hr. destruct src_ix as [_ [T1 _ T3] I1 I2 I3 I4].
  assert (Et : v_table v' = v_table v) by (rewrite restored_tasks; apply filter_all; intros; apply Ho).
  assert (Eh : v_thr v' = v_thr v) by (rewrite restored_thr; apply filter_all; intros; apply Ho).
  pose proof restored_tidx as R1. pose proof restored_queue as R2. pose proof restored_inp as R3.
  pose proof restored_dead as R4. pose proof restored_dedupe as R5. pose proof restored_exp as R6.
  pose proof restored_counters as R7. pose proof restored_qst as R8. pose proof restored_rl as R9.
  pose proof restored_marks as R10. rewrite Et in *. rewrite Eh in R2.
  assert (Ed : v_dedupe v' = v_dedupe v).
  { apply map_eq. intros k. apply option_eq. intros n. by rewrite (R5 k n), (I4 k n). }
  assert (Ee : v_exp v' = v_exp v).
  { apply (image_unique (has (v_table v)) has_deadline exp_key); [|done].
    eapply image_ext; [|exact R6]. intros t. cbn. split; [|tauto]. intros [Ht _]. split; [done|]. by apply Hr. }
  rewrite filter_all in R7 by (intros; apply Ho). rewrite filter_all in R8 by (intros; apply Ho).
  rewrite filter_all in R9 by (intros; apply Ho). rewrite filter_all in R10 by (intros; apply Ho).
  pose proof (image_unique _ _ _ _ _ R1 T1). pose proof (image_unique _ _ _ _ _ R2 T3).
  pose proof (image_unique _ _ _ _ _ R3 I1). pose proof (image_unique _ _ _ _ _ R4 I2).
  destruct v', v; cbn in *; congruence.
Qed.
End tasks_roundtrip.
