(* ===== verification/SnapshotProps.v ===== *)
(** * Theorems on snapshots

    Restoring a snapshot of either core.  A tasks core restores under two provisos, and the runs
    at the end of the file show that neither can be dropped: no dead task carries a thread id,
    and a running task gets an expiration entry that the source does not have. *)

From S2P Require Export TasksSnapshot QueuesExamples TasksExamples TasksFindings.

Section snapshot_theorems.
Context {U : Utils} {H : Honey} {K : Keyspace} {C : CronLib} {Sn : Snapshots}.
Context {UO : UtilsOk U} {HO : HoneyOk H} {CO : CronOk C} {SO : SnapshotsOk Sn}.

(** C37: restoring the snapshot of a reachable queues core, over any core [s0] and for any
    shard bounds, succeeds; the restored core holds exactly the queues, schedules, counters and
    garbage-collection records of the accounts in bounds and satisfies the invariant of the
    running core (every index rebuilt, every count right); a queue is found by name exactly
    when its account is in bounds; with everything in bounds the contents are the source's. *)
Theorem queues_snapshot_roundtrip s s0 owns :
  qreachable s ->
  ⟪ s0 ⟫ queues_Restore owns [queues_Snapshot s] ⟪ _, s' ⟫
    let v := qview s in let v' := qview s' in
    QInv v' /\
    q_table v' = filter (fun e => owned_queue owns e.2) (q_table v) /\
    q_sched v' = filter (fun e => owned_schedule owns e.2) (q_sched v) /\
    q_gc v' = filter (fun e => owned_record owns e.2) (q_gc v) /\
    q_cnt v' = filter (owned_counter owns) (q_cnt v) /\
    (forall a name, is_u64 a ->
       by_name v' a name = if decide (owned_account owns a) then by_name v a name else None) /\
    ((forall a, owned_account owns a) -> v' = v).
Proof.
  intros Hr. pose proof (QInv_reachable s Hr) as Hs.
  eapply wp_mono; [exact (wpq_restore owns s _ (qi_queues _ Hs) s0 eq_refl)|].
  intros [] s' Ev. cbn zeta. rewrite Ev. split_and!.
  - by apply restored_inv.
  - by apply restored_table.
  - by apply restored_sched.
  - by apply restored_gc.
  - by apply restored_cnt.
  - intros a name Ha. by apply restored_by_name.
  - by apply restored_all.
Qed.

(** C36: restoring the snapshot of a reachable tasks core in which no dead task carries a thread
    id, over any core [s0] and for any shard bounds, succeeds; the restored core holds exactly
    the tasks, threads, counters, id sequences, rate limiters and purge markers of the queues
    in bounds; it satisfies the invariant of the running core (every index rebuilt, every gauge
    right, every thread headed), except that every task has an expiration entry, where the
    source has none for a running one; with everything in bounds and nothing running the
    contents are the source's. *)
Theorem tasks_snapshot_roundtrip s s0 owns :
  reachable s -> no_dead_threaded (view s) ->
  ⟪ s0 ⟫ tasks_Restore owns [tasks_Snapshot s] ⟪ _, s' ⟫
    let v := view s in let v' := view s' in
    v_table v' = filter (fun e => owned_task owns e.2) (v_table v) /\
    v_thr v' = filter (fun e => owned_thread owns e.2) (v_thr v) /\
    v_cnt v' = filter (owned_key owns) (v_cnt v) /\
    v_qst v' = filter (owned_key owns) (v_qst v) /\
    v_rl v' = filter (owned_key owns) (v_rl v) /\
    v_purge v' = filter (fun e => owned_mark owns e.2) (v_purge v) /\
    Good (set_exp (v_exp v ∩ v_exp v') v') /\
    (forall k, k ∈ v_exp v' <-> exists t, has (v_table v') t /\ k = exp_key t) /\
    ((forall a q, owned_pair owns a q) -> (forall t, has (v_table v) t -> ~ in_progress t) -> v' = v).
Proof.
  intros Hr Hd. pose proof (Good_reachable s Hr) as Hs. pose proof (keys_ok_reachable s Hr) as Hk.
  eapply wp_mono; [by apply (wpv_tasks_Restore owns s Hs Hk Hd (view s0))|].
  intros [] s' Ev. cbn zeta. rewrite Ev. split_and!.
  - by apply restored_tasks.
  - by apply restored_thr.
  - apply restored_counters.
  - apply restored_qst.
  - apply restored_rl.
  - by apply restored_marks.
  - by apply restored_good.
  - intros k. rewrite (restored_exp owns s Hs Hk Hd k). split; intros (t & Ht); exists t; tauto.
  - by apply restored_core_all.
Qed.
End snapshot_theorems.

#[local] Existing Instance keyspace_ref.
#[local] Existing Instance snapshots_ref.

Lemma queues_snapshot_roundtrip_witness :
  ⟪ QRun.s1 ⟫ queues_Restore (fun _ => true) [queues_Snapshot QRun.s5] ⟪ _, s' ⟫
    QInv (qview s') /\ qview s' = qview QRun.s5.
Proof.
  eapply wp_mono;
    [apply (queues_snapshot_roundtrip QRun.s5 QRun.s1 (fun _ => true)), QRun.qreachable_s5|].
  intros [] s' (Hq & _ & _ & _ & _ & _ & Hv). split; [exact Hq|]. by apply Hv.
Defined.

Definition waiting_row (t : Task.t) : bool :=
  negb (bool_decide (dead t)) && negb (bool_decide (in_progress t)).

Lemma tasks_snapshot_roundtrip_witness :
  ⟪ Run.s2 ⟫ tasks_Restore (fun _ => true) [tasks_Snapshot Run.s1] ⟪ _, s' ⟫ view s' = view Run.s1.
Proof.
  assert (Hrows : forall t, has (v_table (view Run.s1)) t -> ~ dead t /\ ~ in_progress t).
  { apply (Run.rows_check Run.s1 waiting_row); [|vm_compute; reflexivity].
    intros t [H1 H2]%andb_true_iff. rewrite negb_true_iff, bool_decide_eq_false in H1, H2. done. }
  assert (Hd : no_dead_threaded (view Run.s1)) by (intros t Ht Hd; exact (False_ind _ (proj1 (Hrows t Ht) Hd))).
  eapply wp_mono; [exact (tasks_snapshot_roundtrip Run.s1 Run.s2 (fun _ => true) Run.reachable_s1 Hd)|].
  intros [] s' (_ & _ & _ & _ & _ & _ & _ & _ & Hv).
  exact (Hv (fun _ _ => eq_refl) (fun t Ht => proj2 (Hrows t Ht))).
Defined.

(** ** Runs of the tasks core *)

Module SnapshotFindings.
Import Findings.

Definition report_dead (now n attempt : Z) (s : Txn) : Txn :=
  (rpc (ReportStatus (ReportStatusRequest.mk
    [ReportStatusRequestEntry.mk (TaskId.mk 1 1 n) STATUS_FAILED attempt 30]
    (Some (DeadLetterQueueConfig.mk true 10 3600))) now) s).2.

Definition restore_all (s : Txn) : Res Txn :=
  match tasks_Restore (fun _ => true) [tasks_Snapshot s] NewCore with
  | Ok (_, s') => Ok s'
  | Fail e => Fail e
  end.

Definition error_of {A} (r : Res A) : option Err := match r with Ok _ => None | Fail e => Some e end.

(** One threaded task, handed out, then dead. *)
Definition in_progress : Txn :=
  (dequeue (at_ 11) (enqueue (at_ 10) [task "a" (at_ 10) never [] "t" []] NewCore).2).2.
Definition dead_in_thread : Txn := report_dead (at_ 12) 1 1 in_progress.

(** A dead task keeps the id of the thread it left, whose row is deleted with its last
    member: [taskRestorer] looks the thread up and the whole restore fails. *)
Theorem dead_threaded_task_blocks_restore : error_of (restore_all dead_in_thread) = Some ErrNotFound.
Proof. vm_compute. reflexivity. Qed.

(** [startTask] drops the expiration entry of a task it hands out, [restoreIndexes] adds one:
    a restored replica holds an entry that the replica it copies does not. *)
Theorem restore_adds_expiration_entry :
  v_exp (view in_progress) = ∅ /\
  match restore_all in_progress with Ok s' => bool_decide (v_exp (view s') = ∅) = false | Fail _ => False end.
Proof. split; vm_compute; reflexivity. Qed.
End SnapshotFindings.
