(* ===== verification/TasksTypes.v ===== *)
(** * Typing of the tasks core

    Every row the tasks core stores and every answer it gives is a value of its Go type, if
    the requests and the time are. *)

From S2P Require Export Types.

Section tasks.
Context {U : Utils} {H : Honey} {HO : HoneyOk H}.
Local Abbreviation T := (M Txn).

Record tasks_typed (s : Txn) : Prop := {
  typed_table : rows_typed (go_value Task_codec) (table (tasks s));
  typed_threads : rows_typed (go_value Thread_codec) (threads_table (threads s));
  typed_counters : rows_typed (go_value TasksCounter_codec) (counters s);
  typed_queueState : rows_typed (go_value QueueState_codec) (queueState s);
  typed_rateLimiters : rows_typed (go_value RateLimiterState_codec) (rateLimiters s);
  typed_purge : rows_typed (go_value PurgeQueueGarbageCollectionRecord_codec) (purgeGCRecords s);
}.

Lemma NewCore_typed : tasks_typed NewCore.
Proof. split; apply rows_new. Qed.

#[local] Notation gives := (gives tasks_typed).
#[local] Notation go_task := (go_value Task_codec).
#[local] Notation go_id := (go_value TaskId_codec).

(** ** Tables *)

#[local] Ltac table_op := apply gives_modify; intros ? []; split; cbn; eauto using rows_Set, rows_Delete.

Lemma tasks_lookup_typed i : gives (tasks_lookup i) (fun o => forall t, o = Some t -> go_task t).
Proof. apply gives_gets. intros s [] t. by apply rows_Get. Qed.
Lemma tasks_Get_typed i : gives (tasks_Get i) go_task.
Proof. eapply gives_bind; [apply tasks_lookup_typed|]. intros o Ho. by apply gives_orNotFound. Qed.
Lemma tasks_set_typed t : go_task t -> gives (tasks_set t) (fun _ => True).
Proof. intros Ht. table_op. Qed.
Lemma tasks_delete_typed i : gives (tasks_delete i) (fun _ => True).
Proof. table_op. Qed.
Lemma dedupe_Get_typed k : gives (dedupeKeysIndex_Get k) (fun _ => True).
Proof. by apply gives_gets. Qed.
Lemma dedupe_Set_typed k n : gives (dedupeKeysIndex_Set k n) (fun _ => True).
Proof. table_op. Qed.
Lemma dedupe_Delete_typed k : gives (dedupeKeysIndex_Delete k) (fun _ => True).
Proof. table_op. Qed.
Lemma queueIndex_Add_typed pk x : gives (queueIndex_Add pk x) (fun _ => True).
Proof. table_op. Qed.
Lemma queueIndex_Delete_typed pk x : gives (queueIndex_Delete pk x) (fun _ => True).
Proof. table_op. Qed.
Lemma inProgressIndex_Add_typed pk x : gives (inProgressIndex_Add pk x) (fun _ => True).
Proof. table_op. Qed.
Lemma inProgressIndex_Delete_typed pk x : gives (inProgressIndex_Delete pk x) (fun _ => True).
Proof. table_op. Qed.
Lemma deadTasksIndex_Add_typed pk x : gives (deadTasksIndex_Add pk x) (fun _ => True).
Proof. table_op. Qed.
Lemma deadTasksIndex_Delete_typed pk x : gives (deadTasksIndex_Delete pk x) (fun _ => True).
Proof. table_op. Qed.
Lemma expiration_add_typed i e : gives (expiration_add i e) (fun _ => True).
Proof. table_op. Qed.
Lemma expiration_remove_typed i e : gives (expiration_remove i e) (fun _ => True).
Proof. table_op. Qed.
Lemma expiration_ListDue_typed b l : gives (expiration_ListDue b l) (fun _ => True).
Proof. by apply gives_gets. Qed.
Lemma threads_lookup_typed a q i :
  gives (threads_lookup a q i) (fun o => forall t, o = Some t -> go_value Thread_codec t).
Proof. apply gives_gets. intros s [] t. by apply rows_Get. Qed.
Lemma threads_Get_typed a q i : gives (threads_Get a q i) (go_value Thread_codec).
Proof. eapply gives_bind; [apply threads_lookup_typed|]. intros o Ho. by apply gives_orNotFound. Qed.
Lemma threads_set_typed a q t : go_value Thread_codec t -> gives (threads_set a q t) (fun _ => True).
Proof. intros Ht. table_op. Qed.
Lemma threads_Delete_typed a q i : gives (threads_Delete a q i) (fun _ => True).
Proof. table_op. Qed.
Lemma threads_AddToIndex_typed a q i s n : gives (threads_AddToIndex a q i s n) (fun _ => True).
Proof. table_op. Qed.
Lemma threads_RemoveFromIndex_typed a q i s n : gives (threads_RemoveFromIndex a q i s n) (fun _ => True).
Proof. table_op. Qed.
Lemma threads_ListIndex_typed a q i : gives (threads_ListIndex a q i) (fun _ => True).
Proof. by apply gives_gets. Qed.

Lemma default_typed {V} (P : V -> Prop) (t : BinaryTable V) d k :
  P d -> rows_typed P t -> P (default d (bt_Get t k)).
Proof. intros Hd Ht. destruct (bt_Get t k) eqn:E; [by eapply rows_Get|done]. Qed.

Lemma counters_Get_typed a q : gives (counters_Get a q) (go_value TasksCounter_codec).
Proof. apply gives_gets. intros s []. apply default_typed; eauto with types. Qed.
Lemma counters_Set_typed a q c : go_value TasksCounter_codec c -> gives (counters_Set a q c) (fun _ => True).
Proof. intros Hc. table_op. Qed.
Lemma counters_Delete_typed a q : gives (counters_Delete a q) (fun _ => True).
Proof. table_op. Qed.
Lemma queueState_Get_typed a q : gives (queueState_Get a q) (go_value QueueState_codec).
Proof. apply gives_gets. intros s []. apply default_typed; eauto with types. Qed.
Lemma queueState_Set_typed a q c : go_value QueueState_codec c -> gives (queueState_Set a q c) (fun _ => True).
Proof. intros Hc. table_op. Qed.
Lemma queueState_Delete_typed a q : gives (queueState_Delete a q) (fun _ => True).
Proof. table_op. Qed.
Lemma rateLimiters_Get_typed a q r now :
  is_i64 (TokenBucketRateLimiting.MaxTokens r) -> is_i64 now ->
  gives (rateLimiters_GetOrDefault a q r now) (go_value RateLimiterState_codec).
Proof. intros. apply gives_gets. intros s []. apply default_typed; eauto with types. Qed.
Lemma rateLimiters_Set_typed a q c : go_value RateLimiterState_codec c -> gives (rateLimiters_Set a q c) (fun _ => True).
Proof. intros Hc. table_op. Qed.
Lemma rateLimiters_Delete_typed a q : gives (rateLimiters_Delete a q) (fun _ => True).
Proof. table_op. Qed.
Lemma purge_Create_typed r :
  go_value PurgeQueueGarbageCollectionRecord_codec r -> gives (purgeGCRecords_Create r) (fun _ => True).
Proof. intros Hr. table_op. Qed.
Lemma purge_Delete_typed r : gives (purgeGCRecords_Delete r) (fun _ => True).
Proof. table_op. Qed.
Lemma purge_Exists_typed a q : gives (purgeGCRecords_Exists a q) (fun _ => True).
Proof. by apply gives_gets. Qed.
Lemma purge_List_typed l : gives (purgeGCRecords_List l) (fun _ => True).
Proof. by apply gives_gets. Qed.
#[local] Hint Resolve tasks_Get_typed tasks_lookup_typed tasks_set_typed tasks_delete_typed dedupe_Get_typed
  dedupe_Set_typed dedupe_Delete_typed queueIndex_Add_typed queueIndex_Delete_typed inProgressIndex_Add_typed
  inProgressIndex_Delete_typed deadTasksIndex_Add_typed deadTasksIndex_Delete_typed expiration_add_typed
  expiration_remove_typed expiration_ListDue_typed threads_lookup_typed threads_Get_typed threads_set_typed
  threads_Delete_typed threads_AddToIndex_typed threads_RemoveFromIndex_typed threads_ListIndex_typed
  counters_Get_typed counters_Set_typed counters_Delete_typed queueState_Get_typed queueState_Set_typed
  queueState_Delete_typed rateLimiters_Get_typed rateLimiters_Set_typed rateLimiters_Delete_typed
  purge_Create_typed purge_Delete_typed purge_Exists_typed purge_List_typed : types.

(** ** Threads *)

Lemma first_in_thread_typed a q i : gives (first_in_thread a q i) (fun o => forall t, o = Some t -> go_task t).
Proof. unfold first_in_thread. ty; naive_solver. Qed.
#[local] Hint Resolve first_in_thread_typed : types.

Lemma reconcileThreadHead_typed a q t : go_value Thread_codec t -> gives (reconcileThreadHead a q t) (fun _ => True).
Proof. intros Ht. unfold reconcileThreadHead. ty. Qed.
#[local] Hint Resolve reconcileThreadHead_typed : types.

Lemma promoteNextThreadHead_typed a q t : go_value Thread_codec t -> gives (promoteNextThreadHead a q t) (fun _ => True).
Proof. intros Ht. unfold promoteNextThreadHead. ty. Qed.
#[local] Hint Resolve promoteNextThreadHead_typed : types.
Lemma attachTaskToThread_typed t : go_task t -> gives (attachTaskToThread t) (fun _ => True).
Proof. intros Ht. unfold attachTaskToThread. ty. Qed.
Lemma detachTaskFromThread_typed t : gives (detachTaskFromThread t) (fun _ => True).
Proof. unfold detachTaskFromThread. ty. Qed.
Lemma rescheduleTaskInThread_typed t o : gives (rescheduleTaskInThread t o) (fun _ => True).
Proof. unfold rescheduleTaskInThread. ty. Qed.
#[local] Hint Resolve attachTaskToThread_typed detachTaskFromThread_typed rescheduleTaskInThread_typed : types.

(** ** Life cycle *)

Lemma release_dedupe_typed t : gives (release_dedupe t) (fun _ => True).
Proof. unfold release_dedupe. ty. Qed.
Lemma detach_if_threaded_typed t : gives (detach_if_threaded t) (fun _ => True).
Proof. unfold detach_if_threaded. ty. Qed.
Lemma bump_counters_typed t f :
  (forall c, go_value TasksCounter_codec c -> go_value TasksCounter_codec (f c)) ->
  gives (bump_counters t f) (fun _ => True).
Proof. intros Hf. unfold bump_counters. ty. Qed.
Lemma getTaskIdByDedupeKey_typed a q k : gives (getTaskIdByDedupeKey a q k) (fun _ => True).
Proof. unfold getTaskIdByDedupeKey. ty. Qed.
Lemma dedupe_holder_typed (b : bool) a q k :
  gives (if b then getTaskIdByDedupeKey a q k else mret None) (fun _ => True).
Proof. destruct b; [apply getTaskIdByDedupeKey_typed|by apply gives_ret]. Qed.
#[local] Hint Resolve dedupe_holder_typed release_dedupe_typed detach_if_threaded_typed bump_counters_typed getTaskIdByDedupeKey_typed : types.

Lemma createTask_typed t : go_task t -> gives (createTask t) (fun _ => True).
Proof. intros Ht. unfold createTask. ty. Qed.
Lemma count_deletion_typed r c :
  go_value TasksCounter_codec c -> go_value TasksCounter_codec (count_deletion r c).
Proof. destruct r; cbn [count_deletion]; eauto with types. Qed.
#[local] Hint Resolve createTask_typed count_deletion_typed : types.

Lemma deleteTask_typed t r : gives (deleteTask t r) (fun _ => True).
Proof.
  unfold deleteTask. ty_one. cbn zeta. eapply gives_bind with (R := go_value TasksCounter_codec); [|intros c Hc; ty].
  ty.
Qed.
#[local] Hint Resolve deleteTask_typed : types.

Lemma overwrite_one_typed sa p e t o : is_i64 sa -> is_i64 e -> go_task t -> gives (overwrite_one sa p e t o) go_task.
Proof. intros. unfold overwrite_one. ty. Qed.
#[local] Hint Resolve overwrite_one_typed : types.
Lemma overwrite_all_typed sa p e os t : is_i64 sa -> is_i64 e -> go_task t -> gives (overwrite_all sa p e os t) go_task.
Proof. intros Hs He. revert t. induction os as [|o os IH]; intros t Ht; cbn [overwrite_all]; ty. Qed.
#[local] Hint Resolve overwrite_all_typed : types.
Lemma overwriteDuplicate_typed i os sa p e :
  is_i64 sa -> is_i64 e -> gives (overwriteDuplicate i os sa p e) (fun o => forall t, o = Some t -> go_task t).
Proof. intros. unfold overwriteDuplicate. ty; naive_solver. Qed.
Lemma heartbeatTask_typed t now k : go_task t -> gives (heartbeatTask t now k) (fun _ => True).
Proof. intros. unfold heartbeatTask. ty. Qed.

Lemma for_map_tasks_typed {A} (l : list A) f :
  gives (for_map l (fun x => tasks_Get (f x))) (Forall go_task).
Proof. apply gives_for_map. eauto with types. Qed.
#[local] Hint Resolve overwriteDuplicate_typed heartbeatTask_typed for_map_tasks_typed : types.

Lemma evictExcessDeadTasks_typed a q m d : gives (evictExcessDeadTasks a q m d) (fun _ => True).
Proof. unfold evictExcessDeadTasks. ty. Qed.
#[local] Hint Resolve evictExcessDeadTasks_typed : types.
Lemma failTaskToDead_typed t now d : is_i64 now -> go_task t -> gives (failTaskToDead t now d) (fun _ => True).
Proof. intros. unfold failTaskToDead. ty. Qed.
Lemma retry_interval_typed t : gives (retry_interval t) (fun _ => True).
Proof. unfold retry_interval. ty. Qed.
#[local] Hint Resolve failTaskToDead_typed retry_interval_typed : types.
Lemma failTaskToRetry_typed t now : is_i64 now -> go_task t -> gives (failTaskToRetry t now) (fun _ => True).
Proof. intros. unfold failTaskToRetry. ty. Qed.
#[local] Hint Resolve failTaskToRetry_typed : types.
Lemma handleTaskFailure_typed t now d : is_i64 now -> go_task t -> gives (handleTaskFailure t now d) (fun _ => True).
Proof. intros. unfold handleTaskFailure. ty. Qed.
#[local] Hint Resolve handleTaskFailure_typed : types.

(** ** Dequeuing *)

Lemma go_div_typed a b : gives (go_div a b) is_i64.
Proof. unfold go_div. ty. Qed.
#[local] Hint Resolve go_div_typed : types.
Lemma getRefillInterval_typed r : gives (getRefillInterval r) is_i64.
Proof. unfold getRefillInterval. ty. Qed.
Lemma refillTokens_typed st m r now :
  go_value RateLimiterState_codec st -> is_i64 m -> is_i64 now ->
  gives (refillTokens st m r now) (go_value RateLimiterState_codec).
Proof.
  intros Hst Hm Hn. destruct (go_rate_parts _ Hst). unfold refillTokens. ty.
  destruct (_ >? 0); [|done]. destruct (_ >? m); eauto with types.
Qed.
#[local] Hint Resolve getRefillInterval_typed refillTokens_typed : types.
Lemma take_tokens_typed a q now r :
  is_i64 (TokenBucketRateLimiting.MaxTokens r) -> is_i64 now -> gives (take_tokens a q now r) (go_value RateLimiterState_codec).
Proof. intros. unfold take_tokens. ty. Qed.
#[local] Hint Resolve take_tokens_typed : types.

Lemma for_each_tasks_typed (l : list Task.t) f :
  Forall go_task l -> (forall t, go_task t -> gives (f t) (fun _ => True)) -> gives (for_each l f) (fun _ => True).
Proof. intros Hl Hf. apply gives_for_each. intros t Ht. apply Hf. by eapply Forall_forall in Ht. Qed.

Lemma dequeueInProgressTasksBeforeTime_typed a q now d :
  is_i64 now -> gives (dequeueInProgressTasksBeforeTime a q now d) (fun _ => True).
Proof.
  intros. unfold dequeueInProgressTasksBeforeTime. do 3 ty_one. eapply gives_bind with (R := fun _ => True).
  - cbn zeta. destruct (last _); eauto 20 with types.
  - intros _ _. by apply for_each_tasks_typed; eauto with types.
Qed.
#[local] Hint Resolve dequeueInProgressTasksBeforeTime_typed : types.

Record go_scan (sc : scan) : Prop := {
  go_dequeued : Forall go_task (sc_dequeued sc);
  go_expired : Forall go_task (sc_expired sc);
  go_sc_state : go_value QueueState_codec (sc_state sc);
  go_sc_counters : go_value TasksCounter_codec (sc_counters sc);
}.
Lemma scan_take_typed now x t sc : go_task t -> go_scan sc -> go_scan (scan_take now x t sc).
Proof.
  intros Ht []. unfold scan_take. cbn zeta.
  destruct (_ <? now); split; cbn [sc_dequeued sc_expired sc_state sc_counters]; eauto 12 with types; apply Forall_app; by rewrite ?Forall_singleton.
Qed.
#[local] Hint Resolve scan_take_typed : types.
Lemma scan_queue_typed a q now l st items sc : go_scan sc -> gives (scan_queue a q now l st items sc) go_scan.
Proof. revert sc. induction items as [|x items IH]; intros sc Hsc; cbn [scan_queue]; ty. Qed.
#[local] Hint Resolve scan_queue_typed : types.
Lemma dropExpired_typed a q t : gives (dropExpired a q t) (fun _ => True).
Proof. unfold dropExpired. ty. Qed.
Lemma startTask_typed a q now k t : go_task t -> gives (startTask a q now k t) go_task.
Proof. intros. unfold startTask. ty. Qed.
#[local] Hint Resolve dropExpired_typed startTask_typed : types.
Lemma dequeueTasksBeforeTime_typed a q now l st k :
  is_i64 now -> gives (dequeueTasksBeforeTime a q now l st k) (Forall go_task).
Proof.
  intros Hn. unfold dequeueTasksBeforeTime. do 3 ty_one.
  eapply gives_bind; [by apply scan_queue_typed; split|]. intros sc []. cbn zeta.
  eapply gives_bind with (R := fun _ => True); [destruct a2; eauto 12 with types|]. intros _ _.
  do 2 ty_one; [ty|]. apply gives_for_map. intros t Ht. apply startTask_typed. by eapply Forall_forall in Ht.
Qed.
#[local] Hint Resolve dequeueTasksBeforeTime_typed : types.

(** ** Handlers *)

Definition answers {A} (Q : A -> Prop) (r : Response A) : Prop :=
  match r with ApplicationError _ => True | Payload a => Q a end.

#[local] Hint Extern 1 (answers (fun _ => True) (Payload _)) => exact I : types.

Lemma checkQueueNotPurged_typed a q : gives (checkQueueNotPurged a q) (fun _ => True).
Proof. unfold checkQueueNotPurged. ty. Qed.
Lemma GetTask_typed i now : gives (GetTask i now) (answers go_task).
Proof. unfold GetTask. ty. destruct a; [|done]. by destruct (_ && _); [|apply H0]. Qed.
Lemma getAge_typed a q now : gives (getAgeOfOldestEnqueuedTask a q now) is_i64.
Proof. unfold getAgeOfOldestEnqueuedTask. ty. destruct a0; eauto with types. Qed.
#[local] Hint Resolve checkQueueNotPurged_typed getAge_typed : types.
Lemma GetStatistics_typed i now : gives (GetStatistics i now) (answers (go_value GetStatisticsResponse_codec)).
Proof.
  unfold GetStatistics. ty. destruct a, a0. cbn in *. pose proof (is_i64_i64 TaskIdSequence). tauto.
Qed.

Lemma go_list_result ts n p :
  Forall go_task ts -> go_field (pointer PaginationToken_codec) n -> go_field (pointer PaginationToken_codec) p ->
  go_value ListTasksResponse_codec (mkListTasksResult ts n p).
Proof. cbn. tauto. Qed.
#[local] Hint Resolve go_list_result : types.
Lemma listFromIndex_typed a q ix tok l : gives (listFromIndex a q ix tok l) (go_value ListTasksResponse_codec).
Proof. unfold listFromIndex. ty. Qed.
#[local] Hint Resolve listFromIndex_typed : types.
Lemma tasks_List_typed a q st tok l : gives (tasks_List a q st tok l) (go_value ListTasksResponse_codec).
Proof.
  unfold tasks_List. cbn zeta. destruct st; eauto with types. eapply gives_bind.
  - apply gives_gets with (Q := fun r => Forall go_task (ListPaginatedResult.Items r)). intros s []. by apply rows_ListPaginated.
  - intros r Hr. apply gives_ret. apply go_list_result; eauto with types. destruct (is_reverse _); [|done].
    by apply Forall_reverse.
Qed.
#[local] Hint Resolve tasks_List_typed : types.
Lemma ListTasks_typed req : gives (ListTasks req) (answers (go_value ListTasksResponse_codec)).
Proof. unfold ListTasks. ty; done. Qed.

Lemma new_task_typed a q n now sa e :
  is_u64 a -> is_u64 q -> is_u64 n -> is_i64 now -> is_i64 sa -> go_value EnqueueRequestEntry_codec e ->
  go_task (new_task a q n now sa e).
Proof.
  intros. destruct e. pose proof zero_i64. assert (is_i32 0) by (split; vm_compute; congruence).
  assert (go_enum TASK_STATE_ENQUEUED) by eauto with types. cbn in *. tauto.
Qed.
Definition go_entry_result (r : option Task.t * QueueState.t) : Prop :=
  (forall t, r.1 = Some t -> go_task t) /\ go_value QueueState_codec r.2.
Lemma go_entry_times e : go_value EnqueueRequestEntry_codec e ->
  is_i64 (EnqueueRequestEntry.ScheduledAt e) /\ is_i64 (EnqueueRequestEntry.ExpiresAt e).
Proof. destruct e. cbn. tauto. Qed.
Lemma enqueue_entry_typed a q now e st :
  is_u64 a -> is_u64 q -> is_i64 now -> go_value EnqueueRequestEntry_codec e -> go_value QueueState_codec st ->
  gives (enqueue_entry a q now e st) go_entry_result.
Proof.
  intros Ha Hq Hn He Hst. destruct (go_entry_times e He) as [Hs Hx]. unfold enqueue_entry. cbn zeta.
  set (sa := if _ <? _ then _ else _). assert (is_i64 sa) by (subst sa; by destruct (_ <? _)). clearbody sa.
  eapply gives_bind; [apply dedupe_holder_typed|]. intros [i|] _.
  - ty. by split.
  - assert (Hst' : go_value QueueState_codec (QueueState.set_TaskIdSequence (u64 (QueueState.TaskIdSequence st + 1)) st))
      by eauto with types.
    assert (go_task (new_task a q (QueueState.TaskIdSequence (QueueState.set_TaskIdSequence
      (u64 (QueueState.TaskIdSequence st + 1)) st)) now sa e)) by (apply new_task_typed; eauto with types).
    ty. split; [|done]. by intros t [= <-].
Qed.
#[local] Hint Resolve enqueue_entry_typed : types.
Lemma enqueue_entries_typed a q now es ts st :
  is_u64 a -> is_u64 q -> is_i64 now -> Forall (go_value EnqueueRequestEntry_codec) es -> Forall go_task ts ->
  go_value QueueState_codec st ->
  gives (enqueue_entries a q now es ts st) (fun r => Forall go_task r.1 /\ go_value QueueState_codec r.2).
Proof.
  intros Ha Hq Hn Hes. revert ts st. induction Hes as [|e es He Hes IH]; intros ts st Hts Hst; cbn [enqueue_entries].
  - by apply gives_ret.
  - eapply gives_bind; [by apply enqueue_entry_typed|]. intros [o st'] [Ho Hst']. apply IH; [|done].
    apply Forall_app. split; [done|]. destruct o; [|done]. apply Forall_singleton. by apply Ho.
Qed.
Lemma go_qid i : go_value QueueId_codec i -> is_u64 (QueueId.AccountId i) /\ is_u64 (QueueId.QueueId i).
Proof. destruct i. cbn. tauto. Qed.
Lemma Enqueue_typed req now :
  go_value QueueId_codec (EnqueueRequest.QueueId req) -> is_i64 now ->
  Forall (go_value EnqueueRequestEntry_codec) (EnqueueRequest.Entries req) ->
  gives (Enqueue req now) (answers (Forall go_task)).
Proof.
  intros [Ha Hq]%go_qid Hn Hes. unfold Enqueue. ty_one. ty_one; [by apply gives_ret|]. ty_one.
  eapply gives_bind; [by apply enqueue_entries_typed|]. intros r [Hr Hst]. ty.
Qed.

Lemma Dequeue_typed req now :
  go_field (pointer DequeuingSettings_codec) (DequeueRequest.DequeuingSettings req) -> is_i64 now ->
  gives (Dequeue req now) (answers (Forall go_task)).
Proof.
  intros Hds Hn. unfold Dequeue. ty_one. ty_one; [by apply gives_ret|].
  eapply gives_bind with (R := fun o => forall st, o = Some st -> go_value RateLimiterState_codec st).
  - destruct (rate_limiting _) as [r|] eqn:Er; [|by apply gives_ret].
    assert (is_i64 (TokenBucketRateLimiting.MaxTokens r)).
    { unfold rate_limiting in Er. destruct (DequeueRequest.DequeuingSettings req) as [[m o p]|]; [|done].
      cbn in Er. destruct o as [r'|]; [|done]. destruct (_ && _); [|done]. injection Er as ->. destruct r. cbn in Hds. cbn. tauto. }
    ty. naive_solver.
  - intros o Ho. do 2 ty_one. eapply gives_bind with (R := fun _ => True); [|intros _ _; by apply gives_ret].
    destruct o as [st|]; [|by apply gives_ret]. destruct (go_rate_parts st (Ho st eq_refl)). eauto with types.
Qed.

Lemma reportStatus_typed i now st n k d : is_i64 now -> gives (reportStatus i now st n k d) go_enum.
Proof. intros. unfold reportStatus. ty. Qed.
#[local] Hint Resolve reportStatus_typed : types.
Lemma go_report_entry i (r : ReportResult) :
  go_value TaskId_codec i -> go_enum r -> go_value ReportStatusResponseEntry_codec (ReportStatusResponseEntry.mk i r).
Proof.
  intros Hi Hr. cbn in *. tauto.
Qed.
Lemma ReportStatus_typed req now :
  is_i64 now -> Forall (fun e => go_value TaskId_codec (ReportStatusRequestEntry.TaskId e)) (ReportStatusRequest.Entries req) ->
  gives (ReportStatus req now) (answers (Forall (go_value ReportStatusResponseEntry_codec))).
Proof.
  intros Hn He. unfold ReportStatus. eapply gives_bind.
  - apply gives_for_map with (Q := go_value ReportStatusResponseEntry_codec). intros e Hin. ty.
    apply go_report_entry; [|done]. rewrite Forall_forall in He. by apply He.
  - intros r Hr. by apply gives_ret.
Qed.

Lemma DeleteTasks_typed req : gives (DeleteTasks req) (answers (fun _ => True)).
Proof. unfold DeleteTasks. ty. Qed.

Lemma restartTask_typed t now sa e :
  go_task t -> is_i64 now -> is_i64 sa -> is_i64 e -> gives (restartTask t now sa e) go_task.
Proof.
  intros Ht Hn Hs He. unfold restartTask. cbn zeta. set (sa' := if sa <? now then now else sa).
  assert (is_i64 sa') by (subst sa'; by destruct (_ <? _)). clearbody sa'.
  assert (is_i32 0) by (split; vm_compute; congruence). ty.
Qed.
#[local] Hint Resolve restartTask_typed : types.
Lemma go_restart_entry n (r : RestartResult) o :
  is_u64 n -> go_enum r -> go_field (pointer Task_codec) o ->
  go_value RestartTasksResponseEntry_codec (RestartTasksResponseEntry.mk n r o).
Proof.
  intros Hn Hr Ho. cbn in *. tauto.
Qed.
Lemma go_restart_fields e : go_value RestartTasksRequestEntry_codec e ->
  is_u64 (RestartTasksRequestEntry.TaskId e) /\ is_i64 (RestartTasksRequestEntry.ScheduledAt e) /\
  is_i64 (RestartTasksRequestEntry.ExpiresAt e).
Proof. destruct e. cbn. tauto. Qed.
Lemma restart_entry_typed a q now e :
  is_i64 now -> go_value RestartTasksRequestEntry_codec e ->
  gives (restart_entry a q now e) (go_value RestartTasksResponseEntry_codec).
Proof.
  intros Hn (Hi & Hs & He)%go_restart_fields. unfold restart_entry. ty_one.
  repeat ty_one; apply go_restart_entry; try done; eauto with types.
Qed.
Lemma RestartTasks_typed req now :
  is_i64 now -> Forall (go_value RestartTasksRequestEntry_codec) (RestartTasksRequest.Entries req) ->
  gives (RestartTasks req now) (answers (Forall (go_value RestartTasksResponseEntry_codec))).
Proof.
  intros Hn He. unfold RestartTasks. eapply gives_bind.
  - apply gives_for_map with (Q := go_value RestartTasksResponseEntry_codec). intros e Hin.
    apply restart_entry_typed; [done|]. by eapply Forall_forall in Hin.
  - intros r Hr. by apply gives_ret.
Qed.

Lemma PurgeQueue_typed i : go_value QueueId_codec i -> gives (PurgeQueue i) (answers (fun _ => True)).
Proof.
  intros Hi. unfold PurgeQueue.
  assert (go_value PurgeQueueGarbageCollectionRecord_codec (PurgeQueueGarbageCollectionRecord.mk i)) by (split; [exact Hi|done]).
  ty.
Qed.

(** ** Garbage collection *)

Lemma purge_page_typed m page v : gives (purge_page m page v) (fun _ => True).
Proof. revert v. induction page as [|t page IH]; intros v; cbn [purge_page]; ty. Qed.
#[local] Hint Resolve purge_page_typed : types.
Lemma purge_record_typed fuel ps m r v : gives (purge_record fuel ps m r v) (fun _ => True).
Proof. revert v. induction fuel as [|fuel IH]; intros v; cbn [purge_record]; ty. Qed.
#[local] Hint Resolve purge_record_typed : types.
Lemma purge_records_typed ps m rs v : gives (purge_records ps m rs v) (fun _ => True).
Proof. revert v. induction rs as [|r rs IH]; intros v; cbn [purge_records]; ty. Qed.
#[local] Hint Resolve purge_records_typed : types.
Lemma RunPurgeQueueGarbageCollection_typed req : gives (RunPurgeQueueGarbageCollection req) (answers (fun _ => True)).
Proof. unfold RunPurgeQueueGarbageCollection. ty. Qed.
Lemma sweep_typed r : gives (sweep r) (fun _ => True).
Proof. unfold sweep. ty. Qed.
#[local] Hint Resolve sweep_typed : types.
Lemma gc_loop_typed fuel now m ps v : gives (gc_loop fuel now m ps v) (fun _ => True).
Proof. revert v. induction fuel as [|fuel IH]; intros v; cbn [gc_loop]; ty. Qed.
#[local] Hint Resolve gc_loop_typed : types.
Lemma RunTasksGarbageCollection_typed req now : gives (RunTasksGarbageCollection req now) (answers (fun _ => True)).
Proof. unfold RunTasksGarbageCollection. ty. Qed.
End tasks.
