(* ===== verification/QueuesTypes.v ===== *)
(** * Typing of the queues core

    Every row the queues core stores and every answer it gives is a value of its Go type, if
    the requests and the time are. *)

From S2P Require Export Types.

Section queues.
Context {U : Utils} {H : Honey} {C : CronLib} {HO : HoneyOk H} {CO : CronOk C}.
Local Abbreviation T := (M QTxn).

Record queues_typed (s : QTxn) : Prop := {
  typed_queues : rows_typed (go_value Queue_codec) (queues_table (queues s));
  typed_schedules : rows_typed (go_value Schedule_codec) (schedules_table (schedules s));
  typed_qcounters : rows_typed (go_value QueuesCounter_codec) (qcounters s);
  typed_gcRecords : rows_typed (go_value QueuesGarbageCollectionRecord_codec) (gcRecords s);
}.

Lemma QNewCore_typed : queues_typed QNewCore.
Proof. split; apply rows_new. Qed.

#[local] Notation gives := (gives queues_typed).
#[local] Notation go_queue := (go_value Queue_codec).
#[local] Notation go_schedule := (go_value Schedule_codec).
#[local] Notation go_qid := (go_value QueueId_codec).

(** ** Values *)

Lemma go_queue_Id q : go_queue q -> go_qid (Queue.Id q).
Proof. destruct q; cbn; tauto. Qed.
Lemma go_set_SchedulesCount n q : is_i64 n -> go_queue q -> go_queue (Queue.set_SchedulesCount n q).
Proof. destruct q; cbn; tauto. Qed.
Lemma go_new_queue req now :
  go_qid (CreateQueueRequest.QueueId req) ->
  (forall i, go_value CreateQueueRequest_codec (Wire.CreateQueueRequest.mk i (CreateQueueRequest.Name req)
    (CreateQueueRequest.Description req) (CreateQueueRequest.KeepaliveTimeoutInSeconds req)
    (CreateQueueRequest.RetryStrategy req) (CreateQueueRequest.DequeuingSettings req)
    (CreateQueueRequest.DeadLetterQueueConfig req) (CreateQueueRequest.ExpiresInSeconds req)
    (CreateQueueRequest.MaxNumberOfQueues req)) -> is_i64 now -> go_queue (new_queue req now)).
Proof.
  intros Hi i Hr Hn. destruct req. pose proof zero_i64. assert (is_i64 1) by (split; vm_compute; congruence).
  cbn in *. tauto.
Qed.
Lemma go_updated_queue req now q :
  go_value UpdateQueueRequest_codec req -> is_i64 now -> go_queue q -> go_queue (updated_queue req now q).
Proof.
  intros Hr Hn Hq. destruct req, q. pose proof (is_i64_i64 (Version + 1)). cbn in *. tauto.
Qed.
Lemma go_swapped_queue i now q : go_qid i -> is_i64 now -> go_queue q -> go_queue (swapped_queue i now q).
Proof. intros Hi Hn Hq. destruct q. pose proof (is_i64_i64 (Version + 1)). cbn in *. tauto. Qed.
Lemma go_rekeyed i s : go_qid i -> go_schedule s -> go_schedule (rekeyed i s).
Proof. intros Hi Hs. destruct i, s as [[]]. cbn in *. tauto. Qed.
Lemma go_new_schedule req now i next :
  go_value CreateScheduleRequest_codec req -> is_i64 now -> is_i64 next -> go_value ScheduleId_codec i ->
  go_schedule (new_schedule req now i next).
Proof.
  intros. destruct req. pose proof zero_i64. assert (is_i64 1) by (split; vm_compute; congruence). cbn in *. tauto.
Qed.
Lemma go_updated_schedule req now next s :
  go_value UpdateScheduleRequest_codec req -> is_i64 now -> is_i64 next -> go_schedule s ->
  go_schedule (updated_schedule req now next s).
Proof. intros. destruct req, s. pose proof (is_i64_i64 (Version + 1)). cbn in *. tauto. Qed.
Lemma go_checked_schedule req now s :
  is_i64 (ReportSchedulesStatusRequest.NextScheduledAt req) -> is_i64 (ReportSchedulesStatusRequest.LastEnqueuedFor req) ->
  is_i64 now -> go_schedule s -> go_schedule (checked_schedule req now s).
Proof. intros. destruct req, s. unfold checked_schedule. cbn in *. destruct (negb _); cbn; tauto. Qed.
Lemma go_counter_mk n : is_i64 n -> go_value QueuesCounter_codec (QueuesCounter.mk n).
Proof. cbn. tauto. Qed.
Lemma go_record_mk i : go_qid i -> go_value QueuesGarbageCollectionRecord_codec (QueuesGarbageCollectionRecord.mk i).
Proof. cbn. tauto. Qed.
Lemma go_sid_mk a q s : is_u64 a -> is_u64 q -> is_u64 s -> go_value ScheduleId_codec (ScheduleId.mk a q s).
Proof. cbn. tauto. Qed.
Lemma go_qid_mk a q : is_u64 a -> is_u64 q -> go_qid (QueueId.mk a q).
Proof. cbn. tauto. Qed.
Lemma go_qid_QueueId i : go_qid i -> is_u64 (QueueId.QueueId i).
Proof. destruct i; cbn; tauto. Qed.
#[local] Hint Resolve go_queue_Id go_set_SchedulesCount go_updated_queue go_swapped_queue go_rekeyed go_new_schedule
  go_updated_schedule go_checked_schedule go_counter_mk go_record_mk go_sid_mk go_qid_mk go_qid_QueueId : types.

(** ** Tables *)

#[local] Ltac table_op := apply gives_modify; intros ? []; split; cbn; eauto using rows_Set, rows_Delete.

Lemma queues_Get_typed i : gives (queues_Get i) (fun o => forall q, o = Some q -> go_queue q).
Proof. apply gives_gets. intros s [] q. by apply rows_Get. Qed.
Lemma queues_GetByName_typed a n : gives (queues_GetByName a n) (fun o => forall q, o = Some q -> go_queue q).
Proof.
  eapply gives_bind with (R := fun _ => True); [by apply gives_gets|]. intros [i|] _; [apply queues_Get_typed|].
  by apply gives_ret.
Qed.
Lemma Forall_maybe_reverse {A} (P : A -> Prop) (b : bool) l : Forall P l -> Forall P (if b then reverse l else l).
Proof. destruct b; [by apply Forall_reverse|done]. Qed.
Lemma queues_List_typed a tok l : gives (queues_List a tok l) (go_value ListQueuesResponse_codec).
Proof.
  unfold queues_List. cbn zeta. eapply gives_bind.
  - apply gives_gets with (Q := fun r => Forall go_queue (ListPaginatedResult.Items r)). intros s [].
    by apply rows_ListPaginated.
  - intros r Hr. apply gives_ret. split; [by apply Forall_maybe_reverse|]. split; [apply go_token|]. split; [apply go_token|done].
Qed.
Lemma queues_namesIndex_Set_typed k i : gives (queues_namesIndex_Set k i) (fun _ => True).
Proof. table_op. Qed.
Lemma queues_namesIndex_Delete_typed k : gives (queues_namesIndex_Delete k) (fun _ => True).
Proof. table_op. Qed.
Lemma queues_table_Set_typed q : go_queue q -> gives (queues_table_Set q) (fun _ => True).
Proof. intros. table_op. Qed.
Lemma queues_table_Delete_typed i : gives (queues_table_Delete i) (fun _ => True).
Proof. table_op. Qed.
Lemma schedules_Get_typed i : gives (schedules_Get i) (fun o => forall s, o = Some s -> go_schedule s).
Proof. apply gives_gets. intros s [] x. by apply rows_Get. Qed.
Lemma schedules_GetByName_typed i n : gives (schedules_GetByName i n) (fun o => forall s, o = Some s -> go_schedule s).
Proof.
  eapply gives_bind with (R := fun _ => True); [by apply gives_gets|]. intros [x|] _; [apply schedules_Get_typed|].
  by apply gives_ret.
Qed.
Lemma schedules_List_typed i tok l : gives (schedules_List i tok l) (go_value ListSchedulesResponse_codec).
Proof.
  unfold schedules_List. cbn zeta. eapply gives_bind.
  - apply gives_gets with (Q := fun r => Forall go_schedule (ListPaginatedResult.Items r)). intros s [].
    by apply rows_ListPaginated.
  - intros r Hr. apply gives_ret. split; [by apply Forall_maybe_reverse|]. split; [apply go_token|]. split; [apply go_token|done].
Qed.
Lemma scheduledIndex_Add_typed k : gives (scheduledIndex_Add k) (fun _ => True).
Proof. table_op. Qed.
Lemma scheduledIndex_Delete_typed k : gives (scheduledIndex_Delete k) (fun _ => True).
Proof. table_op. Qed.
Lemma schedules_namesIndex_Set_typed k i : gives (schedules_namesIndex_Set k i) (fun _ => True).
Proof. table_op. Qed.
Lemma schedules_namesIndex_Delete_typed k : gives (schedules_namesIndex_Delete k) (fun _ => True).
Proof. table_op. Qed.
Lemma schedules_table_Set_typed s : go_schedule s -> gives (schedules_table_Set s) (fun _ => True).
Proof. intros. table_op. Qed.
Lemma schedules_table_Delete_typed i : gives (schedules_table_Delete i) (fun _ => True).
Proof. table_op. Qed.
Lemma qcounters_Get_typed a : gives (qcounters_Get a) (fun _ => True).
Proof. by apply gives_gets. Qed.
Lemma qcounters_Set_typed a c : go_value QueuesCounter_codec c -> gives (qcounters_Set a c) (fun _ => True).
Proof. intros. table_op. Qed.
Lemma gcRecords_Create_typed r : go_value QueuesGarbageCollectionRecord_codec r -> gives (gcRecords_Create r) (fun _ => True).
Proof. intros. table_op. Qed.
Lemma gcRecords_Delete_typed r : gives (gcRecords_Delete r) (fun _ => True).
Proof. table_op. Qed.
Lemma gcRecords_List_typed l : gives (gcRecords_List l) (fun _ => True).
Proof. by apply gives_gets. Qed.
#[local] Hint Resolve queues_Get_typed queues_GetByName_typed queues_List_typed queues_namesIndex_Set_typed
  queues_namesIndex_Delete_typed queues_table_Set_typed queues_table_Delete_typed schedules_Get_typed
  schedules_GetByName_typed schedules_List_typed scheduledIndex_Add_typed scheduledIndex_Delete_typed
  schedules_namesIndex_Set_typed schedules_namesIndex_Delete_typed schedules_table_Set_typed
  schedules_table_Delete_typed qcounters_Get_typed qcounters_Set_typed gcRecords_Create_typed gcRecords_Delete_typed
  gcRecords_List_typed : types.

Lemma queues_Create_typed q : go_queue q -> gives (queues_Create q) (fun _ => True).
Proof. intros. unfold queues_Create. ty. Qed.
Lemma queues_Update_typed q : go_queue q -> gives (queues_Update q) (fun _ => True).
Proof. intros. unfold queues_Update. ty. Qed.
Lemma queues_SwapId_typed i q : go_queue q -> gives (queues_SwapId i q) (fun _ => True).
Proof. intros. unfold queues_SwapId. ty. Qed.
Lemma queues_Delete_typed q : gives (queues_Delete q) (fun _ => True).
Proof. intros. unfold queues_Delete. ty. Qed.
Lemma schedules_Create_typed s : go_schedule s -> gives (schedules_Create s) (fun _ => True).
Proof. intros. unfold schedules_Create. ty. Qed.
Lemma schedules_Update_typed s : go_schedule s -> gives (schedules_Update s) (fun _ => True).
Proof. intros. unfold schedules_Update. ty. Qed.
Lemma schedules_Delete_typed s : gives (schedules_Delete s) (fun _ => True).
Proof. intros. unfold schedules_Delete. ty. Qed.
Lemma schedules_ListDue_typed b l : gives (schedules_ListDue b l) (Forall go_schedule).
Proof.
  unfold schedules_ListDue. ty_one. apply gives_for_map. intros x _. ty_one. by apply gives_orNotFound.
Qed.
#[local] Hint Resolve queues_Create_typed queues_Update_typed queues_SwapId_typed queues_Delete_typed
  schedules_Create_typed schedules_Update_typed schedules_Delete_typed schedules_ListDue_typed : types.

(** ** Handlers *)

Definition qanswers {A} (Q : A -> Prop) (r : QResponse A) : Prop :=
  match r with QError _ => True | QPayload a => Q a end.
#[local] Hint Extern 1 (qanswers _ (QError _)) => exact I : types.
#[local] Hint Extern 2 (qanswers _ (QPayload _)) => cbn [qanswers] : types.

Lemma found_typed {A B} (o : option A) e (k : A -> T (QResponse B)) Q :
  (forall a, o = Some a -> gives (k a) (qanswers Q)) -> gives (found o e k) (qanswers Q).
Proof. intros Hk. destruct o; [by apply Hk|by apply gives_ret]. Qed.
Lemma absent_typed {A B} (o : option A) e (k : T (QResponse B)) Q :
  gives k (qanswers Q) -> gives (absent o e k) (qanswers Q).
Proof. intros Hk. destruct o; [by apply gives_ret|done]. Qed.
#[local] Ltac tyq := repeat first [ty_one|apply found_typed; intros ? ?|apply absent_typed]; eauto 20 with types.

Lemma next_tick_typed c z now : gives (next_tick c z now) is_i64.
Proof. unfold next_tick. ty. by apply NextTickAfter_after in Heqo0 as [_ ?]. Qed.
#[local] Hint Resolve next_tick_typed : types.

Lemma CreateQueue_typed req now i :
  go_value CreateQueueRequest_codec i -> CreateQueueRequest_of i = Some req -> is_i64 now ->
  gives (CreateQueue req now) (qanswers go_queue).
Proof.
  intros Hi Er Hn. assert (Hq : go_queue (new_queue req now)).
  { destruct i as [[id|] ? ? ? ? ? ? ? ?]; [|done]. injection Er as <-.
    eapply (go_new_queue _ _) with (i := Some id); [cbn in Hi; cbn; tauto|exact Hi|done]. }
  unfold CreateQueue. tyq.
Qed.
Lemma ListQueues_typed req : gives (ListQueues req) (qanswers (go_value ListQueuesResponse_codec)).
Proof. unfold ListQueues. tyq. Qed.
Lemma GetQueue_typed i : gives (GetQueue i) (qanswers go_queue).
Proof. unfold GetQueue. tyq. Qed.
Lemma GetQueueByName_typed req : gives (GetQueueByName req) (qanswers go_queue).
Proof. unfold GetQueueByName. tyq. Qed.
Lemma UpdateQueue_typed req now :
  go_value UpdateQueueRequest_codec req -> is_i64 now -> gives (UpdateQueue req now) (qanswers go_queue).
Proof. intros. unfold UpdateQueue. tyq. Qed.
Lemma DeleteQueue_typed req : gives (DeleteQueue req) (qanswers go_qid).
Proof. unfold DeleteQueue. tyq. Qed.

Lemma listed_schedules r : go_value ListSchedulesResponse_codec r -> Forall go_schedule (lsr_Schedules r).
Proof. destruct r. cbn. tauto. Qed.
Lemma move_schedule_typed i s : go_qid i -> go_schedule s -> gives (move_schedule i s) (fun _ => True).
Proof. intros. unfold move_schedule. tyq. Qed.
Lemma move_schedules_typed fuel o i tok : go_qid i -> gives (move_schedules fuel o i tok) (fun _ => True).
Proof.
  intros Hi. revert tok. induction fuel as [|fuel IH]; intros tok; cbn [move_schedules]; [apply gives_fail|].
  eapply gives_bind; [apply schedules_List_typed|]. intros r Hr%listed_schedules.
  eapply gives_bind with (R := fun _ => True).
  - apply gives_for_each. intros x Hx. apply move_schedule_typed; [done|]. by eapply Forall_forall in Hx.
  - intros _ _. destruct (lsr_NextPaginationToken r); [apply IH|by apply gives_ret].
Qed.
#[local] Hint Resolve move_schedules_typed : types.
Lemma go_swap_fields req : go_value SwapQueueIdRequest_codec req ->
  go_qid (QueueId.mk (SwapQueueIdRequest.AccountId req) (SwapQueueIdRequest.NewQueueId req)).
Proof. destruct req. cbn. tauto. Qed.
Lemma SwapQueueId_typed req now :
  go_value SwapQueueIdRequest_codec req -> is_i64 now ->
  gives (SwapQueueId req now) (qanswers (fun p => go_queue p.1 /\ go_qid p.2)).
Proof.
  intros Hr%go_swap_fields Hn. unfold SwapQueueId. eapply gives_bind; [apply queues_GetByName_typed|]. intros o Ho.
  apply found_typed. intros q ->. specialize (Ho q eq_refl). tyq.
Qed.

Lemma go_schedule_ids req q :
  go_value CreateScheduleRequest_codec req -> go_queue q ->
  go_value ScheduleId_codec (ScheduleId.mk (CreateScheduleRequest.AccountId req) (QueueId.QueueId (Queue.Id q))
    (CreateScheduleRequest.ScheduleId req)).
Proof. destruct req, q as [[]]. cbn. tauto. Qed.
Lemma CreateSchedule_typed req now :
  go_value CreateScheduleRequest_codec req -> is_i64 now -> gives (CreateSchedule req now) (qanswers go_schedule).
Proof.
  intros Hr Hn. unfold CreateSchedule. eapply gives_bind; [apply queues_GetByName_typed|]. intros o Ho.
  apply found_typed. intros q ->. specialize (Ho q eq_refl). pose proof (go_schedule_ids req q Hr Ho). tyq.
Qed.
Lemma GetSchedule_typed req : gives (GetSchedule req) (qanswers go_schedule).
Proof. unfold GetSchedule. tyq. Qed.
Lemma ListSchedules_typed req : gives (ListSchedules req) (qanswers (go_value ListSchedulesResponse_codec)).
Proof. unfold ListSchedules. tyq. Qed.
Lemma UpdateSchedule_typed req now :
  go_value UpdateScheduleRequest_codec req -> is_i64 now -> gives (UpdateSchedule req now) (qanswers go_schedule).
Proof. intros. unfold UpdateSchedule. tyq. Qed.
Lemma DeleteSchedule_typed req : gives (DeleteSchedule req) (qanswers (fun _ => True)).
Proof. unfold DeleteSchedule. tyq. Qed.
Lemma DequeSchedules_typed b :
  gives (DequeSchedules b) (qanswers (Forall (go_value DequeSchedulesResponseEntry_codec))).
Proof.
  unfold DequeSchedules. eapply gives_bind; [apply schedules_ListDue_typed|]. intros due Hd. eapply gives_bind.
  - apply gives_for_map with (Q := go_value DequeSchedulesResponseEntry_codec). intros s Hs.
    eapply Forall_forall in Hs; [|exact Hd]. tyq. split; [done|]. split; [|done]. change (go_queue a0). eauto.
  - intros l Hl. by apply gives_ret.
Qed.
Lemma ReportSchedulesStatus_typed req now :
  is_i64 (ReportSchedulesStatusRequest.NextScheduledAt req) -> is_i64 (ReportSchedulesStatusRequest.LastEnqueuedFor req) ->
  is_i64 now -> gives (ReportSchedulesStatus req now) (qanswers (fun _ => True)).
Proof. intros. unfold ReportSchedulesStatus. tyq. Qed.

(** ** Garbage collection *)

Lemma gc_schedules_typed m page v : gives (gc_schedules m page v) (fun _ => True).
Proof. revert v. induction page as [|s page IH]; intros v; cbn [gc_schedules]; ty. Qed.
#[local] Hint Resolve gc_schedules_typed : types.
Lemma gc_records_typed ps m rs v : gives (gc_records ps m rs v) (fun _ => True).
Proof. revert v. induction rs as [|r rs IH]; intros v; cbn [gc_records]; ty. Qed.
#[local] Hint Resolve gc_records_typed : types.
Lemma RunQueuesGarbageCollection_typed req : gives (RunQueuesGarbageCollection req) (qanswers (fun _ => True)).
Proof. unfold RunQueuesGarbageCollection. tyq. Qed.
End queues.
