(* ===== verification/ProtowireTypes.v ===== *)
(** * Decoding gives values of the Go type

    Whatever bytes are decoded, every number lands within the width of its field and every
    nested message has the fields of its type. *)

From S2P Require Export Codecs.

Notation all_bytes := (Forall is_byte).

Lemma octets_suffix (a b : bytes) : a `suffix_of` b -> all_bytes b -> all_bytes a.
Proof. intros [pre ->]. rewrite Forall_app. tauto. Qed.

(** ** Numbers *)

Lemma get_varint_loop_image conv {B : Bitwise conv} fuel shift x data z rest :
  get_varint_loop fuel conv shift (conv x) data = inr (z, rest) -> (exists y, z = conv y) /\ rest `suffix_of` data.
Proof.
  revert shift x data. induction fuel as [|fuel IH]; intros shift x data; cbn [get_varint_loop]; [done|].
  destruct (shift >=? 64); [done|]. destruct data as [|b data]; [done|]. cbn zeta. rewrite conv_lor.
  destruct (b <? 128).
  - intros [= <- <-]. split; [by eexists|by apply suffix_cons_r].
  - intros [Hy Hs]%IH. split; [done|by apply suffix_cons_r].
Qed.
Lemma get_varint_image conv {B : Bitwise conv} data z rest :
  get_varint conv data = inr (z, rest) -> (exists y, z = conv y) /\ rest `suffix_of` data.
Proof.
  unfold get_varint. intros E. apply (get_varint_loop_image conv 11 0 0). by rewrite conv_0.
Qed.

Lemma be_value_range l : all_bytes l -> 0 <= be_value l < 256 ^ Z.of_nat (length l).
Proof.
  induction 1 as [|b l Hb _ IH]; [done|]. unfold be_value. cbn [fold_left]. rewrite be_value_acc. cbn [length].
  rewrite Nat2Z.inj_succ, Z.pow_succ_r by lia. unfold is_byte in Hb. nia.
Qed.
Lemma get_fixed64_range data z rest :
  all_bytes data -> get_fixed64 data = inr (z, rest) -> is_u64 z /\ rest `suffix_of` data.
Proof.
  intros Ho. unfold get_fixed64. destruct (Nat.ltb_spec (length data) 8); [done|]. intros [= <- <-].
  split; [|apply suffix_drop]. unfold LittleEndian_Uint64.
  pose proof (be_value_range (reverse (take 8 data))) as Hr. rewrite length_reverse, length_take, Nat.min_l in Hr by lia.
  apply Hr. by apply Forall_reverse, Forall_take.
Qed.
Lemma get_scalar_typed k data z rest :
  all_bytes data -> get_scalar k data = inr (z, rest) -> scalar_ok k z /\ all_bytes rest.
Proof.
  intros Ho. destruct k; cbn [get_scalar scalar_ok].
  - intros [[y ->] Hs]%(get_varint_image i64). split; [apply is_i64_i64|by eapply octets_suffix].
  - intros [[y ->] Hs]%(get_varint_image i32). split; [exact (swrap_range 31 y ltac:(lia))|by eapply octets_suffix].
  - intros ([y r] & [_ Hs]%(get_varint_image i64) & [= <- <-])%bind_inr. cbn.
    split; [destruct (y =? 0); auto|by eapply octets_suffix].
  - intros [Hz Hs]%get_fixed64_range; [|done]. split; [done|by eapply octets_suffix].
  - intros ([y r] & [_ Hs]%get_fixed64_range & [= <- <-])%bind_inr; [|done]. cbn.
    split; [apply is_i64_i64|by eapply octets_suffix].
Qed.
Lemma get_slice_parts l n data body rest :
  all_bytes data -> get_slice l n data = inr (body, rest) -> all_bytes body /\ all_bytes rest.
Proof.
  intros Ho. unfold get_slice. destruct (n <? 0); [done|]. cbn zeta. destruct (_ <? 0); [done|].
  destruct (_ >? _); [done|]. intros [= <- <-]. split; [by apply Forall_take|by apply Forall_drop].
Qed.
Lemma get_bytes_parts l data body rest :
  all_bytes data -> get_bytes l data = inr (body, rest) -> all_bytes body /\ all_bytes rest.
Proof.
  intros Ho ([n r] & [_ Hs]%(get_varint_image i64) & E)%bind_inr. apply get_slice_parts in E; [done|].
  by eapply octets_suffix.
Qed.
Lemma get_packed_typed fuel k stop data acc ns rest :
  all_bytes data -> Forall (scalar_ok k) acc -> get_packed fuel k stop data acc = inr (ns, rest) ->
  Forall (scalar_ok k) ns /\ all_bytes rest.
Proof.
  revert data acc. induction fuel as [|fuel IH]; intros data acc Ho Ha; cbn [get_packed].
  - destruct (_ <=? _)%nat; [|done]. by intros [= <- <-].
  - destruct (_ <=? _)%nat; [by intros [= <- <-]|].
    intros ([z r] & [Hz Hr]%get_scalar_typed & E)%bind_inr; [|done]. apply IH in E; [done|done|].
    apply Forall_app. by rewrite Forall_singleton.
Qed.

(** ** Fields and messages *)

Section decode.
Context {PH : Protohelpers} {PO : ProtohelpersOk PH}.

Definition decodes_typed (t : FieldType) : Prop := forall wire v l data v' rest,
  typed_field t v -> all_bytes data -> decode_field t wire v l data = inr (v', rest) ->
  typed_field t v' /\ all_bytes rest.

Lemma zero_val_typed t : typed_field t (zero_val t).
Proof. destruct t as [[]| | | |]; cbn; auto; try (split; vm_compute; congruence). Qed.
Lemma zero_message_typed d : typed_fields d (zero_message d).
Proof. induction d as [|f d IH]; [done|]. split; [apply zero_val_typed|exact IH]. Qed.

Lemma switch_typed n wire l data fs vs vs' rest :
  Forall (fun f => decodes_typed f.2) fs -> typed_fields fs vs -> all_bytes data ->
  switch_with decode_field n wire l data fs vs = Some (inr (vs', rest)) -> typed_fields fs vs' /\ all_bytes rest.
Proof.
  intros Hd. revert vs vs'. induction Hd as [|f fs Hf Hfs IH]; intros [|v vs] vs' Ht Ho; cbn [switch_with]; try done.
  destruct Ht as [Hv Hvs]. destruct (f.1 =? n).
  - intros [= ([v' r] & E & [= <- <-])%bind_inr]. apply Hf in E as [? ?]; [|done|done]. by split.
  - intros (r & E & Er)%fmap_Some. symmetry in Er. apply bind_inr in Er as ([vs1 r1] & -> & [= <- <-]).
    apply IH in E as [? ?]; [|done|done]. by split.
Qed.

Lemma decode_loop_typed fs l data cur vs :
  Forall (fun f => decodes_typed f.2) fs -> typed_fields fs cur -> all_bytes data ->
  run fs l data cur = inr vs -> typed_fields fs vs.
Proof.
  intros Hd. remember (length data) as n eqn:En. revert data cur En.
  induction n as [n IH] using lt_wf_ind; intros data cur -> Hc Ho. unfold run.
  destruct data as [|b data]; [rewrite decode_loop_nil; by intros [= <-]|]. cbn [length]. rewrite decode_loop_step by done.
  intros ([cur' rest] & E & Er)%bind_inr. cbn [fst snd] in Er.
  assert (Hne : b :: data <> []) by done. pose proof (decode_step_shorter _ _ _ _ _ _ Hne E) as Hlt.
  rewrite decode_loop_fuel in Er by (cbn in Hlt; lia).
  assert (typed_fields fs cur' /\ all_bytes rest) as [Hc' Hr].
  { unfold decode_step in E. apply bind_inr in E as ([w r] & [_ Hs]%(get_varint_image u64) & E). cbn zeta in E.
    destruct (_ =? 4); [done|]. destruct (_ <=? 0); [done|].
    destruct (switch_with _ _ _ _ _ _ _) as [q|] eqn:Eq.
    - subst q. apply switch_typed in Eq; try done. by eapply octets_suffix.
    - apply bind_inr in E as (m & _ & E). destruct (_ || _); [done|]. destruct (_ >? _); [done|].
      injection E as <- <-. split; [done|by apply Forall_drop]. }
  exact (IH _ Hlt rest cur' eq_refl Hc' Hr Er).
Qed.

Lemma decode_field_typed t : decodes_typed t.
Proof.
  induction t as [k| |k|fs IH|fs IH] using FieldType_ind; intros wire v l data v' rest Hv Ho; cbn [decode_field].
  - intros [_ ([z r] & [? ?]%get_scalar_typed & [= <- <-])%bind_inr]%then_inr; [|done]. by split.
  - intros [_ ([b r] & [? ?]%get_bytes_parts & [= <- <-])%bind_inr]%then_inr; [|done]. by split.
  - cbn zeta. assert (Hn : Forall (scalar_ok k) (match v with VNums l => l | _ => [] end)) by (by destruct v).
    destruct (wire =? wire_type k).
    + intros ([z r] & [? ?]%get_scalar_typed & [= <- <-])%bind_inr; [|done]. split; [|done]. cbn.
      apply Forall_app. by rewrite Forall_singleton.
    + intros [_ ([n r] & [_ Hs]%(get_varint_image i64) & (b & _ & ([ns r'] & E & [= <- <-])%bind_inr)%bind_inr)%bind_inr]%then_inr.
      by apply get_packed_typed in E; [|eapply octets_suffix|].
  - intros [_ ([b r] & [Hb ?]%get_bytes_parts & (vs & E & [= <- <-])%bind_inr)%bind_inr]%then_inr; [|done].
    split; [|done]. eapply decode_loop_typed in E; [exact E|done| |done]. destruct v as [| |[vs0|]| |]; try done;
      apply zero_message_typed.
  - intros [_ ([b r] & [Hb ?]%get_bytes_parts & (vs & E & [= <- <-])%bind_inr)%bind_inr]%then_inr; [|done].
    split; [|done]. eapply decode_loop_typed in E; [|done|apply zero_message_typed|done]. cbn.
    apply Forall_app. rewrite Forall_singleton. split; [by destruct v|exact E].
Qed.

(** Decoding bytes gives a typed message. *)
Lemma decode_message_typed d data vs :
  all_bytes data -> decode_message d data = inr vs -> typed_fields d vs.
Proof.
  intros Ho E. eapply decode_loop_typed in E; [exact E| |apply zero_message_typed|done].
  apply Forall_forall. intros f _. apply decode_field_typed.
Qed.
End decode.
