(* ===== verification/TypesProps.v ===== *)
(** * Type safety of the two cores

    From the bytes that reach an adapter to the rows of the store and the answers.  Go's type
    checker gives this for any code; here it shows that the model's [Z]s stay at their widths,
    so that the stores of the cluster hold Go values. *)

From S2P Require Export TasksTypes QueuesTypes ProtowireTypes.

Section decoded.
Context {PH : Protohelpers} {PO : ProtohelpersOk PH}.

(** What [UnmarshalBinary] returns is a value of the Go type. *)
Lemma Unmarshal_typed {A} (m : Message A) b a :
  all_bytes b -> Unmarshal m b = Some a -> go_value (codec m) a.
Proof.
  intros Hb. destruct (codec_laws m) as (E & Ho & _). unfold Unmarshal. rewrite E. cbn. unfold UnmarshalVT.
  destruct (decode_message _ b) as [|vs] eqn:Ed; [done|]. apply codec_sound. by eapply decode_message_typed.
Qed.
End decoded.

(** The fields of a decoded envelope are a [[]byte] and an [int64]. *)
Class MrpcTyped (R : Mrpc) : Prop :=
  Request_typed b r : all_bytes b -> Request_Unmarshal b = Some r -> all_bytes (Data r) /\ is_i64 (Now r).

Section methods.
Context {U : Utils} {K : Keyspace} {PH : Protohelpers} {R : Mrpc} {PO : ProtohelpersOk PH} {RT : MrpcTyped R}.
Context {S : Type} (I : S -> Prop).

(** A typed request at a typed time keeps the store typed and has a typed answer. *)
Definition typed_method {A B X} (reqMsg : Message A) (respMsg : Message B) (resp : X -> B)
    (call : A -> Z -> M S (Outcome X)) : Prop := forall req now,
  go_value (codec reqMsg) req -> is_i64 now ->
  gives I (call req now) (fun o => match o with inl _ => True | inr x => go_value (codec respMsg) (resp x) end).

Lemma serve_typed {A B X} (reqMsg : Message A) check (call : A -> Z -> M S (Outcome X)) (respMsg : Message B) resp ad r :
  typed_method reqMsg respMsg resp call -> all_bytes (Data r) -> is_i64 (Now r) -> I (core ad) ->
  I (serve reqMsg check call respMsg resp ad r).2.
Proof.
  intros Hm Hd Hn Hs. unfold serve. destruct (Unmarshal reqMsg (Data r)) as [req|] eqn:E; [|done].
  apply Unmarshal_typed in E; [|done]. destruct (check _ _ _); [|done].
  pose proof (gives_rpc I _ _ _ (Hm req (Now r) E Hn) Hs) as Hr.
  by destruct (rpc _ _) as [[[e|p]|e] s].
Qed.

Lemma with_envelope_typed switch ad b :
  all_bytes b -> I (core ad) ->
  (forall r, all_bytes (Data r) -> is_i64 (Now r) -> I (switch r).2) -> I (with_envelope switch ad b).2.
Proof.
  intros Hb Hs Hw. unfold with_envelope. destruct (Request_Unmarshal b) as [r|] eqn:E; [|done].
  apply Request_typed in E as [Hd Hn]; [|done]. specialize (Hw r Hd Hn).
  destruct (switch r) as [[x|e] s]; [|done]. by destruct (Response_Marshal x).
Qed.
End methods.

Section apis.
Context {U : Utils} {H : Honey} {C : CronLib} {K : Keyspace} {G : Gronx} {Sn : Snapshots} {HO : HoneyOk H} {CO : CronOk C}.

Record tasks_api_typed (api : MoabTasksCoreApi Txn) : Prop := {
  api_GetTask : typed_method tasks_typed GetTaskRequest GetTaskResponse Some (core_GetTask api);
  api_GetStatistics : typed_method tasks_typed GetStatisticsRequest GetStatisticsResponse id (core_GetStatistics api);
  api_ListTasks : typed_method tasks_typed ListTasksRequest ListTasksResponse id (core_ListTasks api);
  api_Enqueue : typed_method tasks_typed EnqueueRequest EnqueueResponse id (core_Enqueue api);
  api_Dequeue : typed_method tasks_typed DequeueRequest DequeueResponse id (core_Dequeue api);
  api_ReportStatus : typed_method tasks_typed ReportStatusRequest ReportStatusResponse id (core_ReportStatus api);
  api_DeleteTasks : typed_method tasks_typed DeleteTasksRequest DeleteTasksResponse id (core_DeleteTasks api);
  api_RestartTasks : typed_method tasks_typed RestartTasksRequest RestartTasksResponse id (core_RestartTasks api);
  api_PurgeQueue : typed_method tasks_typed PurgeQueueRequest PurgeQueueResponse id (core_PurgeQueue api);
  api_RunTasksGarbageCollection : typed_method tasks_typed RunTasksGarbageCollectionRequest
    RunTasksGarbageCollectionResponse id (core_RunTasksGarbageCollection api);
  api_RunPurgeQueueGarbageCollection : typed_method tasks_typed RunPurgeQueueGarbageCollectionRequest
    RunPurgeQueueGarbageCollectionResponse id (core_RunPurgeQueueGarbageCollection api);
}.

Record queues_api_typed (api : MoabQueuesCoreApi QTxn) : Prop := {
  api_GetQueue : typed_method queues_typed GetQueueRequest GetQueueResponse Some (core_GetQueue api);
  api_GetQueueByName : typed_method queues_typed GetQueueByNameRequest GetQueueByNameResponse Some (core_GetQueueByName api);
  api_ListQueues : typed_method queues_typed ListQueuesRequest ListQueuesResponse id (core_ListQueues api);
  api_GetSchedule : typed_method queues_typed GetScheduleRequest GetScheduleResponse Some (core_GetSchedule api);
  api_DequeSchedules : typed_method queues_typed DequeSchedulesRequest DequeSchedulesResponse id (core_DequeSchedules api);
  api_ListSchedules : typed_method queues_typed ListSchedulesRequest ListSchedulesResponse id (core_ListSchedules api);
  api_CreateQueue : typed_method queues_typed CreateQueueRequest CreateQueueResponse Some (core_CreateQueue api);
  api_UpdateQueue : typed_method queues_typed UpdateQueueRequest UpdateQueueResponse Some (core_UpdateQueue api);
  api_DeleteQueue : typed_method queues_typed DeleteQueueRequest DeleteQueueResponse Some (core_DeleteQueue api);
  api_CreateSchedule : typed_method queues_typed CreateScheduleRequest CreateScheduleResponse Some (core_CreateSchedule api);
  api_UpdateSchedule : typed_method queues_typed UpdateScheduleRequest UpdateScheduleResponse Some (core_UpdateSchedule api);
  api_DeleteSchedule : typed_method queues_typed DeleteScheduleRequest DeleteScheduleResponse id (core_DeleteSchedule api);
  api_ReportSchedulesStatus : typed_method queues_typed ReportSchedulesStatusRequest ReportSchedulesStatusResponse id
    (core_ReportSchedulesStatus api);
  api_RunQueuesGarbageCollection : typed_method queues_typed RunQueuesGarbageCollectionRequest
    RunQueuesGarbageCollectionResponse id (core_RunQueuesGarbageCollection api);
  api_SwapQueueId : typed_method queues_typed SwapQueueIdRequest SwapQueueIdResponse swap_response (core_SwapQueueId api);
}.

(** ** The cores *)

Lemma tasks_outcome_typed {A} (m : M Txn (Response A)) Q (P : A -> Prop) :
  gives tasks_typed m (answers Q) -> (forall a, Q a -> P a) ->
  gives tasks_typed (tasks_outcome m) (fun o => match o with inl _ => True | inr x => P x end).
Proof.
  intros Hm HP. eapply gives_bind; [exact Hm|]. intros [e|a] Ha; apply gives_ret; [done|by apply HP].
Qed.
Lemma queues_outcome_typed {A} (m : M QTxn (QResponse A)) Q (P : A -> Prop) :
  gives queues_typed m (qanswers Q) -> (forall a, Q a -> P a) ->
  gives queues_typed (queues_outcome m) (fun o => match o with inl _ => True | inr x => P x end).
Proof.
  intros Hm HP. eapply gives_bind; [exact Hm|]. intros [e|a] Ha; apply gives_ret; [done|by apply HP].
Qed.
Lemma deref_then_typed {S A B} (I : S -> Prop) (o : option A) (k : A -> M S B) Q :
  (forall a, o = Some a -> gives I (k a) Q) -> gives I (a ← deref o; k a) Q.
Proof. intros Hk. eapply gives_bind; [apply gives_deref; intros a Ha; exact Ha|done]. Qed.

Lemma report_entries_typed r req :
  go_value ReportStatusRequest_codec r -> ReportStatusRequest_of r = Some req ->
  Forall (fun e => go_value TaskId_codec (ReportStatusRequestEntry.TaskId e)) (ReportStatusRequest.Entries req).
Proof.
  destruct r as [i es d]. cbn. intros (_ & He & _) E. destruct (mapM _ es) as [es'|] eqn:Em; [|done].
  injection E as <-. cbn. revert He Em. apply mapM_sound. intros [[t|] st n k] e' Hx E; [|done].
  injection E as <-. cbn in Hx. cbn. tauto.
Qed.

Lemma MoabTasksCore_typed lo hi : tasks_api_typed (MoabTasksCore lo hi).
Proof.
  split; intros req now Hr Hn; cbn [MoabTasksCore core_GetTask core_GetStatistics core_ListTasks core_Enqueue core_Dequeue
    core_ReportStatus core_DeleteTasks core_RestartTasks core_PurgeQueue core_RunTasksGarbageCollection
    core_RunPurgeQueueGarbageCollection].
  - eapply tasks_outcome_typed; [apply deref_then_typed; intros i _; apply GetTask_typed|]. intros a Ha. by split.
  - eapply tasks_outcome_typed; [apply deref_then_typed; intros i _; apply GetStatistics_typed|]. done.
  - eapply tasks_outcome_typed; [apply deref_then_typed; intros i _; apply ListTasks_typed|]. done.
  - eapply tasks_outcome_typed; [apply deref_then_typed; intros i E|]; [|intros a Ha; by split].
    destruct req as [[q|] es]; [|done]. injection E as <-. destruct Hr as (Hq & He & _). by apply Enqueue_typed.
  - eapply tasks_outcome_typed; [apply deref_then_typed; intros i E|]; [|intros a Ha; by split].
    destruct req as [[q|] ds l d k]; [|done]. injection E as <-. destruct Hr as (_ & Hds & _). by apply Dequeue_typed.
  - eapply tasks_outcome_typed; [apply deref_then_typed; intros i E|]; [|intros a Ha; by split].
    apply ReportStatus_typed; [done|]. by eapply report_entries_typed.
  - eapply tasks_outcome_typed; [apply deref_then_typed; intros i _; apply DeleteTasks_typed|]. done.
  - eapply tasks_outcome_typed; [apply deref_then_typed; intros i E|]; [|intros a Ha; by split].
    destruct req as [[q|] es]; [|done]. injection E as <-. destruct Hr as (_ & He & _). by apply RestartTasks_typed.
  - eapply tasks_outcome_typed; [apply deref_then_typed; intros i E|done].
    destruct req as [[q|]]; [|done]. injection E as <-. destruct Hr as (Hq & _). by apply PurgeQueue_typed.
  - eapply tasks_outcome_typed; [apply RunTasksGarbageCollection_typed|done].
  - eapply tasks_outcome_typed; [apply RunPurgeQueueGarbageCollection_typed|done].
Qed.

Lemma MoabQueuesCore_typed lo hi : queues_api_typed (MoabQueuesCore lo hi).
Proof.
  split; intros req now Hr Hn; cbn [MoabQueuesCore core_GetQueue core_GetQueueByName core_ListQueues core_GetSchedule
    core_DequeSchedules core_ListSchedules core_CreateQueue core_UpdateQueue core_DeleteQueue core_CreateSchedule
    core_UpdateSchedule core_DeleteSchedule core_ReportSchedulesStatus core_RunQueuesGarbageCollection core_SwapQueueId].
  - eapply queues_outcome_typed; [apply deref_then_typed; intros i _; apply GetQueue_typed|]. intros a Ha. by split.
  - eapply queues_outcome_typed; [apply GetQueueByName_typed|]. intros a Ha. by split.
  - eapply queues_outcome_typed; [apply ListQueues_typed|done].
  - eapply queues_outcome_typed; [apply GetSchedule_typed|]. intros a Ha. by split.
  - eapply queues_outcome_typed; [apply DequeSchedules_typed|]. intros a Ha. by split.
  - eapply queues_outcome_typed; [apply deref_then_typed; intros i _; apply ListSchedules_typed|done].
  - eapply queues_outcome_typed; [apply deref_then_typed; intros i E; by eapply CreateQueue_typed|]. intros a Ha. by split.
  - eapply queues_outcome_typed; [by apply UpdateQueue_typed|]. intros a Ha. by split.
  - eapply queues_outcome_typed; [apply DeleteQueue_typed|]. intros a Ha. by split.
  - eapply queues_outcome_typed; [by apply CreateSchedule_typed|]. intros a Ha. by split.
  - eapply queues_outcome_typed; [by apply UpdateSchedule_typed|]. intros a Ha. by split.
  - eapply queues_outcome_typed; [apply DeleteSchedule_typed|done].
  - eapply queues_outcome_typed; [apply deref_then_typed; intros i E|done].
    destruct req as [[s|] n l]; [|done]. injection E as <-. destruct Hr as (_ & Hn1 & Hl & _).
    by apply ReportSchedulesStatus_typed.
  - eapply queues_outcome_typed; [apply RunQueuesGarbageCollection_typed|done].
  - eapply queues_outcome_typed; [by apply SwapQueueId_typed|]. intros [q i] [Hq Hi]. by split.
Qed.

(** A validating core answers an invalid request without touching the store. *)
Lemma validating_typed {S A B X} (I : S -> Prop) (reqMsg : Message A) (respMsg : Message B) (resp : X -> B)
    (err : A -> error) (call : A -> Z -> M S (Outcome X)) :
  typed_method I reqMsg respMsg resp call ->
  typed_method I reqMsg respMsg resp (fun req now => validating (err req) (call req now)).
Proof. intros Hc req now Hr Hn. unfold validating. destruct (err req); [by apply gives_ret|by apply Hc]. Qed.
Lemma MoabTasksValidatingCore_typed api : tasks_api_typed api -> tasks_api_typed (MoabTasksValidatingCore api).
Proof. intros []. split; by apply validating_typed. Qed.
Lemma MoabQueuesValidatingCore_typed api : queues_api_typed api -> queues_api_typed (MoabQueuesValidatingCore api).
Proof. intros []. split; by apply validating_typed. Qed.

(** ** Through the adapters *)

Context {PH : Protohelpers} {R : Mrpc} {PO : ProtohelpersOk PH} {RT : MrpcTyped R}.

(** The stores of a core after any calls with any bytes. *)
Inductive tasks_served (api : MoabTasksCoreApi Txn) : Txn -> Prop :=
  | tasks_served_new : tasks_served api NewCore
  | tasks_served_update ad b :
      tasks_served api (core ad) -> all_bytes b -> tasks_served api (tasksAdapter_Update api ad b).2
  | tasks_served_read ad b :
      tasks_served api (core ad) -> all_bytes b -> tasks_served api (tasksAdapter_Read api ad b).2.
Inductive queues_served (api : MoabQueuesCoreApi QTxn) : QTxn -> Prop :=
  | queues_served_new : queues_served api QNewCore
  | queues_served_update ad b :
      queues_served api (core ad) -> all_bytes b -> queues_served api (queuesAdapter_Update api ad b).2
  | queues_served_read ad b :
      queues_served api (core ad) -> all_bytes b -> queues_served api (queuesAdapter_Read api ad b).2.

#[local] Ltac each_method I := apply (with_envelope_typed I); [done|done|]; intros r Hd Hn;
  repeat case_match; first [done|by apply (serve_typed I)].

Lemma tasks_served_typed api s : tasks_api_typed api -> tasks_served api s -> tasks_typed s.
Proof.
  intros []. induction 1 as [|ad b _ IH Hb|ad b _ IH Hb]; [apply NewCore_typed|each_method tasks_typed..].
Qed.
Lemma queues_served_typed api s : queues_api_typed api -> queues_served api s -> queues_typed s.
Proof.
  intros []. induction 1 as [|ad b _ IH Hb|ad b _ IH Hb]; [apply QNewCore_typed|each_method queues_typed..].
Qed.

(** Adequacy of the model, which in Go the type checker gives: the two cores are type safe,
    validating or not.  Whatever bytes their adapters are
    given, in any number of calls from the empty store, every row of every table (tasks,
    threads, counters, queue states, rate limiters and purge records; queues, schedules,
    counters and collection records) is a value of its Go type: no number leaves its width
    and no enum its numbers.  And every method answers a Go-typed request at an [int64] time
    with a Go-typed answer, from any Go-typed store. *)
Theorem cores_are_type_safe (validate : bool) lo hi :
  let tapi := if validate then MoabTasksValidatingCore (MoabTasksCore lo hi) else MoabTasksCore lo hi in
  let qapi := if validate then MoabQueuesValidatingCore (MoabQueuesCore lo hi) else MoabQueuesCore lo hi in
  (forall s, tasks_served tapi s -> tasks_typed s) /\ tasks_api_typed tapi /\
  (forall s, queues_served qapi s -> queues_typed s) /\ queues_api_typed qapi.
Proof.
  cbn zeta. assert (Ht : tasks_api_typed (MoabTasksCore lo hi)) by apply MoabTasksCore_typed.
  assert (Hq : queues_api_typed (MoabQueuesCore lo hi)) by apply MoabQueuesCore_typed.
  destruct validate; split_and!; intros; eauto using tasks_served_typed, queues_served_typed,
    MoabTasksValidatingCore_typed, MoabQueuesValidatingCore_typed.
Qed.
End apis.
