(* ===== verification/Cluster.v ===== *)
(** * The cluster client ([MoabMonsteraStub], [pkg/coreapis/stubs.go])

    In a cluster a call is validated, encoded and sent by the Monstera client to the shard
    that owns its key, and the answer is decoded.  [MonsteraClient] names the client's
    methods; [MonsteraClientOk] says that a call reaches the adapter of the owning shard,
    or fails with a client error after being executed at most once. *)

From S2P Require Export Adapters.

(** The methods of [*monstera.Client]; [RaftLogIndex] of an update is dropped. *)
Class MonsteraClient (W : Type) : Type := {
  client_Read : bytes -> Z -> bool -> bytes -> M W (CallResult bytes);
  client_ReadShard : bytes -> bytes -> bool -> bytes -> M W (CallResult bytes);
  client_Update : bytes -> Z -> bytes -> M W (CallResult bytes);
  client_UpdateShard : bytes -> bytes -> bytes -> M W (CallResult bytes);
  client_ListShards : bytes -> M W (CallResult (list bytes));
}.

(** [nilifyIfEmpty] *)
Definition nilifyIfEmpty (err : option mrpcError) : option mrpcError :=
  match err with
  | None => None
  | Some e => match Code e with INVALID | OK => None | _ => Some e end
  end.

Section cluster.
Context {U : Utils} {H : Honey} {C : CronLib} {K : Keyspace} {G : Gronx} {PH : Protohelpers} {R : Mrpc}.
Context {L : Type} {Mc : MonsteraClient (World (L := L))}.
#[local] Notation T := (M (World (L := L))).

(** The transport of a sharded and of an unsharded call. *)
Definition read_at (app : bytes) (key : option Z) (rpcReqBytes : bytes) : T (CallResult bytes) :=
  shardKey ← deref key; client_Read app shardKey false rpcReqBytes.
Definition update_at (app : bytes) (key : option Z) (rpcReqBytes : bytes) : T (CallResult bytes) :=
  shardKey ← deref key; client_Update app shardKey rpcReqBytes.
Definition read_shard (app shardId : bytes) (rpcReqBytes : bytes) : T (CallResult bytes) :=
  client_ReadShard app shardId false rpcReqBytes.
Definition update_shard (app shardId : bytes) (rpcReqBytes : bytes) : T (CallResult bytes) :=
  client_UpdateShard app shardId rpcReqBytes.

(** The body of every method, with [meta.Now].  The payload's pointers are read by the caller. *)
Definition send {A B X} (methodReq : A) (valid : error) (reqMsg : Message A) (methodNumber : Z)
    (transport : bytes -> T (CallResult bytes)) (respMsg : Message B) (payload : B -> option X)
    : T (CallResult (X * Z)) :=
  now ← time_Now;
  match valid with
  | Some msg => mret (inl (AppErr (ValidationError msg)))
  | None =>
      match Marshal reqMsg methodReq with
      | None => mret (inl MarshalErr)
      | Some methodReqBytes =>
          match Request_Marshal (mkRequest methodReqBytes [] methodNumber now) with
          | None => mret (inl MarshalErr)
          | Some rpcReqBytes =>
              clientResp ← transport rpcReqBytes;
              match clientResp with
              | inl e => mret (inl e)
              | inr data =>
                  match Response_Unmarshal data with
                  | None => mret (inl UnmarshalErr)
                  | Some rpcResp =>
                      match Unmarshal respMsg (resp_Data rpcResp) with
                      | None => mret (inl UnmarshalErr)
                      | Some methodResp =>
                          match nilifyIfEmpty (resp_Error rpcResp) with
                          | Some e => mret (inl (AppErr e))
                          | None => p ← deref (payload methodResp); mret (inr (p, now))
                          end
                      end
                  end
              end
          end
      end
  end.

(** Without [settings.ResponseMeta] *)
Definition no_meta {X} (m : T (CallResult (X * Z))) : T (CallResult X) :=
  r ← m; mret (match r with inl e => inl e | inr (p, _) => inr p end).

Definition Monstera_GetQueue (methodReq : Wire.QueueIdRequest.t) : T (CallResult Queue.t) :=
  no_meta (send methodReq (GetQueueRequest_Validate methodReq) GetQueueRequest 1
    (read_at MoabQueues (GetQueueRequest_ShardKey methodReq)) GetQueueResponse id).
Definition Monstera_GetQueueByName (methodReq : QueueNameRequest.t) : T (CallResult Queue.t) :=
  no_meta (send methodReq (GetQueueByNameRequest_Validate methodReq) GetQueueByNameRequest 2
    (read_at MoabQueues (GetQueueByNameRequest_ShardKey methodReq)) GetQueueByNameResponse id).
Definition Monstera_ListQueues (methodReq : ListQueuesRequest.t) : T (CallResult listQueuesResult) :=
  no_meta (send methodReq (ListQueuesRequest_Validate methodReq) ListQueuesRequest 3
    (read_at MoabQueues (ListQueuesRequest_ShardKey methodReq)) ListQueuesResponse Some).
Definition Monstera_GetSchedule (methodReq : ScheduleNameRequest.t) : T (CallResult Schedule.t) :=
  no_meta (send methodReq (GetScheduleRequest_Validate methodReq) GetScheduleRequest 4
    (read_at MoabQueues (GetScheduleRequest_ShardKey methodReq)) GetScheduleResponse id).
Definition Monstera_DequeSchedules (methodReq : Z) (shardId : bytes) : T (CallResult (list (Schedule.t * Queue.t))) :=
  no_meta (send methodReq (DequeSchedulesRequest_Validate methodReq) DequeSchedulesRequest 5
    (read_shard MoabQueues shardId) DequeSchedulesResponse Some).
Definition Monstera_ListSchedules (methodReq : Wire.ListSchedulesRequest.t) : T (CallResult listSchedulesResult) :=
  no_meta (send methodReq (ListSchedulesRequest_Validate methodReq) ListSchedulesRequest 6
    (read_at MoabQueues (ListSchedulesRequest_ShardKey methodReq)) ListSchedulesResponse Some).
Definition Monstera_CreateQueue (methodReq : Wire.CreateQueueRequest.t) : T (CallResult Queue.t) :=
  no_meta (send methodReq (CreateQueueRequest_Validate methodReq) CreateQueueRequest 1
    (update_at MoabQueues (CreateQueueRequest_ShardKey methodReq)) CreateQueueResponse id).
Definition Monstera_UpdateQueue (methodReq : UpdateQueueRequest.t) : T (CallResult Queue.t) :=
  no_meta (send methodReq (UpdateQueueRequest_Validate methodReq) UpdateQueueRequest 2
    (update_at MoabQueues (UpdateQueueRequest_ShardKey methodReq)) UpdateQueueResponse id).
Definition Monstera_DeleteQueue (methodReq : QueueNameRequest.t) : T (CallResult QueueId.t) :=
  no_meta (send methodReq (DeleteQueueRequest_Validate methodReq) DeleteQueueRequest 3
    (update_at MoabQueues (DeleteQueueRequest_ShardKey methodReq)) DeleteQueueResponse id).
Definition Monstera_CreateSchedule (methodReq : CreateScheduleRequest.t) : T (CallResult Schedule.t) :=
  no_meta (send methodReq (CreateScheduleRequest_Validate methodReq) CreateScheduleRequest 4
    (update_at MoabQueues (CreateScheduleRequest_ShardKey methodReq)) CreateScheduleResponse id).
Definition Monstera_UpdateSchedule (methodReq : UpdateScheduleRequest.t) : T (CallResult Schedule.t) :=
  no_meta (send methodReq (UpdateScheduleRequest_Validate methodReq) UpdateScheduleRequest 5
    (update_at MoabQueues (UpdateScheduleRequest_ShardKey methodReq)) UpdateScheduleResponse id).
Definition Monstera_DeleteSchedule (methodReq : ScheduleNameRequest.t) : T (CallResult unit) :=
  no_meta (send methodReq (DeleteScheduleRequest_Validate methodReq) DeleteScheduleRequest 6
    (update_at MoabQueues (DeleteScheduleRequest_ShardKey methodReq)) DeleteScheduleResponse Some).
Definition Monstera_ReportSchedulesStatus (methodReq : Wire.ReportSchedulesStatusRequest.t) (shardId : bytes) : T (CallResult unit) :=
  no_meta (send methodReq (ReportSchedulesStatusRequest_Validate methodReq) ReportSchedulesStatusRequest 7
    (update_shard MoabQueues shardId) ReportSchedulesStatusResponse Some).
Definition Monstera_RunQueuesGarbageCollection (methodReq : RunQueuesGarbageCollectionRequest.t) (shardId : bytes) : T (CallResult unit) :=
  no_meta (send methodReq (RunQueuesGarbageCollectionRequest_Validate methodReq) RunQueuesGarbageCollectionRequest 8
    (update_shard MoabQueues shardId) RunQueuesGarbageCollectionResponse Some).
Definition Monstera_SwapQueueId (methodReq : SwapQueueIdRequest.t) : T (CallResult (Queue.t * QueueId.t)) :=
  no_meta (send methodReq (SwapQueueIdRequest_Validate methodReq) SwapQueueIdRequest 9
    (update_at MoabQueues (SwapQueueIdRequest_ShardKey methodReq)) SwapQueueIdResponse swap_payload).
Definition Monstera_GetTask (methodReq : Wire.GetTaskRequest.t) : T (CallResult (Task.t * Z)) :=
  send methodReq (GetTaskRequest_Validate methodReq) GetTaskRequest 1
    (read_at MoabTasks (GetTaskRequest_ShardKey methodReq)) GetTaskResponse id.
Definition Monstera_GetStatistics (methodReq : Wire.QueueIdRequest.t) : T (CallResult (GetStatisticsResponse.t * Z)) :=
  send methodReq (GetStatisticsRequest_Validate methodReq) GetStatisticsRequest 2
    (read_at MoabTasks (GetStatisticsRequest_ShardKey methodReq)) GetStatisticsResponse Some.
Definition Monstera_ListTasks (methodReq : Wire.ListTasksRequest.t) : T (CallResult (listTasksResult * Z)) :=
  send methodReq (ListTasksRequest_Validate methodReq) ListTasksRequest 3
    (read_at MoabTasks (ListTasksRequest_ShardKey methodReq)) ListTasksResponse Some.
Definition Monstera_Enqueue (methodReq : Wire.EnqueueRequest.t) : T (CallResult ((list Task.t) * Z)) :=
  send methodReq (EnqueueRequest_Validate methodReq) EnqueueRequest 1
    (update_at MoabTasks (EnqueueRequest_ShardKey methodReq)) EnqueueResponse Some.
Definition Monstera_Dequeue (methodReq : Wire.DequeueRequest.t) : T (CallResult ((list Task.t) * Z)) :=
  send methodReq (DequeueRequest_Validate methodReq) DequeueRequest 2
    (update_at MoabTasks (DequeueRequest_ShardKey methodReq)) DequeueResponse Some.
Definition Monstera_ReportStatus (methodReq : Wire.ReportStatusRequest.t) : T (CallResult (list ReportStatusResponseEntry.t)) :=
  no_meta (send methodReq (ReportStatusRequest_Validate methodReq) ReportStatusRequest 3
    (update_at MoabTasks (ReportStatusRequest_ShardKey methodReq)) ReportStatusResponse Some).
Definition Monstera_DeleteTasks (methodReq : Wire.DeleteTasksRequest.t) : T (CallResult unit) :=
  no_meta (send methodReq (DeleteTasksRequest_Validate methodReq) DeleteTasksRequest 4
    (update_at MoabTasks (DeleteTasksRequest_ShardKey methodReq)) DeleteTasksResponse Some).
Definition Monstera_RestartTasks (methodReq : Wire.RestartTasksRequest.t) : T (CallResult ((list RestartTasksResponseEntry.t) * Z)) :=
  send methodReq (RestartTasksRequest_Validate methodReq) RestartTasksRequest 5
    (update_at MoabTasks (RestartTasksRequest_ShardKey methodReq)) RestartTasksResponse Some.
Definition Monstera_PurgeQueue (methodReq : Wire.QueueIdRequest.t) : T (CallResult unit) :=
  no_meta (send methodReq (PurgeQueueRequest_Validate methodReq) PurgeQueueRequest 6
    (update_at MoabTasks (PurgeQueueRequest_ShardKey methodReq)) PurgeQueueResponse Some).
Definition Monstera_RunTasksGarbageCollection (methodReq : RunTasksGarbageCollectionRequest.t) (shardId : bytes) : T (CallResult unit) :=
  no_meta (send methodReq (RunTasksGarbageCollectionRequest_Validate methodReq) RunTasksGarbageCollectionRequest 7
    (update_shard MoabTasks shardId) RunTasksGarbageCollectionResponse Some).
Definition Monstera_RunPurgeQueueGarbageCollection (methodReq : RunPurgeQueueGarbageCollectionRequest.t) (shardId : bytes) : T (CallResult unit) :=
  no_meta (send methodReq (RunPurgeQueueGarbageCollectionRequest_Validate methodReq) RunPurgeQueueGarbageCollectionRequest 8
    (update_shard MoabTasks shardId) RunPurgeQueueGarbageCollectionResponse Some).
Definition Monstera_ListShards (applicationName : bytes) : T (CallResult (list bytes)) :=
  client_ListShards applicationName.

Definition MoabMonsteraStub : MoabClientApi (World (L := L)) := {|
  api_GetQueue := Monstera_GetQueue;
  api_GetQueueByName := Monstera_GetQueueByName;
  api_ListQueues := Monstera_ListQueues;
  api_GetSchedule := Monstera_GetSchedule;
  api_DequeSchedules := Monstera_DequeSchedules;
  api_ListSchedules := Monstera_ListSchedules;
  api_CreateQueue := Monstera_CreateQueue;
  api_UpdateQueue := Monstera_UpdateQueue;
  api_DeleteQueue := Monstera_DeleteQueue;
  api_CreateSchedule := Monstera_CreateSchedule;
  api_UpdateSchedule := Monstera_UpdateSchedule;
  api_DeleteSchedule := Monstera_DeleteSchedule;
  api_ReportSchedulesStatus := Monstera_ReportSchedulesStatus;
  api_RunQueuesGarbageCollection := Monstera_RunQueuesGarbageCollection;
  api_SwapQueueId := Monstera_SwapQueueId;
  api_GetTask := Monstera_GetTask;
  api_GetStatistics := Monstera_GetStatistics;
  api_ListTasks := Monstera_ListTasks;
  api_Enqueue := Monstera_Enqueue;
  api_Dequeue := Monstera_Dequeue;
  api_ReportStatus := Monstera_ReportStatus;
  api_DeleteTasks := Monstera_DeleteTasks;
  api_RestartTasks := Monstera_RestartTasks;
  api_PurgeQueue := Monstera_PurgeQueue;
  api_RunTasksGarbageCollection := Monstera_RunTasksGarbageCollection;
  api_RunPurgeQueueGarbageCollection := Monstera_RunPurgeQueueGarbageCollection;
  api_ListShards := Monstera_ListShards;
|}.
End cluster.
