(* ===== verification/ClusterProofs.v ===== *)
(** * A call through the cluster

    What the Monstera client promises, and the run of one call: encoding, routing, the
    adapter and decoding together do what the single-node stub does with the core. *)

From S2P Require Export Cluster StubLemmas.

(** ** What the client does *)

Section delivery.
Context {S : Type}.

(** The shard whose bounds hold the key. *)
Definition owning_shard (adapters : list (Adapter S)) (key : Z) : option nat :=
  fst <$> list_find (fun ad => lowerBound ad <= key <= upperBound ad) adapters.

(** A shard's adapter runs on the bytes of the call. *)
Definition deliver (adapters : list (Adapter S)) (i : option nat) (run : Adapter S -> Res bytes * S)
    : Res (CallResult bytes * list (Adapter S)) :=
  match i with
  | None => Ok (inl NoShardFound, adapters)
  | Some i =>
      match adapters !! i with
      | None => Ok (inl NoShardFound, adapters)
      | Some ad =>
          match run ad with
          | (Ok data, s) => Ok (inr data, <[i := set_core s ad]> adapters)
          | (Fail (ErrPanic p), _) => Fail (ErrPanic p)
          | (Fail e, s) => Ok (inl (CoreErr e), <[i := set_core s ad]> adapters)
          end
      end
  end.

Lemma owning_shard_partition size adapters key :
  partitioned size adapters -> 0 <= key < 2 ^ 32 -> owning_shard adapters key = findAdapter adapters key.
Proof.
  intros Hp Hk. rewrite (findAdapter_partition size) by done. unfold owning_shard.
  destruct (list_find _ adapters) as [[i ad]|] eqn:E; cbn.
  - apply list_find_Some in E as (Had & Hb & _). by rewrite (partition_owner _ _ _ _ _ Hp Had Hb).
  - destruct (partition_lookup _ _ _ Hp Hk) as [ad Had]. exfalso.
    apply list_find_None in E. apply (Forall_lookup_1 _ _ _ _ E Had).
    destruct Hp as (Hs & _ & Hb). destruct (Hb _ _ Had) as [-> ->].
    assert (0 <= key / size) by (apply Z.div_pos; lia).
    pose proof (Z.div_mod key size ltac:(lia)). pose proof (Z.mod_pos_bound key size Hs).
    rewrite Z2Nat.id by done. nia.
Qed.

Lemma owning_shard_bounds adapters key i :
  owning_shard adapters key = Some i ->
  exists ad, adapters !! i = Some ad /\ lowerBound ad <= key <= upperBound ad.
Proof.
  unfold owning_shard. intros ([j ad] & E & ->)%fmap_Some. apply list_find_Some in E as (Had & Hb & _).
  by exists ad.
Qed.

(** An adapter that runs [m] and encodes its result delivers what [m] answers. *)
Lemma deliver_run_core {A} adapters i (run : Adapter S -> Res bytes * S) (m : M S A) (enc : A -> bytes) :
  (forall j ad, i = Some j -> adapters !! j = Some ad ->
     run ad = match rpc m (core ad) with (Fail e, s) => (Fail e, s) | (Ok a, s) => (Ok (enc a), s) end) ->
  deliver adapters i run = run_core adapters i m (fun a => inr (enc a)).
Proof.
  intros Hrun. unfold deliver, run_core. destruct i as [i|]; [|done].
  destruct (adapters !! i) as [ad|] eqn:E; [|done]. rewrite (Hrun i ad) by done.
  unfold rpc. destruct (m (core ad)) as [[a s]|e]; [done|]. destruct e; try done.
  all: do 2 f_equal; rewrite list_insert_id; [done|]; rewrite E; by destruct ad.
Qed.

Lemma run_core_answer {A B} adapters i (m : M S A) (answer : A -> CallResult B) :
  run_core adapters i m answer =
    match run_core adapters i m inr with
    | Ok (inl e, l) => Ok (inl e, l)
    | Ok (inr a, l) => Ok (answer a, l)
    | Fail e => Fail e
    end.
Proof.
  unfold run_core. destruct i as [i|]; [|done]. destruct (adapters !! i) as [ad|]; [|done].
  destruct (rpc m (core ad)) as [[a|[]] s]; done.
Qed.
End delivery.

Section laws.
Context {U : Utils} {H : Honey} {C : CronLib} {K : Keyspace} {PH : Protohelpers} {R : Mrpc} {L : Type}.
#[local] Notation W := (World (L := L)).
#[local] Notation T := (M W).

(** The cores of a shard, made for its bounds. *)
Context (qapi : Z -> Z -> MoabQueuesCoreApi QTxn) (tapi : Z -> Z -> MoabTasksCoreApi Txn).

Definition to_queues (i : list (Adapter QTxn) -> option nat)
    (run : MoabQueuesCoreApi QTxn -> Adapter QTxn -> bytes -> Res bytes * QTxn) (data : bytes)
    : T (CallResult bytes) := fun w =>
  match deliver (moabQueuesCores w) (i (moabQueuesCores w))
          (fun ad => run (qapi (lowerBound ad) (upperBound ad)) ad data) with
  | Ok (r, q) => Ok (r, set_queues q w)
  | Fail e => Fail e
  end.

Definition to_tasks (i : list (Adapter Txn) -> option nat)
    (run : MoabTasksCoreApi Txn -> Adapter Txn -> bytes -> Res bytes * Txn) (data : bytes)
    : T (CallResult bytes) := fun w =>
  match deliver (moabTasksCores w) (i (moabTasksCores w))
          (fun ad => run (tapi (lowerBound ad) (upperBound ad)) ad data) with
  | Ok (r, t) => Ok (r, set_tasks t w)
  | Fail e => Fail e
  end.

(** [m] runs [d], or fails with an error of the client after running it at most once. *)
Definition executes {X} (m d : T (CallResult X)) : Prop := forall w,
  m w = d w \/
  exists msg w', m w = Ok (inl (ClientErr msg), w') /\ (w' = w \/ exists r, d w = Ok (r, w')).

Class MonsteraClientOk (Mc : MonsteraClient W) : Prop := {
  Read_queues key data :
    executes (client_Read MoabQueues key false data)
      (to_queues (fun l => owning_shard l key) queuesAdapter_Read data);
  ReadShard_queues shardId data :
    executes (client_ReadShard MoabQueues shardId false data)
      (to_queues (fun l => findById l shardId) queuesAdapter_Read data);
  Update_queues key data :
    executes (client_Update MoabQueues key data)
      (to_queues (fun l => owning_shard l key) queuesAdapter_Update data);
  UpdateShard_queues shardId data :
    executes (client_UpdateShard MoabQueues shardId data)
      (to_queues (fun l => findById l shardId) queuesAdapter_Update data);
  Read_tasks key data :
    executes (client_Read MoabTasks key false data)
      (to_tasks (fun l => owning_shard l key) tasksAdapter_Read data);
  Update_tasks key data :
    executes (client_Update MoabTasks key data)
      (to_tasks (fun l => owning_shard l key) tasksAdapter_Update data);
  UpdateShard_tasks shardId data :
    executes (client_UpdateShard MoabTasks shardId data)
      (to_tasks (fun l => findById l shardId) tasksAdapter_Update data);
}.
End laws.

(** ** One call *)

Section one_call.
Context {U : Utils} {H : Honey} {C : CronLib} {K : Keyspace} {PH : Protohelpers} {R : Mrpc} {L : Type}.
Context {PO : ProtohelpersOk PH} {RO : MrpcOk R}.
#[local] Notation W := (World (L := L)).
#[local] Notation T := (M W).

(** [m] ends as [d] does on [w], or with a client error and at most the effect of [d]. *)
Definition ends_as {X Y} (m : Res (CallResult X * W)) (d : Res (CallResult Y * W)) (f : Y -> CallResult X) (w : W) : Prop :=
  m = match d with Ok (inl e, w') => Ok (inl e, w') | Ok (inr y, w') => Ok (f y, w') | Fail e => Fail e end \/
  exists msg w', m = Ok (inl (ClientErr msg), w') /\ (w' = w \/ exists r, d = Ok (r, w')).

Definition encode {B X} (respMsg : Message B) (payload : X -> B) (o : Outcome X) : bytes :=
  default [] (Response_Marshal
    match o with
    | inl e => mkRpcResponse [] (Some e)
    | inr p => mkRpcResponse (default [] (Marshal respMsg (payload p))) None
    end).

Lemma Marshal_inv {A} (m : Message A) a b : Fits m a -> Marshal m a = Some b -> Unmarshal m b = Some a.
Proof. intros Hf E. destruct (Marshal_total m a Hf) as (b' & E1 & E2). congruence. Qed.
Lemma Marshal_default {A} (m : Message A) a : Marshal m a = Some (default [] (Marshal m a)).
Proof. done. Qed.
Lemma Request_inv r b : go_request r -> Request_Marshal r = Some b -> Request_Unmarshal b = Some r.
Proof. intros Hr E. destruct (Request_total r Hr) as (b' & E1 & E2). congruence. Qed.
Lemma Response_default r :
  Response_Marshal r = Some (default [] (Response_Marshal r)) /\
  Response_Unmarshal (default [] (Response_Marshal r)) = Some r.
Proof. destruct (Response_total r) as (b & -> & E). done. Qed.

(** No error of a core has the codes that stand for success. *)
Lemma nilifyIfEmpty_id err : nilifyIfEmpty err = err.
Proof. destruct err as [[[]|[]|]|]; done. Qed.

(** The adapter decodes what the client encoded. *)
Lemma with_envelope_serve {S A B X} (ad : Adapter S) (reqMsg : Message A) check
    (call : A -> Z -> M S (Outcome X)) (respMsg : Message B) payload switch req data n now b :
  Fits reqMsg req -> go_request (mkRequest data [] n now) ->
  Marshal reqMsg req = Some data -> Request_Marshal (mkRequest data [] n now) = Some b ->
  switch (mkRequest data [] n now) = serve reqMsg check call respMsg payload ad (mkRequest data [] n now) ->
  check req (lowerBound ad) (upperBound ad) = Ok tt ->
  with_envelope switch ad b =
    match rpc (call req now) (core ad) with
    | (Fail e, s) => (Fail e, s)
    | (Ok o, s) => (Ok (encode respMsg payload o), s)
    end.
Proof.
  intros Hf He Ed Eb Es Ec. unfold with_envelope. rewrite (Request_inv _ _ He Eb), Es. unfold serve. cbn [Data Now].
  rewrite (Marshal_inv _ _ _ Hf Ed), Ec. destruct (rpc _ _) as [[[e|p]|e] s]; [| |done].
  - by rewrite (proj1 (Response_default _)).
  - by rewrite (Marshal_default respMsg), (proj1 (Response_default _)).
Qed.

(** The client decodes what the adapter encoded. *)
Lemma send_outcome {A B X} (req : A) reqMsg n transport (respMsg : Message B) payload (inj : X -> B)
    (d : Res (CallResult (Outcome X) * W)) w :
  (forall x, payload (inj x) = Some x) ->
  (forall data, go_request (mkRequest data [] n (read_clock w))) ->
  (forall x w', d = Ok (inr (inr x), w') -> Fits respMsg (inj x)) ->
  (forall data b, Marshal reqMsg req = Some data ->
     Request_Marshal (mkRequest data [] n (read_clock w)) = Some b ->
     ends_as (transport b (ticked w)) d (fun o => inr (encode respMsg inj o)) (ticked w)) ->
  ends_as (send req None reqMsg n transport respMsg payload w) d
    (fun o => match o with inl e => inl (AppErr e) | inr x => inr (x, read_clock w) end) (ticked w).
Proof.
  intros Hp He Hf Ht. unfold send, mbind, M_bind, time_Now. fold (read_clock w) (ticked w).
  destruct (Request_total _ (He (default [] (Marshal reqMsg req)))) as (b & Eb & _).
  specialize (Ht _ b (Marshal_default _ _) Eb). rewrite (Marshal_default reqMsg), Eb.
  destruct Ht as [Et|(msg & w' & Et & Hw)]; [left|right].
  - rewrite Et.
    destruct d as [[[e|o] w']|e]; [done| |done]. unfold encode. rewrite (proj2 (Response_default _)).
    destruct o as [e|x]; cbn [resp_Data resp_Error].
    + destruct (Unmarshal_empty respMsg) as [z ->]. by rewrite nilifyIfEmpty_id.
    + rewrite (Marshal_inv _ _ _ (Hf _ _ eq_refl) (Marshal_default respMsg (inj x))). cbn [nilifyIfEmpty]. by rewrite Hp.
  - exists msg, w'. split; [|done]. by rewrite Et.
Qed.

(** *** The cores of one application *)

Section application.
Context {S : Type} (get : W -> list (Adapter S)) (put : list (Adapter S) -> W -> W).

Definition at_cores {A0 X} (i : list (Adapter S) -> option nat) (m : M S A0) (answer : A0 -> CallResult X)
    : T (CallResult X) := fun w =>
  match run_core (get w) (i (get w)) m answer with Ok (r, l) => Ok (r, put l w) | Fail e => Fail e end.
Definition to_cores (i : list (Adapter S) -> option nat) (run : Adapter S -> Res bytes * S) : T (CallResult bytes) :=
  fun w =>
  match deliver (get w) (i (get w)) run with Ok (r, l) => Ok (r, put l w) | Fail e => Fail e end.

(** The outcome of a handler, read off its response. *)
Definition outcome {A0 X} (out : A0 -> Outcome X) (m : M S A0) : M S (Outcome X) := r ← m; mret (out r).
Definition answer_of {A0 X} (out : A0 -> Outcome X) (a : A0) : CallResult X :=
  match out a with inl e => inl (AppErr e) | inr x => inr x end.

Lemma at_cores_outcome {A0 X Y} i (m : M S A0) (out : A0 -> Outcome X) (f : Outcome X -> CallResult Y) w :
  match at_cores i (outcome out m) inr w with
  | Ok (inl e, w') => Ok (inl e, w')
  | Ok (inr o, w') => Ok (f o, w')
  | Fail e => Fail e
  end = at_cores i m (fun a => f (out a)) w.
Proof.
  unfold at_cores, outcome, run_core, rpc, mbind, M_bind. destruct (i (get w)) as [j|]; [|done].
  destruct (get w !! j) as [ad|]; [|done]. destruct (m (core ad)) as [[a s]|[]]; done.
Qed.

Lemma refines_at {A A0 B X} (req : A) reqMsg n transport (respMsg : Message B) payload inj
    (m : Z -> M S A0) (out : A0 -> Outcome X) i j check (call : Z -> Z -> A -> Z -> M S (Outcome X))
    (run : Adapter S -> bytes -> Res bytes * S) w :
  get (ticked w) = get w ->
  (forall x, payload (inj x) = Some x) ->
  Fits reqMsg req ->
  (forall data, go_request (mkRequest data [] n (read_clock w))) ->
  (forall x w', at_cores i (outcome out (m (read_clock w))) inr (ticked w) = Ok (inr (inr x), w') ->
     Fits respMsg (inj x)) ->
  (forall b, executes (transport b) (to_cores j (fun ad => run ad b))) ->
  j (get w) = i (get w) ->
  (forall k ad, i (get w) = Some k -> get w !! k = Some ad ->
     check req (lowerBound ad) (upperBound ad) = Ok tt) ->
  (forall ad, exists switch, (forall b, run ad b = with_envelope switch ad b) /\
     forall data now, switch (mkRequest data [] n now) =
       serve reqMsg check (call (lowerBound ad) (upperBound ad)) respMsg inj ad (mkRequest data [] n now)) ->
  (forall lo hi now, call lo hi req now = outcome out (m now)) ->
  ends_as (send req None reqMsg n transport respMsg payload w)
    (at_cores i (outcome out (m (read_clock w))) inr (ticked w))
    (fun o => match o with inl e => inl (AppErr e) | inr x => inr (x, read_clock w) end) (ticked w).
Proof.
  intros Hg Hp Hf He Ha Hx Hij Hc Hr Hm. apply send_outcome with (inj := inj); [done|done|done|]. intros data b Ed Eb.
  assert (E : to_cores j (fun ad => run ad b) (ticked w) =
    match at_cores i (outcome out (m (read_clock w))) inr (ticked w) with
    | Ok (inl e, w') => Ok (inl e, w')
    | Ok (inr o, w') => Ok (inr (encode respMsg inj o), w')
    | Fail e => Fail e
    end).
  { unfold to_cores, at_cores. rewrite Hg, Hij.
    rewrite (deliver_run_core _ _ _ (outcome out (m (read_clock w))) (encode respMsg inj)).
    - rewrite run_core_answer. destruct (run_core _ _ _ _) as [[[] l]|]; done.
    - intros k ad Ek Had. destruct (Hr ad) as (switch & Erun & Esw). rewrite Erun, <-(Hm (lowerBound ad) (upperBound ad)).
      eapply with_envelope_serve; try done. by apply (Hc k). }
  destruct (Hx b (ticked w)) as [Et|(msg & w' & Et & Hw)]; [left|right].
  - by rewrite Et, E.
  - exists msg, w'. split; [done|]. destruct Hw as [->|[r Er]]; [by left|right]. rewrite E in Er.
    destruct (at_cores _ _ _ _) as [[[e|o] w2]|e]; [| |done]; injection Er as <- <-; eauto.
Qed.

(** [m] answers an invalid request itself; otherwise it ends as [n], or with a client error
    after [n] took effect at most once. *)
Definition refines {X} (m n : T (CallResult X)) (valid : error) (w : W) : Prop :=
  match valid with
  | Some msg => m w = Ok (inl (AppErr (ValidationError msg)), ticked w)
  | None =>
      m w = n w \/
      exists msg w', m w = Ok (inl (ClientErr msg), w') /\ (w' = ticked w \/ exists r, n w = Ok (r, w'))
  end.

(** The single-node call at shard [i], with and without [meta.Now]. *)
Definition single {A0 X} i (m : Z -> M S A0) (out : A0 -> Outcome X) : T (CallResult X) :=
  now ← time_Now; at_cores i (m now) (answer_of out).
Definition single_meta {A0 X} i (m : Z -> M S A0) (out : A0 -> Outcome X) : T (CallResult (X * Z)) :=
  now ← time_Now;
  r ← at_cores i (m now) (answer_of out);
  mret (match r with inl e => inl e | inr a => inr (a, now) end).

Definition with_now {X} (now : Z) (o : Outcome X) : CallResult (X * Z) :=
  match o with inl e => inl (AppErr e) | inr x => inr (x, now) end.

Lemma single_meta_eq {A0 X} i (m : Z -> M S A0) (out : A0 -> Outcome X) w :
  single_meta i m out w = at_cores i (m (read_clock w)) (fun a => with_now (read_clock w) (out a)) (ticked w).
Proof.
  unfold single_meta, mbind, M_bind, time_Now, at_cores. fold (ticked w) (read_clock w).
  rewrite (run_core_answer _ _ _ (answer_of out)), (run_core_answer _ _ _ (fun a => with_now _ (out a))).
  destruct (run_core _ _ _ _) as [[[e|a] l]|]; [done| |done]. unfold answer_of, with_now. by destruct (out a).
Qed.

Lemma refines_meta {A0 X} (s : T (CallResult (X * Z))) i (m : Z -> M S A0) (out : A0 -> Outcome X) w :
  ends_as (s w) (at_cores i (outcome out (m (read_clock w))) inr (ticked w)) (with_now (read_clock w)) (ticked w) ->
  refines s (single_meta i m out) None w.
Proof.
  unfold ends_as, refines. rewrite single_meta_eq, at_cores_outcome.
  intros [->|(msg & w' & -> & Hw)]; [by left|right]. exists msg, w'. split; [done|].
  destruct Hw as [->|[r Er]]; [by left|right].
  rewrite <-(at_cores_outcome i (m (read_clock w)) out (with_now (read_clock w))), Er. destruct r; eauto.
Qed.

Lemma refines_no_meta {A0 X} (s : T (CallResult (X * Z))) i (m : Z -> M S A0) (out : A0 -> Outcome X) w :
  refines s (single_meta i m out) None w -> refines (no_meta s) (single i m out) None w.
Proof.
  assert (E : single i m out w = match single_meta i m out w with
    | Ok (inl e, w') => Ok (inl e, w') | Ok (inr (a, _), w') => Ok (inr a, w') | Fail e => Fail e end).
  { unfold single, single_meta, mbind, M_bind. destruct (time_Now w) as [[now w']|]; [|done].
    destruct (at_cores _ _ _ w') as [[[e|a] w2]|]; done. }
  unfold refines, no_meta, mbind, M_bind. rewrite E. intros [->|(msg & w' & -> & Hw)]; [left|right].
  - destruct (single_meta i m out w) as [[[e|[a now]] w']|]; done.
  - exists msg, w'. split; [done|]. destruct Hw as [->|[r ->]]; [by left|right]. destruct r as [e|[a now]]; eauto.
Qed.

(** *** Methods *)

Section methods.
Context {A A0 B X : Type} (req : A) (valid : error) (reqMsg : Message A) (n : Z) (respMsg : Message B).
Context (payload : B -> option X) (inj : X -> B) (payload_inj : forall x, payload (inj x) = Some x).
Context (m : Z -> M S A0) (out : A0 -> Outcome X) (call : Z -> Z -> A -> Z -> M S (Outcome X)).
Context (run : Adapter S -> bytes -> Res bytes * S) (w : W).
Context (get_ticked : get (ticked w) = get w).
Context (call_spec : valid = None -> forall lo hi now, call lo hi req now = outcome out (m now)).
Context (req_fits : Fits reqMsg req).
Context (envelope_ok : forall data, go_request (mkRequest data [] n (read_clock w))).

(** The payload of an answer fits its message. *)
Definition answer_fits (r : Res (CallResult X * W)) : Prop := forall x w', r = Ok (inr x, w') -> Fits respMsg (inj x).

Lemma answer_fits_outcome i x w' :
  answer_fits (single i m out w) -> at_cores i (outcome out (m (read_clock w))) inr (ticked w) = Ok (inr (inr x), w') ->
  Fits respMsg (inj x).
Proof.
  intros Ha E. apply (Ha x w'). change (single i m out w) with (at_cores i (m (read_clock w)) (answer_of out) (ticked w)).
  unfold answer_of.
  by rewrite <-(at_cores_outcome i _ out (fun o => match o with inl e => inl (AppErr e) | inr x => inr x end)), E.
Qed.

(** The switch sends method [n] to [call]. *)
Definition handles (check : A -> Z -> Z -> Res unit) : Prop := forall ad, exists switch,
  (forall b, run ad b = with_envelope switch ad b) /\
  forall data now, switch (mkRequest data [] n now) =
    serve reqMsg check (call (lowerBound ad) (upperBound ad)) respMsg inj ad (mkRequest data [] n now).

Lemma unsharded_call (transport : bytes -> T (CallResult bytes)) i :
  (forall b, executes (transport b) (to_cores i (fun ad => run ad b))) -> handles no_check ->
  answer_fits (single i m out w) ->
  refines (no_meta (send req valid reqMsg n transport respMsg payload)) (single i m out) valid w.
Proof.
  intros Hx Hr Ha. destruct valid as [msg|] eqn:Hv; [done|]. apply refines_no_meta, refines_meta.
  apply (refines_at _ _ _ _ _ _ inj _ _ i i no_check call run); auto. intros x w'. by apply answer_fits_outcome.
Qed.

Context (ShardKey : A -> option Z) (key_range : forall k, ShardKey req = Some k -> 0 <= k < 2 ^ 32).
Context (tr : Z -> bytes -> T (CallResult bytes)).
Context (size : Z) (parts : partitioned size (get w)).
Context (sent : forall k b, executes (tr k b) (to_cores (fun l => owning_shard l k) (fun ad => run ad b))).
Context (handled : handles (check_key ShardKey)).

#[local] Notation sharded_send :=
  (send req valid reqMsg n (fun b => shardKey ← deref (ShardKey req); tr shardKey b) respMsg payload).

Lemma sharded_sent k :
  valid = None -> ShardKey req = Some k -> answer_fits (single (fun l => findAdapter l k) m out w) ->
  refines sharded_send (single_meta (fun l => findAdapter l k) m out) None w.
Proof.
  intros Hv Ek Ha. rewrite Hv in *. apply refines_meta.
  apply (refines_at _ _ _ _ _ _ inj _ _ _ (fun l => owning_shard l k) (check_key ShardKey) call run); try done.
  - intros x w'. by apply answer_fits_outcome.
  - intros b w'. rewrite Ek. apply sent.
  - by apply (owning_shard_partition size), key_range.
  - intros j ad Ei Had. rewrite <-(owning_shard_partition size) in Ei by auto.
    apply owning_shard_bounds in Ei as (ad' & Had' & Hb). simplify_eq. unfold check_key, checkShardBounds. rewrite Ek.
    rewrite (proj2 (Z.ltb_ge _ _)), Z.gtb_ltb, (proj2 (Z.ltb_ge _ _)) by lia. done.
  - auto.
Qed.

(** Without a key both stubs panic. *)
Lemma unkeyed_sent :
  valid = None -> ShardKey req = None -> sharded_send w = Fail (ErrPanic NilDereference).
Proof.
  intros Hv Ek. rewrite Hv. unfold send, mbind, M_bind, time_Now. fold (read_clock w). rewrite (Marshal_default reqMsg), Ek.
  by destruct (Request_total _ (envelope_ok (default [] (Marshal reqMsg req)))) as (b & -> & _).
Qed.

(** The single-node call. *)
Definition sharded_single : T (CallResult X) :=
  now ← time_Now; shardKey ← deref (ShardKey req);
  at_cores (fun l => findAdapter l shardKey) (m now) (answer_of out).

Lemma sharded_single_fits k :
  ShardKey req = Some k -> answer_fits (sharded_single w) -> answer_fits (single (fun l => findAdapter l k) m out w).
Proof. intros Ek. unfold sharded_single. rewrite Ek. done. Qed.

Lemma sharded_call_meta :
  answer_fits (sharded_single w) ->
  refines sharded_send
    (now ← time_Now; shardKey ← deref (ShardKey req);
     r ← at_cores (fun l => findAdapter l shardKey) (m now) (answer_of out);
     mret (match r with inl e => inl e | inr a => inr (a, now) end)) valid w.
Proof.
  intros Ha. case_eq valid; [done|intros Hv]. case_eq (ShardKey req); [intros k Ek|intros Ek].
  - pose proof (sharded_sent k Hv Ek (sharded_single_fits k Ek Ha)) as Hs. by rewrite Hv, Ek in Hs.
  - left. pose proof (unkeyed_sent Hv Ek) as Hs. rewrite Hv, Ek in Hs. exact Hs.
Qed.

Lemma sharded_call :
  answer_fits (sharded_single w) -> refines (no_meta sharded_send) sharded_single valid w.
Proof.
  intros Ha. unfold sharded_single. case_eq valid; [done|intros Hv]. case_eq (ShardKey req); [intros k Ek|intros Ek].
  - pose proof (refines_no_meta _ _ _ _ _ (sharded_sent k Hv Ek (sharded_single_fits k Ek Ha))) as Hs.
    by rewrite Hv, Ek in Hs.
  - left. pose proof (unkeyed_sent Hv Ek) as Hs. rewrite Hv, Ek in Hs. unfold no_meta, mbind at 1, M_bind at 1.
    by rewrite Hs.
Qed.
End methods.
End application.
End one_call.
