(* ===== verification/ClusterProps.v ===== *)
(** * Theorems on the cluster client

    A call through [MoabMonsteraStub], the Monstera client, an adapter and a core (validating
    or not) against the same call through [MoabNonclusteredStub]. *)

From S2P Require Export ClusterProofs TypesProps.

Section cluster_theorems.
Context {U : Utils} {H : Honey} {C : CronLib} {K : Keyspace} {G : Gronx} {Sn : Snapshots}.
Context {PH : Protohelpers} {R : Mrpc} {L : Type} {Mc : MonsteraClient (World (L := L))}.
Context {KO : KeyspaceOk K} {PO : ProtohelpersOk PH} {RO : MrpcOk R} {HO : HoneyOk H} {CO : CronOk C}.
#[local] Notation W := (World (L := L)).
#[local] Notation T := (M W).

(** The nodes run validating cores or plain ones. *)
Context (validate : bool).
Definition node_queues (lower upper : Z) : MoabQueuesCoreApi QTxn :=
  if validate then MoabQueuesValidatingCore (MoabQueuesCore lower upper) else MoabQueuesCore lower upper.
Definition node_tasks (lower upper : Z) : MoabTasksCoreApi Txn :=
  if validate then MoabTasksValidatingCore (MoabTasksCore lower upper) else MoabTasksCore lower upper.
Context {MO : MonsteraClientOk node_queues node_tasks Mc}.

(** Each application's shards cut the key space into equal ranges. *)
Definition shards_ok (w : W) : Prop :=
  (exists size, partitioned size (moabQueuesCores w)) /\ (exists size, partitioned size (moabTasksCores w)).

(** The stores hold values of the Go types, and the clock reads an [int64]. *)
Record world_typed (w : W) : Prop := {
  world_queues : Forall (fun ad => queues_typed (core ad)) (moabQueuesCores w);
  world_tasks : Forall (fun ad => tasks_typed (core ad)) (moabTasksCores w);
  world_clock : is_i64 (read_clock w);
}.

(** The encoding of a message fits a slice. *)
Definition small {A} (m : Message A) (a : A) : Prop := len (MarshalBinary (binary m) a) < two63.

(** A request of the Go type, and neither its encoding nor the answer's exceeds a slice. *)
Definition agrees {A B X} (reqMsg : Message A) (req : A) (respMsg : Message B) (resp : X -> B)
    (m n : T (CallResult X)) (valid : error) (w : W) : Prop :=
  go_value (codec reqMsg) req -> small reqMsg req ->
  (forall x w', n w = Ok (inr x, w') -> small respMsg (resp x)) -> refines m n valid w.

(** Every method of the client interface. *)
Record agrees_with_single_node (w : W) : Prop := {
  agrees_GetQueue req :
    agrees GetQueueRequest req GetQueueResponse Some (Monstera_GetQueue req) (Stub_GetQueue req)
      (GetQueueRequest_Validate req) w;
  agrees_GetQueueByName req :
    agrees GetQueueByNameRequest req GetQueueByNameResponse Some (Monstera_GetQueueByName req) (Stub_GetQueueByName req)
      (GetQueueByNameRequest_Validate req) w;
  agrees_ListQueues req :
    agrees ListQueuesRequest req ListQueuesResponse id (Monstera_ListQueues req) (Stub_ListQueues req)
      (ListQueuesRequest_Validate req) w;
  agrees_GetSchedule req :
    agrees GetScheduleRequest req GetScheduleResponse Some (Monstera_GetSchedule req) (Stub_GetSchedule req)
      (GetScheduleRequest_Validate req) w;
  agrees_DequeSchedules req shardId :
    agrees DequeSchedulesRequest req DequeSchedulesResponse id (Monstera_DequeSchedules req shardId) (Stub_DequeSchedules req shardId)
      (DequeSchedulesRequest_Validate req) w;
  agrees_ListSchedules req :
    agrees ListSchedulesRequest req ListSchedulesResponse id (Monstera_ListSchedules req) (Stub_ListSchedules req)
      (ListSchedulesRequest_Validate req) w;
  agrees_CreateQueue req :
    agrees CreateQueueRequest req CreateQueueResponse Some (Monstera_CreateQueue req) (Stub_CreateQueue req)
      (CreateQueueRequest_Validate req) w;
  agrees_UpdateQueue req :
    agrees UpdateQueueRequest req UpdateQueueResponse Some (Monstera_UpdateQueue req) (Stub_UpdateQueue req)
      (UpdateQueueRequest_Validate req) w;
  agrees_DeleteQueue req :
    agrees DeleteQueueRequest req DeleteQueueResponse Some (Monstera_DeleteQueue req) (Stub_DeleteQueue req)
      (DeleteQueueRequest_Validate req) w;
  agrees_CreateSchedule req :
    agrees CreateScheduleRequest req CreateScheduleResponse Some (Monstera_CreateSchedule req) (Stub_CreateSchedule req)
      (CreateScheduleRequest_Validate req) w;
  agrees_UpdateSchedule req :
    agrees UpdateScheduleRequest req UpdateScheduleResponse Some (Monstera_UpdateSchedule req) (Stub_UpdateSchedule req)
      (UpdateScheduleRequest_Validate req) w;
  agrees_DeleteSchedule req :
    agrees DeleteScheduleRequest req DeleteScheduleResponse id (Monstera_DeleteSchedule req) (Stub_DeleteSchedule req)
      (DeleteScheduleRequest_Validate req) w;
  agrees_ReportSchedulesStatus req shardId :
    agrees ReportSchedulesStatusRequest req ReportSchedulesStatusResponse id (Monstera_ReportSchedulesStatus req shardId) (Stub_ReportSchedulesStatus req shardId)
      (ReportSchedulesStatusRequest_Validate req) w;
  agrees_RunQueuesGarbageCollection req shardId :
    agrees RunQueuesGarbageCollectionRequest req RunQueuesGarbageCollectionResponse id (Monstera_RunQueuesGarbageCollection req shardId) (Stub_RunQueuesGarbageCollection req shardId)
      (RunQueuesGarbageCollectionRequest_Validate req) w;
  agrees_SwapQueueId req :
    agrees SwapQueueIdRequest req SwapQueueIdResponse swap_response (Monstera_SwapQueueId req) (Stub_SwapQueueId req)
      (SwapQueueIdRequest_Validate req) w;
  agrees_GetTask req :
    agrees GetTaskRequest req GetTaskResponse (fun p => Some p.1) (Monstera_GetTask req) (Stub_GetTask req)
      (GetTaskRequest_Validate req) w;
  agrees_GetStatistics req :
    agrees GetStatisticsRequest req GetStatisticsResponse fst (Monstera_GetStatistics req) (Stub_GetStatistics req)
      (GetStatisticsRequest_Validate req) w;
  agrees_ListTasks req :
    agrees ListTasksRequest req ListTasksResponse fst (Monstera_ListTasks req) (Stub_ListTasks req)
      (ListTasksRequest_Validate req) w;
  agrees_Enqueue req :
    agrees EnqueueRequest req EnqueueResponse fst (Monstera_Enqueue req) (Stub_Enqueue req)
      (EnqueueRequest_Validate req) w;
  agrees_Dequeue req :
    agrees DequeueRequest req DequeueResponse fst (Monstera_Dequeue req) (Stub_Dequeue req)
      (DequeueRequest_Validate req) w;
  agrees_ReportStatus req :
    agrees ReportStatusRequest req ReportStatusResponse id (Monstera_ReportStatus req) (Stub_ReportStatus req)
      (ReportStatusRequest_Validate req) w;
  agrees_DeleteTasks req :
    agrees DeleteTasksRequest req DeleteTasksResponse id (Monstera_DeleteTasks req) (Stub_DeleteTasks req)
      (DeleteTasksRequest_Validate req) w;
  agrees_RestartTasks req :
    agrees RestartTasksRequest req RestartTasksResponse fst (Monstera_RestartTasks req) (Stub_RestartTasks req)
      (RestartTasksRequest_Validate req) w;
  agrees_PurgeQueue req :
    agrees PurgeQueueRequest req PurgeQueueResponse id (Monstera_PurgeQueue req) (Stub_PurgeQueue req)
      (PurgeQueueRequest_Validate req) w;
  agrees_RunTasksGarbageCollection req shardId :
    agrees RunTasksGarbageCollectionRequest req RunTasksGarbageCollectionResponse id (Monstera_RunTasksGarbageCollection req shardId) (Stub_RunTasksGarbageCollection req shardId)
      (RunTasksGarbageCollectionRequest_Validate req) w;
  agrees_RunPurgeQueueGarbageCollection req shardId :
    agrees RunPurgeQueueGarbageCollectionRequest req RunPurgeQueueGarbageCollectionResponse id (Monstera_RunPurgeQueueGarbageCollection req shardId) (Stub_RunPurgeQueueGarbageCollection req shardId)
      (RunPurgeQueueGarbageCollectionRequest_Validate req) w;
}.

(** ** The two applications *)

Lemma refines_ext {X} (m n n' : T (CallResult X)) valid w : n w = n' w -> refines m n valid w -> refines m n' valid w.
Proof. unfold refines. by intros ->. Qed.

Definition queues_out {X} (r : QResponse X) : Outcome X :=
  match r with QError e => inl (QueuesError e) | QPayload a => inr a end.
Definition tasks_out {X} (r : Response X) : Outcome X :=
  match r with ApplicationError e => inl (TasksError e) | Payload a => inr a end.

Lemma at_queues_cores {X} i (m : M QTxn (QResponse X)) (w : W) :
  at_cores moabQueuesCores set_queues i m (answer_of queues_out) w = at_queues i m w.
Proof.
  unfold at_cores, at_queues. rewrite (run_core_answer _ _ _ (answer_of _)), (run_core_answer _ _ _ queues_answer).
  by destruct (run_core _ _ _ _) as [[[e|[]] l]|].
Qed.
Lemma at_tasks_cores {X} i (m : M Txn (Response X)) (w : W) :
  at_cores moabTasksCores set_tasks i m (answer_of tasks_out) w = at_tasks i m w.
Proof.
  unfold at_cores, at_tasks. rewrite (run_core_answer _ _ _ (answer_of _)), (run_core_answer _ _ _ tasks_answer).
  by destruct (run_core _ _ _ _) as [[[e|[]] l]|].
Qed.

Lemma on_tasks_meta_answer {X} key (m : Z -> M Txn (Response X)) x (w w' : W) :
  on_tasks key m w = Ok (inr x, w') -> on_tasks_meta key m w = Ok (inr (x, read_clock w), w').
Proof.
  unfold on_tasks, on_tasks_meta, mbind, M_bind, time_Now. destruct (deref key _) as [[k w1]|]; [|done].
  fold (read_clock w). destruct (at_tasks _ _ w1) as [[[e|a] w2]|]; naive_solver.
Qed.

Lemma validating_valid {S X} err (m : M S (Outcome X)) : err = None -> validating err m = m.
Proof. by intros ->. Qed.

Lemma account_range a k : Some (ByAccount a) = Some k -> 0 <= k < 2 ^ 32.
Proof. intros [= <-]. rewrite <-KeyspacePerApplication_val. apply GetShardKey_range. Qed.
Lemma by_account_of_range id k : by_account_of id = Some k -> 0 <= k < 2 ^ 32.
Proof. intros (i & -> & ->)%fmap_Some. by eapply account_range. Qed.
Lemma by_queue_range id k : by_queue id = Some k -> 0 <= k < 2 ^ 32.
Proof. intros (i & -> & ->)%fmap_Some. rewrite <-KeyspacePerApplication_val. apply GetShardKey_range. Qed.
Lemma by_task_range id k :
  (fun id => ByAccountAndQueue (TaskId.AccountId id) (TaskId.QueueId id)) <$> id = Some k -> 0 <= k < 2 ^ 32.
Proof. intros (i & -> & ->)%fmap_Some. rewrite <-KeyspacePerApplication_val. apply GetShardKey_range. Qed.

(** Requests and answers that fit. *)
Definition fitting {A B X} (reqMsg : Message A) (req : A) (respMsg : Message B) (resp : X -> B)
    (m n : T (CallResult X)) (valid : error) (w : W) : Prop :=
  Fits reqMsg req -> (forall x w', n w = Ok (inr x, w') -> Fits respMsg (resp x)) -> refines m n valid w.

(** *** Answers are typed *)

Lemma node_queues_typed lo hi : queues_api_typed (node_queues lo hi).
Proof.
  unfold node_queues. destruct validate; [apply MoabQueuesValidatingCore_typed|]; apply MoabQueuesCore_typed.
Qed.
Lemma node_tasks_typed lo hi : tasks_api_typed (node_tasks lo hi).
Proof.
  unfold node_tasks. destruct validate; [apply MoabTasksValidatingCore_typed|]; apply MoabTasksCore_typed.
Qed.

Lemma fits_small {A} (m : Message A) a : go_value (codec m) a -> small m a -> Fits m a.
Proof. destruct (codec_laws m) as (E & _). unfold small, Fits, fits. rewrite E. by split. Qed.

Lemma run_core_typed {S A0 X} (I : S -> Prop) adapters i (m : M S A0) (answer : A0 -> CallResult X) (Q : A0 -> Prop) x l :
  Forall (fun ad => I (core ad)) adapters -> gives I m Q ->
  run_core adapters i m answer = Ok (inr x, l) -> exists a, Q a /\ answer a = inr x.
Proof.
  intros Hi Hm. unfold run_core, rpc. destruct i as [i|]; [|done]. destruct (adapters !! i) as [ad|] eqn:Ead; [|done].
  eapply Forall_lookup_1 in Ead; [|exact Hi]. specialize (Hm _ Ead). destruct (m (core ad)) as [[a s]|[]]; try done.
  destruct Hm as [_ Ha]. intros [= E _]. by exists a.
Qed.

(** A method is typed; its request and its answer fit unless the request is invalid. *)
Lemma fitting_agrees {A B X} (reqMsg : Message A) (req : A) (respMsg : Message B) (resp : X -> B)
    (m n : T (CallResult X)) (valid : error) (w : W) :
  fitting reqMsg req respMsg resp m n valid w ->
  (forall msg, valid = Some msg -> m w = Ok (inl (AppErr (ValidationError msg)), ticked w)) ->
  (valid = None -> go_value (codec reqMsg) req -> forall x w', n w = Ok (inr x, w') -> go_value (codec respMsg) (resp x)) ->
  agrees reqMsg req respMsg resp m n valid w.
Proof.
  intros Hf Hi Ht Hg Hs Ha. destruct valid as [msg|]; [by apply Hi|].
  apply Hf; [by apply fits_small|]. intros x w' E. apply fits_small; eauto.
Qed.
Lemma gives_map_inv {S A B} (I : S -> Prop) (m : M S A) (f : A -> B) Q :
  gives I (r ← m; mret (f r)) Q -> gives I m (fun a => Q (f a)).
Proof. intros Hm s Hs. specialize (Hm s Hs). unfold mbind, M_bind in Hm. by destruct (m s) as [[a s']|]. Qed.

(** *** Sharded and unsharded methods *)

Section method.
Context {A B X : Type} (req : A) (valid : error) (reqMsg : Message A) (n : Z) (respMsg : Message B).
Context (payload : B -> option X) (inj : X -> B) (w : W).

(** The numbers of the envelope fit their types. *)
Definition numbered : Prop := 0 <= n < 2 ^ 31.

(** The switch of an adapter sends method [n] to [call]. *)
Definition dispatches {S Api} (run : Api -> Adapter S -> bytes -> Res bytes * S)
    (check : A -> Z -> Z -> Res unit) (call : Api -> A -> Z -> M S (Outcome X)) : Prop :=
  forall api ad, exists switch, (forall b, run api ad b = with_envelope switch ad b) /\
    forall data now, switch (mkRequest data [] n now) =
      serve reqMsg check (call api) respMsg inj ad (mkRequest data [] n now).

Context (ShardKey : A -> option Z).
Definition keyed_in_range : Prop := forall k, ShardKey req = Some k -> 0 <= k < 2 ^ 32.
Definition reads_back : Prop := forall x, payload (inj x) = Some x.
Definition answers_fit (r : Res (CallResult X * W)) : Prop := forall x w', r = Ok (inr x, w') -> Fits respMsg (inj x).

Section of_queues.
Context (call : MoabQueuesCoreApi QTxn -> A -> Z -> M QTxn (Outcome X)) (m : Z -> M QTxn (QResponse X)).
Definition calls_queues : Prop :=
  valid = None -> forall lo hi now, call (node_queues lo hi) req now = queues_outcome (m now).

Lemma queues_sharded_fitting tr run :
  (forall k b, executes (tr k b) (to_queues node_queues (fun l => owning_shard l k) run b)) ->
  dispatches run (check_key ShardKey) call -> calls_queues -> keyed_in_range -> reads_back -> numbered ->
  is_i64 (read_clock w) -> shards_ok w ->
  fitting reqMsg req respMsg inj (no_meta (send req valid reqMsg n (fun b => shardKey ← deref (ShardKey req); tr shardKey b) respMsg payload))
    (on_queues (ShardKey req) m) valid w.
Proof.
  intros Hx Hd Hc Hk Hb Hnum Hclk [[sq Hq] _] Hf Ha.
  assert (E : sharded_single moabQueuesCores set_queues req m queues_out ShardKey w = on_queues (ShardKey req) m w).
  { unfold sharded_single, on_queues, mbind, M_bind. cbn. destruct (deref _ _) as [[k w']|]; [apply at_queues_cores|done]. }
  eapply refines_ext; [exact E|]. rewrite <-E in Ha.
  apply (sharded_call moabQueuesCores set_queues req valid reqMsg n respMsg payload inj Hb m queues_out
    (fun lo hi => call (node_queues lo hi)) (fun ad => run (node_queues (lowerBound ad) (upperBound ad)) ad)
    w eq_refl Hc Hf (fun _ => conj Hnum Hclk) ShardKey Hk tr sq Hq); [exact Hx| |exact Ha]. intros ad. apply Hd.
Qed.


Lemma queues_unsharded_fitting transport run shardId :
  (forall b, executes (transport b) (to_queues node_queues (fun l => findById l shardId) run b)) ->
  dispatches run no_check call -> calls_queues -> reads_back -> numbered -> is_i64 (read_clock w) ->
  fitting reqMsg req respMsg inj (no_meta (send req valid reqMsg n transport respMsg payload))
    (now ← time_Now; at_queues (fun l => findById l shardId) (m now)) valid w.
Proof.
  intros Hx Hd Hc Hb Hnum Hclk Hf Ha.
  assert (E : single moabQueuesCores set_queues (fun l => findById l shardId) m queues_out w =
    (now ← time_Now; at_queues (fun l => findById l shardId) (m now)) w) by apply at_queues_cores.
  eapply refines_ext; [exact E|].
  apply (unsharded_call moabQueuesCores set_queues req valid reqMsg n respMsg payload inj Hb m queues_out
    (fun lo hi => call (node_queues lo hi)) (fun ad => run (node_queues (lowerBound ad) (upperBound ad)) ad)
    w eq_refl Hc Hf (fun _ => conj Hnum Hclk) transport (fun l => findById l shardId)); [exact Hx| |].
  - intros ad. apply Hd.
  - intros x w' Ex. apply (Ha x w'). etrans; [symmetry; exact E|exact Ex].
Qed.
(** Every node's handler is typed. *)
Definition typed_queues_call : Prop :=
  forall lo hi, typed_method queues_typed reqMsg respMsg inj (call (node_queues lo hi)).

Lemma queues_answer_typed i x (w0 w1 : W) :
  valid = None -> calls_queues -> typed_queues_call -> go_value (codec reqMsg) req -> is_i64 (read_clock w) ->
  Forall (fun ad => queues_typed (core ad)) (moabQueuesCores w0) ->
  at_queues i (m (read_clock w)) w0 = Ok (inr x, w1) -> go_value (codec respMsg) (inj x).
Proof.
  intros Hv Hc Ht Hg Hn Hw E. specialize (Ht 0 0 req (read_clock w) Hg Hn). rewrite (Hc Hv) in Ht.
  apply (gives_map_inv queues_typed (m (read_clock w)) queues_out) in Ht. unfold at_queues in E.
  destruct (run_core _ _ _ _) as [[[e|y] l]|] eqn:Er; try done. injection E as -> _.
  destruct (run_core_typed _ _ _ _ _ _ _ _ Hw Ht Er) as ([e|a] & Ha & Ea); [done|]. by injection Ea as <-.
Qed.

Lemma queues_sharded tr run :
  (forall k b, executes (tr k b) (to_queues node_queues (fun l => owning_shard l k) run b)) ->
  dispatches run (check_key ShardKey) call -> calls_queues -> keyed_in_range -> reads_back -> numbered -> typed_queues_call ->
  shards_ok w -> world_typed w ->
  agrees reqMsg req respMsg inj
    (no_meta (send req valid reqMsg n (fun b => shardKey ← deref (ShardKey req); tr shardKey b) respMsg payload))
    (on_queues (ShardKey req) m) valid w.
Proof.
  intros Hx Hd Hc Hk Hb Hnum Ht Hs [Hq _ Hn]. apply fitting_agrees; [by eapply queues_sharded_fitting|by intros msg ->|].
  intros Hv Hg x w'. unfold on_queues, mbind, M_bind, time_Now. fold (read_clock w) (ticked w).
  unfold deref. destruct (ShardKey req) as [k|]; [|done]. by apply queues_answer_typed.
Qed.
Lemma queues_unsharded transport run shardId :
  (forall b, executes (transport b) (to_queues node_queues (fun l => findById l shardId) run b)) ->
  dispatches run no_check call -> calls_queues -> reads_back -> numbered -> typed_queues_call -> world_typed w ->
  agrees reqMsg req respMsg inj (no_meta (send req valid reqMsg n transport respMsg payload))
    (now ← time_Now; at_queues (fun l => findById l shardId) (m now)) valid w.
Proof.
  intros Hx Hd Hc Hb Hnum Ht [Hq _ Hn]. apply fitting_agrees; [by eapply queues_unsharded_fitting|by intros msg ->|].
  intros Hv Hg x w'. by apply queues_answer_typed.
Qed.
End of_queues.

Section of_tasks.
Context (call : MoabTasksCoreApi Txn -> A -> Z -> M Txn (Outcome X)) (m : Z -> M Txn (Response X)).
Definition calls_tasks : Prop :=
  valid = None -> forall lo hi now, call (node_tasks lo hi) req now = tasks_outcome (m now).

Lemma tasks_sharded_fitting tr run :
  (forall k b, executes (tr k b) (to_tasks node_tasks (fun l => owning_shard l k) run b)) ->
  dispatches run (check_key ShardKey) call -> calls_tasks -> keyed_in_range -> reads_back -> numbered ->
  is_i64 (read_clock w) -> shards_ok w ->
  let sent := send req valid reqMsg n (fun b => shardKey ← deref (ShardKey req); tr shardKey b) respMsg payload in
  fitting reqMsg req respMsg inj (no_meta sent) (on_tasks (ShardKey req) m) valid w /\
  fitting reqMsg req respMsg (fun p => inj p.1) sent (on_tasks_meta (ShardKey req) m) valid w.
Proof.
  intros Hx Hd Hc Hk Hb Hnum Hclk [_ [st Ht]] sent.
  assert (E : sharded_single moabTasksCores set_tasks req m tasks_out ShardKey w = on_tasks (ShardKey req) m w).
  { unfold sharded_single, on_tasks, mbind, M_bind. cbn. destruct (deref _ _) as [[k w']|]; [apply at_tasks_cores|done]. }
  split; intros Hf Ha.
  - eapply refines_ext; [exact E|]. rewrite <-E in Ha.
    apply (sharded_call moabTasksCores set_tasks req valid reqMsg n respMsg payload inj Hb m tasks_out
      (fun lo hi => call (node_tasks lo hi)) (fun ad => run (node_tasks (lowerBound ad) (upperBound ad)) ad)
      w eq_refl Hc Hf (fun _ => conj Hnum Hclk) ShardKey Hk tr st Ht); [exact Hx| |exact Ha]. intros ad. apply Hd.
  - eapply refines_ext; cycle 1.
    + apply (sharded_call_meta moabTasksCores set_tasks req valid reqMsg n respMsg payload inj Hb m tasks_out
        (fun lo hi => call (node_tasks lo hi)) (fun ad => run (node_tasks (lowerBound ad) (upperBound ad)) ad)
        w eq_refl Hc Hf (fun _ => conj Hnum Hclk) ShardKey Hk tr st Ht); [exact Hx|intros ad; apply Hd|].
      rewrite E. intros x w' Ex. apply (Ha (x, read_clock w) w'). by apply on_tasks_meta_answer.
    + unfold on_tasks_meta, mbind, M_bind. cbn. destruct (deref _ _) as [[k w']|]; [|done].
      by rewrite at_tasks_cores.
Qed.

Lemma tasks_unsharded_fitting transport run shardId :
  (forall b, executes (transport b) (to_tasks node_tasks (fun l => findById l shardId) run b)) ->
  dispatches run no_check call -> calls_tasks -> reads_back -> numbered -> is_i64 (read_clock w) ->
  fitting reqMsg req respMsg inj (no_meta (send req valid reqMsg n transport respMsg payload))
    (now ← time_Now; at_tasks (fun l => findById l shardId) (m now)) valid w.
Proof.
  intros Hx Hd Hc Hb Hnum Hclk Hf Ha.
  assert (E : single moabTasksCores set_tasks (fun l => findById l shardId) m tasks_out w =
    (now ← time_Now; at_tasks (fun l => findById l shardId) (m now)) w) by apply at_tasks_cores.
  eapply refines_ext; [exact E|].
  apply (unsharded_call moabTasksCores set_tasks req valid reqMsg n respMsg payload inj Hb m tasks_out
    (fun lo hi => call (node_tasks lo hi)) (fun ad => run (node_tasks (lowerBound ad) (upperBound ad)) ad)
    w eq_refl Hc Hf (fun _ => conj Hnum Hclk) transport (fun l => findById l shardId)); [exact Hx| |].
  - intros ad. apply Hd.
  - intros x w' Ex. apply (Ha x w'). etrans; [symmetry; exact E|exact Ex].
Qed.
(** Every node's handler is typed. *)
Definition typed_tasks_call : Prop :=
  forall lo hi, typed_method tasks_typed reqMsg respMsg inj (call (node_tasks lo hi)).

Lemma tasks_answer_typed i x (w0 w1 : W) :
  valid = None -> calls_tasks -> typed_tasks_call -> go_value (codec reqMsg) req -> is_i64 (read_clock w) ->
  Forall (fun ad => tasks_typed (core ad)) (moabTasksCores w0) ->
  at_tasks i (m (read_clock w)) w0 = Ok (inr x, w1) -> go_value (codec respMsg) (inj x).
Proof.
  intros Hv Hc Ht Hg Hn Hw E. specialize (Ht 0 0 req (read_clock w) Hg Hn). rewrite (Hc Hv) in Ht.
  apply (gives_map_inv tasks_typed (m (read_clock w)) tasks_out) in Ht. unfold at_tasks in E.
  destruct (run_core _ _ _ _) as [[[e|y] l]|] eqn:Er; try done. injection E as -> _.
  destruct (run_core_typed _ _ _ _ _ _ _ _ Hw Ht Er) as ([e|a] & Ha & Ea); [done|]. by injection Ea as <-.
Qed.

Lemma tasks_sharded tr run :
  (forall k b, executes (tr k b) (to_tasks node_tasks (fun l => owning_shard l k) run b)) ->
  dispatches run (check_key ShardKey) call -> calls_tasks -> keyed_in_range -> reads_back -> numbered -> typed_tasks_call ->
  shards_ok w -> world_typed w ->
  let sent := send req valid reqMsg n (fun b => shardKey ← deref (ShardKey req); tr shardKey b) respMsg payload in
  agrees reqMsg req respMsg inj (no_meta sent) (on_tasks (ShardKey req) m) valid w /\
  agrees reqMsg req respMsg (fun p => inj p.1) sent (on_tasks_meta (ShardKey req) m) valid w.
Proof.
  intros Hx Hd Hc Hk Hb Hnum Ht Hs [_ Hq Hn] sent.
  destruct (tasks_sharded_fitting tr run Hx Hd Hc Hk Hb Hnum Hn Hs) as [H1 H2].
  split; (apply fitting_agrees; [done|by subst sent; intros msg ->|]); intros Hv Hg x w'.
  - unfold on_tasks, mbind, M_bind, time_Now. fold (read_clock w) (ticked w).
    unfold deref. destruct (ShardKey req) as [k|]; [|done]. by apply tasks_answer_typed.
  - unfold on_tasks_meta, mbind, M_bind, time_Now. fold (read_clock w) (ticked w).
    unfold deref. destruct (ShardKey req) as [k|]; [|done]. cbn [mret M_ret].
    destruct (at_tasks _ _ (ticked w)) as [[[e|a] w2]|] eqn:E; try done. intros [= <- _].
    exact (tasks_answer_typed _ _ (ticked w) _ Hv Hc Ht Hg Hn Hq E).
Qed.
Lemma tasks_unsharded transport run shardId :
  (forall b, executes (transport b) (to_tasks node_tasks (fun l => findById l shardId) run b)) ->
  dispatches run no_check call -> calls_tasks -> reads_back -> numbered -> typed_tasks_call -> world_typed w ->
  agrees reqMsg req respMsg inj (no_meta (send req valid reqMsg n transport respMsg payload))
    (now ← time_Now; at_tasks (fun l => findById l shardId) (m now)) valid w.
Proof.
  intros Hx Hd Hc Hb Hnum Ht [_ Hq Hn]. apply fitting_agrees; [by eapply tasks_unsharded_fitting|by intros msg ->|].
  intros Hv Hg x w'. by apply tasks_answer_typed.
Qed.
End of_tasks.
End method.

(** The side conditions of one method: its place in the switch, its handler, its key. *)
#[local] Ltac side :=
  match goal with
  | |- dispatches _ _ _ _ _ _ _ => intros api ad; eexists; split; intros; reflexivity
  | |- calls_queues _ _ _ _ => intros Hv lo hi now; unfold node_queues; destruct validate; [exact (validating_valid _ _ Hv)|reflexivity]
  | |- calls_tasks _ _ _ _ => intros Hv lo hi now; unfold node_tasks; destruct validate; [exact (validating_valid _ _ Hv)|reflexivity]
  | |- keyed_in_range _ _ =>
      intros k; first [apply account_range|apply by_account_of_range|apply by_queue_range|apply by_task_range]
  | |- numbered _ => by split
  | |- reads_back _ _ => first [by intros|by intros []]
  | |- shards_ok _ => done
  | |- world_typed _ => done
  | |- typed_queues_call _ _ _ _ => intros lo hi; destruct (node_queues_typed lo hi); assumption
  | |- typed_tasks_call _ _ _ _ => intros lo hi; destruct (node_tasks_typed lo hi); assumption
  end.

(** C25: for every method of the client interface that calls a core (all but [ListShards]), with
    validating or plain cores on the nodes, when the stores hold Go values and the encodings
    fit a slice: an invalid request is answered by the cluster client with its validation error
    and reaches no core; on a valid one the client ends exactly as the single-node stub does on the same shards (same answer
    or error, same cores afterwards, same clock), or with an error of the Monstera client
    after the call took effect at most once.  In particular client and adapter agree on
    method numbers, encodings and keys: no call fails in decoding, in the switch or in the
    shard-bounds check. *)
Theorem cluster_agrees_with_single_node w : shards_ok w -> world_typed w -> agrees_with_single_node w.
Proof.
  intros Hw Ht. split; intros.
  - eapply (queues_sharded _ _ _ _ _ _ _ _ _ core_GetQueue _ _ _ (Read_queues _ _)); side.
  - eapply (queues_sharded _ _ _ _ _ _ _ _ _ core_GetQueueByName _ _ _ (Read_queues _ _)); side.
  - eapply (queues_sharded _ _ _ _ _ _ _ _ _ core_ListQueues _ _ _ (Read_queues _ _)); side.
  - eapply (queues_sharded _ _ _ _ _ _ _ _ _ core_GetSchedule _ _ _ (Read_queues _ _)); side.
  - eapply (queues_unsharded _ _ _ _ _ _ _ _ core_DequeSchedules); [apply (ReadShard_queues node_queues node_tasks)|side..].
  - eapply (queues_sharded _ _ _ _ _ _ _ _ _ core_ListSchedules _ _ _ (Read_queues _ _)); side.
  - eapply (queues_sharded _ _ _ _ _ _ _ _ _ core_CreateQueue _ _ _ (Update_queues _ _)); side.
  - eapply (queues_sharded _ _ _ _ _ _ _ _ _ core_UpdateQueue _ _ _ (Update_queues _ _)); side.
  - eapply (queues_sharded _ _ _ _ _ _ _ _ _ core_DeleteQueue _ _ _ (Update_queues _ _)); side.
  - eapply (queues_sharded _ _ _ _ _ _ _ _ _ core_CreateSchedule _ _ _ (Update_queues _ _)); side.
  - eapply (queues_sharded _ _ _ _ _ _ _ _ _ core_UpdateSchedule _ _ _ (Update_queues _ _)); side.
  - eapply (queues_sharded _ _ _ _ _ _ _ _ _ core_DeleteSchedule _ _ _ (Update_queues _ _)); side.
  - eapply (queues_unsharded _ _ _ _ _ _ _ _ core_ReportSchedulesStatus); [apply (UpdateShard_queues node_queues node_tasks)|side..].
  - eapply (queues_unsharded _ _ _ _ _ _ _ _ core_RunQueuesGarbageCollection); [apply (UpdateShard_queues node_queues node_tasks)|side..].
  - eapply (queues_sharded _ _ _ _ _ _ _ _ _ core_SwapQueueId _ _ _ (Update_queues _ _)); side.
  - eapply (tasks_sharded _ _ _ _ _ _ _ _ _ core_GetTask _ _ _ (Read_tasks _ _)); side.
  - eapply (tasks_sharded _ _ _ _ _ _ id _ _ core_GetStatistics _ _ _ (Read_tasks _ _)); side.
  - eapply (tasks_sharded _ _ _ _ _ _ id _ _ core_ListTasks _ _ _ (Read_tasks _ _)); side.
  - eapply (tasks_sharded _ _ _ _ _ _ id _ _ core_Enqueue _ _ _ (Update_tasks _ _)); side.
  - eapply (tasks_sharded _ _ _ _ _ _ id _ _ core_Dequeue _ _ _ (Update_tasks _ _)); side.
  - eapply (tasks_sharded _ _ _ _ _ _ _ _ _ core_ReportStatus _ _ _ (Update_tasks _ _)); side.
  - eapply (tasks_sharded _ _ _ _ _ _ _ _ _ core_DeleteTasks _ _ _ (Update_tasks _ _)); side.
  - eapply (tasks_sharded _ _ _ _ _ _ id _ _ core_RestartTasks _ _ _ (Update_tasks _ _)); side.
  - eapply (tasks_sharded _ _ _ _ _ _ _ _ _ core_PurgeQueue _ _ _ (Update_tasks _ _)); side.
  - eapply (tasks_unsharded _ _ _ _ _ _ _ _ core_RunTasksGarbageCollection); [apply (UpdateShard_tasks node_queues node_tasks)|side..].
  - eapply (tasks_unsharded _ _ _ _ _ _ _ _ core_RunPurgeQueueGarbageCollection); [apply (UpdateShard_tasks node_queues node_tasks)|side..].
Qed.
End cluster_theorems.
