(* ===== verification/ClusterWitnesses.v ===== *)
(** * The cluster client on a concrete world

    An encoding of the two envelopes with the laws of [MrpcOk] and a client that always
    delivers, and on them four shards per application with validating cores. *)

From S2P Require Export MessagesProps ClusterProps GatewayExamples.

(** ** Values as sequences of numbers *)

Class Flat (A : Type) : Type := {
  flat : A -> list Z;
  unflat : list Z -> option (A * list Z);
  flat_zero : A;
}.
Class FlatOk (A : Type) {F : Flat A} : Prop :=
  unflat_flat (a : A) (rest : list Z) : unflat (flat a ++ rest) = Some (a, rest).

#[export] Instance flat_Z : Flat Z := {|
  flat z := [z]; unflat l := match l with z :: l => Some (z, l) | [] => None end; flat_zero := 0 |}.
#[export] Instance flat_Z_ok : FlatOk Z.
Proof. done. Qed.

#[export] Instance flat_unit : Flat unit := {| flat _ := []; unflat l := Some (tt, l); flat_zero := tt |}.
#[export] Instance flat_unit_ok : FlatOk unit.
Proof. by intros [] l. Qed.

Section combinators.
Context {A B : Type} {FA : Flat A} {FB : Flat B}.

#[export] Instance flat_prod : Flat (A * B) := {|
  flat p := flat p.1 ++ flat p.2;
  unflat l := unflat l ≫= fun p => unflat p.2 ≫= fun q => Some (p.1, q.1, q.2);
  flat_zero := (flat_zero, flat_zero) |}.
#[export] Instance flat_sum : Flat (A + B) := {|
  flat s := match s with inl a => 0 :: flat a | inr b => 1 :: flat b end;
  unflat l := match l with
    | 0 :: l => unflat l ≫= fun p => Some (inl p.1, p.2)
    | 1 :: l => unflat l ≫= fun p => Some (inr p.1, p.2)
    | _ => None end;
  flat_zero := inl flat_zero |}.
Definition flat_via (to : B -> A) (from : A -> B) : Flat B := {|
  flat b := flat (to b);
  unflat l := unflat l ≫= fun p => Some (from p.1, p.2);
  flat_zero := from flat_zero |}.

Fixpoint unflat_list (n : nat) (l : list Z) : option (list A * list Z) :=
  match n with
  | O => Some ([], l)
  | S n => unflat l ≫= fun p => unflat_list n p.2 ≫= fun q => Some (p.1 :: q.1, q.2)
  end.
#[export] Instance flat_list : Flat (list A) := {|
  flat l := Z.of_nat (length l) :: concat (flat <$> l);
  unflat l := match l with n :: l => unflat_list (Z.to_nat n) l | [] => None end;
  flat_zero := [] |}.

Context {OA : FlatOk A} {OB : FlatOk B}.
#[export] Instance flat_prod_ok : FlatOk (A * B).
Proof. intros [a b] l. cbn. by rewrite <-app_assoc, unflat_flat; cbn; rewrite unflat_flat. Qed.
#[export] Instance flat_sum_ok : FlatOk (A + B).
Proof. intros [a|b] l; cbn; by rewrite unflat_flat. Qed.
Lemma flat_via_ok (to : B -> A) from : (forall b, from (to b) = b) -> @FlatOk B (flat_via to from).
Proof. intros E b l. cbn. by rewrite unflat_flat; cbn; rewrite E. Qed.
Lemma unflat_list_flat (l : list A) rest :
  unflat_list (length l) (concat (flat <$> l) ++ rest) = Some (l, rest).
Proof using FA OA.
  induction l as [|a l IH]; [done|]. cbn. rewrite <-app_assoc, unflat_flat. cbn. by rewrite IH.
Qed.
#[export] Instance flat_list_ok : FlatOk (list A).
Proof using FA OA. intros l rest. cbn. by rewrite Nat2Z.id, unflat_list_flat. Qed.
End combinators.

(** An instance through an isomorphism, which [destruct] proves. *)
#[local] Ltac via := apply flat_via_ok; by intros [].

#[export] Instance flat_bool : Flat bool :=
  flat_via (fun b : bool => if b then inl tt else inr tt)
    (fun s : unit + unit => match s with inl _ => true | inr _ => false end).
#[export] Instance flat_bool_ok : FlatOk bool.
Proof. via. Qed.
#[export] Instance flat_option {A} {F : Flat A} : Flat (option A) :=
  flat_via (fun o => match o with None => inl tt | Some a => inr a end)
    (fun s : unit + A => match s with inl _ => None | inr a => Some a end).
#[export] Instance flat_option_ok {A} {F : Flat A} {O : FlatOk A} : FlatOk (option A).
Proof. via. Qed.
#[export] Instance flat_string : Flat string :=
  flat_via (fun s => (fun c => Z.of_nat (Ascii.nat_of_ascii c)) <$> String.list_ascii_of_string s)
    (fun l : list Z => String.string_of_list_ascii ((fun z => Ascii.ascii_of_nat (Z.to_nat z)) <$> l)).
#[export] Instance flat_string_ok : FlatOk string.
Proof.
  apply flat_via_ok. intros s. rewrite <-list_fmap_compose. rewrite (list_fmap_ext _ id).
  - by rewrite list_fmap_id, String.string_of_list_ascii_of_string.
  - intros i c _. cbn. by rewrite Nat2Z.id, Ascii.ascii_nat_embedding.
Qed.

(** ** The parts of the envelopes *)

#[export] Instance flat_QueueId : Flat QueueId.t :=
  flat_via (fun '(QueueId.mk x1 x2) => (x1, x2)) (fun '(x1, x2) => QueueId.mk x1 x2).
#[export] Instance flat_QueueId_ok : FlatOk QueueId.t.
Proof. via. Qed.
#[export] Instance flat_TaskId : Flat TaskId.t :=
  flat_via (fun '(TaskId.mk x1 x2 x3) => (x1, x2, x3)) (fun '(x1, x2, x3) => TaskId.mk x1 x2 x3).
#[export] Instance flat_TaskId_ok : FlatOk TaskId.t.
Proof. via. Qed.
#[export] Instance flat_ScheduleId : Flat ScheduleId.t :=
  flat_via (fun '(ScheduleId.mk x1 x2 x3) => (x1, x2, x3)) (fun '(x1, x2, x3) => ScheduleId.mk x1 x2 x3).
#[export] Instance flat_ScheduleId_ok : FlatOk ScheduleId.t.
Proof. via. Qed.
#[export] Instance flat_AppError : Flat AppError :=
  flat_via (fun v => match v with
    | taskNotFoundError y0 => (inl y0)
    | queueIdPurgedError y0 y1 => (inr (y0, y1)) end)
    (fun s : TaskId.t + (Z * Z) => match s with
    | inl y0 => taskNotFoundError y0
    | inr ((y0, y1)) => queueIdPurgedError y0 y1 end).
#[export] Instance flat_AppError_ok : FlatOk AppError.
Proof. via. Qed.
#[export] Instance flat_QAppError : Flat QAppError :=
  flat_via (fun v => match v with
    | queueNotFoundError y0 => (inl y0)
    | queueIdNotFoundError y0 => (inr (inl y0))
    | scheduleNotFoundError y0 y1 => (inr (inr (inl (y0, y1))))
    | scheduleIdNotFoundError y0 => (inr (inr (inr (inl y0))))
    | queueNameExistsError y0 => (inr (inr (inr (inr (inl y0)))))
    | scheduleNameExistsError y0 y1 => (inr (inr (inr (inr (inr (inl (y0, y1)))))))
    | maxQueuesReachedError y0 => (inr (inr (inr (inr (inr (inr (inl y0)))))))
    | maxSchedulesReachedError y0 => (inr (inr (inr (inr (inr (inr (inr (inl y0))))))))
    | queueIdCollisionError y0 => (inr (inr (inr (inr (inr (inr (inr (inr (inl y0)))))))))
    | scheduleIdCollisionError y0 => (inr (inr (inr (inr (inr (inr (inr (inr (inr (inl y0))))))))))
    | versionMismatchError y0 y1 y2 => (inr (inr (inr (inr (inr (inr (inr (inr (inr (inr (inl (y0, y1, y2))))))))))))
    | scheduleVersionMismatchError y0 y1 y2 y3 => (inr (inr (inr (inr (inr (inr (inr (inr (inr (inr (inr (y0, y1, y2, y3)))))))))))) end)
    (fun s : bytes + (QueueId.t + ((bytes * bytes) + (Z + (bytes + ((bytes * bytes) + (Z + (Z + (QueueId.t + (ScheduleId.t + ((bytes * Z * Z) + (bytes * bytes * Z * Z))))))))))) => match s with
    | inl y0 => queueNotFoundError y0
    | inr (inl y0) => queueIdNotFoundError y0
    | inr (inr (inl (y0, y1))) => scheduleNotFoundError y0 y1
    | inr (inr (inr (inl y0))) => scheduleIdNotFoundError y0
    | inr (inr (inr (inr (inl y0)))) => queueNameExistsError y0
    | inr (inr (inr (inr (inr (inl (y0, y1)))))) => scheduleNameExistsError y0 y1
    | inr (inr (inr (inr (inr (inr (inl y0)))))) => maxQueuesReachedError y0
    | inr (inr (inr (inr (inr (inr (inr (inl y0))))))) => maxSchedulesReachedError y0
    | inr (inr (inr (inr (inr (inr (inr (inr (inl y0)))))))) => queueIdCollisionError y0
    | inr (inr (inr (inr (inr (inr (inr (inr (inr (inl y0))))))))) => scheduleIdCollisionError y0
    | inr (inr (inr (inr (inr (inr (inr (inr (inr (inr (inl (y0, y1, y2))))))))))) => versionMismatchError y0 y1 y2
    | inr (inr (inr (inr (inr (inr (inr (inr (inr (inr (inr (y0, y1, y2, y3))))))))))) => scheduleVersionMismatchError y0 y1 y2 y3 end).
#[export] Instance flat_QAppError_ok : FlatOk QAppError.
Proof. via. Qed.
#[export] Instance flat_mrpcError : Flat mrpcError :=
  flat_via (fun e => match e with QueuesError e => inl e | TasksError e => inr (inl e) | ValidationError m => inr (inr m) end)
    (fun s : QAppError + (AppError + string) =>
       match s with inl e => QueuesError e | inr (inl e) => TasksError e | inr (inr m) => ValidationError m end).
#[export] Instance flat_mrpcError_ok : FlatOk mrpcError.
Proof. via. Qed.
#[export] Instance flat_Request : Flat Request :=
  flat_via (fun '(mkRequest d i n t) => (d, i, n, t)) (fun '(d, i, n, t) => mkRequest d i n t).
#[export] Instance flat_Request_ok : FlatOk Request.
Proof. via. Qed.
#[export] Instance flat_RpcResponse : Flat RpcResponse :=
  flat_via (fun '(mkRpcResponse d e) => (d, e)) (fun '(d, e) => mkRpcResponse d e).
#[export] Instance flat_RpcResponse_ok : FlatOk RpcResponse.
Proof. via. Qed.

(** ** The instances *)

Definition flat_encode {A} (F : Flat A) (a : A) : option bytes := Some (1 :: flat a).
Definition flat_decode {A} (F : Flat A) (b : bytes) : option A :=
  match b with [] => Some flat_zero | _ :: b => fst <$> unflat b end.

Lemma flat_roundtrip {A} (F : Flat A) (O : FlatOk A) a :
  exists b, flat_encode F a = Some b /\ flat_decode F b = Some a.
Proof. eexists. split; [done|]. cbn. rewrite <-(app_nil_r (flat a)), unflat_flat. done. Qed.

Definition mrpc_ref : Mrpc := {|
  Request_Marshal := flat_encode _; Request_Unmarshal := flat_decode _;
  Response_Marshal := flat_encode _; Response_Unmarshal := flat_decode _;
|}.
#[export] Instance mrpc_ref_ok : MrpcOk mrpc_ref.
Proof. split; intros; by apply (flat_roundtrip _ _). Qed.

Section client.
Context {U : Utils} {H : Honey} {C : CronLib} {K : Keyspace} {PH : Protohelpers} {R : Mrpc} {L : Type}.
Context (qapi : Z -> Z -> MoabQueuesCoreApi QTxn) (tapi : Z -> Z -> MoabTasksCoreApi Txn).

Definition monstera_ref : MonsteraClient (World (L := L)) := {|
  client_Read app key _ data :=
    if decide (app = MoabQueues) then to_queues qapi (fun l => owning_shard l key) queuesAdapter_Read data
    else to_tasks tapi (fun l => owning_shard l key) tasksAdapter_Read data;
  client_ReadShard app shardId _ data :=
    if decide (app = MoabQueues) then to_queues qapi (fun l => findById l shardId) queuesAdapter_Read data
    else to_tasks tapi (fun l => findById l shardId) tasksAdapter_Read data;
  client_Update app key data :=
    if decide (app = MoabQueues) then to_queues qapi (fun l => owning_shard l key) queuesAdapter_Update data
    else to_tasks tapi (fun l => owning_shard l key) tasksAdapter_Update data;
  client_UpdateShard app shardId data :=
    if decide (app = MoabQueues) then to_queues qapi (fun l => findById l shardId) queuesAdapter_Update data
    else to_tasks tapi (fun l => findById l shardId) tasksAdapter_Update data;
  client_ListShards app := Stub_ListShards app;
|}.
Lemma monstera_ref_ok : MonsteraClientOk qapi tapi monstera_ref.
Proof. split; intros; intros w; left; reflexivity. Qed.
End client.

(** ** The concrete world *)

Module CRun.
#[export] Existing Instance protohelpers_ref.
#[export] Existing Instance mrpc_ref.
#[export] Existing Instance snapshots_ref.

Definition client : MonsteraClient GWorld := monstera_ref (node_queues true) (node_tasks true).
#[export] Existing Instance client.
#[export] Instance client_ok : MonsteraClientOk (node_queues true) (node_tasks true) client.
Proof. apply monstera_ref_ok. Qed.

Definition queue_req : Wire.CreateQueueRequest.t :=
  Wire.CreateQueueRequest.mk (Some (QueueId.mk 7 3)) (str "jobs") [] 30 None None None 3600 10.
(** The id is missing. *)
Definition bad_req : Wire.QueueIdRequest.t := Wire.QueueIdRequest.mk None.

Lemma shards_ok_w0 : shards_ok GRun.w0.
Proof. split; exists (2 ^ 32 / 4); by apply partition_new. Qed.

(** The name of the queue a call answers with. *)
Definition answered (r : Res (CallResult Queue.t * GWorld)) : option bytes :=
  match r with Ok (inr q, _) => Some (Queue.Name q) | _ => None end.

(** The cluster client creates the queue and reads it back through the encodings. *)
Example create_and_get :
  answered (Monstera_CreateQueue queue_req GRun.w0) = Some (str "jobs") /\
  answered (Monstera_GetQueueByName (QueueNameRequest.mk 7 (str "jobs"))
    (GRun.after (Monstera_CreateQueue queue_req) GRun.w0)) = Some (str "jobs").
Proof. split; vm_compute; reflexivity. Qed.

Lemma queue_req_typed : go_value (codec CreateQueueRequest) queue_req.
Proof. repeat split; vm_compute; intros [=]. Qed.
Lemma queue_req_small : small CreateQueueRequest queue_req.
Proof. vm_compute. reflexivity. Qed.
Lemma typed_w0 : world_typed GRun.w0.
Proof.
  split; [repeat (apply Forall_cons; split); [..|by apply Forall_nil]; apply QNewCore_typed
         |repeat (apply Forall_cons; split); [..|by apply Forall_nil]; apply NewCore_typed
         |split; vm_compute; congruence].
Qed.
Definition created (r : Res (CallResult Queue.t * GWorld)) : option Queue.t :=
  match r with Ok (inr q, _) => Some q | _ => None end.
Definition created_queue : option Queue.t := Eval vm_compute in created (Stub_CreateQueue queue_req GRun.w0).
Lemma created_queue_eq : created (Stub_CreateQueue queue_req GRun.w0) = created_queue.
Proof. vm_compute. reflexivity. Qed.
Lemma queue_answer_small x w :
  Stub_CreateQueue queue_req GRun.w0 = Ok (inr x, w) -> small CreateQueueResponse (Some x).
Proof.
  intros E. pose proof created_queue_eq as Ec. rewrite E in Ec. injection Ec as ->.
  vm_compute. reflexivity.
Qed.
End CRun.
Import CRun.

Lemma cluster_agrees_with_single_node_witness :
  refines (Monstera_CreateQueue CRun.queue_req) (Stub_CreateQueue CRun.queue_req)
    (CreateQueueRequest_Validate CRun.queue_req) GRun.w0 /\
  Monstera_GetQueue CRun.bad_req GRun.w0 =
    Ok (inl (AppErr (ValidationError "QueueId must be set")), ticked GRun.w0).
Proof.
  pose proof (cluster_agrees_with_single_node true GRun.w0 CRun.shards_ok_w0 CRun.typed_w0) as Hw. split.
  - apply (agrees_CreateQueue _ Hw); [apply queue_req_typed|apply queue_req_small|apply queue_answer_small].
  - apply (agrees_GetQueue _ Hw CRun.bad_req); [by repeat split|by vm_compute|done].
Defined.

(** ** Type safety on bytes *)

Module TRun.
(** An envelope with one byte for the method and one for the time. *)
Definition mrpc_bytes : Mrpc := {|
  Request_Marshal r := Some (MethodNumber r :: Now r :: Data r);
  Request_Unmarshal b := match b with n :: t :: d => Some (mkRequest d [] n t) | _ => None end;
  Response_Marshal r := Some (resp_Data r);
  Response_Unmarshal b := Some (mkRpcResponse b None);
|}.
#[export] Instance mrpc_bytes_typed : MrpcTyped mrpc_bytes.
Proof.
  intros [|n [|t d]] r Hb; cbn; try done. intros [= <-]. rewrite !Forall_cons in Hb. destruct Hb as (_ & Ht & Hd).
  split; [done|]. cbn. unfold is_byte in Ht. unfold is_i64. rewrite two63_val. lia.
Qed.

(** [Enqueue] of one task in queue 3 of account 7, at time 5. *)
Definition enqueue_bytes : bytes :=
  1 :: 5 :: MarshalBinary EnqueueRequest_binary
    (Wire.EnqueueRequest.mk (Some (QueueId.mk 7 3)) [EnqueueRequestEntry.mk (str "x") 9 99 [] None [] []]).
Lemma enqueue_bytes_ok : all_bytes enqueue_bytes.
Proof.
  assert (E : forallb (fun b => (0 <=? b) && (b <? 256)) enqueue_bytes = true) by (vm_compute; reflexivity).
  apply Forall_forall. intros b Hb%list_elem_of_In. rewrite forallb_forall in E. specialize (E b Hb). unfold is_byte. lia.
Qed.
Definition api : MoabTasksCoreApi Txn := MoabTasksCore 0 (2 ^ 32 - 1).
Definition served : Txn := (tasksAdapter_Update (R := mrpc_bytes) api (mkAdapter NewCore [] 0 (2 ^ 32 - 1)) enqueue_bytes).2.
(** The call stored its task. *)
Example served_stores_task :
  Task.ExpiresAt <$> bt_Get (table (tasks served)) (task_key (TaskId.mk 7 3 1)) = Some 99.
Proof. vm_compute. reflexivity. Qed.
End TRun.
Import TRun.

Lemma cores_are_type_safe_witness : tasks_typed TRun.served.
Proof.
  destruct (cores_are_type_safe (R := TRun.mrpc_bytes) false 0 (2 ^ 32 - 1)) as [Ht _]. apply Ht.
  exact (tasks_served_update (R := TRun.mrpc_bytes) TRun.api (mkAdapter NewCore [] 0 (2 ^ 32 - 1)) _
    (tasks_served_new (R := TRun.mrpc_bytes) TRun.api) TRun.enqueue_bytes_ok).
Defined.
